(** * Scene synchronizer: registry, sync groups, snapshots and reconciliation

    A shallow embedding of the parts of [scene_synchronizer.cpp] that the
    specification's testable statements talk about, with the statements
    proved (or refuted) on the embedding.

    Conventions.
    - [uint32_t] values (input ids, net ids, epochs, group ids) are [Z]; the
      embedded functions only compare them, so no wrap-around is involved.
    - A [std::deque] or vector is a [list]: [front()] is the head, [back()]
      the last element, [pop_front()] the tail, [push_back] appends.
    - A [std::map] is a [gmap].
    - Pointers to [ObjectData] are the identity of the object they point to.
    - Host callbacks and code that lives outside the embedded files are
      [Section] variables, or are modelled with a comment that says so.
      Structs declared outside the embedded files ([PeerData], [SyncGroup],
      [ChangesListener], ...) are records with the fields the embedded code
      reads and writes. *)

From stdpp Require Import gmap strings list fin_maps sorting.
From Stdlib Require Import ZArith QArith Lia Sorted.

Local Open Scope Z_scope.

(** ** Shared vocabulary *)

Definition UINT32_MAX : Z := 4294967295.

(** Modelled from the spec: the [NetEventFlag] enumeration, declared outside
    the embedded files.  The event classes form a bit set and a listener
    matches by bitwise AND with its mask. *)
Module NetEventFlag.
Definition CHANGE : Z := 1.
Definition SYNC_RECOVER : Z := 2.
Definition SYNC_RESET : Z := 4.
Definition SYNC_REWIND : Z := 8.
Definition END_SYNC : Z := 16.
Definition SYNC : Z := Z.lor SYNC_RECOVER (Z.lor SYNC_RESET SYNC_REWIND).
End NetEventFlag.

(** The dynamic [Variant]: a tagged union, compared by tag and payload. *)
Inductive variant : Type :=
| VNil
| VBool (b : bool)
| VInt (i : Z)
| VString (s : string).

#[global] Instance variant_eq_dec : EqDecision variant.
Proof. solve_decision. Defined.

Record NameAndVar := mkNameAndVar {
  nv_name : string;
  nv_value : variant }.

(** [NS::Snapshot]: the input id ([UINT32_MAX] when there is none), the
    per-net-id variable lists and the optional custom data. *)
Record Snapshot := mkSnapshot {
  input_id : Z;
  object_vars : list (list NameAndVar);
  has_custom_data : bool;
  custom_data : variant }.

Definition snapshot_of_id (id : Z) : Snapshot := mkSnapshot id [] false VNil.

Definition ids (q : list Snapshot) : list Z := input_id <$> q.

(** ** The client synchronizer: snapshot queues and reconciliation *)
Module Client.

(** What [store_controllers_snapshot] did with the snapshot. *)
Inductive StoreOutcome :=
| Skipped        (* no input id while a player controller exists *)
| Replaced       (* no input id, no player controller: queue reset to it *)
| Updated        (* same id as the last stored one: copied over it *)
| Rejected       (* older than the last stored one: ERR_FAIL *)
| Ignored        (* newer than the last stored one: no statement runs *)
| Pushed.        (* queue was empty: push_back *)

(** [r_snapshot_storage.back().copy(p_snapshot)] *)
Fixpoint set_back (p : Snapshot) (q : list Snapshot) : list Snapshot :=
  match q with
  | [] => []
  | [_] => [p]
  | s :: r => s :: set_back p r
  end.

(** [ClientSynchronizer::store_controllers_snapshot].  The first argument is
    [player_controller_node_data != nullptr]. *)
Definition store_controllers_snapshot (has_player_controller : bool)
    (p_snapshot : Snapshot) (r_snapshot_storage : list Snapshot)
    : list Snapshot * StoreOutcome :=
  if (input_id p_snapshot =? UINT32_MAX) && has_player_controller then
    (r_snapshot_storage, Skipped)
  else if input_id p_snapshot =? UINT32_MAX then
    ([p_snapshot], Replaced)
  else
    match last r_snapshot_storage with
    | Some back =>
        let last_stored_input_id := input_id back in
        if input_id p_snapshot =? last_stored_input_id then
          (set_back p_snapshot r_snapshot_storage, Updated)
        else if input_id p_snapshot <? last_stored_input_id then
          (r_snapshot_storage, Rejected)
        else
          (r_snapshot_storage, Ignored)
    | None => (r_snapshot_storage ++ [p_snapshot], Pushed)
    end.

(** The client side state the reconciliation loop works on. *)
Record ClientSynchronizer := mkClient {
  player_controller_node_data : option Z;
  client_snapshots : list Snapshot;
  server_snapshots : list Snapshot;
  last_checked_input : Z }.

Definition set_queues (server client : list Snapshot)
    (cs : ClientSynchronizer) : ClientSynchronizer :=
  mkClient (player_controller_node_data cs) client server
           (last_checked_input cs).

Definition set_last_checked_input (id : Z)
    (cs : ClientSynchronizer) : ClientSynchronizer :=
  mkClient (player_controller_node_data cs) (client_snapshots cs)
           (server_snapshots cs) id.

(** The inner loop of phase one: the first client snapshot with the given
    input id. *)
Fixpoint find_in_client (id : Z) (client : list Snapshot) : option Z :=
  match client with
  | [] => None
  | c_snap :: rest =>
      if input_id c_snap =? id then Some (input_id c_snap)
      else find_in_client id rest
  end.

(** The outer loop of phase one, over [server_snapshots.rbegin() ..
    rend()], running while [checkable_input_id == UINT32_MAX]. *)
Fixpoint find_checkable (rev_server client : list Snapshot)
    (checkable_input_id : Z) : Z :=
  match rev_server with
  | [] => checkable_input_id
  | s_snap :: rest =>
      if checkable_input_id =? UINT32_MAX then
        find_checkable rest client
          (default checkable_input_id
             (find_in_client (input_id s_snap) client))
      else checkable_input_id
  end.

(** [while (q.front().input_id < checkable_input_id) q.pop_front();]
    Reading [front()] of an empty deque is undefined; the loop is only run
    with an id that is stored in the queue, so it stops before that. *)
Fixpoint drop_old (checkable_input_id : Z) (q : list Snapshot)
    : list Snapshot :=
  match q with
  | [] => []
  | s :: rest =>
      if input_id s <? checkable_input_id then drop_old checkable_input_id rest
      else q
  end.

Section Reconciliation.

(** The scene (objects, variables, listeners, host application) as far as
    the reconciliation loop is concerned: an opaque state changed by the
    operations below. *)
Context {World : Type}.

(** [apply_snapshot (p_snapshot, p_flag, info, p_skip_custom_data)]. *)
Variable apply_snapshot : Snapshot -> Z -> bool -> World -> World.
(** [NS::Snapshot::compare (server, client, &no_rewind_recover)]: equality
    and the partial snapshot to apply without rewinding. *)
Variable snapshot_compare : World -> Snapshot -> Snapshot -> bool * Snapshot.
(** [update_client_snapshot]: capture the current scene in a snapshot. *)
Variable update_client_snapshot : World -> Snapshot -> Snapshot.
(** [event_state_validated.broadcast (input_id)]. *)
Variable state_validated : Z -> World -> World.
(** [get_frames_input_count ()] of the player controller. *)
Variable frames_input_count : World -> nat.
(** One replayed frame [i] of [remaining_inputs]: [change_events_begin],
    [event_rewind_frame_begin], [process_functions__execute] and
    [detect_and_signal_changed_variables]. *)
Variable rewind_frame : nat -> nat -> World -> World.

(** [process_paused_controller_recovery]: keep the newest server snapshot,
    apply it, pop it. *)
Definition process_paused_controller_recovery (w : World)
    (cs : ClientSynchronizer) : World * ClientSynchronizer :=
  match last (server_snapshots cs) with
  | Some newest =>
      (apply_snapshot newest NetEventFlag.SYNC_RECOVER false w,
       set_queues [] (client_snapshots cs) cs)
  | None => (w, cs)
  end.

(** The loop of [__pcr__rewind]. *)
Fixpoint rewind_loop (remaining_inputs i todo : nat) (w : World)
    (client : list Snapshot) : World * list Snapshot :=
  match todo with
  | O => (w, client)
  | S todo' =>
      let w1 := rewind_frame i remaining_inputs w in
      rewind_loop remaining_inputs (S i) todo' w1
        (alter (update_client_snapshot w1) i client)
  end.

Definition pcr_rewind (checkable_input_id : Z) (w : World)
    (client : list Snapshot) : World * list Snapshot :=
  let w1 := state_validated checkable_input_id w in
  let remaining_inputs := frames_input_count w1 in
  rewind_loop remaining_inputs 0 remaining_inputs w1 client.

(** [__pcr__sync__no_rewind]. *)
Definition pcr_sync_no_rewind (no_rewind_recover : Snapshot) (w : World)
    (client : list Snapshot) : World * list Snapshot :=
  let w1 := apply_snapshot no_rewind_recover NetEventFlag.SYNC_RECOVER true w in
  (w1, alter (update_client_snapshot w1) (pred (length client)) client).

(** Phases two and three of [process_received_server_state]: compare the
    two front snapshots, then recover. *)
Definition compare_and_recover (checkable_input_id : Z) (w : World)
    (cs : ClientSynchronizer) : World * ClientSynchronizer :=
  match server_snapshots cs, client_snapshots cs with
  | server_front :: server_rest, client_front :: client_rest =>
      let '(is_equal, no_rewind_recover) :=
        snapshot_compare w server_front client_front in
      let need_rewind := negb is_equal in
      let '(w', client') :=
        if need_rewind then
          pcr_rewind checkable_input_id
            (apply_snapshot server_front
               (Z.lor NetEventFlag.SYNC_RECOVER NetEventFlag.SYNC_RESET)
               false w)
            client_rest
        else
          let '(w1, client1) :=
            if input_id no_rewind_recover =? 0 then
              pcr_sync_no_rewind no_rewind_recover w client_rest
            else (w, client_rest) in
          (state_validated checkable_input_id w1, client1) in
      (w', set_last_checked_input checkable_input_id
             (set_queues server_rest client' cs))
  | _, _ => (w, cs)
  end.

(** [ClientSynchronizer::process_received_server_state]. *)
Definition process_received_server_state (w : World)
    (cs : ClientSynchronizer) : World * ClientSynchronizer :=
  match last (server_snapshots cs) with
  | None => (w, cs)
  | Some newest =>
      if input_id newest =? UINT32_MAX then
        (apply_snapshot newest NetEventFlag.SYNC_RECOVER false w,
         set_queues [] [] cs)
      else
        match player_controller_node_data cs with
        | None => (w, cs)
        | Some _ =>
            match client_snapshots cs with
            | [] => process_paused_controller_recovery w cs
            | _ :: _ =>
                let checkable_input_id :=
                  find_checkable (rev (server_snapshots cs))
                    (client_snapshots cs) UINT32_MAX in
                if checkable_input_id =? UINT32_MAX then (w, cs)
                else
                  compare_and_recover checkable_input_id w
                    (set_queues
                       (drop_old checkable_input_id (server_snapshots cs))
                       (drop_old checkable_input_id (client_snapshots cs))
                       cs)
            end
        end
  end.

(** *** Facts about the queue search *)

Definition largest_common (k : Z) (server client : list Snapshot) : Prop :=
  k ∈ ids server ∧ k ∈ ids client ∧
  ∀ j, j ∈ ids server → j ∈ ids client → j ≤ k.

Definition no_common (server client : list Snapshot) : Prop :=
  ∀ j, j ∈ ids server → j ∉ ids client.

Lemma find_in_client_Some id client :
  id ∈ ids client → find_in_client id client = Some id.
Proof.
  induction client as [|c rest IH]; cbn; intros Hin.
  - by apply elem_of_nil in Hin.
  - destruct (Z.eqb_spec (input_id c) id) as [->|Hne]; [done|].
    apply elem_of_cons in Hin as [Heq|Hin]; [congruence|auto].
Qed.

Lemma find_in_client_None id client :
  id ∉ ids client → find_in_client id client = None.
Proof.
  induction client as [|c rest IH]; cbn; intros Hin; [done|].
  destruct (Z.eqb_spec (input_id c) id) as [Heq|Hne].
  - exfalso. apply Hin. rewrite Heq. apply list_elem_of_here.
  - apply IH. intros H. apply Hin. by apply list_elem_of_further.
Qed.

Lemma find_checkable_found rev_server client k :
  k ≠ UINT32_MAX → find_checkable rev_server client k = k.
Proof.
  intros Hk. destruct rev_server as [|s rest]; cbn; [done|].
  by destruct (Z.eqb_spec k UINT32_MAX).
Qed.

Lemma find_checkable_snoc server x client :
  find_checkable (rev (server ++ [x])) client UINT32_MAX =
  find_checkable (rev server) client
    (default UINT32_MAX (find_in_client (input_id x) client)).
Proof. by rewrite rev_unit. Qed.

Lemma find_checkable_spec server client :
  Forall (λ s, input_id s ≠ UINT32_MAX) server →
  StronglySorted Z.le (ids server) →
  let k := find_checkable (rev server) client UINT32_MAX in
  (k = UINT32_MAX ∧ no_common server client) ∨
  (k ≠ UINT32_MAX ∧ largest_common k server client).
Proof.
  induction server as [|x server IH] using rev_ind; intros Hmax Hsorted.
  - left. split; [done|]. intros j Hj. by apply elem_of_nil in Hj.
  - apply Forall_app in Hmax as [Hmax Hx].
    apply Forall_inv in Hx.
    unfold ids in Hsorted. rewrite fmap_app in Hsorted.
    pose proof (StronglySorted_app_1_l _ _ _ Hsorted) as Hl.
    pose proof (λ a b, StronglySorted_app_1_elem_of _ _ _ a b Hsorted) as Hle.
    cbn zeta. rewrite find_checkable_snoc.
    destruct (decide (input_id x ∈ ids client)) as [Hin|Hnin].
    + rewrite (find_in_client_Some _ _ Hin). cbn.
      rewrite find_checkable_found by done.
      right. split; [done|]. split; [|split; [done|]].
      * unfold ids. rewrite fmap_app. apply elem_of_app. right.
        apply list_elem_of_here.
      * intros j Hj _. unfold ids in Hj. rewrite fmap_app in Hj.
        apply elem_of_app in Hj as [Hj|Hj].
        -- apply Hle; [done|apply list_elem_of_here].
        -- apply list_elem_of_singleton in Hj. lia.
    + rewrite (find_in_client_None _ _ Hnin). cbn.
      destruct (IH Hmax Hl) as [[Hk Hno]|[Hk (Hs & Hc & Hbig)]].
      * left. split; [done|]. intros j Hj.
        unfold ids in Hj. rewrite fmap_app in Hj.
        apply elem_of_app in Hj as [Hj|Hj]; [by apply Hno|].
        apply list_elem_of_singleton in Hj. by subst.
      * right. split; [done|]. split; [|split; [done|]].
        -- unfold ids. rewrite fmap_app. apply elem_of_app. by left.
        -- intros j Hj Hjc. unfold ids in Hj. rewrite fmap_app in Hj.
           apply elem_of_app in Hj as [Hj|Hj]; [by apply Hbig|].
           apply list_elem_of_singleton in Hj. by subst.
Qed.

Lemma filter_all {A} (P : A → Prop) `{!∀ x, Decision (P x)} (l : list A) :
  Forall P l → filter P l = l.
Proof.
  induction 1 as [|x l Hx _ IH]; [done|].
  by rewrite filter_cons_True, IH.
Qed.

Lemma drop_old_sorted k q :
  StronglySorted Z.le (ids q) →
  drop_old k q = filter (λ s, k ≤ input_id s) q.
Proof.
  induction q as [|s rest IH]; cbn [drop_old]; intros Hsorted; [done|].
  unfold ids in Hsorted. rewrite fmap_cons in Hsorted.
  apply StronglySorted_inv in Hsorted as [Hrest Hall].
  destruct (Z.ltb_spec (input_id s) k) as [Hlt|Hge].
  - rewrite filter_cons_False by lia. by apply IH.
  - rewrite filter_cons_True by done. f_equal.
    symmetry. apply filter_all.
    rewrite Forall_fmap in Hall. eapply Forall_impl; [exact Hall|].
    cbn. intros; lia.
Qed.

Lemma sorted_below_last q newest :
  StronglySorted Z.le (ids q) → last q = Some newest →
  Forall (λ s, input_id s ≤ input_id newest) q.
Proof.
  intros Hsorted Hlast. apply last_Some in Hlast as [q' ->].
  unfold ids in Hsorted. rewrite fmap_app in Hsorted.
  pose proof (λ a b, StronglySorted_app_1_elem_of _ _ _ a b Hsorted) as Hle.
  apply Forall_app. split; [|by apply Forall_singleton].
  apply Forall_forall. intros s Hs. apply Hle.
  - by apply list_elem_of_fmap_2.
  - apply list_elem_of_here.
Qed.

Lemma largest_common_unique k1 k2 server client :
  largest_common k1 server client → largest_common k2 server client →
  k1 = k2.
Proof.
  intros (Hs1 & Hc1 & Hb1) (Hs2 & Hc2 & Hb2).
  pose proof (Hb1 _ Hs2 Hc2). pose proof (Hb2 _ Hs1 Hc1). lia.
Qed.

(** *** The reconciliation loop *)

(** C2.  When the newest server snapshot carries no input id, the client
    applies exactly that snapshot with flag [SYNC_RECOVER], empties both
    queues and returns: the scene is changed by this single application
    only, whatever comparison and rewinding would have done. *)
Theorem no_input_snapshot_applied_at_once w cs newest :
  last (server_snapshots cs) = Some newest →
  input_id newest = UINT32_MAX →
  process_received_server_state w cs =
    (apply_snapshot newest NetEventFlag.SYNC_RECOVER false w,
     mkClient (player_controller_node_data cs) [] []
              (last_checked_input cs)).
Proof.
  intros Hlast Hid. unfold process_received_server_state.
  rewrite Hlast, Hid. done.
Qed.

(** C1 (amended).  With a player controller and a server queue whose
    newest snapshot has an input id.  Where the client queue is not empty
    and both queues are ordered by input id, the comparison runs at the
    largest input id stored in both queues, on queues from which every entry
    with a smaller input id has been dropped, and without a common input id
    nothing changes.  Where the client queue is empty, the newest server
    snapshot is applied with [SYNC_RECOVER] and the server queue is
    emptied, whatever it held. *)
Theorem checkable_is_largest_common w cs pc newest :
  player_controller_node_data cs = Some pc →
  last (server_snapshots cs) = Some newest →
  input_id newest < UINT32_MAX →
  (client_snapshots cs ≠ [] →
   StronglySorted Z.le (ids (server_snapshots cs)) →
   StronglySorted Z.le (ids (client_snapshots cs)) →
   (∀ k, largest_common k (server_snapshots cs) (client_snapshots cs) →
         process_received_server_state w cs =
           compare_and_recover k w
             (set_queues
                (filter (λ s, k ≤ input_id s) (server_snapshots cs))
                (filter (λ s, k ≤ input_id s) (client_snapshots cs)) cs)) ∧
   (no_common (server_snapshots cs) (client_snapshots cs) →
         process_received_server_state w cs = (w, cs))) ∧
  (client_snapshots cs = [] →
   process_received_server_state w cs =
     (apply_snapshot newest NetEventFlag.SYNC_RECOVER false w,
      set_queues [] [] cs)).
Proof.
  intros Hpc Hlast Hid.
  unfold process_received_server_state. rewrite Hlast, Hpc.
  destruct (Z.eqb_spec (input_id newest) UINT32_MAX) as [?|_]; [lia|].
  split; [|intros Hempty; rewrite Hempty;
           unfold process_paused_controller_recovery;
           by rewrite Hlast, Hempty].
  intros Hclient Hss Hsc.
  assert (Hmax : Forall (λ s, input_id s ≠ UINT32_MAX) (server_snapshots cs)).
  { eapply Forall_impl; [by apply sorted_below_last|]. cbn. intros; lia. }
  pose proof (find_checkable_spec _ (client_snapshots cs) Hmax Hss) as Hspec.
  cbn zeta in Hspec.
  destruct (client_snapshots cs) as [|c0 crest] eqn:Hc; [done|].
  split.
  - intros k Hk.
    destruct Hspec as [[_ Hno]|[Hne Hlc]].
    + destruct Hk as (Hs & Hcl & _). by apply Hno in Hs.
    + rewrite (largest_common_unique _ _ _ _ Hk Hlc).
      destruct (Z.eqb_spec
        (find_checkable (rev (server_snapshots cs)) (c0 :: crest) UINT32_MAX)
        UINT32_MAX) as [?|_]; [done|].
      by rewrite !drop_old_sorted.
  - intros Hno.
    destruct Hspec as [[-> _]|[_ (Hs & Hcl & _)]]; [done|].
    by apply Hno in Hs.
Qed.

End Reconciliation.

(** *** A scene that records what is done to it

    Used to run the loop on concrete queues. *)
Inductive Effect :=
| Applied (s : Snapshot) (flag : Z) (skip_custom_data : bool)
| Validated (id : Z)
| Replayed (i remaining_inputs : nat).

Definition trace_apply (s : Snapshot) (flag : Z) (skip : bool)
    (w : list Effect) : list Effect := w ++ [Applied s flag skip].
Definition trace_compare (_ : list Effect) (server client : Snapshot)
    : bool * Snapshot :=
  (bool_decide (length (object_vars server) = length (object_vars client)),
   snapshot_of_id 1).
Definition trace_update (_ : list Effect) (s : Snapshot) : Snapshot := s.
Definition trace_validated (id : Z) (w : list Effect) : list Effect :=
  w ++ [Validated id].
Definition trace_frames (_ : list Effect) : nat := 0%nat.
Definition trace_rewind (i remaining : nat) (w : list Effect) : list Effect :=
  w ++ [Replayed i remaining].

Definition run_traced : list Effect → ClientSynchronizer →
    list Effect * ClientSynchronizer :=
  process_received_server_state trace_apply trace_compare trace_update
    trace_validated trace_frames trace_rewind.

(** A client whose stream is paused: a player controller, one server
    snapshot with input id 3 and no client snapshot. *)
Definition paused_client : ClientSynchronizer :=
  mkClient (Some 0) [] [snapshot_of_id 3] 0.

(** A client with server snapshots 3, 6, 8 and client snapshots 5, 6, 7. *)
Definition busy_client : ClientSynchronizer :=
  mkClient (Some 0)
    [snapshot_of_id 5; snapshot_of_id 6; snapshot_of_id 7]
    [snapshot_of_id 3; snapshot_of_id 6; snapshot_of_id 8] 0.

Lemma busy_client_largest_common :
  largest_common 6 (server_snapshots busy_client) (client_snapshots busy_client).
Proof.
  repeat split; cbn.
  - set_solver.
  - set_solver.
  - intros j Hs Hc. set_unfold. lia.
Defined.

Lemma no_input_snapshot_applied_at_once_witness :
  run_traced [] (mkClient None [snapshot_of_id 4] [snapshot_of_id UINT32_MAX] 0) =
  ([Applied (snapshot_of_id UINT32_MAX) NetEventFlag.SYNC_RECOVER false],
   mkClient None [] [] 0).
Proof.
  exact (no_input_snapshot_applied_at_once trace_apply trace_compare
           trace_update trace_validated trace_frames trace_rewind []
           (mkClient None [snapshot_of_id 4] [snapshot_of_id UINT32_MAX] 0)
           (snapshot_of_id UINT32_MAX) eq_refl eq_refl).
Defined.

(** A client whose stream is paused, with three server snapshots waiting:
    input ids 3, 6 and 8, and no client snapshot. *)
Definition waiting_client : ClientSynchronizer :=
  mkClient (Some 0) []
    [snapshot_of_id 3; snapshot_of_id 6; snapshot_of_id 8] 0.

Lemma checkable_is_largest_common_witness :
  run_traced [] busy_client =
    compare_and_recover trace_apply trace_compare trace_update
      trace_validated trace_frames trace_rewind 6 []
      (set_queues [snapshot_of_id 6; snapshot_of_id 8]
                  [snapshot_of_id 6; snapshot_of_id 7] busy_client) ∧
  run_traced [] waiting_client =
    ([Applied (snapshot_of_id 8) NetEventFlag.SYNC_RECOVER false],
     mkClient (Some 0) [] [] 0).
Proof.
  split.
  - refine (proj1 (proj1 (checkable_is_largest_common trace_apply
             trace_compare trace_update trace_validated trace_frames
             trace_rewind [] busy_client 0 (snapshot_of_id 8) eq_refl eq_refl
             _) _ _ _) 6 busy_client_largest_common).
    + reflexivity.
    + discriminate.
    + cbn. repeat constructor; lia.
    + cbn. repeat constructor; lia.
  - refine (proj2 (checkable_is_largest_common trace_apply
             trace_compare trace_update trace_validated trace_frames
             trace_rewind [] waiting_client 0 (snapshot_of_id 8) eq_refl
             eq_refl _) eq_refl).
    reflexivity.
Defined.

(** C1 as stated fails when the client queue is empty: no input id is
    common to the two queues, yet the paused-controller recovery applies
    the newest server snapshot and empties the server queue. *)
Lemma paused_recovery_changes_queue :
  server_snapshots paused_client ≠ [] ∧
  last (ids (server_snapshots paused_client)) = Some 3 ∧
  no_common (server_snapshots paused_client) (client_snapshots paused_client) ∧
  run_traced [] paused_client =
    ([Applied (snapshot_of_id 3) NetEventFlag.SYNC_RECOVER false],
     mkClient (Some 0) [] [] 0) ∧
  run_traced [] paused_client ≠ ([], paused_client).
Proof.
  split; [discriminate|]. split; [reflexivity|]. split.
  - intros j _ Hj. by apply elem_of_nil in Hj.
  - split; [reflexivity|discriminate].
Qed.

(** *** Storing a received server snapshot *)

Lemma set_back_snoc p q x : set_back p (q ++ [x]) = q ++ [p].
Proof.
  induction q as [|y q IH]; [done|].
  cbn [app set_back]. rewrite IH. by destruct q.
Qed.

(** Equal id: the last entry is overwritten, nothing is appended. *)
Lemma store_same_id_overwrites pc p q back :
  input_id p ≠ UINT32_MAX → input_id p = input_id back →
  store_controllers_snapshot pc p (q ++ [back]) = (q ++ [p], Updated).
Proof.
  intros Hmax Hid. unfold store_controllers_snapshot.
  destruct (Z.eqb_spec (input_id p) UINT32_MAX) as [?|_]; [done|]. cbn.
  rewrite last_snoc. rewrite <- Hid, Z.eqb_refl. by rewrite set_back_snoc.
Qed.

(** Smaller id: rejected, the queue is unchanged. *)
Lemma store_older_id_rejected pc p q back :
  input_id p ≠ UINT32_MAX → input_id p < input_id back →
  store_controllers_snapshot pc p (q ++ [back]) = (q ++ [back], Rejected).
Proof.
  intros Hmax Hid. unfold store_controllers_snapshot.
  destruct (Z.eqb_spec (input_id p) UINT32_MAX) as [?|_]; [done|]. cbn.
  rewrite last_snoc.
  destruct (Z.eqb_spec (input_id p) (input_id back)) as [?|_]; [lia|].
  destruct (Z.ltb_spec (input_id p) (input_id back)) as [_|?]; [done|lia].
Qed.

(** Empty queue: appended. *)
Lemma store_into_empty pc p :
  input_id p ≠ UINT32_MAX →
  store_controllers_snapshot pc p [] = ([p], Pushed).
Proof.
  intros Hmax. unfold store_controllers_snapshot.
  by destruct (Z.eqb_spec (input_id p) UINT32_MAX) as [?|_].
Qed.

(** Larger id on a non-empty queue: no statement of the function runs for
    it, the snapshot is not stored. *)
Lemma store_newer_id_not_stored pc p q back :
  input_id p ≠ UINT32_MAX → input_id back < input_id p →
  store_controllers_snapshot pc p (q ++ [back]) = (q ++ [back], Ignored).
Proof.
  intros Hmax Hid. unfold store_controllers_snapshot.
  destruct (Z.eqb_spec (input_id p) UINT32_MAX) as [?|_]; [done|]. cbn.
  rewrite last_snoc.
  destruct (Z.eqb_spec (input_id p) (input_id back)) as [?|_]; [lia|].
  destruct (Z.ltb_spec (input_id p) (input_id back)) as [?|_]; [lia|done].
Qed.

(** C10.  The code at the failing input: the queue holds the snapshot
    with input id 1 and the snapshot with input id 2 arrives; the queue
    still holds only the snapshot with input id 1. *)
Theorem store_newer_snapshot_is_lost :
  store_controllers_snapshot true (snapshot_of_id 2) [snapshot_of_id 1] =
  ([snapshot_of_id 1], Ignored).
Proof. reflexivity. Qed.

End Client.

(** ** The object and variable registry, and change dispatch *)
Module Registry.

Definition VarId_NONE : Z := UINT32_MAX.
Definition ObjectLocalId_NONE : Z := UINT32_MAX.

(** [VarDescriptor]; [changes_listeners] holds pointers to listeners, here
    their position in the synchronizer's listener vector. *)
Record VarDescriptor := mkVarDescriptor {
  vd_id : Z;
  var : NameAndVar;
  skip_rewinding : bool;
  enabled : bool;
  vd_changes_listeners : list nat }.

Record ObjectData := mkObjectData {
  object_name : string;
  app_object_handle : Z;
  vars : list VarDescriptor }.

(** [ListeningVariable]: the watched object (its local id), the watched
    variable and the "old value recorded" mark. *)
Record ListeningVariable := mkListeningVariable {
  node_data : nat;
  var_id : Z;
  old_set : bool }.

(** [ChangesListener]; the calls of [listener_func] are recorded in the
    synchronizer state. *)
Record ChangesListener := mkChangesListener {
  watching_vars : list ListeningVariable;
  old_values : list variant;
  flag : Z;
  emitted : bool }.

(** The part of [SceneSynchronizerBase] the registry functions use.
    [listener_calls] lists the calls made to the listener functions, oldest
    first: which listener, with which vector of old values. *)
Record SceneSynchronizerBase := mkBase {
  objects : list ObjectData;
  changes_listeners : list ChangesListener;
  event_flag : Z;
  recover_in_progress : bool;
  reset_in_progress : bool;
  rewinding_in_progress : bool;
  end_sync : bool;
  listener_calls : list (nat * list variant) }.

Definition set_objects (o : list ObjectData) (b : SceneSynchronizerBase) :=
  mkBase o (changes_listeners b) (event_flag b) (recover_in_progress b)
    (reset_in_progress b) (rewinding_in_progress b) (end_sync b)
    (listener_calls b).

Definition set_changes_listeners (l : list ChangesListener)
    (b : SceneSynchronizerBase) :=
  mkBase (objects b) l (event_flag b) (recover_in_progress b)
    (reset_in_progress b) (rewinding_in_progress b) (end_sync b)
    (listener_calls b).

Definition set_vars (v : list VarDescriptor) (od : ObjectData) :=
  mkObjectData (object_name od) (app_object_handle od) v.

Definition set_enabled (e : bool) (vd : VarDescriptor) :=
  mkVarDescriptor (vd_id vd) (var vd) (skip_rewinding vd) e
    (vd_changes_listeners vd).

Definition set_value (x : variant) (vd : VarDescriptor) :=
  mkVarDescriptor (vd_id vd) (mkNameAndVar (nv_name (var vd)) x)
    (skip_rewinding vd) (enabled vd) (vd_changes_listeners vd).

Definition set_old_set (o : bool) (wv : ListeningVariable) :=
  mkListeningVariable (node_data wv) (var_id wv) o.

(** [get_object_data (p_id)]: [None] stands for [nullptr]. *)
Definition get_object_data (b : SceneSynchronizerBase) (p_id : Z)
    : option ObjectData :=
  if (p_id <? 0) || (p_id =? ObjectLocalId_NONE) then None
  else objects b !! Z.to_nat p_id.

(** [ObjectData::find_variable_id]. *)
Fixpoint find_variable_id (vs : list VarDescriptor) (p_var_name : string)
    : Z :=
  match vs with
  | [] => VarId_NONE
  | v :: rest =>
      if String.eqb (nv_name (var v)) p_var_name then vd_id v
      else find_variable_id rest p_var_name
  end.

(** How [register_variable] ended. *)
Inductive RegisterOutcome :=
| RegisterFailed          (* one of the ERR_FAIL_COND guards *)
| RegisteredWithError     (* the host could not read it: debug_error *)
| Registered
| Reenabled.

(** [SceneSynchronizerBase::register_variable], without the closing
    notification of the role synchronizer.  [get_variable] is the host's
    [SynchronizerManager::get_variable (handle, name, out)]: [None] when it
    returns false and leaves [out] a default [Variant]. *)
Definition register_variable (get_variable : Z → string → option variant)
    (p_id : Z) (p_variable : string) (b : SceneSynchronizerBase)
    : SceneSynchronizerBase * RegisterOutcome :=
  if p_id =? ObjectLocalId_NONE then (b, RegisterFailed)
  else if String.eqb p_variable "" then (b, RegisterFailed)
  else
    match get_object_data b p_id with
    | None => (b, RegisterFailed)
    | Some object_data =>
        let found := find_variable_id (vars object_data) p_variable in
        if found =? VarId_NONE then
          let read := get_variable (app_object_handle object_data) p_variable in
          let old_val := default VNil read in
          let new_id := Z.of_nat (length (vars object_data)) in
          let od' :=
            set_vars
              (vars object_data ++
                 [mkVarDescriptor new_id (mkNameAndVar p_variable old_val)
                    false true []])
              object_data in
          (set_objects (<[Z.to_nat p_id := od']> (objects b)) b,
           if read is Some _ then Registered else RegisteredWithError)
        else
          let od' :=
            set_vars (alter (set_enabled true) (Z.to_nat found)
                        (vars object_data))
              object_data in
          (set_objects (<[Z.to_nat p_id := od']> (objects b)) b, Reenabled)
    end.

(** [SceneSynchronizerBase::change_events_begin]. *)
Definition change_events_begin (p_flag : Z) (b : SceneSynchronizerBase)
    : SceneSynchronizerBase :=
  mkBase (objects b) (changes_listeners b) p_flag
    (negb (Z.land NetEventFlag.SYNC p_flag =? 0))
    (negb (Z.land NetEventFlag.SYNC_RESET p_flag =? 0))
    (negb (Z.land NetEventFlag.SYNC_REWIND p_flag =? 0))
    (negb (Z.land NetEventFlag.END_SYNC p_flag =? 0))
    (listener_calls b).

(** The loop [for (auto wv : listener->watching_vars)] of
    [change_event_add].  The loop variable is declared [auto wv], so each
    round works on a copy of the element: the write to [wv.old_set] lands in
    the copy, which is dropped at the end of the round, while
    [listener->old_values[v]] is written in the listener itself. *)
Fixpoint record_old (p_var_id : Z) (p_old : variant)
    (todo : list ListeningVariable) (v : nat) (olds : list variant)
    : list variant :=
  match todo with
  | [] => olds
  | element :: rest =>
      let wv := element in
      let '(wv, olds) :=
        if var_id wv =? p_var_id
        then (set_old_set true wv, <[v := p_old]> olds)
        else (wv, olds) in
      record_old p_var_id p_old rest (S v) olds
  end.

(** The body of the listener loop of [change_event_add]. *)
Definition notify_listener (current_flag p_var_id : Z) (p_old : variant)
    (listener : ChangesListener) : ChangesListener :=
  if Z.land (flag listener) current_flag =? 0 then listener
  else
    mkChangesListener (watching_vars listener)
      (record_old p_var_id p_old (watching_vars listener) 0
         (old_values listener))
      (flag listener) false.

(** [SceneSynchronizerBase::change_event_add], without the notification of
    the role synchronizer, which does not touch the listeners. *)
Definition change_event_add (p_object_data : nat) (p_var_id : Z)
    (p_old : variant) (b : SceneSynchronizerBase) : SceneSynchronizerBase :=
  let listeners_of_var :=
    default []
      (od ← objects b !! p_object_data;
       vd ← vars od !! Z.to_nat p_var_id;
       Some (vd_changes_listeners vd)) in
  set_changes_listeners
    (foldl (λ ls i, alter (notify_listener (event_flag b) p_var_id p_old) i ls)
       (changes_listeners b) listeners_of_var)
    b.

(** The current value of a watched variable; [None] if the listener points
    at an object or slot that is not there. *)
Definition current_value (objs : list ObjectData) (wv : ListeningVariable)
    : option variant :=
  od ← objs !! node_data wv;
  vd ← vars od !! Z.to_nat (var_id wv);
  Some (nv_value (var vd)).

(** The loop over [watching_vars] of [change_events_flush]. *)
Fixpoint fill_old (objs : list ObjectData) (todo : list ListeningVariable)
    (v : nat) (olds : list variant) : list variant :=
  match todo with
  | [] => olds
  | wv :: rest =>
      fill_old objs rest (S v)
        (if old_set wv then olds
         else match current_value objs wv with
              | Some x => <[v := x]> olds
              | None => olds
              end)
  end.

(** The loop over [changes_listeners] of [change_events_flush]:
    [listener_i] is the position of the first listener still to visit. *)
Fixpoint flush_listeners (objs : list ObjectData)
    (todo : list ChangesListener) (listener_i : nat)
    : list ChangesListener * list (nat * list variant) :=
  match todo with
  | [] => ([], [])
  | listener :: rest =>
      let '(rest', calls) := flush_listeners objs rest (S listener_i) in
      if emitted listener then (listener :: rest', calls)
      else
        let olds :=
          fill_old objs (watching_vars listener) 0 (old_values listener) in
        (mkChangesListener (set_old_set false <$> watching_vars listener)
           olds (flag listener) true :: rest',
         (listener_i, olds) :: calls)
  end.

(** [SceneSynchronizerBase::change_events_flush]. *)
Definition change_events_flush (b : SceneSynchronizerBase)
    : SceneSynchronizerBase :=
  let '(listeners, calls) :=
    flush_listeners (objects b) (changes_listeners b) 0 in
  mkBase (objects b) listeners (event_flag b) false false false false
    (listener_calls b ++ calls).

(** One round of the loop of [pull_node_changes]. *)
Definition pull_var (get_variable : Z → string → option variant)
    (od_i v : nat) (b : SceneSynchronizerBase) : SceneSynchronizerBase :=
  match objects b !! od_i with
  | None => b
  | Some od =>
      match vars od !! v with
      | None => b
      | Some vd =>
          if negb (enabled vd) then b
          else
            let old_val := nv_value (var vd) in
            let new_val :=
              default VNil
                (get_variable (app_object_handle od) (nv_name (var vd))) in
            if bool_decide (old_val = new_val) then b
            else
              change_event_add od_i (Z.of_nat v) old_val
                (set_objects
                   (<[od_i := set_vars (alter (set_value new_val) v (vars od))
                                od]> (objects b))
                   b)
      end
  end.

(** [SceneSynchronizerBase::pull_node_changes]. *)
Definition pull_node_changes (get_variable : Z → string → option variant)
    (od_i : nat) (b : SceneSynchronizerBase) : SceneSynchronizerBase :=
  match objects b !! od_i with
  | None => b
  | Some od =>
      foldl (λ b v, pull_var get_variable od_i v b) b
        (seq 0 (length (vars od)))
  end.

(** [SceneSynchronizerBase::detect_and_signal_changed_variables]. *)
Definition detect_and_signal_changed_variables
    (get_variable : Z → string → option variant) (p_flags : Z)
    (b : SceneSynchronizerBase) : SceneSynchronizerBase :=
  let b1 := if event_flag b =? p_flags then b
            else change_events_begin p_flags b in
  change_events_flush
    (foldl (λ b od_i, pull_node_changes get_variable od_i b) b1
       (seq 0 (length (objects b1)))).

(** *** Registering a variable the host cannot read *)

Lemma find_variable_id_fresh vs name :
  Forall (λ v, nv_name (var v) ≠ name) vs →
  find_variable_id vs name = VarId_NONE.
Proof.
  induction 1 as [|v vs Hv _ IH]; cbn; [done|].
  destruct (String.eqb_spec (nv_name (var v)) name); [done|exact IH].
Qed.

(** The slot is appended although the host cannot read the variable. *)
Lemma register_unreadable_appends get_variable p_id name b od :
  p_id ≠ ObjectLocalId_NONE → name ≠ "" →
  get_object_data b p_id = Some od →
  Forall (λ v, nv_name (var v) ≠ name) (vars od) →
  get_variable (app_object_handle od) name = None →
  register_variable get_variable p_id name b =
    (set_objects
       (<[Z.to_nat p_id :=
            set_vars
              (vars od ++
                 [mkVarDescriptor (Z.of_nat (length (vars od)))
                    (mkNameAndVar name VNil) false true []]) od]>
          (objects b)) b,
     RegisteredWithError).
Proof.
  intros Hid Hname Hod Hfresh Hread. unfold register_variable.
  destruct (Z.eqb_spec p_id ObjectLocalId_NONE) as [?|_]; [done|].
  destruct (String.eqb_spec name "") as [?|_]; [done|].
  rewrite Hod, (find_variable_id_fresh _ _ Hfresh), Hread. done.
Qed.

(** *** Change batches *)

Lemma alter_watching_vars f i (ls : list ChangesListener) j :
  (∀ l, watching_vars (f l) = watching_vars l) →
  watching_vars <$> (alter f i ls !! j) = watching_vars <$> (ls !! j).
Proof.
  intros Hf. destruct (decide (i = j)) as [->|Hne].
  - rewrite list_lookup_alter_eq. destruct (ls !! j); cbn; [|done].
    by rewrite Hf.
  - by rewrite list_lookup_alter_ne.
Qed.

(** [change_event_add] never marks a watched variable as "old value
    recorded": the watched-variable records of every listener stay as they
    were. *)
Lemma change_event_add_keeps_marks od_i p_var_id p_old b j :
  watching_vars <$> (changes_listeners (change_event_add od_i p_var_id
      p_old b) !! j) =
  watching_vars <$> (changes_listeners b !! j).
Proof.
  unfold change_event_add. cbn.
  generalize (default []
    (od ← objects b !! od_i; vd ← vars od !! Z.to_nat p_var_id;
     Some (vd_changes_listeners vd))).
  intros idxs. generalize (changes_listeners b).
  induction idxs as [|i idxs IH]; intros ls; cbn; [done|].
  rewrite IH. apply alter_watching_vars.
  intros l. unfold notify_listener. by destruct (_ =? 0).
Qed.

Lemma fill_old_unset objs ws : ∀ v olds vals,
  Forall (λ wv, old_set wv = false) ws →
  Forall2 (λ wv x, current_value objs wv = Some x) ws vals →
  (v + length ws ≤ length olds)%nat →
  fill_old objs ws v olds =
    take v olds ++ vals ++ drop (v + length ws) olds.
Proof.
  induction ws as [|wv ws IH]; intros v olds vals Hunset Hvals Hlen.
  - apply Forall2_nil_inv_l in Hvals as ->. cbn.
    by rewrite Nat.add_0_r, take_drop.
  - apply Forall2_cons_inv_l in Hvals as (x & vals' & Hx & Hvals & ->).
    apply Forall_cons in Hunset as [Hwv Hunset].
    cbn [fill_old]. rewrite Hwv, Hx. cbn [length] in Hlen.
    rewrite (IH (S v) _ vals' Hunset Hvals)
      by (rewrite length_insert; lia).
    rewrite drop_insert_lt by lia.
    rewrite (take_S_r _ _ x) by (apply list_lookup_insert_eq; lia).
    rewrite take_insert_ge by lia.
    rewrite <- app_assoc. cbn. do 3 f_equal. f_equal. lia.
Qed.

Lemma flush_listeners_call objs : ∀ ls listener_i j l,
  ls !! j = Some l → emitted l = false →
  (listener_i + j,
   fill_old objs (watching_vars l) 0 (old_values l))%nat
    ∈ (flush_listeners objs ls listener_i).2.
Proof.
  induction ls as [|l0 ls IH]; intros listener_i j l Hj Hemitted; [done|].
  cbn [flush_listeners].
  destruct (flush_listeners objs ls (S listener_i)) as [rest' calls] eqn:Hrest.
  destruct j as [|j]; cbn in Hj.
  - injection Hj as ->. rewrite Hemitted. cbn.
    rewrite Nat.add_0_r. apply list_elem_of_here.
  - specialize (IH (S listener_i) j l Hj Hemitted).
    rewrite Hrest in IH. cbn in IH.
    replace (listener_i + S j)%nat with (S listener_i + j)%nat by lia.
    destruct (emitted l0); cbn; [done|]. by apply list_elem_of_further.
Qed.

(** What a listener is called with at flush time when none of its
    watched variables carries the "old value recorded" mark: the current
    values of its watched variables, in watched order. *)
Lemma flush_passes_current_values b j l vals :
  changes_listeners b !! j = Some l → emitted l = false →
  Forall (λ wv, old_set wv = false) (watching_vars l) →
  Forall2 (λ wv x, current_value (objects b) wv = Some x)
    (watching_vars l) vals →
  length (old_values l) = length (watching_vars l) →
  (j, vals) ∈ listener_calls (change_events_flush b).
Proof.
  intros Hj Hemitted Hunset Hvals Hlen.
  pose proof (flush_listeners_call (objects b) _ 0 j l Hj Hemitted) as Hcall.
  unfold change_events_flush.
  destruct (flush_listeners (objects b) (changes_listeners b) 0)
    as [ls calls]. cbn in *.
  apply elem_of_app. right.
  rewrite (fill_old_unset _ _ 0 _ vals Hunset Hvals) in Hcall by lia.
  cbn in Hcall. rewrite drop_ge, app_nil_r in Hcall by lia. exact Hcall.
Qed.

(** A scene with one object "player" and one variable "hp", watched by one
    listener for [CHANGE]; the stored value is 1. *)
Definition hp_scene : SceneSynchronizerBase :=
  mkBase
    [mkObjectData "player" 7
       [mkVarDescriptor 0 (mkNameAndVar "hp" (VInt 1)) false true [0%nat]]]
    [mkChangesListener [mkListeningVariable 0 0 false] [VNil]
       NetEventFlag.CHANGE true]
    0 false false false false [].

(** The host, where "hp" is now 2. *)
Definition hp_host (handle : Z) (name : string) : option variant :=
  if (handle =? 7) && String.eqb name "hp" then Some (VInt 2) else None.

(** C4.  The code at the failing input: the variable "hp" changes from 1
    to 2 inside a [CHANGE] batch; the listener is called once, with the
    current value 2 where the recorded old value 1 was due. *)
Theorem listener_receives_current_value :
  listener_calls
    (detect_and_signal_changed_variables hp_host NetEventFlag.CHANGE hp_scene)
  = [(0%nat, [VInt 2])].
Proof. reflexivity. Qed.

(** The same batch written with the three batch operations, after the
    stored value has been set to 2. *)
Lemma listener_receives_current_value_batch :
  let changed :=
    set_objects
      [mkObjectData "player" 7
         [mkVarDescriptor 0 (mkNameAndVar "hp" (VInt 2)) false true [0%nat]]]
      hp_scene in
  listener_calls
    (change_events_flush
       (change_event_add 0 0 (VInt 1)
          (change_events_begin NetEventFlag.CHANGE changed)))
  = [(0%nat, [VInt 2])].
Proof. reflexivity. Qed.

End Registry.

(** ** The server synchronizer: sync groups, peers and snapshot emission *)
Module Server.

Definition GLOBAL_SYNC_GROUP_ID : Z := 0.
Definition ObjectNetId_NONE : Z := UINT32_MAX.

(** [NS::PeerData]. *)
Record PeerData := mkPeerData {
  enabled : bool;
  controller_id : Z;
  sync_group_id : Z;
  force_notify_snapshot : bool;
  need_full_snapshot : bool }.

(** The change record a group keeps for a realtime object: whether the
    clients know the object, and the variables changed since the last
    notified state. *)
Record Change := mkChange {
  unknown : bool;
  changed_vars : list string }.

Record RealtimeNodeInfo := mkRealtimeNodeInfo {
  rt_od : Z;
  rt_change : Change }.

Record DeferredNodeInfo := mkDeferredNodeInfo {
  df_od : Z;
  df_unknown : bool;
  update_rate : Q;
  update_priority : Q }.

(** [NS::SyncGroup]; objects are named by their net id.  Timers are of the
    C++ type [real_t]: their values are rationals here, and what the
    platform's arithmetic makes of them is left open ([real_add] below). *)
Record SyncGroup := mkSyncGroup {
  realtime_sync_nodes : list RealtimeNodeInfo;
  deferred_sync_nodes : list DeferredNodeInfo;
  peers : list Z;
  state_notifier_timer : Q;
  user_data : Z }.

Definition empty_group : SyncGroup := mkSyncGroup [] [] [] 0%Q 0.

Definition set_nodes (rt : list RealtimeNodeInfo) (df : list DeferredNodeInfo)
    (g : SyncGroup) : SyncGroup :=
  mkSyncGroup rt df (peers g) (state_notifier_timer g) (user_data g).

Definition set_peers (p : list Z) (g : SyncGroup) : SyncGroup :=
  mkSyncGroup (realtime_sync_nodes g) (deferred_sync_nodes g) p
    (state_notifier_timer g) (user_data g).

Definition set_timer (t : Q) (g : SyncGroup) : SyncGroup :=
  mkSyncGroup (realtime_sync_nodes g) (deferred_sync_nodes g) (peers g) t
    (user_data g).

(** The net ids of the objects of a group. *)
Definition realtime_ids (g : SyncGroup) : list Z :=
  rt_od <$> realtime_sync_nodes g.
Definition deferred_ids (g : SyncGroup) : list Z :=
  df_od <$> deferred_sync_nodes g.

(** Modelled from the spec: [SyncGroup::add_new_node], defined outside the
    embedded files.  The object joins the realtime list (or the deferred
    list) unless it is there already, and leaves the other list; a new
    entry is unknown to the clients. *)
Definition add_new_node (od : Z) (realtime : bool) (g : SyncGroup)
    : SyncGroup :=
  if realtime then
    set_nodes
      (if bool_decide (od ∈ realtime_ids g) then realtime_sync_nodes g
       else realtime_sync_nodes g ++ [mkRealtimeNodeInfo od (mkChange true [])])
      (filter (λ i, df_od i ≠ od) (deferred_sync_nodes g)) g
  else
    set_nodes
      (filter (λ i, rt_od i ≠ od) (realtime_sync_nodes g))
      (if bool_decide (od ∈ deferred_ids g) then deferred_sync_nodes g
       else deferred_sync_nodes g ++ [mkDeferredNodeInfo od true 0%Q 0%Q]) g.

(** Modelled from the spec: [SyncGroup::remove_node], defined outside the
    embedded files.  The object leaves both lists. *)
Definition remove_node (od : Z) (g : SyncGroup) : SyncGroup :=
  set_nodes (filter (λ i, rt_od i ≠ od) (realtime_sync_nodes g))
    (filter (λ i, df_od i ≠ od) (deferred_sync_nodes g)) g.

(** Modelled from the spec: [SyncGroup::replace_nodes], defined outside the
    embedded files.  An object of the new realtime list keeps its change
    record if it was in the group before, and is unknown otherwise. *)
Definition replace_nodes (new_realtime : list RealtimeNodeInfo)
    (new_deferred : list DeferredNodeInfo) (g : SyncGroup) : SyncGroup :=
  set_nodes
    ((λ i, match list_find (λ o, rt_od o = rt_od i) (realtime_sync_nodes g) with
           | Some (_, old) => old
           | None => mkRealtimeNodeInfo (rt_od i) (mkChange true [])
           end) <$> new_realtime)
    new_deferred g.

(** Modelled from the spec: [SyncGroup::remove_all_nodes], defined outside
    the embedded files. *)
Definition remove_all_nodes (g : SyncGroup) : SyncGroup := set_nodes [] [] g.

(** Modelled from the spec: [SyncGroup::mark_changes_as_notified], defined
    outside the embedded files.  A notified state resets every change
    record of the group. *)
Definition mark_changes_as_notified (g : SyncGroup) : SyncGroup :=
  set_nodes
    ((λ i, mkRealtimeNodeInfo (rt_od i) (mkChange false []))
       <$> realtime_sync_nodes g)
    ((λ i, mkDeferredNodeInfo (df_od i) false (update_rate i)
             (update_priority i)) <$> deferred_sync_nodes g) g.

(** The controller attached to an object, as far as the server
    synchronizer reads it. *)
Record Controller := mkController {
  current_input_id : Z;
  unit_authority : Z }.

Record ObjectData := mkObjectData {
  object_name : string;
  controller : option Controller;
  realtime_sync_enabled_on_client : bool }.

Definition set_realtime_sync_enabled_on_client (b : bool) (od : ObjectData)
    : ObjectData :=
  mkObjectData (object_name od) (controller od) b.

(** A [SceneSynchronizerBase] in the server role together with its
    [ServerSynchronizer]: the peers, the registered objects by net id and
    the sync groups. *)
Record ServerState := mkServer {
  peer_data : gmap Z PeerData;
  objects : gmap Z ObjectData;
  sync_groups : list SyncGroup;
  server_notify_state_interval : Q }.

Definition set_peer_data (p : gmap Z PeerData) (st : ServerState) :=
  mkServer p (objects st) (sync_groups st) (server_notify_state_interval st).
Definition set_objects (o : gmap Z ObjectData) (st : ServerState) :=
  mkServer (peer_data st) o (sync_groups st) (server_notify_state_interval st).
Definition set_sync_groups (g : list SyncGroup) (st : ServerState) :=
  mkServer (peer_data st) (objects st) g (server_notify_state_interval st).

Definition set_sync_group_id (g : Z) (pd : PeerData) :=
  mkPeerData (enabled pd) (controller_id pd) g (force_notify_snapshot pd)
    (need_full_snapshot pd).
Definition set_snapshot_flags (force full : bool) (pd : PeerData) :=
  mkPeerData (enabled pd) (controller_id pd) (sync_group_id pd) force full.

(** [LocalVector::erase]: remove the first occurrence. *)
Fixpoint erase (x : Z) (l : list Z) : list Z :=
  match l with
  | [] => []
  | y :: rest => if x =? y then rest else y :: erase x rest
  end.

(** Whether a group id names a group: [p_group_id < sync_groups.size ()]. *)
Definition group_exists (st : ServerState) (p_group_id : Z) : bool :=
  (0 <=? p_group_id) && (p_group_id <? Z.of_nat (length (sync_groups st))).

(** The result of an operation that can fail with [ERR_FAIL_COND]. *)
Inductive Status := Done | Failed.

(** [ServerSynchronizer::sync_group_create]. *)
Definition sync_group_create (st : ServerState) : ServerState * Z :=
  (set_sync_groups (sync_groups st ++ [empty_group]) st,
   Z.of_nat (length (sync_groups st))).

(** [ServerSynchronizer::sync_group_add_node]; [None] is a null object. *)
Definition sync_group_add_node (p_object_data : option Z) (p_group_id : Z)
    (p_realtime : bool) (st : ServerState) : ServerState * Status :=
  match p_object_data with
  | None => (st, Failed)
  | Some od =>
      if negb (group_exists st p_group_id) then (st, Failed)
      else if p_group_id =? GLOBAL_SYNC_GROUP_ID then (st, Failed)
      else
        (set_sync_groups
           (alter (add_new_node od p_realtime) (Z.to_nat p_group_id)
              (sync_groups st)) st, Done)
  end.

(** [ServerSynchronizer::sync_group_remove_node]. *)
Definition sync_group_remove_node (p_object_data : option Z) (p_group_id : Z)
    (st : ServerState) : ServerState * Status :=
  match p_object_data with
  | None => (st, Failed)
  | Some od =>
      if negb (group_exists st p_group_id) then (st, Failed)
      else if p_group_id =? GLOBAL_SYNC_GROUP_ID then (st, Failed)
      else
        (set_sync_groups
           (alter (remove_node od) (Z.to_nat p_group_id) (sync_groups st)) st,
         Done)
  end.

(** [ServerSynchronizer::sync_group_replace_nodes]. *)
Definition sync_group_replace_nodes (p_group_id : Z)
    (p_new_realtime_nodes : list RealtimeNodeInfo)
    (p_new_deferred_nodes : list DeferredNodeInfo) (st : ServerState)
    : ServerState * Status :=
  if negb (group_exists st p_group_id) then (st, Failed)
  else if p_group_id =? GLOBAL_SYNC_GROUP_ID then (st, Failed)
  else
    (set_sync_groups
       (alter (replace_nodes p_new_realtime_nodes p_new_deferred_nodes)
          (Z.to_nat p_group_id) (sync_groups st)) st, Done).

(** [ServerSynchronizer::sync_group_remove_all_nodes]. *)
Definition sync_group_remove_all_nodes (p_group_id : Z) (st : ServerState)
    : ServerState * Status :=
  if negb (group_exists st p_group_id) then (st, Failed)
  else if p_group_id =? GLOBAL_SYNC_GROUP_ID then (st, Failed)
  else
    (set_sync_groups
       (alter remove_all_nodes (Z.to_nat p_group_id) (sync_groups st)) st,
     Done).

(** [ServerSynchronizer::sync_group_move_peer_to]. *)
Definition server_sync_group_move_peer_to (p_peer_id p_group_id : Z)
    (st : ServerState) : ServerState * Status :=
  let st1 :=
    set_sync_groups
      ((λ g, set_peers (erase p_peer_id (peers g)) g) <$> sync_groups st) st in
  if p_group_id =? UINT32_MAX then (st1, Done)
  else if negb (group_exists st1 p_group_id) then (st1, Failed)
  else
    let st2 :=
      set_sync_groups
        (alter (λ g, set_peers (peers g ++ [p_peer_id]) g)
           (Z.to_nat p_group_id) (sync_groups st1)) st1 in
    match peer_data st2 !! p_peer_id with
    | None => (st2, Failed)
    | Some pd =>
        let st3 :=
          set_peer_data
            (<[p_peer_id := set_snapshot_flags true true pd]> (peer_data st2))
            st2 in
        match objects st3 !! controller_id pd with
        | Some _ =>
            ((sync_group_add_node (Some (controller_id pd)) p_group_id true
                st3).1, Done)
        | None => (st3, Done)
        end
    end.

(** [SceneSynchronizerBase::sync_group_move_peer_to], on a synchronizer in
    the server role. *)
Definition sync_group_move_peer_to (p_peer_id p_group_id : Z)
    (st : ServerState) : ServerState * Status :=
  match peer_data st !! p_peer_id with
  | None => (st, Failed)
  | Some pd =>
      if sync_group_id pd =? p_group_id then (st, Done)
      else
        server_sync_group_move_peer_to p_peer_id p_group_id
          (set_peer_data
             (<[p_peer_id := set_sync_group_id p_group_id pd]> (peer_data st))
             st)
  end.

(** [ServerSynchronizer::on_peer_disconnected]. *)
Definition on_peer_disconnected (p_peer_id : Z) (st : ServerState)
    : ServerState :=
  set_sync_groups
    ((λ g, set_peers (erase p_peer_id (peers g)) g) <$> sync_groups st) st.

(** [SceneSynchronizerBase::get_peer_for_controller]: the peer whose id is
    the controller's authority. *)
Definition get_peer_for_controller (st : ServerState) (c : Controller)
    : option PeerData := peer_data st !! unit_authority c.

(** [ServerSynchronizer::on_object_data_added].  The global group is
    created by the constructor; [None] is the index
    [sync_groups[GLOBAL_SYNC_GROUP_ID]] out of range, where no group exists
    (after [clear]): the index check of the vector aborts. *)
Definition on_object_data_added (net_id : Z) (od : ObjectData)
    (st : ServerState) : option ServerState :=
  match sync_groups st !! Z.to_nat GLOBAL_SYNC_GROUP_ID with
  | None => None
  | Some _ =>
      let st1 :=
        set_sync_groups
          (alter (add_new_node net_id true) (Z.to_nat GLOBAL_SYNC_GROUP_ID)
             (sync_groups st)) st in
      match controller od with
      | None => Some st1
      | Some c =>
          match get_peer_for_controller st1 c with
          | None => Some st1
          | Some pd =>
              Some (set_peer_data
                      (<[unit_authority c := set_snapshot_flags true true pd]>
                         (peer_data st1)) st1)
          end
      end
  end.

(** [ServerSynchronizer::on_object_data_removed]. *)
Definition on_object_data_removed (net_id : Z) (st : ServerState)
    : ServerState :=
  set_sync_groups (remove_node net_id <$> sync_groups st) st.

(** Registration on the server, as [register_app_object] does it for an
    object that is not registered yet: the object is stored under its newly
    generated net id and the server synchronizer is told. *)
Definition register_app_object (net_id : Z) (od : ObjectData)
    (st : ServerState) : option ServerState :=
  on_object_data_added net_id od
    (set_objects (<[net_id := od]> (objects st)) st).

(** [drop_object_data]: the server synchronizer is told, then the object
    is deallocated. *)
Definition drop_object_data (net_id : Z) (st : ServerState) : ServerState :=
  let st1 := on_object_data_removed net_id st in
  set_objects (delete net_id (objects st1)) st1.

(** The state built by the [ServerSynchronizer] constructor: the global
    group exists and is empty. *)
Definition new_server (interval : Q) : ServerState :=
  mkServer ∅ ∅ [empty_group] interval.

(** [SceneSynchronizerBase::on_peer_connected], then the server's
    [on_peer_connected]: the peer gets a fresh [PeerData] unless it has one
    (a [std::map::insert]), and is subscribed to the global group.
    [fresh] is the default-constructed [PeerData]. *)
Definition on_peer_connected (fresh : PeerData) (p_peer : Z)
    (st : ServerState) : ServerState :=
  let pd := if peer_data st !! p_peer is Some _ then peer_data st
            else <[p_peer := fresh]> (peer_data st) in
  (server_sync_group_move_peer_to p_peer GLOBAL_SYNC_GROUP_ID
     (set_peer_data pd st)).1.

(** [SceneSynchronizerBase::on_peer_disconnected], then the server's. *)
Definition peer_disconnected (p_peer : Z) (st : ServerState) : ServerState :=
  on_peer_disconnected p_peer
    (set_peer_data (delete p_peer (peer_data st)) st).

(** [SceneSynchronizerBase::clear], then the server's [clear]: every
    object is dropped and the vector of sync groups is emptied, the global
    group with it; the peers stay. *)
Definition clear (st : ServerState) : ServerState :=
  set_sync_groups [] (set_objects ∅ st).

(** The calls the host application and the transport make on a server. *)
Inductive Call :=
| RegisterAppObject (net_id : Z) (od : ObjectData)
| UnregisterAppObject (net_id : Z)
| SyncGroupCreate
| SyncGroupAddNode (od : option Z) (group : Z) (realtime : bool)
| SyncGroupRemoveNode (od : option Z) (group : Z)
| SyncGroupReplaceNodes (group : Z) (rt : list RealtimeNodeInfo)
    (df : list DeferredNodeInfo)
| SyncGroupRemoveAllNodes (group : Z)
| SyncGroupMovePeerTo (peer group : Z)
| PeerConnected (fresh : PeerData) (peer : Z)
| PeerDisconnected (peer : Z)
| Clear.

(** One call; [None] is a registration that aborts. *)
Definition run_call (c : Call) (st : ServerState) : option ServerState :=
  match c with
  | RegisterAppObject net_id od => register_app_object net_id od st
  | UnregisterAppObject net_id => Some (drop_object_data net_id st)
  | SyncGroupCreate => Some (sync_group_create st).1
  | SyncGroupAddNode od g rt => Some (sync_group_add_node od g rt st).1
  | SyncGroupRemoveNode od g => Some (sync_group_remove_node od g st).1
  | SyncGroupReplaceNodes g rt df =>
      Some (sync_group_replace_nodes g rt df st).1
  | SyncGroupRemoveAllNodes g => Some (sync_group_remove_all_nodes g st).1
  | SyncGroupMovePeerTo p g => Some (sync_group_move_peer_to p g st).1
  | PeerConnected fresh p => Some (on_peer_connected fresh p st)
  | PeerDisconnected p => Some (peer_disconnected p st)
  | Clear => Some (clear st)
  end.

(** The server after a sequence of calls, oldest first. *)
Definition run_calls (calls : list Call) (st : ServerState)
    : option ServerState :=
  foldl (λ o c, o ≫= run_call c) (Some st) calls.

(** *** Snapshot emission *)

(** Modelled from the spec: the [DataBuffer] bit buffer with its cursor,
    defined outside the embedded files.  A write at the cursor replaces the
    bits it covers, extends the buffer where it runs past the end, and moves
    the cursor behind what was written. *)
Record DataBuffer := mkDataBuffer {
  bits : list bool;
  bit_offset : nat }.

Definition begin_write (metadata_size : nat) : DataBuffer :=
  mkDataBuffer (replicate metadata_size false) 0.

Definition seek (p_bits : nat) (db : DataBuffer) : DataBuffer :=
  mkDataBuffer (bits db) p_bits.

Definition write_bits (payload : list bool) (db : DataBuffer) : DataBuffer :=
  mkDataBuffer
    (take (bit_offset db) (bits db) ++ payload ++
     drop (bit_offset db + length payload) (bits db))
    (bit_offset db + length payload).

(** The 32 bits of an unsigned value, least significant first. *)
Definition uint32_bits (v : Z) : list bool :=
  (λ i, Z.testbit v (Z.of_nat i)) <$> seq 0 32.

Definition add_uint32 (v : Z) (db : DataBuffer) : DataBuffer :=
  write_bits (uint32_bits v) db.

(** Modelled from the spec: the size of the snapshot header,
    [DataBuffer::get_bit_taken (DATA_TYPE_UINT, COMPRESSION_LEVEL_1)], the 32
    bits of the acknowledged input id. *)
Definition MD_SIZE : nat := 32.

(** One call of [rpc_handler_state.rpc]: the recipient, which of the two
    buffers [snap] pointed to, and the bits of that buffer at the call. *)
Record Packet := mkPacket {
  to_peer : Z;
  is_full : bool;
  payload : list bool }.

(** The variables of one round of the group loop of
    [process_snapshot_notificator] that the peer loop reads and writes.
    [generated] lists the calls of [generate_snapshot] by their
    [p_force_full_snapshot] argument, [notified] the controllers told
    [notify_send_state]; both oldest first, as [sent]. *)
Record Emission := mkEmission {
  em_peer_data : gmap Z PeerData;
  full_snapshot_need_init : bool;
  full_snapshot : DataBuffer;
  delta_snapshot_need_init : bool;
  delta_snapshot : DataBuffer;
  sent : list Packet;
  generated : list bool;
  notified : list Z }.

Definition start_emission (pd : gmap Z PeerData) : Emission :=
  mkEmission pd true (begin_write MD_SIZE) true (begin_write MD_SIZE) [] [] [].

Section Emit.

(** What [generate_snapshot (p_force_full_snapshot, p_group, db)] writes at
    the cursor.  The function is [const] and, during one round of the group
    loop, neither the group nor the scene it reads changes. *)
Variable snapshot_body : bool → SyncGroup → list bool.

(** [SyncGroup::is_realtime_node_list_changed], defined outside the embedded
    files: nothing is assumed of it. *)
Variable is_realtime_node_list_changed : SyncGroup → bool.

(** The sum of two [real_t] values as the platform computes and rounds it;
    nothing is assumed of it. *)
Variable real_add : Q → Q → Q.

(** Whether a net id passes the two [CRASH_COND]s in the loop that writes
    the list of simulated objects: it is not [ObjectNetId::NONE] and it fits
    16 bits. *)
Definition net_id_fits (id : Z) : bool :=
  negb (id =? ObjectNetId_NONE) && (id <=? 65535).

(** Whether every realtime object of the group passes them. *)
Definition simulated_ids_fit (p_group : SyncGroup) : bool :=
  forallb net_id_fits (realtime_ids p_group).

(** [ServerSynchronizer::generate_snapshot]; [None] is one of the two
    [CRASH_COND]s, which are reached when the list of simulated objects is
    written. *)
Definition generate_snapshot (p_force_full_snapshot : bool)
    (p_group : SyncGroup) (db : DataBuffer) : option DataBuffer :=
  if (is_realtime_node_list_changed p_group || p_force_full_snapshot) &&
     negb (simulated_ids_fit p_group)
  then None
  else Some (write_bits (snapshot_body p_force_full_snapshot p_group) db).

(** The input id written for a peer: that of its controller, [UINT32_MAX]
    without one.  [None] is the [CRASH_COND_MSG] for an object that is not a
    controller. *)
Definition fetch_input_id (objs : gmap Z ObjectData) (peer : PeerData)
    : option Z :=
  match objs !! controller_id peer with
  | None => Some UINT32_MAX
  | Some controller_od => current_input_id <$> controller controller_od
  end.

(** One round of the peer loop. *)
Definition process_peer (objs : gmap Z ObjectData) (group : SyncGroup)
    (notify_state : bool) (peer_id : Z) (e : Emission) : option Emission :=
  match em_peer_data e !! peer_id with
  | None => Some e
  | Some peer =>
      if negb (force_notify_snapshot peer) && negb notify_state then Some e
      else
        input_id ← fetch_input_id objs peer;
        let full := need_full_snapshot peer in
        let peers' :=
          <[peer_id := set_snapshot_flags false false peer]> (em_peer_data e) in
        let notified' :=
          if objs !! controller_id peer is Some _
          then notified e ++ [controller_id peer] else notified e in
        if full then
          '(db, gen) ←
            (if full_snapshot_need_init e
             then db ← generate_snapshot true group
                         (seek MD_SIZE (full_snapshot e));
                  Some (db, generated e ++ [true])
             else Some (full_snapshot e, generated e));
          let snap := add_uint32 input_id (seek 0 db) in
          Some (mkEmission peers' false snap
                  (delta_snapshot_need_init e) (delta_snapshot e)
                  (sent e ++ [mkPacket peer_id true (bits snap)])
                  gen notified')
        else
          '(db, gen) ←
            (if delta_snapshot_need_init e
             then db ← generate_snapshot false group
                         (seek MD_SIZE (delta_snapshot e));
                  Some (db, generated e ++ [false])
             else Some (delta_snapshot e, generated e));
          let snap := add_uint32 input_id (seek 0 db) in
          Some (mkEmission peers'
                  (full_snapshot_need_init e) (full_snapshot e) false snap
                  (sent e ++ [mkPacket peer_id false (bits snap)])
                  gen notified')
  end.

(** The peer loop [for (pi = 0; pi < group.peers.size (); ++pi)]. *)
Fixpoint process_peers (objs : gmap Z ObjectData) (group : SyncGroup)
    (notify_state : bool) (todo : list Z) (e : Emission) : option Emission :=
  match todo with
  | [] => Some e
  | peer_id :: rest =>
      e' ← process_peer objs group notify_state peer_id e;
      process_peers objs group notify_state rest e'
  end.

(** One round of the group loop of [process_snapshot_notificator]: the
    group afterwards and what the peer loop left. *)
Definition process_group (objs : gmap Z ObjectData) (interval p_delta : Q)
    (group : SyncGroup) (pd : gmap Z PeerData)
    : option (SyncGroup * Emission) :=
  match peers group with
  | [] => Some (group, start_emission pd)
  | _ :: _ =>
      let timer := real_add (state_notifier_timer group) p_delta in
      let notify_state := Qle_bool interval timer in
      let group1 := set_timer (if notify_state then 0%Q else timer) group in
      e ← process_peers objs group1 notify_state (peers group1)
            (start_emission pd);
      Some (if notify_state then mark_changes_as_notified group1 else group1,
            e)
  end.

(** The group loop: the groups still to visit, the peers, the packets
    sent so far. *)
Fixpoint process_groups (objs : gmap Z ObjectData) (interval p_delta : Q)
    (todo : list SyncGroup) (pd : gmap Z PeerData)
    : option (list SyncGroup * gmap Z PeerData * list Packet) :=
  match todo with
  | [] => Some ([], pd, [])
  | group :: rest =>
      '(group', e) ← process_group objs interval p_delta group pd;
      '(rest', pd', packets) ←
        process_groups objs interval p_delta rest (em_peer_data e);
      Some (group' :: rest', pd', sent e ++ packets)
  end.

(** [ServerSynchronizer::process_snapshot_notificator]: the state
    afterwards and the packets sent, oldest first. *)
Definition process_snapshot_notificator (p_delta : Q) (st : ServerState)
    : option (ServerState * list Packet) :=
  if bool_decide (peer_data st = ∅) then Some (st, [])
  else
    '(groups, pd, packets) ←
      process_groups (objects st) (server_notify_state_interval st) p_delta
        (sync_groups st) (peer_data st);
    Some (set_peer_data pd (set_sync_groups groups st), packets).

(** *** Facts about the emission *)

Definition count_kind (kind : bool) (gen : list bool) : nat :=
  length (filter (λ b, b = kind) gen).

Definition controllers_valid (objs : gmap Z ObjectData)
    (pd : gmap Z PeerData) : Prop :=
  ∀ q peer, pd !! q = Some peer → is_Some (fetch_input_id objs peer).

Lemma length_uint32_bits v : length (uint32_bits v) = MD_SIZE.
Proof. reflexivity. Qed.

Lemma overlay_header v hdr body o :
  length hdr = MD_SIZE →
  bits (add_uint32 v (seek 0 (mkDataBuffer (hdr ++ body) o))) =
  uint32_bits v ++ body.
Proof.
  intros Hlen. unfold add_uint32, write_bits, seek. cbn [bits bit_offset].
  rewrite length_uint32_bits, take_0. cbn [app Nat.add].
  by rewrite <- Hlen, drop_app_length.
Qed.

(** With net ids that fit, [generate_snapshot] writes the body. *)
Lemma generate_snapshot_fit kind g db :
  simulated_ids_fit g = true →
  generate_snapshot kind g db = Some (write_bits (snapshot_body kind g) db).
Proof.
  intros Hfit. unfold generate_snapshot. rewrite Hfit.
  by rewrite andb_false_r.
Qed.

Lemma first_generation kind g :
  bits (write_bits (snapshot_body kind g) (seek MD_SIZE (begin_write MD_SIZE))) =
  replicate MD_SIZE false ++ snapshot_body kind g.
Proof.
  unfold write_bits, seek, begin_write.
  cbn [bits bit_offset].
  rewrite take_ge by (rewrite length_replicate; lia).
  rewrite drop_ge by (rewrite length_replicate; lia).
  by rewrite app_nil_r.
Qed.

Lemma count_kind_snoc kind gen b :
  count_kind kind (gen ++ [b]) =
  (count_kind kind gen + if bool_decide (b = kind) then 1 else 0)%nat.
Proof.
  unfold count_kind. rewrite filter_app, length_app. f_equal.
  rewrite filter_cons, filter_nil. by repeat case_decide || case_bool_decide.
Qed.

(** What holds of one buffer between two rounds of the peer loop. *)
Definition buffer_ok (g : SyncGroup) (kind need_init : bool)
    (db : DataBuffer) (gen : list bool) (snt : list Packet) : Prop :=
  if need_init then
    bits db = replicate MD_SIZE false ∧ count_kind kind gen = 0%nat ∧
    ∀ pk, pk ∈ snt → is_full pk ≠ kind
  else
    (∃ hdr, length hdr = MD_SIZE ∧ bits db = hdr ++ snapshot_body kind g) ∧
    count_kind kind gen = 1%nat ∧
    ∃ pk, pk ∈ snt ∧ is_full pk = kind.

(** What holds of a packet: its header is the input id of its recipient,
    its body the body of its kind. *)
Definition packet_ok (objs : gmap Z ObjectData) (g : SyncGroup)
    (pd0 : gmap Z PeerData) (pk : Packet) : Prop :=
  ∃ peer id, pd0 !! to_peer pk = Some peer ∧
    fetch_input_id objs peer = Some id ∧
    payload pk = uint32_bits id ++ snapshot_body (is_full pk) g.

Definition emission_ok (objs : gmap Z ObjectData) (g : SyncGroup)
    (pd0 : gmap Z PeerData) (e : Emission) : Prop :=
  buffer_ok g true (full_snapshot_need_init e) (full_snapshot e)
    (generated e) (sent e) ∧
  buffer_ok g false (delta_snapshot_need_init e) (delta_snapshot e)
    (generated e) (sent e) ∧
  (∀ pk, pk ∈ sent e → packet_ok objs g pd0 pk) ∧
  (∀ q peer, em_peer_data e !! q = Some peer →
     ∃ peer0, pd0 !! q = Some peer0 ∧ controller_id peer = controller_id peer0).

Lemma fetch_input_id_controller objs peer peer0 :
  controller_id peer = controller_id peer0 →
  fetch_input_id objs peer = fetch_input_id objs peer0.
Proof. unfold fetch_input_id. by intros ->. Qed.

Lemma emission_ok_start objs g pd : emission_ok objs g pd (start_emission pd).
Proof.
  repeat split; cbn; try done.
  - intros pk Hpk. by apply elem_of_nil in Hpk.
  - intros pk Hpk. by apply elem_of_nil in Hpk.
  - intros pk Hpk. by apply elem_of_nil in Hpk.
  - intros q peer Hq. by exists peer.
Qed.

(** A buffer that is not the one sent keeps its state when a packet of the
    other kind is sent. *)
Lemma buffer_ok_other g kind need_init db gen snt (b : bool) pk :
  is_full pk = negb kind →
  buffer_ok g kind need_init db gen snt →
  buffer_ok g kind need_init db
    (if b then gen ++ [negb kind] else gen) (snt ++ [pk]).
Proof.
  intros Hpk Hok.
  assert (Hcount : count_kind kind (if b then gen ++ [negb kind] else gen) =
                   count_kind kind gen).
  { destruct b; [|done]. rewrite count_kind_snoc.
    case_bool_decide; [by destruct kind|lia]. }
  unfold buffer_ok in *. destruct need_init.
  - destruct Hok as (Hbits & Hgen & Hsnt). rewrite Hcount.
    repeat split; [done..|].
    intros pk' Hin. apply elem_of_app in Hin as [Hin|Hin]; [by apply Hsnt|].
    apply list_elem_of_singleton in Hin as ->. rewrite Hpk. by destruct kind.
  - destruct Hok as (Hbits & Hgen & pk' & Hin & Hkind). rewrite Hcount.
    repeat split; [done..|].
    exists pk'. split; [|done]. apply elem_of_app. by left.
Qed.

(** The buffer that is sent: generated now if it was not yet, and its
    header overlaid. *)
Lemma buffer_ok_sent g kind need_init db gen snt id peer_id :
  simulated_ids_fit g = true →
  buffer_ok g kind need_init db gen snt →
  ∃ db' gen',
    (if need_init
     then db1 ← generate_snapshot kind g (seek MD_SIZE db);
          Some (db1, gen ++ [kind])
     else Some (db, gen)) = Some (db', gen') ∧
    let snap := add_uint32 id (seek 0 db') in
    bits snap = uint32_bits id ++ snapshot_body kind g ∧
    buffer_ok g kind false snap gen'
      (snt ++ [mkPacket peer_id kind (bits snap)]).
Proof.
  intros Hfit Hok. unfold buffer_ok in Hok. destruct need_init.
  - destruct Hok as (Hbits & Hgen & Hsnt).
    rewrite (generate_snapshot_fit _ _ _ Hfit). cbn [mbind option_bind].
    eexists _, _. split; [reflexivity|].
    assert (Hgenerated :
      bits (write_bits (snapshot_body kind g) (seek MD_SIZE db)) =
      replicate MD_SIZE false ++ snapshot_body kind g).
    { rewrite <- first_generation. unfold write_bits, seek.
      cbn [bits bit_offset begin_write]. by rewrite Hbits. }
    lazy beta iota zeta.
    destruct (write_bits (snapshot_body kind g) (seek MD_SIZE db)) as [bs o].
    cbn [bits] in Hgenerated. subst bs.
    rewrite overlay_header by apply length_replicate.
    split; [done|]. unfold buffer_ok. repeat split.
    + exists (uint32_bits id).
      split; [done|apply overlay_header, length_replicate].
    + rewrite count_kind_snoc, Hgen. by rewrite bool_decide_true.
    + eexists. split; [apply elem_of_app; right; apply list_elem_of_here|done].
  - destruct Hok as ((hdr & Hlen & Hbits) & Hgen & Hsnt).
    eexists _, _. split; [reflexivity|].
    lazy beta iota zeta.
    destruct db as [bs o]. cbn [bits] in Hbits. subst bs.
    rewrite overlay_header by done.
    split; [done|]. unfold buffer_ok. repeat split.
    + exists (uint32_bits id). split; [done|by apply overlay_header].
    + done.
    + eexists. split; [apply elem_of_app; right; apply list_elem_of_here|done].
Qed.

Lemma process_peer_ok objs g pd0 notify_state q e :
  controllers_valid objs pd0 → simulated_ids_fit g = true →
  emission_ok objs g pd0 e →
  ∃ e', process_peer objs g notify_state q e = Some e' ∧
        emission_ok objs g pd0 e'.
Proof.
  intros Hvalid Hfit (Hfull & Hdelta & Hsent & Hpeers). unfold process_peer.
  destruct (em_peer_data e !! q) as [peer|] eqn:Hq;
    [|by exists e].
  destruct (negb (force_notify_snapshot peer) && negb notify_state);
    [by exists e|].
  destruct (Hpeers _ _ Hq) as (peer0 & Hq0 & Hcid).
  destruct (Hvalid _ _ Hq0) as [id Hid].
  rewrite (fetch_input_id_controller objs _ _ Hcid), Hid. cbn [mbind option_bind].
  assert (Hpeers' : ∀ q' peer',
    <[q := set_snapshot_flags false false peer]> (em_peer_data e) !! q'
      = Some peer' →
    ∃ peer0', pd0 !! q' = Some peer0' ∧
              controller_id peer' = controller_id peer0').
  { intros q' peer' Hq'. destruct (decide (q = q')) as [<-|Hne].
    - rewrite lookup_insert_eq in Hq'. injection Hq' as <-. by exists peer0.
    - rewrite lookup_insert_ne in Hq' by done. by apply Hpeers. }
  assert (Hpacket : ∀ kind snap,
    bits snap = uint32_bits id ++ snapshot_body kind g →
    ∀ pk, pk ∈ sent e ++ [mkPacket q kind (bits snap)] →
          packet_ok objs g pd0 pk).
  { intros kind snap Hsnap pk Hin.
    apply elem_of_app in Hin as [Hin|Hin]; [by apply Hsent|].
    apply list_elem_of_singleton in Hin as ->. by exists peer0, id. }
  destruct (need_full_snapshot peer).
  - destruct (buffer_ok_sent g true _ _ _ _ id q Hfit Hfull)
      as (db' & gen' & Hnow0 & Hbits & Hnow).
    rewrite Hnow0. cbn [mbind option_bind]. eexists. split; [reflexivity|].
    unfold emission_ok.
    cbn [full_snapshot_need_init full_snapshot delta_snapshot_need_init
         delta_snapshot sent generated em_peer_data].
    split; [exact Hnow|split; [|split; [by apply (Hpacket true)|done]]].
    assert (Hgen : ∃ b : bool,
      gen' = if b then generated e ++ [negb false] else generated e).
    { destruct (full_snapshot_need_init e).
      - exists true. rewrite (generate_snapshot_fit _ _ _ Hfit) in Hnow0.
        by injection Hnow0 as _ <-.
      - exists false. by injection Hnow0 as _ <-. }
    destruct Hgen as [b ->].
    by apply (buffer_ok_other g false _ _ _ _ b).
  - destruct (buffer_ok_sent g false _ _ _ _ id q Hfit Hdelta)
      as (db' & gen' & Hnow0 & Hbits & Hnow).
    rewrite Hnow0. cbn [mbind option_bind]. eexists. split; [reflexivity|].
    unfold emission_ok.
    cbn [full_snapshot_need_init full_snapshot delta_snapshot_need_init
         delta_snapshot sent generated em_peer_data].
    split; [|split; [exact Hnow|split; [by apply (Hpacket false)|done]]].
    assert (Hgen : ∃ b : bool,
      gen' = if b then generated e ++ [negb true] else generated e).
    { destruct (delta_snapshot_need_init e).
      - exists true. rewrite (generate_snapshot_fit _ _ _ Hfit) in Hnow0.
        by injection Hnow0 as _ <-.
      - exists false. by injection Hnow0 as _ <-. }
    destruct Hgen as [b ->].
    by apply (buffer_ok_other g true _ _ _ _ b).
Qed.

Lemma process_peers_ok objs g pd0 notify_state todo : ∀ e,
  controllers_valid objs pd0 → simulated_ids_fit g = true →
  emission_ok objs g pd0 e →
  ∃ e', process_peers objs g notify_state todo e = Some e' ∧
        emission_ok objs g pd0 e'.
Proof.
  induction todo as [|q todo IH]; intros e Hvalid Hfit Hok; [by exists e|].
  destruct (process_peer_ok objs g pd0 notify_state q e Hvalid Hfit Hok)
    as (e1 & Hstep & Hok1).
  cbn [process_peers]. rewrite Hstep. cbn [mbind option_bind].
  by apply IH.
Qed.


(** A peer without a controller object gets [UINT32_MAX] as its header. *)
Lemma fetch_input_id_no_controller objs peer :
  objs !! controller_id peer = None →
  fetch_input_id objs peer = Some UINT32_MAX.
Proof. unfold fetch_input_id. by intros ->. Qed.

(** A peer with a controller gets the controller's current input id. *)
Lemma fetch_input_id_of_controller objs peer od c :
  objs !! controller_id peer = Some od → controller od = Some c →
  fetch_input_id objs peer = Some (current_input_id c).
Proof. unfold fetch_input_id. by intros -> ->. Qed.

(** *** The packets one peer gets *)

Definition to_p (p : Z) (packets : list Packet) : list Packet :=
  filter (λ pk, to_peer pk = p) packets.

Lemma to_p_snoc_other p packets pk :
  to_peer pk ≠ p → to_p p (packets ++ [pk]) = to_p p packets.
Proof.
  intros Hne. unfold to_p.
  by rewrite filter_app, filter_cons_False, filter_nil, app_nil_r.
Qed.

Lemma to_p_snoc_self p packets pk :
  to_peer pk = p → to_p p (packets ++ [pk]) = to_p p packets ++ [pk].
Proof.
  intros Heq. unfold to_p.
  by rewrite filter_app, filter_cons_True, filter_nil.
Qed.

(** A round for another peer leaves this peer's data and packets alone. *)
Lemma process_peer_other objs g notify_state q e e' p :
  q ≠ p → process_peer objs g notify_state q e = Some e' →
  em_peer_data e' !! p = em_peer_data e !! p ∧
  to_p p (sent e') = to_p p (sent e).
Proof.
  intros Hne. unfold process_peer.
  destruct (em_peer_data e !! q) as [peer|]; [|by intros [= <-]].
  destruct (negb (force_notify_snapshot peer) && negb notify_state);
    [by intros [= <-]|].
  destruct (fetch_input_id objs peer) as [id|]; [|done].
  cbn [mbind option_bind].
  destruct (need_full_snapshot peer).
  - destruct (full_snapshot_need_init e);
      [destruct (generate_snapshot _ _ _); [|done]|];
      cbn [mbind option_bind]; intros [= <-];
      cbn [em_peer_data sent]; rewrite lookup_insert_ne by done;
      by rewrite to_p_snoc_other.
  - destruct (delta_snapshot_need_init e);
      [destruct (generate_snapshot _ _ _); [|done]|];
      cbn [mbind option_bind]; intros [= <-];
      cbn [em_peer_data sent]; rewrite lookup_insert_ne by done;
      by rewrite to_p_snoc_other.
Qed.

Lemma process_peers_other objs g notify_state todo p : ∀ e e',
  p ∉ todo → process_peers objs g notify_state todo e = Some e' →
  em_peer_data e' !! p = em_peer_data e !! p ∧
  to_p p (sent e') = to_p p (sent e).
Proof.
  induction todo as [|q todo IH]; intros e e' Hnot; cbn [process_peers].
  - by intros [= <-].
  - apply not_elem_of_cons in Hnot as [Hne Hnot].
    destruct (process_peer objs g notify_state q e) as [e1|] eqn:Hstep;
      [|done].
    cbn [mbind option_bind]. intros Hrest.
    destruct (process_peer_other _ _ _ _ _ _ p (not_eq_sym Hne) Hstep)
      as [H1 H2].
    destruct (IH _ _ Hnot Hrest) as [H3 H4]. split; congruence.
Qed.


Lemma process_peers_app objs g notify_state l1 l2 e :
  process_peers objs g notify_state (l1 ++ l2) e =
  e1 ← process_peers objs g notify_state l1 e;
  process_peers objs g notify_state l2 e1.
Proof.
  revert e. induction l1 as [|q l1 IH]; intros e; [done|].
  cbn [app process_peers].
  destruct (process_peer objs g notify_state q e); [|done]. apply IH.
Qed.


Lemma process_group_other objs interval p_delta g pd g' e p :
  p ∉ peers g → process_group objs interval p_delta g pd = Some (g', e) →
  em_peer_data e !! p = pd !! p ∧ to_p p (sent e) = [].
Proof.
  intros Hnot. unfold process_group.
  destruct (peers g) as [|q0 qs] eqn:Hpeers; [by intros [= <- <-]|].
  match goal with
  | |- context [process_peers ?o ?gr ?n ?t ?s] =>
      destruct (process_peers o gr n t s) as [e1|] eqn:Hrun; [|done]
  end.
  cbn [mbind option_bind]. intros [= <- <-].
  cbn [peers set_timer] in Hrun. rewrite Hpeers in Hrun.
  by apply (process_peers_other _ _ _ _ p) in Hrun.
Qed.


Lemma controllers_valid_emission objs g pd e :
  controllers_valid objs pd → emission_ok objs g pd e →
  controllers_valid objs (em_peer_data e).
Proof.
  intros Hvalid (_ & _ & _ & Hpeers) q peer Hq.
  destruct (Hpeers _ _ Hq) as (peer0 & Hq0 & Hcid).
  rewrite (fetch_input_id_controller objs _ _ Hcid). by eapply Hvalid.
Qed.

Lemma process_group_total objs interval p_delta g pd :
  controllers_valid objs pd → simulated_ids_fit g = true →
  ∃ g' e, process_group objs interval p_delta g pd = Some (g', e) ∧
          controllers_valid objs (em_peer_data e) ∧
          simulated_ids_fit g' = true.
Proof.
  intros Hvalid Hfit. unfold process_group.
  destruct (peers g) as [|q0 qs] eqn:Hpeers; [by eexists _, _|].
  match goal with
  | |- context [process_peers ?o ?gr ?n ?t ?s] =>
      destruct (process_peers_ok o gr pd n t s Hvalid Hfit
                  (emission_ok_start o gr pd)) as (e & Hrun & Hok);
      rewrite Hrun
  end.
  cbn [mbind option_bind]. eexists _, e. split; [done|].
  split; [by eapply controllers_valid_emission|].
  destruct (Qle_bool _ _); [|exact Hfit].
  unfold simulated_ids_fit, realtime_ids, mark_changes_as_notified in Hfit |- *.
  cbn [realtime_sync_nodes set_nodes set_timer] in Hfit |- *.
  rewrite <- list_fmap_compose. exact Hfit.
Qed.

(** The same of every group of a list. *)
Definition all_ids_fit (gs : list SyncGroup) : Prop :=
  Forall (λ g, simulated_ids_fit g = true) gs.

Lemma process_groups_total objs interval p_delta gs : ∀ pd,
  controllers_valid objs pd → all_ids_fit gs →
  ∃ gs' pd' packets,
    process_groups objs interval p_delta gs pd = Some (gs', pd', packets) ∧
    all_ids_fit gs'.
Proof.
  induction gs as [|g gs IH]; intros pd Hvalid Hfit;
    [by eexists _, _, _|].
  apply Forall_cons in Hfit as [Hg Hfit].
  cbn [process_groups].
  destruct (process_group_total objs interval p_delta g pd Hvalid Hg)
    as (g' & e & -> & Hvalid' & Hg').
  cbn [mbind option_bind].
  destruct (IH _ Hvalid' Hfit) as (rest' & pd' & packets & -> & Hrest).
  cbn [mbind option_bind]. eexists _, _, _. split; [done|].
  by apply Forall_cons.
Qed.

Lemma process_groups_other objs interval p_delta gs p : ∀ pd gs' pd' packets,
  Forall (λ g, p ∉ peers g) gs →
  process_groups objs interval p_delta gs pd = Some (gs', pd', packets) →
  pd' !! p = pd !! p ∧ to_p p packets = [].
Proof.
  induction gs as [|g gs IH]; intros pd gs' pd' packets Hnone;
    cbn [process_groups]; [by intros [= <- <- <-]|].
  apply Forall_cons in Hnone as [Hg Hnone].
  destruct (process_group objs interval p_delta g pd) as [[g1 e]|] eqn:Hgroup;
    [|done].
  cbn [mbind option_bind].
  destruct (process_groups objs interval p_delta gs (em_peer_data e))
    as [[[rest' pd1] packets1]|] eqn:Hrest; [|done].
  cbn [mbind option_bind]. intros [= <- <- <-].
  destruct (process_group_other _ _ _ _ _ _ _ p Hg Hgroup) as [H1 H2].
  destruct (IH _ _ _ _ Hnone Hrest) as [H3 H4].
  split; [congruence|]. unfold to_p in *. by rewrite filter_app, H2, H4.
Qed.


(** *** One round of the group loop, seen from one peer *)

(** The test of the peer loop: the peer is served when it is forced or the
    group's state is notified. *)
Definition served (notify_state : bool) (peer : PeerData) : bool :=
  force_notify_snapshot peer || notify_state.

Lemma process_peer_served objs g notify_state p e e' peer :
  em_peer_data e !! p = Some peer → served notify_state peer = true →
  process_peer objs g notify_state p e = Some e' →
  (∃ pk, to_p p (sent e') = to_p p (sent e) ++ [pk] ∧
         is_full pk = need_full_snapshot peer) ∧
  em_peer_data e' !! p = Some (set_snapshot_flags false false peer).
Proof.
  intros Hp Hserved. unfold process_peer. rewrite Hp.
  unfold served in Hserved.
  destruct (force_notify_snapshot peer), notify_state; try done;
    cbn [negb andb];
    (destruct (fetch_input_id objs peer) as [id|]; [|done]);
    cbn [mbind option_bind];
    (destruct (need_full_snapshot peer);
     [destruct (full_snapshot_need_init e)
     |destruct (delta_snapshot_need_init e)]);
    try (destruct (generate_snapshot _ _ _); [|done]);
    cbn [mbind option_bind];
    intros [= <-]; cbn [sent em_peer_data];
    (split; [eexists; split; [by apply to_p_snoc_self|done]
            |apply lookup_insert_eq]).
Qed.

Lemma process_peer_passed_over objs g notify_state p e peer :
  em_peer_data e !! p = Some peer → served notify_state peer = false →
  process_peer objs g notify_state p e = Some e.
Proof.
  intros Hp Hserved. unfold process_peer. rewrite Hp.
  unfold served in Hserved.
  by destruct (force_notify_snapshot peer), notify_state.
Qed.

(** The peer loop, for a peer listed once. *)
Lemma process_peers_for_peer objs g notify_state l1 l2 p e e' peer :
  p ∉ l1 → p ∉ l2 → em_peer_data e !! p = Some peer →
  process_peers objs g notify_state (l1 ++ p :: l2) e = Some e' →
  if served notify_state peer
  then (∃ pk, to_p p (sent e') = to_p p (sent e) ++ [pk] ∧
              is_full pk = need_full_snapshot peer) ∧
       em_peer_data e' !! p = Some (set_snapshot_flags false false peer)
  else to_p p (sent e') = to_p p (sent e) ∧ em_peer_data e' !! p = Some peer.
Proof.
  intros Hl1 Hl2 Hp. rewrite process_peers_app.
  destruct (process_peers objs g notify_state l1 e) as [e1|]
    eqn:H1; [|done].
  cbn [mbind option_bind process_peers].
  destruct (process_peer objs g notify_state p e1) as [e2|]
    eqn:H2; [|done].
  cbn [mbind option_bind]. intros H3.
  destruct (process_peers_other _ _ _ _ _ _ _ Hl1 H1) as [Hd1 Hs1].
  destruct (process_peers_other _ _ _ _ _ _ _ Hl2 H3) as [Hd3 Hs3].
  rewrite <- Hd1 in Hp.
  destruct (served notify_state peer) eqn:Hserved.
  - destruct (process_peer_served _ _ _ _ _ _ _ Hp Hserved H2)
      as [(pk & Hs2 & Hpk) Hd2].
    split; [|congruence]. exists pk. split; [congruence|done].
  - rewrite (process_peer_passed_over _ _ _ _ _ _ Hp Hserved) in H2.
    injection H2 as <-. split; congruence.
Qed.

(** Whether the group's state is notified in a pass that adds [p_delta] to
    its timer: the test [state_notifier_timer >= interval] after the
    [+=]. *)
Definition notifies (interval p_delta : Q) (g : SyncGroup) : bool :=
  Qle_bool interval (real_add (state_notifier_timer g) p_delta).


Lemma process_group_for_peer objs interval p_delta g pd g' e p l1 l2 peer :
  peers g = l1 ++ p :: l2 → p ∉ l1 → p ∉ l2 → pd !! p = Some peer →
  process_group objs interval p_delta g pd = Some (g', e) →
  if served (notifies interval p_delta g) peer
  then (∃ pk, to_p p (sent e) = [pk] ∧ is_full pk = need_full_snapshot peer) ∧
       em_peer_data e !! p = Some (set_snapshot_flags false false peer)
  else to_p p (sent e) = [] ∧ em_peer_data e !! p = Some peer.
Proof.
  intros Hpeers Hl1 Hl2 Hp. unfold process_group.
  destruct (peers g) as [|q0 qs] eqn:Hg; [by destruct l1|].
  match goal with
  | |- context [process_peers ?o ?gr ?n ?t ?s] =>
      destruct (process_peers o gr n t s) as [e1|] eqn:Hrun; [|done]
  end.
  cbn [mbind option_bind]. intros [= <- <-].
  cbn [peers set_timer] in Hrun. rewrite Hg, Hpeers in Hrun.
  by apply (process_peers_for_peer _ _ _ _ _ p _ _ peer) in Hrun.
Qed.




End Emit.

(** *** The global group *)

(** The net ids in the realtime list of group 0, if there is a group 0. *)
Definition global_ids (st : ServerState) : option (list Z) :=
  realtime_ids <$> (sync_groups st !! 0%nat).


(** A step that leaves group 0's objects and the registry alone. *)
Definition same_global (st st' : ServerState) : Prop :=
  global_ids st' = global_ids st ∧ objects st' = objects st.

Lemma same_global_refl st : same_global st st.
Proof. done. Qed.






















Lemma run_calls_snoc calls c st :
  run_calls (calls ++ [c]) st = run_calls calls st ≫= run_call c.
Proof. unfold run_calls. by rewrite foldl_snoc. Qed.



(** *** Moving a peer *)

Lemma erase_not_elem p l : NoDup l → p ∉ erase p l.
Proof.
  induction l as [|y l IH]; cbn; intros Hnd; [by intros H%elem_of_nil|].
  apply NoDup_cons in Hnd as [Hy Hnd].
  destruct (Z.eqb_spec p y) as [->|Hne]; [done|].
  intros [?|?]%elem_of_cons; [done|by apply IH].
Qed.

Lemma erase_subseteq p l q : q ∈ erase p l → q ∈ l.
Proof.
  induction l as [|y l IH]; cbn; [done|].
  destruct (Z.eqb_spec p y) as [->|Hne].
  - apply list_elem_of_further.
  - intros [->|?]%elem_of_cons;
      [apply list_elem_of_here|by apply list_elem_of_further, IH].
Qed.

Lemma NoDup_erase p l : NoDup l → NoDup (erase p l).
Proof.
  induction l as [|y l IH]; cbn; intros Hnd; [done|].
  apply NoDup_cons in Hnd as [Hy Hnd].
  destruct (Z.eqb_spec p y) as [->|Hne]; [done|].
  apply NoDup_cons. split; [|by apply IH].
  intros Hin. by apply Hy, (erase_subseteq p).
Qed.

(** Adding an object to a group changes no peer list and no peer. *)
Lemma add_node_keeps_peers od g rt st :
  peer_data (sync_group_add_node od g rt st).1 = peer_data st ∧
  objects (sync_group_add_node od g rt st).1 = objects st ∧
  ∀ j, peers <$> (sync_groups (sync_group_add_node od g rt st).1 !! j) =
       peers <$> (sync_groups st !! j).
Proof.
  unfold sync_group_add_node. destruct od as [od|]; [|done].
  destruct (negb (group_exists st g)); [done|].
  destruct (g =? GLOBAL_SYNC_GROUP_ID); [done|].
  cbn. repeat split. intros j.
  destruct (decide (Z.to_nat g = j)) as [<-|Hne].
  - rewrite list_lookup_alter_eq.
    destruct (sync_groups st !! Z.to_nat g) as [x|]; cbn; [|done].
    unfold add_new_node. by destruct rt.
  - by rewrite list_lookup_alter_ne.
Qed.

(** *** Net ids that fit 16 bits *)

Lemma simulated_ids_fit_Forall g :
  simulated_ids_fit g = true ↔
  Forall (λ id, net_id_fits id = true) (realtime_ids g).
Proof.
  unfold simulated_ids_fit. induction (realtime_ids g) as [|id ids IH]; cbn.
  - split; [constructor|done].
  - rewrite andb_true_iff, Forall_cons. by rewrite IH.
Qed.

Lemma simulated_ids_fit_add id rt g :
  simulated_ids_fit g = true → net_id_fits id = true →
  simulated_ids_fit (add_new_node id rt g) = true.
Proof.
  rewrite !simulated_ids_fit_Forall. intros Hg Hid.
  unfold add_new_node, realtime_ids in *. destruct rt; cbn.
  - case_bool_decide; [done|]. rewrite fmap_app. apply Forall_app.
    split; [done|]. by apply Forall_singleton.
  - apply Forall_fmap. apply Forall_fmap in Hg.
    rewrite Forall_forall in Hg |- *. intros i Hi.
    apply list_elem_of_filter in Hi as [_ Hi]. by apply Hg.
Qed.

Lemma all_ids_fit_alter f i gs :
  (∀ g, simulated_ids_fit g = true → simulated_ids_fit (f g) = true) →
  all_ids_fit gs → all_ids_fit (alter f i gs).
Proof.
  intros Hf Hgs. unfold all_ids_fit in *. rewrite Forall_lookup in Hgs |- *.
  intros j g Hj. destruct (decide (i = j)) as [<-|Hne].
  - rewrite list_lookup_alter_eq in Hj.
    destruct (gs !! i) as [g0|] eqn:Hi; [|done]. injection Hj as <-.
    by eapply Hf, Hgs.
  - rewrite list_lookup_alter_ne in Hj by done. by eapply Hgs.
Qed.

Lemma all_ids_fit_fmap f gs :
  (∀ g, simulated_ids_fit g = true → simulated_ids_fit (f g) = true) →
  all_ids_fit gs → all_ids_fit (f <$> gs).
Proof.
  intros Hf Hgs. unfold all_ids_fit in *. apply Forall_fmap.
  eapply Forall_impl; [exact Hgs|]. exact Hf.
Qed.

(** The controller of a peer, where it is a registered object, has a net
    id that fits. *)
Definition controller_fits (st : ServerState) (p : Z) : Prop :=
  ∀ pd, peer_data st !! p = Some pd →
    is_Some (objects st !! controller_id pd) →
    net_id_fits (controller_id pd) = true.

Lemma add_node_ids_fit od g rt st :
  all_ids_fit (sync_groups st) →
  (∀ id, od = Some id → net_id_fits id = true) →
  all_ids_fit (sync_groups (sync_group_add_node od g rt st).1).
Proof.
  intros Hst Hod. unfold sync_group_add_node. destruct od as [id|]; [|done].
  destruct (negb (group_exists st g)); [done|].
  destruct (g =? GLOBAL_SYNC_GROUP_ID); [done|].
  cbn. apply all_ids_fit_alter; [|done].
  intros g0 Hg0. apply simulated_ids_fit_add; [done|]. by apply Hod.
Qed.

Lemma server_move_ids_fit p gid st :
  all_ids_fit (sync_groups st) → controller_fits st p →
  all_ids_fit (sync_groups (server_sync_group_move_peer_to p gid st).1).
Proof.
  intros Hst Hc. unfold server_sync_group_move_peer_to.
  set (st1 := set_sync_groups _ st).
  assert (H1 : all_ids_fit (sync_groups st1)).
  { cbn. by apply all_ids_fit_fmap. }
  destruct (gid =? UINT32_MAX); [done|].
  destruct (negb (group_exists st1 gid)); [done|].
  set (st2 := set_sync_groups _ st1).
  assert (H2 : all_ids_fit (sync_groups st2)).
  { cbn. by apply all_ids_fit_alter. }
  destruct (peer_data st2 !! p) as [pd|] eqn:Hp; [|done].
  set (st3 := set_peer_data _ st2).
  destruct (objects st3 !! controller_id pd) eqn:Hobj; [|done].
  cbn [fst]. apply add_node_ids_fit; [done|].
  intros id [= <-]. by apply (Hc pd).
Qed.


Section Moving.

Variable snapshot_body : bool → SyncGroup → list bool.
Variable is_realtime_node_list_changed : SyncGroup → bool.
Variable real_add : Q → Q → Q.


End Moving.

(** *** Each peer is listed at most once per group *)

Definition subscribed_once (st : ServerState) : Prop :=
  Forall (λ g, NoDup (peers g)) (sync_groups st).

Lemma subscribed_once_fmap f st :
  (∀ g, NoDup (peers g) → NoDup (peers (f g))) →
  subscribed_once st →
  subscribed_once (set_sync_groups (f <$> sync_groups st) st).
Proof.
  intros Hf Hst. unfold subscribed_once in *. cbn.
  apply Forall_fmap. eapply Forall_impl; [exact Hst|]. exact Hf.
Qed.

Lemma subscribed_once_alter f i st :
  (∀ g, NoDup (peers g) → NoDup (peers (f g))) →
  subscribed_once st →
  subscribed_once (set_sync_groups (alter f i (sync_groups st)) st).
Proof.
  intros Hf Hst. unfold subscribed_once in *. cbn.
  apply Forall_lookup. intros j g Hj.
  destruct (decide (i = j)) as [<-|Hne].
  - rewrite list_lookup_alter_eq in Hj.
    destruct (sync_groups st !! i) as [g0|] eqn:Hi; [|done].
    injection Hj as <-. apply Hf.
    by eapply (proj1 (Forall_lookup _ _) Hst).
  - rewrite list_lookup_alter_ne in Hj by done.
    by eapply (proj1 (Forall_lookup _ _) Hst).
Qed.

Lemma subscribed_once_add_node od g rt st :
  subscribed_once st → subscribed_once (sync_group_add_node od g rt st).1.
Proof.
  intros Hst. unfold sync_group_add_node. destruct od as [od|]; [|done].
  destruct (negb (group_exists st g)); [done|].
  destruct (g =? GLOBAL_SYNC_GROUP_ID); [done|].
  apply subscribed_once_alter; [|done].
  intros g0. unfold add_new_node. by destruct rt.
Qed.

Lemma subscribed_once_server_move p g st :
  subscribed_once st →
  subscribed_once (server_sync_group_move_peer_to p g st).1.
Proof.
  intros Hst. unfold server_sync_group_move_peer_to.
  set (st1 := set_sync_groups _ st).
  assert (H1 : subscribed_once st1 ∧
               Forall (λ g, p ∉ peers g) (sync_groups st1)).
  { split.
    - apply subscribed_once_fmap; [|done]. intros g0. apply NoDup_erase.
    - cbn. apply Forall_fmap. eapply Forall_impl; [exact Hst|].
      intros g0. apply erase_not_elem. }
  destruct H1 as [H1 Hnot].
  destruct (g =? UINT32_MAX); [done|].
  destruct (negb (group_exists st1 g)); [done|].
  set (st2 := set_sync_groups _ st1).
  assert (H2 : subscribed_once st2).
  { unfold subscribed_once, st2. cbn [sync_groups set_sync_groups].
    apply Forall_lookup. intros j g0 Hj.
    destruct (decide (Z.to_nat g = j)) as [<-|Hne].
    - rewrite list_lookup_alter_eq in Hj.
      destruct (sync_groups st1 !! Z.to_nat g) as [g1|] eqn:Hi; [|done].
      injection Hj as <-. cbn.
      apply NoDup_app. split; [|split].
      + by eapply (proj1 (Forall_lookup _ _) H1).
      + intros q Hq ->%list_elem_of_singleton.
        by eapply (proj1 (Forall_lookup _ _) Hnot).
      + apply NoDup_singleton.
    - rewrite list_lookup_alter_ne in Hj by done.
      by eapply (proj1 (Forall_lookup _ _) H1). }
  destruct (peer_data st2 !! p) as [pd|]; [|done].
  destruct (objects _ !! controller_id pd); [|done]. cbn [fst].
  by apply subscribed_once_add_node.
Qed.

(** No call makes a group list a peer twice. *)
Lemma subscribed_once_call c st st' :
  run_call c st = Some st' → subscribed_once st → subscribed_once st'.
Proof.
  intros Hrun Hst.
  destruct c as [net_id od|net_id| |od group rt|od group|group rt df|group
                |peer group|fresh peer|peer| ]; cbn [run_call] in Hrun;
    try (injection Hrun as <-).
  - unfold register_app_object, on_object_data_added in Hrun.
    destruct (sync_groups _ !! _); [|done].
    assert (H1 : subscribed_once
      (set_sync_groups
         (alter (add_new_node net_id true) (Z.to_nat GLOBAL_SYNC_GROUP_ID)
            (sync_groups st))
         (set_objects (<[net_id := od]> (objects st)) st))).
    { by apply (subscribed_once_alter _ _ (set_objects _ st)). }
    destruct (controller od) as [c|]; [|by injection Hrun as <-].
    by destruct (get_peer_for_controller _ c); injection Hrun as <-.
  - unfold drop_object_data, on_object_data_removed.
    by apply (subscribed_once_fmap _ st).
  - unfold subscribed_once in *. cbn. apply Forall_app. split; [done|].
    apply Forall_singleton. apply NoDup_nil_2.
  - by apply subscribed_once_add_node.
  - unfold sync_group_remove_node. destruct od as [od|]; [|done].
    destruct (negb (group_exists st group)); [done|].
    destruct (group =? GLOBAL_SYNC_GROUP_ID); [done|].
    by apply subscribed_once_alter.
  - unfold sync_group_replace_nodes.
    destruct (negb (group_exists st group)); [done|].
    destruct (group =? GLOBAL_SYNC_GROUP_ID); [done|].
    by apply subscribed_once_alter.
  - unfold sync_group_remove_all_nodes.
    destruct (negb (group_exists st group)); [done|].
    destruct (group =? GLOBAL_SYNC_GROUP_ID); [done|].
    by apply subscribed_once_alter.
  - unfold sync_group_move_peer_to.
    destruct (peer_data st !! peer) as [pd|]; [|done].
    destruct (sync_group_id pd =? group); [done|].
    by apply subscribed_once_server_move.
  - unfold on_peer_connected. by apply subscribed_once_server_move.
  - unfold peer_disconnected, on_peer_disconnected.
    apply (subscribed_once_fmap _ (set_peer_data _ st)); [|done].
    intros g0. apply NoDup_erase.
  - apply Forall_nil_2.
Qed.

Lemma subscribed_once_reachable interval calls : ∀ st,
  run_calls calls (new_server interval) = Some st → subscribed_once st.
Proof.
  induction calls as [|c calls IH] using rev_ind; intros st Hrun.
  - injection Hrun as <-. apply Forall_singleton. apply NoDup_nil_2.
  - rewrite run_calls_snoc in Hrun.
    destruct (run_calls calls (new_server interval)) as [st0|]; [|done].
    cbn [mbind option_bind] in Hrun.
    eapply subscribed_once_call; [exact Hrun|]. by apply IH.
Qed.

End Server.

(** ** Worked servers: two peers in one group, and a peer that is moved *)
Module ServerExamples.
Import Server.

(** Bodies that only tell the kind of the snapshot. *)
Definition two_bodies (full : bool) (_ : SyncGroup) : list bool :=
  if full then [true; true; false] else [false; true].

(** A group whose list of realtime objects counts as changed at every
    snapshot, and timers added without rounding. *)
Definition always_changed (_ : SyncGroup) : bool := true.
Definition exact_add (a b : Q) : Q := (a + b)%Q.

(** One object with a controller at input id 41, owned by peer 5. *)
Definition pawn_objects : gmap Z ObjectData :=
  {[ 3 := mkObjectData "pawn" (Some (mkController 41 5)) true ]}.

(** Peer 5 controls the pawn, peer 6 controls nothing; both are new. *)
Definition two_peers : gmap Z PeerData :=
  {[ 5 := mkPeerData true 3 0 true true;
     6 := mkPeerData true ObjectNetId_NONE 0 true true ]}.

Definition shared_group : SyncGroup :=
  mkSyncGroup [mkRealtimeNodeInfo 3 (mkChange true [])] [] [5; 6] 0%Q 0.


(** The two peers of the group get the same full body, generated once,
    under different headers: input id 41 for peer 5, [UINT32_MAX] for
    peer 6. *)
Lemma same_body_two_headers :
  ∃ g' e,
    process_group two_bodies always_changed exact_add pawn_objects 1%Q
      (1 # 60)%Q shared_group two_peers = Some (g', e) ∧
    sent e = [mkPacket 5 true (uint32_bits 41 ++ [true; true; false]);
              mkPacket 6 true (uint32_bits UINT32_MAX ++ [true; true; false])] ∧
    generated e = [true].
Proof. eexists _, _. split; [reflexivity|]. split; reflexivity. Qed.

(** An object whose net id does not fit 16 bits aborts the round. *)
Lemma wide_net_id_aborts :
  process_group two_bodies always_changed exact_add pawn_objects 1%Q
    (1 # 60)%Q
    (mkSyncGroup [mkRealtimeNodeInfo 65536 (mkChange true [])] [] [5; 6] 0%Q 0)
    two_peers = None.
Proof. reflexivity. Qed.


(** A server with a second group; peer 5 connected and sits in group 0. *)
Definition fresh_peer : PeerData :=
  mkPeerData true ObjectNetId_NONE 0 false false.

(** A new server after calls that complete. *)
Definition server_after (calls : list Call) : ServerState :=
  default (new_server 1%Q) (run_calls calls (new_server 1%Q)).

Definition small_server : ServerState :=
  server_after [SyncGroupCreate; PeerConnected fresh_peer 5].

Lemma small_server_reached :
  run_calls [SyncGroupCreate; PeerConnected fresh_peer 5] (new_server 1%Q) =
    Some small_server.
Proof. reflexivity. Qed.










End ServerExamples.

(** ** Configuration errors *)
Module ConfigurationErrors.

(** A host that can read no variable. *)
Definition deaf_host (_ : Z) (_ : string) : option variant := None.

(** One registered object without variables. *)
Definition bare_scene : Registry.SceneSynchronizerBase :=
  Registry.mkBase [Registry.mkObjectData "player" 7 []] [] 0
    false false false false [].

(** C3 as stated fails on both operations.  Registering the unreadable
    variable "ghost" gives the object a slot; moving peer 5 to the missing
    group 9 records group 9 for the peer and takes the peer out of group 0's
    peer list. *)
Lemma configuration_errors_change_state :
  (Registry.vars <$> Registry.objects bare_scene !! 0%nat = Some [] ∧
   Registry.register_variable deaf_host 0 "ghost" bare_scene =
     (Registry.mkBase
        [Registry.mkObjectData "player" 7
           [Registry.mkVarDescriptor 0 (mkNameAndVar "ghost" VNil)
              false true []]]
        [] 0 false false false false [],
      Registry.RegisteredWithError)) ∧
  (Server.group_exists ServerExamples.small_server 9 = false ∧
   Server.sync_group_id <$>
     Server.peer_data ServerExamples.small_server !! 5 = Some 0 ∧
   Server.peers <$> Server.sync_groups ServerExamples.small_server
     = [[5]; []] ∧
   let '(st', status) :=
     Server.sync_group_move_peer_to 5 9 ServerExamples.small_server in
   status = Server.Failed ∧
   Server.sync_group_id <$> Server.peer_data st' !! 5 = Some 9 ∧
   Server.peers <$> Server.sync_groups st' = [[]; []]).
Proof. by vm_compute. Qed.

(** What the move to a missing group leaves, where the id recorded for the
    peer is another one: the server erases the peer from every list before
    it looks at the group id, unlike the guards of the other group calls,
    which return before they change anything. *)
Lemma move_to_missing_group st p gid pd :
  Server.peer_data st !! p = Some pd →
  Server.sync_group_id pd ≠ gid →
  Server.group_exists st gid = false →
  Server.sync_group_move_peer_to p gid st =
    (Server.mkServer
       (<[p := Server.set_sync_group_id gid pd]> (Server.peer_data st))
       (Server.objects st)
       ((λ g, Server.set_peers (Server.erase p (Server.peers g)) g)
          <$> Server.sync_groups st)
       (Server.server_notify_state_interval st),
     if gid =? UINT32_MAX then Server.Done else Server.Failed).
Proof.
  intros Hp Hgroup Hex.
  unfold Server.sync_group_move_peer_to. rewrite Hp.
  destruct (Z.eqb_spec (Server.sync_group_id pd) gid) as [?|_]; [done|].
  unfold Server.server_sync_group_move_peer_to.
  destruct (gid =? UINT32_MAX); [done|].
  replace (Server.group_exists _ gid) with false; [done|].
  unfold Server.group_exists in *. cbn. by rewrite length_fmap.
Qed.

(** C3 (amended).  [register_variable] for a registered object and a name
    that is not empty, is not among the object's slots and cannot be read by
    the host reports the error and appends the slot all the same: with a nil
    value, enabled, under the next slot id; the slots the object had and
    the other objects stay as they were. *)
Theorem configuration_errors_reported_not_undone get_variable p_id name b od :
  p_id ≠ Registry.ObjectLocalId_NONE → name ≠ "" →
  Registry.get_object_data b p_id = Some od →
  Forall (λ v, nv_name (Registry.var v) ≠ name) (Registry.vars od) →
  get_variable (Registry.app_object_handle od) name = None →
  Registry.register_variable get_variable p_id name b =
    (Registry.set_objects
       (<[Z.to_nat p_id :=
            Registry.set_vars
              (Registry.vars od ++
                 [Registry.mkVarDescriptor
                    (Z.of_nat (length (Registry.vars od)))
                    (mkNameAndVar name VNil) false true []]) od]>
          (Registry.objects b)) b,
     Registry.RegisteredWithError).
Proof. apply Registry.register_unreadable_appends. Qed.

Lemma configuration_errors_reported_not_undone_witness :
  Registry.register_variable deaf_host 0 "ghost" bare_scene =
    (Registry.set_objects
       (<[Z.to_nat 0 :=
            Registry.set_vars
              ([] ++ [Registry.mkVarDescriptor (Z.of_nat 0)
                        (mkNameAndVar "ghost" VNil) false true []])
              (Registry.mkObjectData "player" 7 [])]>
          (Registry.objects bare_scene)) bare_scene,
     Registry.RegisteredWithError).
Proof.
  apply (configuration_errors_reported_not_undone deaf_host 0 "ghost"
           bare_scene (Registry.mkObjectData "player" 7 [])).
  - by vm_compute.
  - by vm_compute.
  - reflexivity.
  - constructor.
  - reflexivity.
Defined.

End ConfigurationErrors.

(** ** Parsing a received snapshot on the client *)
Module Parse.

Definition ObjectNetId_NONE : Z := UINT32_MAX.

(** Modelled from the spec: the reading side of the [DataBuffer], defined
    outside the embedded files.  The buffer is the sequence of typed values
    written into it; a read of the expected type takes the next value, any
    other read marks the buffer as failed and yields the type's default. *)
Inductive Token :=
| TUInt (v : Z)
| TUInt8 (v : Z)
| TBool (b : bool)
| TString (s : string)
| TVariant (v : variant).

Record DataBuffer := mkDataBuffer {
  pending : list Token;
  buffer_failed : bool }.

Definition fail (db : DataBuffer) : DataBuffer := mkDataBuffer (pending db) true.

Definition read_uint (db : DataBuffer) : Z * DataBuffer :=
  match buffer_failed db, pending db with
  | false, TUInt v :: rest => (v, mkDataBuffer rest false)
  | _, _ => (0, fail db)
  end.

Definition read_uint8 (db : DataBuffer) : Z * DataBuffer :=
  match buffer_failed db, pending db with
  | false, TUInt8 v :: rest => (v, mkDataBuffer rest false)
  | _, _ => (0, fail db)
  end.

Definition read_bool (db : DataBuffer) : bool * DataBuffer :=
  match buffer_failed db, pending db with
  | false, TBool b :: rest => (b, mkDataBuffer rest false)
  | _, _ => (false, fail db)
  end.

Definition read_string (db : DataBuffer) : string * DataBuffer :=
  match buffer_failed db, pending db with
  | false, TString s :: rest => (s, mkDataBuffer rest false)
  | _, _ => (""%string, fail db)
  end.

Definition read_variant (db : DataBuffer) : variant * DataBuffer :=
  match buffer_failed db, pending db with
  | false, TVariant v :: rest => (v, mkDataBuffer rest false)
  | _, _ => (VNil, fail db)
  end.

Record VarSlot := mkVarSlot {
  vd_id : Z;
  vd_name : string }.

(** [ObjectData] as the parser reads it; its position in the storage is
    its local id. *)
Record ObjectData := mkObjectData {
  net_id : Z;
  object_name : string;
  app_object_handle : Z;
  vars : list VarSlot;
  has_controller : bool }.

Definition set_net_id (id : Z) (od : ObjectData) : ObjectData :=
  mkObjectData id (object_name od) (app_object_handle od) (vars od)
    (has_controller od).

(** The calls of the parse callbacks. *)
Inductive ParseEvent :=
| InputIdParsed (input_id : Z)
| CustomDataParsed (data : variant)
| NodeParsed (local_id : nat)
| ControllerParsed (local_id : nat)
| VariableParsed (local_id : nat) (var_id : Z) (value : variant)
| NodeActivationParsed (local_id : nat) (is_active : bool).

(** The client state the parser reads and writes, the buffer, and the
    callback calls so far.  [full_snapshot_requests] counts the calls of the
    "need full snapshot" RPC. *)
Record Parser := mkParser {
  objects : list ObjectData;
  objects_names : gmap Z string;
  need_full_snapshot_notified : bool;
  full_snapshot_requests : nat;
  db : DataBuffer;
  events : list ParseEvent }.

Definition set_db (d : DataBuffer) (p : Parser) : Parser :=
  mkParser (objects p) (objects_names p) (need_full_snapshot_notified p)
    (full_snapshot_requests p) d (events p).

Definition add_event (e : ParseEvent) (p : Parser) : Parser :=
  mkParser (objects p) (objects_names p) (need_full_snapshot_notified p)
    (full_snapshot_requests p) (db p) (events p ++ [e]).

Definition set_objects (o : list ObjectData) (p : Parser) : Parser :=
  mkParser o (objects_names p) (need_full_snapshot_notified p)
    (full_snapshot_requests p) (db p) (events p).

Definition set_objects_names (n : gmap Z string) (p : Parser) : Parser :=
  mkParser (objects p) n (need_full_snapshot_notified p)
    (full_snapshot_requests p) (db p) (events p).

(** [ClientSynchronizer::notify_server_full_snapshot_is_needed]. *)
Definition notify_server_full_snapshot_is_needed (p : Parser) : Parser :=
  if need_full_snapshot_notified p then p
  else mkParser (objects p) (objects_names p) true
         (S (full_snapshot_requests p)) (db p) (events p).

(** [get_object_data (net_id, false)]: the local id of the object with
    this net id. *)
Definition get_object_data (objs : list ObjectData) (id : Z) : option nat :=
  fst <$> list_find (λ od, net_id od = id) objs.

(** [find_object_local_id (handle)]. *)
Definition find_object_local_id (objs : list ObjectData) (handle : Z)
    : option nat :=
  fst <$> list_find (λ od, app_object_handle od = handle) objs.

(** How a record or the whole parse ended. *)
Inductive Step := Next | Stop | Corrupted.

Section WithHost.

(** [SynchronizerManager::fetch_app_object]: the handle of the object with
    this name, [None] for [ObjectHandle::NONE]. *)
Variable fetch_app_object : string → option Z.
(** What [register_app_object] stores for a handle that is not registered
    yet, once the host's callbacks have run: name, controller, and the
    variables the host registers in [setup_synchronizer_for]. *)
Variable new_object_data : Z → ObjectData.

(** [register_app_object (handle, &id)] on a client, which generates no
    net id. *)
Definition register_app_object (handle : Z) (objs : list ObjectData)
    : list ObjectData * nat :=
  match find_object_local_id objs handle with
  | Some id => (objs, id)
  | None =>
      (objs ++ [set_net_id ObjectNetId_NONE (new_object_data handle)],
       length objs)
  end.

(** The loop that skips the variables of an object that is not known. *)
Fixpoint skip_variables (vars_count : nat) (d : DataBuffer) : DataBuffer :=
  match vars_count with
  | O => d
  | S n =>
      let '(var_has_value, d1) := read_bool d in
      skip_variables n (if var_has_value then (read_variant d1).2 else d1)
  end.

(** The loop over the variables of a known object; [false] is
    [return false]. *)
Fixpoint parse_variables (local_id : nat) (slots : list VarSlot)
    (p : Parser) : bool * Parser :=
  match slots with
  | [] => (true, p)
  | var_desc :: rest =>
      let '(var_has_value, d1) := read_bool (db p) in
      if buffer_failed d1 then (false, set_db d1 p)
      else if var_has_value then
        let '(value, d2) := read_variant d1 in
        if buffer_failed d2 then (false, set_db d2 p)
        else
          parse_variables local_id rest
            (add_event (VariableParsed local_id (vd_id var_desc) value)
               (set_db d2 p))
      else parse_variables local_id rest (set_db d1 p)
  end.

(** The part of the object loop that looks for the [ObjectData] of a net
    id that is not registered: by the name of the record, else by the name
    remembered for the net id; the result is the local id, if any. *)
Definition resolve_unknown_object (id : Z) (object_name : string)
    (p : Parser) : Parser * option nat :=
  let '(object_name, p1) :=
    if String.eqb object_name "" then
      match objects_names p !! id with
      | None => (object_name, notify_server_full_snapshot_is_needed p)
      | Some known => (known, p)
      end
    else (object_name, p) in
  match fetch_app_object object_name with
  | None => (p1, None)
  | Some app_object_handle =>
      let '(objs, reg_obj_id) :=
        register_app_object app_object_handle (objects p1) in
      (set_objects (alter (set_net_id id) reg_obj_id objs) p1,
       Some reg_obj_id)
  end.

(** The second half of a round of the object loop, from
    [const bool skip_object = synchronizer_object_data == nullptr;] on. *)
Definition parse_object_variables (synchronizer_object_data : option nat)
    (p4 : Parser) : Step * Parser :=
  let p5 :=
    match synchronizer_object_data with
    | None => p4
    | Some local_id =>
        let p' := add_event (NodeParsed local_id) p4 in
        if default false (has_controller <$> objects p4 !! local_id)
        then add_event (ControllerParsed local_id) p'
        else p'
    end in
  let '(vars_count, d4) := read_uint8 (db p5) in
  if buffer_failed d4 then (Corrupted, set_db d4 p5)
  else
    match synchronizer_object_data with
    | None => (Next, set_db (skip_variables (Z.to_nat vars_count) d4) p5)
    | Some local_id =>
        let '(ok, p6) :=
          parse_variables local_id
            (default [] (vars <$> objects p5 !! local_id)) (set_db d4 p5) in
        (if ok then Next else Corrupted, p6)
    end.

(** One round of the object loop of [parse_sync_data]. *)
Definition parse_object (p : Parser) : Step * Parser :=
  let '(id, d1) := read_uint (db p) in
  if buffer_failed d1 then (Corrupted, set_db d1 p)
  else if id =? ObjectNetId_NONE then (Stop, set_db d1 p)
  else
    let '(has_object_name, d2) := read_bool d1 in
    if buffer_failed d2 then (Corrupted, set_db d2 p)
    else
      let '(object_name, d3) :=
        if has_object_name then read_string d2 else (""%string, d2) in
      if buffer_failed d3 then (Corrupted, set_db d3 p)
      else
        let names :=
          if has_object_name then
            match objects_names p !! id with
            | Some _ => objects_names p
            | None => <[id := object_name]> (objects_names p)
            end
          else objects_names p in
        let p3 := set_objects_names names (set_db d3 p) in
        let '(p4, synchronizer_object_data) :=
          match get_object_data (objects p3) id with
          | Some local_id => (p3, Some local_id)
          | None => resolve_unknown_object id object_name p3
          end in
        parse_object_variables synchronizer_object_data p4.

(** The object loop; [None] when the rounds allowed are used up. *)
Fixpoint parse_objects (rounds : nat) (p : Parser) : option (bool * Parser) :=
  match rounds with
  | O => None
  | S n =>
      match parse_object p with
      | (Next, p') => parse_objects n p'
      | (Stop, p') => Some (true, p')
      | (Corrupted, p') => Some (false, p')
      end
  end.

(** The loop that reads the list of active objects. *)
Fixpoint read_active_objects (rounds : nat) (d : DataBuffer)
    (active_objects : list Z) : option (bool * DataBuffer * list Z) :=
  match rounds with
  | O => None
  | S n =>
      let '(id, d1) := read_uint d in
      if buffer_failed d1 then Some (false, d1, active_objects)
      else if id =? ObjectNetId_NONE then Some (true, d1, active_objects)
      else read_active_objects n d1 (active_objects ++ [id])
  end.

(** [ns_find] and [erase]: remove the first occurrence. *)
Fixpoint erase (x : Z) (l : list Z) : list Z :=
  match l with
  | [] => []
  | y :: rest => if x =? y then rest else y :: erase x rest
  end.

(** Modelled from the spec: [objects_data_storage.get_sorted_objects_data
    ()], defined outside the embedded files.  The vector holds the
    registered objects by net id: [get_biggest_node_id] takes its size less
    one for the biggest net id, and [update_client_snapshot] looks up every
    net id below its size.  It holds [nullptr] where no object has the net
    id, and an object without a net id is not in it.  An object is given
    with its local id. *)
Definition get_sorted_objects_data (objs : list ObjectData)
    : list (option (nat * ObjectData)) :=
  let size :=
    foldr (λ od n, if net_id od =? ObjectNetId_NONE then n
                   else Z.max n (net_id od + 1)) 0 objs in
  (λ n, list_find (λ od, net_id od = Z.of_nat n) objs)
    <$> seq 0 (Z.to_nat size).

(** The loop over [get_sorted_objects_data ()] that reports which objects
    are active. *)
Fixpoint report_activation (todo : list (option (nat * ObjectData)))
    (active_objects : list Z) (evs : list ParseEvent)
    : list Z * list ParseEvent :=
  match todo with
  | [] => (active_objects, evs)
  | None :: rest => report_activation rest active_objects evs
  | Some (local_id, od) :: rest =>
      let is_active := bool_decide (net_id od ∈ active_objects) in
      report_activation rest
        (if is_active then erase (net_id od) active_objects
         else active_objects)
        (evs ++ [NodeActivationParsed local_id is_active])
  end.

(** [ClientSynchronizer::parse_sync_data]: the value returned and the
    state afterwards.  Each round of a loop takes at least one value from
    the buffer, so one more round than there are values is allowed. *)
Definition parse_sync_data (p : Parser) : option (bool * Parser) :=
  let rounds := S (length (pending (db p))) in
  match pending (db p) with
  | [] => Some (true, p)
  | _ :: _ =>
      let '(input_id, d1) := read_uint (db p) in
      if buffer_failed d1 then Some (false, set_db d1 p)
      else
        let p1 := add_event (InputIdParsed input_id) (set_db d1 p) in
        let '(has_active_list_array, d2) := read_bool d1 in
        if buffer_failed d2 then Some (false, set_db d2 p1)
        else
          '(ok, d3, active_objects) ←
            (if has_active_list_array then read_active_objects rounds d2 []
             else Some (true, d2, []));
          if negb ok then Some (false, set_db d3 p1)
          else
            let '(has_custom_data, d4) := read_bool d3 in
            let p4 :=
              if has_custom_data then
                let '(vd, d5) := read_variant d4 in
                add_event (CustomDataParsed vd) (set_db d5 p1)
              else set_db d4 p1 in
            '(ok, p5) ← parse_objects rounds p4;
            if negb ok then Some (false, p5)
            else
              let '(left_over, evs) :=
                if has_active_list_array then
                  report_activation (get_sorted_objects_data (objects p5))
                    active_objects (events p5)
                else (active_objects, events p5) in
              let p6 :=
                mkParser (objects p5) (objects_names p5)
                  (need_full_snapshot_notified p5)
                  (full_snapshot_requests p5) (db p5) evs in
              Some (true,
                    if bool_decide (left_over = []) then p6
                    else notify_server_full_snapshot_is_needed p6)
  end.

(** *** The parse always returns *)

Definition remaining (d : DataBuffer) : nat := length (pending d).

(** All the cases of one typed read: the buffer failed or not, empty or
    starting with a value of each type. *)
Ltac read_cases d :=
  destruct d as [[|[] ?] []]; cbn; intros; try done; try lia.

Lemma read_uint_le d : (remaining (read_uint d).2 ≤ remaining d)%nat.
Proof.
  unfold read_uint, remaining. read_cases d.
Qed.

Lemma read_uint_lt d :
  buffer_failed (read_uint d).2 = false →
  (remaining (read_uint d).2 < remaining d)%nat.
Proof.
  unfold read_uint, remaining. read_cases d.
Qed.

Lemma read_uint8_le d : (remaining (read_uint8 d).2 ≤ remaining d)%nat.
Proof.
  unfold read_uint8, remaining. read_cases d.
Qed.

Lemma read_bool_le d : (remaining (read_bool d).2 ≤ remaining d)%nat.
Proof.
  unfold read_bool, remaining. read_cases d.
Qed.

Lemma read_string_le d : (remaining (read_string d).2 ≤ remaining d)%nat.
Proof.
  unfold read_string, remaining. read_cases d.
Qed.

Lemma read_variant_le d : (remaining (read_variant d).2 ≤ remaining d)%nat.
Proof.
  unfold read_variant, remaining. read_cases d.
Qed.

Lemma skip_variables_le n : ∀ d,
  (remaining (skip_variables n d) ≤ remaining d)%nat.
Proof.
  induction n as [|n IH]; intros d; cbn [skip_variables]; [done|].
  pose proof (read_bool_le d) as Hb.
  destruct (read_bool d) as [b d1]. cbn [snd] in Hb.
  destruct b.
  - pose proof (read_variant_le d1). pose proof (IH (read_variant d1).2). lia.
  - pose proof (IH d1). lia.
Qed.

Lemma parse_variables_le local_id slots : ∀ p,
  (remaining (db (parse_variables local_id slots p).2) ≤ remaining (db p))%nat.
Proof.
  induction slots as [|slot slots IH]; intros p; cbn [parse_variables];
    [done|].
  pose proof (read_bool_le (db p)) as Hb.
  destruct (read_bool (db p)) as [b d1]. cbn [snd] in Hb.
  destruct (buffer_failed d1); [done|].
  destruct b.
  - pose proof (read_variant_le d1) as Hv.
    destruct (read_variant d1) as [v d2]. cbn [snd] in Hv.
    destruct (buffer_failed d2); [cbn; lia|].
    etrans; [apply IH|]. cbn. lia.
  - etrans; [apply IH|]. done.
Qed.

Lemma resolve_unknown_object_db id object_name p :
  db (resolve_unknown_object id object_name p).1 = db p.
Proof.
  unfold resolve_unknown_object, notify_server_full_snapshot_is_needed.
  destruct (String.eqb object_name "").
  - destruct (objects_names p !! id).
    + destruct (fetch_app_object _); [|done].
      by destruct (register_app_object _ _).
    + destruct (fetch_app_object _);
        [destruct (register_app_object _ _)|];
        by destruct (need_full_snapshot_notified p).
  - destruct (fetch_app_object _); [|done].
    by destruct (register_app_object _ _).
Qed.

Lemma parse_object_variables_le sod p4 :
  (remaining (db (parse_object_variables sod p4).2) ≤ remaining (db p4))%nat.
Proof.
  unfold parse_object_variables.
  set (p5 := match sod with Some _ => _ | None => p4 end).
  assert (H5 : db p5 = db p4).
  { unfold p5. destruct sod as [local_id|]; [|done].
    by destruct (default false _). }
  pose proof (read_uint8_le (db p5)) as H8.
  destruct (read_uint8 (db p5)) as [vars_count d4]. cbn [snd] in H8.
  rewrite H5 in H8.
  destruct (buffer_failed d4); [done|].
  destruct sod as [local_id|].
  - pose proof (parse_variables_le local_id
                  (default [] (vars <$> objects p5 !! local_id))
                  (set_db d4 p5)) as Hv.
    destruct (parse_variables _ _ _) as [ok p6]. cbn in *. lia.
  - cbn. pose proof (skip_variables_le (Z.to_nat vars_count) d4). lia.
Qed.

Lemma parse_object_next p p' :
  parse_object p = (Next, p') →
  (remaining (db p') < remaining (db p))%nat.
Proof.
  unfold parse_object.
  pose proof (read_uint_lt (db p)) as H1.
  destruct (read_uint (db p)) as [id d1]. cbn [snd] in H1.
  destruct (buffer_failed d1); [done|]. specialize (H1 eq_refl).
  destruct (id =? ObjectNetId_NONE); [done|].
  pose proof (read_bool_le d1) as H2.
  destruct (read_bool d1) as [has_object_name d2]. cbn [snd] in H2.
  destruct (buffer_failed d2); [done|].
  assert (H3 : (remaining
    (if has_object_name then read_string d2 else (""%string, d2)).2
      ≤ remaining d2)%nat).
  { destruct has_object_name; [apply read_string_le|done]. }
  destruct (if has_object_name then read_string d2 else (""%string, d2))
    as [object_name d3]. cbn [snd] in H3.
  destruct (buffer_failed d3); [done|].
  match goal with
  | |- context [resolve_unknown_object ?i ?n ?q] =>
      pose proof (resolve_unknown_object_db i n q) as H4;
      set (p3 := q) in *
  end.
  destruct (get_object_data (objects p3) id) as [local_id|].
  - pose proof (parse_object_variables_le (Some local_id) p3) as H5.
    intros Heq. rewrite Heq in H5. cbn in H5. lia.
  - destruct (resolve_unknown_object id object_name p3) as [p4 sod].
    cbn [fst] in H4.
    pose proof (parse_object_variables_le sod p4) as H5.
    intros Heq. rewrite Heq, H4 in H5. cbn in H5. lia.
Qed.

Lemma parse_objects_total rounds : ∀ p,
  (remaining (db p) < rounds)%nat → is_Some (parse_objects rounds p).
Proof.
  induction rounds as [|n IH]; intros p Hlt; [lia|].
  cbn [parse_objects].
  destruct (parse_object p) as [[| |] p'] eqn:Hstep; [|done|done].
  apply IH. apply parse_object_next in Hstep. lia.
Qed.

Lemma read_active_objects_total rounds : ∀ d acc,
  (remaining d < rounds)%nat →
  ∃ ok d' acc', read_active_objects rounds d acc = Some (ok, d', acc') ∧
                (remaining d' ≤ remaining d)%nat.
Proof.
  induction rounds as [|n IH]; intros d acc Hlt; [lia|].
  cbn [read_active_objects].
  pose proof (read_uint_lt d) as H1. pose proof (read_uint_le d) as H2.
  destruct (read_uint d) as [id d1]. cbn [snd] in *.
  destruct (buffer_failed d1); [by eexists _, _, _|].
  specialize (H1 eq_refl).
  destruct (id =? ObjectNetId_NONE); [by eexists _, _, _|].
  destruct (IH d1 (acc ++ [id])) as (ok & d' & acc' & -> & Hle); [lia|].
  eexists _, _, _. split; [done|]. lia.
Qed.

(** [parse_sync_data] returns on every buffer: the rounds allowed to its
    loops are never used up. *)
Lemma parse_sync_data_total p : is_Some (parse_sync_data p).
Proof.
  unfold parse_sync_data.
  destruct (pending (db p)) as [|t ts] eqn:Hpending; [done|].
  assert (Hlen : remaining (db p) = length (t :: ts))
    by (unfold remaining; by rewrite Hpending).
  pose proof (read_uint_le (db p)) as H1.
  destruct (read_uint (db p)) as [input_id d1]. cbn [snd] in H1.
  destruct (buffer_failed d1); [done|].
  pose proof (read_bool_le d1) as H2.
  destruct (read_bool d1) as [has_active_list_array d2]. cbn [snd] in H2.
  destruct (buffer_failed d2); [done|].
  assert (Hactive : ∃ ok d3 active,
    (if has_active_list_array
     then read_active_objects (S (length (t :: ts))) d2 []
     else Some (true, d2, [])) = Some (ok, d3, active) ∧
    (remaining d3 ≤ remaining d2)%nat).
  { destruct has_active_list_array; [|by eexists _, _, _].
    apply read_active_objects_total. lia. }
  destruct Hactive as (ok & d3 & active & -> & H3).
  cbn [mbind option_bind]. destruct ok; [|done]. cbn [negb].
  pose proof (read_bool_le d3) as H4.
  destruct (read_bool d3) as [has_custom_data d4]. cbn [snd] in H4.
  match goal with
  | |- context [parse_objects ?n ?q] =>
      destruct (parse_objects_total n q) as [[ok p5] ->]
  end.
  { destruct has_custom_data.
    - pose proof (read_variant_le d4) as H5.
      destruct (read_variant d4) as [vd d5]. cbn in *. lia.
    - cbn in *. lia. }
  cbn [mbind option_bind]. destruct ok; [|done]. cbn [negb].
  by destruct (if has_active_list_array then _ else _).
Qed.

(** *** Object records as token sequences *)

Definition var_tokens (v : option variant) : list Token :=
  match v with
  | None => [TBool false]
  | Some x => [TBool true; TVariant x]
  end.

(** An object record: net id, optional name, declared variable count and
    one optional value per variable. *)
Definition record_tokens (id : Z) (name : option string)
    (values : list (option variant)) : list Token :=
  TUInt id ::
  match name with
  | Some n => [TBool true; TString n]
  | None => [TBool false]
  end ++
  TUInt8 (Z.of_nat (length values)) :: concat (var_tokens <$> values).

(** The names remembered after the record has been read. *)
Definition remember (id : Z) (name : option string) (names : gmap Z string)
    : gmap Z string :=
  match name, names !! id with
  | Some n, None => <[id := n]> names
  | _, _ => names
  end.

(** The name the object is looked up by: the one in the record, else the
    one remembered for the net id. *)
Definition effective_name (id : Z) (name : option string)
    (names : gmap Z string) : option string :=
  match name with
  | Some n => Some n
  | None => names !! id
  end.

(** The callback calls for the values of a record. *)
Fixpoint variable_events (local_id : nat) (slots : list VarSlot)
    (values : list (option variant)) : list ParseEvent :=
  match slots, values with
  | slot :: slots', Some x :: values' =>
      VariableParsed local_id (vd_id slot) x ::
      variable_events local_id slots' values'
  | _ :: slots', None :: values' => variable_events local_id slots' values'
  | _, _ => []
  end.

Lemma skip_variables_tokens values rest :
  skip_variables (length values)
    (mkDataBuffer (concat (var_tokens <$> values) ++ rest) false) =
  mkDataBuffer rest false.
Proof.
  induction values as [|[x|] values IH]; [done|exact IH|exact IH].
Qed.

Lemma parse_variables_tokens local_id : ∀ slots values rest p,
  length slots = length values →
  db p = mkDataBuffer (concat (var_tokens <$> values) ++ rest) false →
  parse_variables local_id slots p =
    (true,
     mkParser (objects p) (objects_names p) (need_full_snapshot_notified p)
       (full_snapshot_requests p) (mkDataBuffer rest false)
       (events p ++ variable_events local_id slots values)).
Proof.
  induction slots as [|slot slots IH]; intros [|v values] rest p Hlen Hdb;
    try done.
  - cbn in *. rewrite app_nil_r. destruct p. cbn in *. by subst.
  - injection Hlen as Hlen. cbn [parse_variables]. rewrite Hdb.
    destruct v as [x|]; cbn.
    + rewrite (IH values rest) by done. cbn. by rewrite <- app_assoc.
    + by rewrite (IH values rest) by done.
Qed.

Lemma parse_object_variables_skip p4 values rest :
  db p4 = mkDataBuffer
            (TUInt8 (Z.of_nat (length values)) ::
             concat (var_tokens <$> values) ++ rest) false →
  parse_object_variables None p4 =
    (Next, set_db (mkDataBuffer rest false) p4).
Proof.
  intros Hdb. unfold parse_object_variables. rewrite Hdb.
  cbn [read_uint8 buffer_failed pending].
  by rewrite Nat2Z.id, skip_variables_tokens.
Qed.

Lemma parse_object_variables_known p4 local_id od values rest :
  db p4 = mkDataBuffer
            (TUInt8 (Z.of_nat (length values)) ::
             concat (var_tokens <$> values) ++ rest) false →
  objects p4 !! local_id = Some od →
  length (vars od) = length values →
  parse_object_variables (Some local_id) p4 =
    (Next,
     mkParser (objects p4) (objects_names p4) (need_full_snapshot_notified p4)
       (full_snapshot_requests p4) (mkDataBuffer rest false)
       (events p4 ++
          NodeParsed local_id ::
          (if has_controller od then [ControllerParsed local_id] else []) ++
          variable_events local_id (vars od) values)).
Proof.
  intros Hdb Hod Hlen. unfold parse_object_variables. rewrite Hod.
  cbn [fmap option_fmap option_map default from_option Datatypes.id].
  destruct (has_controller od); cbn [add_event db objects];
    rewrite Hdb; cbn [read_uint8 buffer_failed pending];
    rewrite Hod;
    cbn [fmap option_fmap option_map default from_option Datatypes.id];
    erewrite parse_variables_tokens by (done || reflexivity);
    cbn; by rewrite <- ?app_assoc.
Qed.

(** *** The list of active objects and the end of the parse *)

Lemma read_active_objects_ids ids : ∀ acc rest rounds,
  Forall (λ id, id ≠ ObjectNetId_NONE) ids →
  (length ids < rounds)%nat →
  read_active_objects rounds
    (mkDataBuffer ((TUInt <$> ids) ++ TUInt ObjectNetId_NONE :: rest) false)
    acc = Some (true, mkDataBuffer rest false, acc ++ ids).
Proof.
  induction ids as [|id ids IH]; intros acc rest rounds Hall Hlt;
    (destruct rounds as [|n]; [cbn in Hlt; lia|]); cbn [read_active_objects].
  - cbn. by rewrite app_nil_r.
  - apply Forall_cons in Hall as [Hid Hall].
    cbn [fmap list_fmap app read_uint buffer_failed pending].
    destruct (Z.eqb_spec id ObjectNetId_NONE) as [?|_]; [done|].
    rewrite IH; [|done|cbn in Hlt; lia]. by rewrite <- app_assoc.
Qed.

Lemma erase_keeps_other x id l : x ≠ id → id ∈ l → id ∈ erase x l.
Proof.
  intros Hne. induction l as [|y l IH]; cbn; [done|].
  destruct (Z.eqb_spec x y) as [->|Hxy].
  - intros [?|?]%elem_of_cons; [congruence|done].
  - intros [->|?]%elem_of_cons;
      [apply list_elem_of_here|by apply list_elem_of_further, IH].
Qed.

(** The activation loop takes from the list only net ids of objects it
    visits. *)
Lemma report_activation_left_over todo : ∀ active evs id,
  id ∈ active →
  (∀ local od, Some (local, od) ∈ todo → net_id od ≠ id) →
  id ∈ (report_activation todo active evs).1.
Proof.
  induction todo as [|[[local od]|] todo IH]; intros active evs id Hin Hother;
    cbn [report_activation]; [done| |].
  - apply IH.
    + case_bool_decide; [|done].
      apply erase_keeps_other; [|done].
      apply (Hother local), list_elem_of_here.
    + intros local' od' Hin'. by apply (Hother local'), list_elem_of_further.
  - apply IH; [done|].
    intros local' od' Hin'. by apply (Hother local'), list_elem_of_further.
Qed.

(** An object of the table is registered, under its net id. *)
Lemma sorted_objects_registered objs local od :
  Some (local, od) ∈ get_sorted_objects_data objs →
  get_object_data objs (net_id od) = Some local.
Proof.
  unfold get_sorted_objects_data. intros Hin.
  apply list_elem_of_fmap in Hin as (n & Hfind & _). symmetry in Hfind.
  pose proof Hfind as (_ & Hid & _)%list_find_Some.
  unfold get_object_data. by rewrite Hid, Hfind.
Qed.

(** The tokens of the optional custom data. *)
Definition custom_data_tokens (custom : option variant) : list Token :=
  match custom with
  | Some vd => [TBool true; TVariant vd]
  | None => [TBool false]
  end.

(** The parser once the head of a snapshot has been read. *)
Definition head_parsed (input_id : Z) (custom : option variant)
    (body : list Token) (p : Parser) : Parser :=
  mkParser (objects p) (objects_names p) (need_full_snapshot_notified p)
    (full_snapshot_requests p) (mkDataBuffer body false)
    (events p ++
       InputIdParsed input_id ::
       match custom with Some vd => [CustomDataParsed vd] | None => [] end).

(** A snapshot without the list of active objects: the parse is the
    object loop, and its end adds nothing. *)
Lemma parse_without_active_list p input_id custom body :
  db p = mkDataBuffer
           (TUInt input_id :: TBool false ::
            custom_data_tokens custom ++ body) false →
  parse_sync_data p =
    parse_objects (S (length (pending (db p))))
      (head_parsed input_id custom body p).
Proof.
  intros Hdb. unfold parse_sync_data, head_parsed. rewrite Hdb.
  cbn [pending read_uint read_bool buffer_failed mbind option_bind negb].
  destruct custom as [vd|];
    cbn [custom_data_tokens app read_bool read_variant buffer_failed pending];
    unfold add_event, set_db;
    cbn [objects objects_names need_full_snapshot_notified
         full_snapshot_requests db events];
    rewrite <- ?app_assoc; cbn [app];
    (destruct (parse_objects _ _) as [[[] [? ? ? ? ? ?]]|]; done).
Qed.

(** A snapshot with the list of active objects, accepted: when the list
    names a net id that no registered object has, the latch is closed at the
    end. *)
Lemma parse_with_left_over p input_id ids tail p' id :
  db p = mkDataBuffer
           (TUInt input_id :: TBool true ::
            (TUInt <$> ids) ++ TUInt ObjectNetId_NONE :: tail) false →
  Forall (λ id, id ≠ ObjectNetId_NONE) ids →
  parse_sync_data p = Some (true, p') →
  id ∈ ids → get_object_data (objects p') id = None →
  need_full_snapshot_notified p' = true.
Proof.
  intros Hdb Hids Hparse Hin Hunknown. unfold parse_sync_data in Hparse.
  rewrite Hdb in Hparse.
  cbn [pending read_uint read_bool buffer_failed] in Hparse.
  rewrite (read_active_objects_ids ids [] tail) in Hparse;
    [|done|cbn [length]; rewrite length_app, length_fmap; lia].
  cbn [mbind option_bind negb app] in Hparse.
  destruct (read_bool (mkDataBuffer tail false)) as [has_custom_data d4].
  destruct (parse_objects _ _) as [[ok p5]|]; [|done].
  cbn [mbind option_bind] in Hparse. destruct ok; [|done].
  cbn [negb] in Hparse.
  pose proof (report_activation_left_over
                (get_sorted_objects_data (objects p5)) ids (events p5) id Hin)
    as Hleft.
  destruct (report_activation _ _ _) as [left_over evs].
  injection Hparse as <-.
  assert (Hobjs : ∀ q : Parser,
    objects (if bool_decide (left_over = []) then q
             else notify_server_full_snapshot_is_needed q) = objects q).
  { intros q. case_bool_decide; [done|].
    unfold notify_server_full_snapshot_is_needed.
    by destruct (need_full_snapshot_notified q). }
  rewrite Hobjs in Hunknown. cbn [objects] in Hunknown.
  cbn [fst] in Hleft.
  rewrite bool_decide_false.
  - unfold notify_server_full_snapshot_is_needed.
    cbn [need_full_snapshot_notified].
    by destruct (need_full_snapshot_notified p5) eqn:Hlatch.
  - intros ->. apply (elem_of_nil id), Hleft.
    intros local od Hod Hid.
    apply sorted_objects_registered in Hod. congruence.
Qed.

(** A record for a net id that names no registered object, read from a
    well-formed buffer.  If the host resolves the name (the one in the
    record, else the one remembered for the net id), the object is
    registered under the received net id and its values are handed to the
    variable callback, without a full-snapshot request.  If the host does
    not resolve it, the object's values are taken from the buffer, no
    callback is called and no object is registered; the record makes a
    request only when no name is known for the net id. *)
Lemma unknown_object_record_parsed p id name values rest :
  db p = mkDataBuffer (record_tokens id name values ++ rest) false →
  id ≠ ObjectNetId_NONE → name ≠ Some ""%string →
  get_object_data (objects p) id = None →
  let names' := remember id name (objects_names p) in
  let known := effective_name id name (objects_names p) in
  (∀ n h, known = Some n → fetch_app_object n = Some h →
     find_object_local_id (objects p) h = None →
     length (vars (new_object_data h)) = length values →
     parse_object p =
       (Next,
        mkParser (objects p ++ [set_net_id id (new_object_data h)]) names'
          (need_full_snapshot_notified p) (full_snapshot_requests p)
          (mkDataBuffer rest false)
          (events p ++
             NodeParsed (length (objects p)) ::
             (if has_controller (new_object_data h)
              then [ControllerParsed (length (objects p))] else []) ++
             variable_events (length (objects p))
               (vars (new_object_data h)) values))) ∧
  (∀ n, known = Some n → fetch_app_object n = None →
     parse_object p =
       (Next,
        mkParser (objects p) names' (need_full_snapshot_notified p)
          (full_snapshot_requests p) (mkDataBuffer rest false) (events p))) ∧
  (known = None → fetch_app_object "" = None →
     parse_object p =
       (Next,
        mkParser (objects p) names' true
          (if need_full_snapshot_notified p then full_snapshot_requests p
           else S (full_snapshot_requests p))
          (mkDataBuffer rest false) (events p))).
Proof.
  intros Hdb Hid Hname Hunknown. cbn zeta.
  assert (Hhead : parse_object p =
    let '(p4, synchronizer_object_data) :=
      resolve_unknown_object id (default ""%string name)
        (mkParser (objects p) (remember id name (objects_names p))
           (need_full_snapshot_notified p) (full_snapshot_requests p)
           (mkDataBuffer
              (TUInt8 (Z.of_nat (length values)) ::
               concat (var_tokens <$> values) ++ rest) false)
           (events p)) in
    parse_object_variables synchronizer_object_data p4).
  { unfold parse_object. rewrite Hdb.
    unfold record_tokens. cbn [read_uint buffer_failed pending app].
    destruct (Z.eqb_spec id ObjectNetId_NONE) as [?|_]; [done|].
    destruct name as [n|];
      cbn [read_bool read_string buffer_failed pending app default];
      cbn [set_objects_names set_db objects]; rewrite Hunknown;
      unfold remember; cbn [objects_names]; done. }
  rewrite Hhead. clear Hhead. unfold resolve_unknown_object.
  cbn [objects_names objects].
  assert (Hresolved : ∀ p3 h,
    objects p3 = objects p →
    db p3 = mkDataBuffer
              (TUInt8 (Z.of_nat (length values)) ::
               concat (var_tokens <$> values) ++ rest) false →
    find_object_local_id (objects p) h = None →
    length (vars (new_object_data h)) = length values →
    (let '(p4, synchronizer_object_data) :=
       let '(objs, reg_obj_id) := register_app_object h (objects p3) in
       (set_objects (alter (set_net_id id) reg_obj_id objs) p3,
        Some reg_obj_id) in
     parse_object_variables synchronizer_object_data p4) =
    (Next,
     mkParser (objects p ++ [set_net_id id (new_object_data h)])
       (objects_names p3) (need_full_snapshot_notified p3)
       (full_snapshot_requests p3) (mkDataBuffer rest false)
       (events p3 ++
          NodeParsed (length (objects p)) ::
          (if has_controller (new_object_data h)
           then [ControllerParsed (length (objects p))] else []) ++
          variable_events (length (objects p))
            (vars (new_object_data h)) values))).
  { intros p3 h Hobjs Hdb3 Hfresh Hlen.
    unfold register_app_object. rewrite Hobjs, Hfresh.
    assert (Halter :
      alter (set_net_id id) (length (objects p))
        (objects p ++ [set_net_id ObjectNetId_NONE (new_object_data h)]) =
      objects p ++ [set_net_id id (new_object_data h)]).
    { rewrite alter_app_r_alt by lia.
      by rewrite Nat.sub_diag. }
    rewrite Halter.
    erewrite (parse_object_variables_known _ (length (objects p))
                (set_net_id id (new_object_data h)) values rest);
      [done|done| |done].
    cbn [set_objects objects].
    by rewrite lookup_app_r, Nat.sub_diag by lia. }
  destruct name as [n|];
    cbn [default from_option Datatypes.id effective_name remember].
  - assert (Hn : n ≠ ""%string) by congruence.
    destruct (String.eqb_spec n "") as [?|_]; [done|].
    repeat split.
    + intros n' h [= <-] Hfetch Hfresh Hlen. rewrite Hfetch.
      by rewrite (Hresolved _ h).
    + intros n' [= <-] Hfetch. rewrite Hfetch.
      by erewrite parse_object_variables_skip.
    + destruct (objects_names p !! id); done.
  - cbn [String.eqb]. 
    destruct (objects_names p !! id) as [known|] eqn:Hknown.
    + repeat split; [| |done].
      * intros n' h [= <-] Hfetch Hfresh Hlen. rewrite Hfetch.
        by rewrite (Hresolved _ h).
      * intros n' [= <-] Hfetch. rewrite Hfetch.
        by erewrite parse_object_variables_skip.
    + repeat split; [done|done|].
      intros _ Hfetch. rewrite Hfetch.
      unfold notify_server_full_snapshot_is_needed.
      cbn [need_full_snapshot_notified].
      destruct (need_full_snapshot_notified p) eqn:Hnotified;
        erewrite parse_object_variables_skip by reflexivity;
        cbn; by rewrite ?Hnotified.
Qed.

End WithHost.

(** *** A host that knows one object, "tree" *)

Definition tree_host (name : string) : option Z :=
  if String.eqb name "tree" then Some 11 else None.

Definition tree_object (_ : Z) : ObjectData :=
  mkObjectData ObjectNetId_NONE "tree" 11 [mkVarSlot 0 "height"] false.

(** A client that knows no object yet, about to parse these values. *)
Definition fresh_parser (tokens : list Token) : Parser :=
  mkParser [] ∅ false 0 (mkDataBuffer tokens false) [].

(** A delta snapshot (no list of active objects, no custom data) with one
    record: net id 7, name "rock", one variable with value 9. *)
Definition rock_snapshot : list Token :=
  [TUInt 5; TBool false; TBool false] ++
  record_tokens 7 (Some "rock"%string) [Some (VInt 9)] ++
  [TUInt ObjectNetId_NONE].

(** The same record in a full snapshot that lists net id 7 as active. *)
Definition listed_rock_snapshot : list Token :=
  [TUInt 5; TBool true; TUInt 7; TUInt ObjectNetId_NONE; TBool false] ++
  record_tokens 7 (Some "rock"%string) [Some (VInt 9)] ++
  [TUInt ObjectNetId_NONE].

(** A full snapshot listing net id 7 as active, with one record: net id
    7, name "tree", one variable with value 9. *)
Definition tree_snapshot : list Token :=
  [TUInt 5; TBool true; TUInt 7; TUInt ObjectNetId_NONE; TBool false] ++
  record_tokens 7 (Some "tree"%string) [Some (VInt 9)] ++
  [TUInt ObjectNetId_NONE].

(** C9 as stated fails for an object whose name is known and which the
    host cannot resolve: the record's variables are taken from the buffer,
    the parse succeeds, and no full snapshot is requested. *)
Lemma unresolved_named_object_no_request :
  get_object_data (objects (fresh_parser rock_snapshot)) 7 = None ∧
  tree_host "rock" = None ∧
  parse_sync_data tree_host tree_object (fresh_parser rock_snapshot) =
    Some (true,
          mkParser [] {[ 7 := "rock"%string ]} false 0
            (mkDataBuffer [] false) [InputIdParsed 5]).
Proof. by vm_compute. Qed.

(** The object is resolved by name, registered under net id 7, and its
    value is handed on; no full snapshot is requested. *)
Lemma resolved_object_is_registered :
  parse_sync_data tree_host tree_object (fresh_parser tree_snapshot) =
    Some (true,
          mkParser [mkObjectData 7 "tree" 11 [mkVarSlot 0 "height"] false]
            {[ 7 := "tree"%string ]} false 0 (mkDataBuffer [] false)
            [InputIdParsed 5; NodeParsed 0; VariableParsed 0 0 (VInt 9);
             NodeActivationParsed 0 true]).
Proof. by vm_compute. Qed.

End Parse.

(** ** Deferred sync: interpolation between two epochs on the client *)
Module Deferred.

Local Open Scope Q_scope.

(** [FLT_MAX]. *)
Definition FLT_MAX : Q := 340282346638528859811704183484516925440 # 1.

(** [DeferredSyncInterpolationData].  The object is named by its net id;
    the buffers are bit sequences.  [alpha] and its step are of the C++ type
    [real_t]: their values are rationals here, and what the platform's
    arithmetic makes of them is left open ([real_div] and [real_add]
    below). *)
Record DeferredSyncInterpolationData := mkStream {
  nd : Z;
  past_epoch_buffer : list bool;
  future_epoch_buffer : list bool;
  past_epoch : Z;
  future_epoch : Z;
  alpha_advacing_per_epoch : Q;
  alpha : Q }.

(** [DeferredSyncInterpolationData (p_nd)], with the default member
    initializers. *)
Definition new_stream (p_nd : Z) : DeferredSyncInterpolationData :=
  mkStream p_nd [] [] UINT32_MAX UINT32_MAX 1 0.

(** One call of [apply_epoch_func]: the object, then the four arguments. *)
Record ApplyEpochCall := mkApplyEpochCall {
  call_nd : Z;
  call_delta : Q;
  call_alpha : Q;
  call_past : list bool;
  call_future : list bool }.

(** A deferred-sync packet once its framing is decoded: the epoch, then
    for each object its net id and its bits.  The framing checks of the
    source only cut this list short. *)
Record DeferredPacket := mkDeferredPacket {
  epoch : Z;
  entries : list (Z * list bool) }.

(** The literal [1.2]: the double nearest to it,
    [0x3FF3333333333333]. *)
Definition overshoot_bound : Q := 5404319552844595 # 4503599627370496.

(** [stream.alpha > 1.2], a comparison of doubles. *)
Definition past_overshoot (a : Q) : bool :=
  negb (Qle_bool a overshoot_bound).

Section WithHost.

(** The quotient of two doubles as the platform computes it and stores it
    in a [real_t]; nothing is assumed of it. *)
Variable real_div : Q → Q → Q.
(** The sum of two [real_t] values as the platform computes and rounds it;
    nothing is assumed of it. *)
Variable real_add : Q → Q → Q.
(** [get_object_data (node_id, false) != nullptr]. *)
Variable is_registered : Z → bool.
(** [collect_epoch_func] of an object: the bits it writes for the
    object's current state, and whether the call was [CALL_OK]. *)
Variable collect_epoch : Z → list bool * bool.

(** Steps 1 to 3 of the loop of [receive_deferred_sync_data] for one
    object, on its stream.  The two epochs are below [2 ^ 32], so that their
    doubles and the difference of these are exact. *)
Definition receive_stream (p_epoch : Z) (future_buffer_data : list bool)
    (stream : DeferredSyncInterpolationData) : DeferredSyncInterpolationData :=
  let '(collected, call_ok) := collect_epoch (nd stream) in
  if negb call_ok then
    mkStream (nd stream) collected future_buffer_data (past_epoch stream)
      (future_epoch stream) (alpha_advacing_per_epoch stream) (alpha stream)
  else
    let past := future_epoch stream in
    let future := p_epoch in
    if (past <? future)%Z then
      mkStream (nd stream) collected future_buffer_data past future
        (real_div 1 (inject_Z future - inject_Z past)) 0
    else
      mkStream (nd stream) collected future_buffer_data past future
        FLT_MAX FLT_MAX.

(** One round of the loop of [receive_deferred_sync_data]. *)
Definition receive_entry (p_epoch : Z) (entry : Z * list bool)
    (deferred_sync_array : list DeferredSyncInterpolationData)
    : list DeferredSyncInterpolationData :=
  let '(node_id, future_buffer_data) := entry in
  if negb (is_registered node_id) then deferred_sync_array
  else
    match list_find (λ s, nd s = node_id) deferred_sync_array with
    | Some (index, _) =>
        alter (receive_stream p_epoch future_buffer_data) index
          deferred_sync_array
    | None =>
        deferred_sync_array ++
          [receive_stream p_epoch future_buffer_data (new_stream node_id)]
    end.

(** [ClientSynchronizer::receive_deferred_sync_data]. *)
Definition receive_deferred_sync_data (packet : DeferredPacket)
    (deferred_sync_array : list DeferredSyncInterpolationData)
    : list DeferredSyncInterpolationData :=
  foldl (λ array entry, receive_entry (epoch packet) entry array)
    deferred_sync_array (entries packet).

(** One round of the loop of [process_received_deferred_sync_data]: the
    stream afterwards and the call of [apply_epoch_func], if any. *)
Definition process_stream (p_delta : Q)
    (stream : DeferredSyncInterpolationData)
    : DeferredSyncInterpolationData * list ApplyEpochCall :=
  if past_overshoot (alpha stream) then (stream, [])
  else
    let alpha' := real_add (alpha stream) (alpha_advacing_per_epoch stream) in
    (mkStream (nd stream) (past_epoch_buffer stream)
       (future_epoch_buffer stream) (past_epoch stream) (future_epoch stream)
       (alpha_advacing_per_epoch stream) alpha',
     [mkApplyEpochCall (nd stream) p_delta alpha' (past_epoch_buffer stream)
        (future_epoch_buffer stream)]).

(** [ClientSynchronizer::process_received_deferred_sync_data]: the streams
    afterwards and the calls of [apply_epoch_func], oldest first. *)
Fixpoint process_received_deferred_sync_data (p_delta : Q)
    (deferred_sync_array : list DeferredSyncInterpolationData)
    : list DeferredSyncInterpolationData * list ApplyEpochCall :=
  match deferred_sync_array with
  | [] => ([], [])
  | stream :: rest =>
      let '(stream', calls) := process_stream p_delta stream in
      let '(rest', calls') :=
        process_received_deferred_sync_data p_delta rest in
      (stream' :: rest', calls ++ calls')
  end.

(** [n] ticks on one stream. *)
Fixpoint ticks (n : nat) (p_delta : Q) (stream : DeferredSyncInterpolationData)
    : DeferredSyncInterpolationData * list ApplyEpochCall :=
  match n with
  | O => (stream, [])
  | S n' =>
      let '(stream', calls) := process_stream p_delta stream in
      let '(stream'', calls') := ticks n' p_delta stream' in
      (stream'', calls ++ calls')
  end.

(** *** What a packet and a tick do to a stream *)

Lemma process_stream_idle p_delta stream :
  past_overshoot (alpha stream) = true →
  process_stream p_delta stream = (stream, []).
Proof. intros H. unfold process_stream. by rewrite H. Qed.

Lemma ticks_idle n p_delta stream :
  past_overshoot (alpha stream) = true →
  ticks n p_delta stream = (stream, []).
Proof.
  intros H. induction n as [|n IH]; [done|].
  cbn [ticks]. by rewrite process_stream_idle, IH.
Qed.

(** C7 (amended).  A packet with a newer epoch for a registered object
    with a stream, where [collect_epoch] succeeds: the old future epoch
    becomes the past epoch, the received bits and epoch become the future,
    the past buffer becomes what [collect_epoch] reads from the object now,
    the step becomes the quotient of 1 and [future - past] as the platform
    divides, and alpha 0; where [collect_epoch] fails only the two buffers
    change.  A tick on a stream whose alpha does not exceed 1.2 replaces
    alpha by the sum of alpha and the step as the platform adds, and calls
    [apply_epoch] with the new alpha and the two buffers; once alpha exceeds
    1.2, no number of ticks changes the stream or calls [apply_epoch]. *)
Theorem deferred_stream_interpolation :
  (∀ p_epoch node_id data array index stream collected call_ok,
     is_registered node_id = true →
     list_find (λ s, nd s = node_id) array = Some (index, stream) →
     collect_epoch (nd stream) = (collected, call_ok) →
     (future_epoch stream < p_epoch)%Z →
     receive_entry p_epoch (node_id, data) array =
       <[index :=
           if call_ok then
             mkStream (nd stream) collected data (future_epoch stream) p_epoch
               (real_div 1
                  (inject_Z p_epoch - inject_Z (future_epoch stream))) 0
           else
             mkStream (nd stream) collected data (past_epoch stream)
               (future_epoch stream) (alpha_advacing_per_epoch stream)
               (alpha stream)]>
         array) ∧
  (∀ p_delta stream,
     past_overshoot (alpha stream) = false →
     process_stream p_delta stream =
       (mkStream (nd stream) (past_epoch_buffer stream)
          (future_epoch_buffer stream) (past_epoch stream)
          (future_epoch stream) (alpha_advacing_per_epoch stream)
          (real_add (alpha stream) (alpha_advacing_per_epoch stream)),
        [mkApplyEpochCall (nd stream) p_delta
           (real_add (alpha stream) (alpha_advacing_per_epoch stream))
           (past_epoch_buffer stream) (future_epoch_buffer stream)])) ∧
  (∀ n p_delta stream,
     past_overshoot (alpha stream) = true →
     ticks n p_delta stream = (stream, [])).
Proof.
  split; [|split].
  - intros p_epoch node_id data array index stream collected call_ok Hreg
      Hfind Hcollect Hnewer.
    unfold receive_entry. rewrite Hreg, Hfind. cbn [negb].
    apply list_find_Some in Hfind as (Hlookup & _ & _).
    apply list_eq. intros j. destruct (decide (index = j)) as [<-|Hne].
    + rewrite list_lookup_alter_eq, Hlookup.
      rewrite list_lookup_insert_eq by (by eapply lookup_lt_Some).
      cbn. unfold receive_stream. rewrite Hcollect.
      destruct call_ok; cbn [negb]; [|done].
      by destruct (Z.ltb_spec (future_epoch stream) p_epoch) as [_|?];
        [|lia].
    + by rewrite list_lookup_alter_ne, list_lookup_insert_ne.
  - intros p_delta stream H. unfold process_stream. by rewrite H.
  - intros. by apply ticks_idle.
Qed.

End WithHost.

(** *** Epochs 10 and 14 *)

(** Object 3 is registered; its current state reads as two zero bits. *)
Definition one_object (node_id : Z) : bool := (node_id =? 3)%Z.
Definition still_object (_ : Z) : list bool * bool := ([false; false], true).

(** Arithmetic without rounding: what the platform computes where the
    results are [real_t] values, as the quarters below are. *)
Definition exact_div (a b : Q) : Q := a / b.
Definition exact_add (a b : Q) : Q := a + b.

(** The streams after the packets of epoch 10 and of epoch 14. *)
Definition after_epoch_10 : list DeferredSyncInterpolationData :=
  receive_deferred_sync_data exact_div one_object still_object
    (mkDeferredPacket 10 [(3%Z, [true])]) [].

Definition after_epoch_14 : list DeferredSyncInterpolationData :=
  receive_deferred_sync_data exact_div one_object still_object
    (mkDeferredPacket 14 [(3%Z, [true; true])]) after_epoch_10.

(** C7 as stated fails on the past buffer: after the packet of epoch 14
    it holds the bits collected from the object's current state, not the
    bits received for epoch 10, which were the future buffer before. *)
Lemma past_buffer_is_collected :
  future_epoch_buffer <$> after_epoch_10 = [[true]] ∧
  future_epoch <$> after_epoch_10 = [10%Z] ∧
  after_epoch_14 =
    [mkStream 3 [false; false] [true; true] 10 14 (1 # 4) 0] ∧
  past_epoch_buffer <$> after_epoch_14 ≠ future_epoch_buffer <$> after_epoch_10.
Proof. by vm_compute. Qed.

(** Six ticks after the packet of epoch 14: [apply_epoch] is called five
    times, with alpha 1/4, 1/2, 3/4, 1 and 5/4, and the sixth tick is idle. *)
Lemma five_calls_then_idle :
  Qred ∘ call_alpha <$>
    (ticks exact_add 6 (1 # 60)
       (mkStream 3 [false; false] [true; true] 10 14 (1 # 4) 0)).2
  = [1 # 4; 1 # 2; 3 # 4; 1; 5 # 4].
Proof. by vm_compute. Qed.

Lemma deferred_stream_interpolation_witness :
  receive_entry exact_div one_object still_object 14 (3%Z, [true; true])
    after_epoch_10 =
    <[0%nat :=
        mkStream 3 [false; false] [true; true] 10 14
          (exact_div 1 (inject_Z 14 - inject_Z 10)) 0]> after_epoch_10 ∧
  process_stream exact_add (1 # 60)
    (mkStream 3 [false; false] [true; true] 10 14 (1 # 4) 0) =
    (mkStream 3 [false; false] [true; true] 10 14 (1 # 4)
       (exact_add 0 (1 # 4)),
     [mkApplyEpochCall 3 (1 # 60) (exact_add 0 (1 # 4)) [false; false]
        [true; true]]) ∧
  ticks exact_add 3 (1 # 60)
    (mkStream 3 [false; false] [true; true] 10 14 (1 # 4) (5 # 4)) =
    (mkStream 3 [false; false] [true; true] 10 14 (1 # 4) (5 # 4), []).
Proof.
  split; [|split].
  - apply (proj1 (deferred_stream_interpolation exact_div exact_add
                    one_object still_object)
             14%Z 3%Z [true; true] after_epoch_10 0%nat
             (mkStream 3 [false; false] [true] UINT32_MAX 10 FLT_MAX FLT_MAX)
             [false; false] true); by vm_compute.
  - apply (proj1 (proj2
             (deferred_stream_interpolation exact_div exact_add one_object
                still_object))
             (1 # 60)
             (mkStream 3 [false; false] [true; true] 10 14 (1 # 4) 0)).
    by vm_compute.
  - apply (proj2 (proj2
             (deferred_stream_interpolation exact_div exact_add one_object
                still_object))
             3%nat (1 # 60)
             (mkStream 3 [false; false] [true; true] 10 14 (1 # 4) (5 # 4))).
    by vm_compute.
Defined.

End Deferred.

(** ** The registry, continued: pulling, flushing and unregistering *)
Module Variables.
Import Registry.

(** How an operation guarded by [ERR_FAIL_COND] ended. *)
Inductive Report := Completed | ErrFail.

Definition set_vd_changes_listeners (l : list nat) (vd : VarDescriptor)
    : VarDescriptor :=
  mkVarDescriptor (vd_id vd) (var vd) (skip_rewinding vd) (enabled vd) l.

(** [SceneSynchronizerBase::is_variable_registered]. *)
Definition is_variable_registered (b : SceneSynchronizerBase) (p_id : Z)
    (p_variable : string) : bool :=
  match get_object_data b p_id with
  | Some od => negb (find_variable_id (vars od) p_variable =? VarId_NONE)
  | None => false
  end.

(** [SceneSynchronizerBase::unregister_variable].  The loop over the
    listeners of the variable declares its loop variable by value,
    [for (ListeningVariable lv : cl->watching_vars)], so the two writes
    [lv.node_data = nullptr] and [lv.var_id = VarId::NONE] change a copy that
    is dropped at the end of each round: the listeners stay as they are.
    What the function changes is the slot: it is disabled and its list of
    listeners is cleared. *)
Definition unregister_variable (p_id : Z) (p_variable : string)
    (b : SceneSynchronizerBase) : SceneSynchronizerBase * Report :=
  if p_id =? ObjectLocalId_NONE then (b, ErrFail)
  else if String.eqb p_variable "" then (b, ErrFail)
  else
    match get_object_data b p_id with
    | None => (b, ErrFail)
    | Some od =>
        let found := find_variable_id (vars od) p_variable in
        if found =? VarId_NONE then (b, ErrFail)
        else
          let od' :=
            set_vars
              (alter (λ vd, set_vd_changes_listeners [] (set_enabled false vd))
                 (Z.to_nat found) (vars od))
              od in
          (set_objects (<[Z.to_nat p_id := od']> (objects b)) b, Completed)
    end.

(** The value the host reports for a slot, [Variant ()] when it cannot
    read it. *)
Definition host_value (get_variable : Z → string → option variant)
    (od : ObjectData) (vd : VarDescriptor) : variant :=
  default VNil (get_variable (app_object_handle od) (nv_name (var vd))).

(** A slot after a pull: an enabled slot holds the host's value, a disabled
    one is what it was. *)
Definition pulled_var (get_variable : Z → string → option variant)
    (od : ObjectData) (vd : VarDescriptor) : VarDescriptor :=
  if enabled vd then set_value (host_value get_variable od vd) vd else vd.

Definition pulled (get_variable : Z → string → option variant)
    (od : ObjectData) : ObjectData :=
  set_vars (pulled_var get_variable od <$> vars od) od.

(** Every enabled slot holds the value the host reports. *)
Definition in_sync (get_variable : Z → string → option variant)
    (b : SceneSynchronizerBase) : Prop :=
  Forall (λ od,
    Forall (λ vd, enabled vd = true →
                  nv_value (var vd) = host_value get_variable od vd)
      (vars od)) (objects b).

(** The calls a flush adds. *)
Definition flush_calls (b : SceneSynchronizerBase) : list (nat * list variant) :=
  (flush_listeners (objects b) (changes_listeners b) 0).2.

(** *** Facts about single steps *)

Lemma set_value_same (vd : VarDescriptor) :
  set_value (nv_value (var vd)) vd = vd.
Proof. by destruct vd as [? [] ? ? ?]. Qed.

Lemma change_event_add_objects od_i p_var_id p_old b :
  objects (change_event_add od_i p_var_id p_old b) = objects b.
Proof. done. Qed.

Lemma change_event_add_event_flag od_i p_var_id p_old b :
  event_flag (change_event_add od_i p_var_id p_old b) = event_flag b.
Proof. done. Qed.

Lemma change_event_add_calls od_i p_var_id p_old b :
  listener_calls (change_event_add od_i p_var_id p_old b) = listener_calls b.
Proof. done. Qed.

(** What one round of [pull_node_changes] does to the objects. *)
Lemma pull_var_objects get_variable od_i v b od vd :
  objects b !! od_i = Some od → vars od !! v = Some vd →
  objects (pull_var get_variable od_i v b) =
    <[od_i := set_vars (<[v := pulled_var get_variable od vd]> (vars od)) od]>
      (objects b).
Proof.
  intros Hod Hvd. unfold pull_var, pulled_var, host_value.
  rewrite Hod, Hvd.
  assert (Hsame : <[od_i := set_vars (<[v := vd]> (vars od)) od]> (objects b)
                  = objects b).
  { rewrite (list_insert_id (vars od)) by done.
    rewrite list_insert_id; [done|]. rewrite Hod. by destruct od. }
  destruct (enabled vd); cbn [negb]; [|by rewrite Hsame].
  case_bool_decide as Heq.
  - rewrite <- Heq, set_value_same. by rewrite Hsame.
  - rewrite change_event_add_objects. cbn [objects set_objects].
    f_equal. f_equal. apply list_eq. intros j.
    destruct (decide (v = j)) as [<-|Hne].
    + rewrite list_lookup_alter_eq, Hvd.
      by rewrite list_lookup_insert_eq by (by eapply lookup_lt_Some).
    + by rewrite list_lookup_alter_ne, list_lookup_insert_ne.
Qed.

Lemma pull_var_out_of_range get_variable od_i v b od :
  objects b !! od_i = Some od → vars od !! v = None →
  pull_var get_variable od_i v b = b.
Proof. intros Hod Hvd. unfold pull_var. by rewrite Hod, Hvd. Qed.

Lemma pull_var_event_flag get_variable od_i v b :
  event_flag (pull_var get_variable od_i v b) = event_flag b.
Proof.
  unfold pull_var. destruct (objects b !! od_i) as [od|]; [|done].
  destruct (vars od !! v) as [vd|]; [|done].
  destruct (negb (enabled vd)); [done|]. by case_bool_decide.
Qed.

Lemma pull_var_calls get_variable od_i v b :
  listener_calls (pull_var get_variable od_i v b) = listener_calls b.
Proof.
  unfold pull_var. destruct (objects b !! od_i) as [od|]; [|done].
  destruct (vars od !! v) as [vd|]; [|done].
  destruct (negb (enabled vd)); [done|]. by case_bool_decide.
Qed.

(** The rounds [0 .. k) of the loop of [pull_node_changes]. *)
Lemma pull_rounds_objects get_variable od_i b od k :
  objects b !! od_i = Some od → (k ≤ length (vars od))%nat →
  objects (foldl (λ b v, pull_var get_variable od_i v b) b (seq 0 k)) =
    <[od_i := set_vars ((pulled_var get_variable od <$> take k (vars od)) ++
                        drop k (vars od)) od]> (objects b).
Proof.
  intros Hod. induction k as [|k IH]; intros Hk.
  - cbn. rewrite drop_0. rewrite list_insert_id; [done|].
    rewrite Hod. by destruct od.
  - rewrite seq_S, foldl_snoc. cbn [Nat.add].
    set (b1 := foldl _ b (seq 0 k)) in *.
    specialize (IH ltac:(lia)).
    destruct (lookup_lt_is_Some_2 (vars od) k ltac:(lia)) as [vd Hvd].
    set (od1 := set_vars ((pulled_var get_variable od <$> take k (vars od)) ++
                          drop k (vars od)) od) in *.
    assert (Hod1 : objects b1 !! od_i = Some od1).
    { rewrite IH. apply list_lookup_insert_eq. by eapply lookup_lt_Some. }
    assert (Hvd1 : vars od1 !! k = Some vd).
    { cbn. rewrite lookup_app_r; rewrite length_fmap, length_take; [|lia].
      rewrite lookup_drop. rewrite <- Hvd. f_equal. lia. }
    rewrite (pull_var_objects _ _ _ _ od1 vd Hod1 Hvd1), IH.
    rewrite list_insert_insert_eq. f_equal.
    unfold od1, set_vars. cbn [vars object_name app_object_handle]. f_equal.
    rewrite (take_S_r _ _ vd) by done. rewrite fmap_app. cbn [fmap list_fmap].
    rewrite <- app_assoc. cbn [app].
    rewrite insert_app_r_alt; rewrite length_fmap, length_take; [|lia].
    replace (k - k `min` length (vars od))%nat with 0%nat by lia.
    rewrite (drop_S _ vd k) by done. cbn [insert list_insert].
    f_equal.
Qed.

Lemma pull_node_changes_objects get_variable od_i b od :
  objects b !! od_i = Some od →
  objects (pull_node_changes get_variable od_i b) =
    <[od_i := pulled get_variable od]> (objects b).
Proof.
  intros Hod. unfold pull_node_changes. rewrite Hod.
  rewrite (pull_rounds_objects _ _ _ od) by done.
  by rewrite firstn_all, drop_all, app_nil_r.
Qed.


Lemma pull_node_changes_event_flag get_variable od_i b :
  event_flag (pull_node_changes get_variable od_i b) = event_flag b.
Proof.
  unfold pull_node_changes. destruct (objects b !! od_i) as [od|]; [|done].
  generalize (seq 0 (length (vars od))). intros vs. revert b.
  induction vs as [|v vs IH]; intros b; [done|].
  cbn [foldl]. by rewrite IH, pull_var_event_flag.
Qed.

Lemma pull_node_changes_calls get_variable od_i b :
  listener_calls (pull_node_changes get_variable od_i b) = listener_calls b.
Proof.
  unfold pull_node_changes. destruct (objects b !! od_i) as [od|]; [|done].
  generalize (seq 0 (length (vars od))). intros vs. revert b.
  induction vs as [|v vs IH]; intros b; [done|].
  cbn [foldl]. by rewrite IH, pull_var_calls.
Qed.

(** The rounds [0 .. k) of the loop over the objects. *)
Lemma pull_objects_rounds get_variable b k :
  (k ≤ length (objects b))%nat →
  objects (foldl (λ b od_i, pull_node_changes get_variable od_i b) b (seq 0 k)) =
    (pulled get_variable <$> take k (objects b)) ++ drop k (objects b).
Proof.
  induction k as [|k IH]; intros Hk.
  - cbn. by rewrite drop_0.
  - rewrite seq_S, foldl_snoc. cbn [Nat.add].
    set (b1 := foldl _ b (seq 0 k)) in *.
    specialize (IH ltac:(lia)).
    destruct (lookup_lt_is_Some_2 (objects b) k ltac:(lia)) as [od Hod].
    assert (Hod1 : objects b1 !! k = Some od).
    { rewrite IH. rewrite lookup_app_r; rewrite length_fmap, length_take; [|lia].
      rewrite lookup_drop. rewrite <- Hod. f_equal. lia. }
    rewrite (pull_node_changes_objects _ _ _ od Hod1), IH.
    rewrite (take_S_r _ _ od) by done. rewrite fmap_app. cbn [fmap list_fmap].
    rewrite <- app_assoc. cbn [app].
    rewrite insert_app_r_alt; rewrite length_fmap, length_take; [|lia].
    replace (k - k `min` length (objects b))%nat with 0%nat by lia.
    by rewrite (drop_S _ od k) by done.
Qed.

Lemma change_events_flush_objects b :
  objects (change_events_flush b) = objects b.
Proof.
  unfold change_events_flush. by destruct (flush_listeners _ _ _).
Qed.

(** X1.  After [detect_and_signal_changed_variables], every enabled
    variable of every object holds the value the host reports for it now
    ([Variant ()] when the host cannot read it); disabled variables, names,
    ids, handles and listener lists are what they were. *)
Theorem pull_stores_host_values get_variable p_flags b :
  objects (detect_and_signal_changed_variables get_variable p_flags b) =
    pulled get_variable <$> objects b.
Proof.
  unfold detect_and_signal_changed_variables.
  rewrite change_events_flush_objects.
  set (b1 := if event_flag b =? p_flags then b else _).
  assert (Hobjs : objects b1 = objects b).
  { unfold b1. by destruct (event_flag b =? p_flags). }
  rewrite pull_objects_rounds by done.
  by rewrite firstn_all, drop_all, app_nil_r, Hobjs.
Qed.

(** *** A pull that finds nothing changed *)

Lemma pull_var_quiet get_variable od_i v b od vd :
  objects b !! od_i = Some od → vars od !! v = Some vd →
  (enabled vd = true → nv_value (var vd) = host_value get_variable od vd) →
  pull_var get_variable od_i v b = b.
Proof.
  intros Hod Hvd Hsync. unfold pull_var. rewrite Hod, Hvd.
  destruct (enabled vd); cbn [negb]; [|done].
  by rewrite bool_decide_true by (by apply Hsync).
Qed.

Lemma pull_node_changes_quiet get_variable od_i b od :
  objects b !! od_i = Some od →
  Forall (λ vd, enabled vd = true →
                nv_value (var vd) = host_value get_variable od vd) (vars od) →
  pull_node_changes get_variable od_i b = b.
Proof.
  intros Hod Hsync. unfold pull_node_changes. rewrite Hod.
  assert (Hall : ∀ vs, Forall (λ v, (v < length (vars od))%nat) vs →
    foldl (λ b v, pull_var get_variable od_i v b) b vs = b).
  { induction vs as [|v vs IH]; intros Hvs; [done|].
    apply Forall_cons in Hvs as [Hv Hvs]. cbn [foldl].
    destruct (lookup_lt_is_Some_2 (vars od) v Hv) as [vd Hvd].
    rewrite (pull_var_quiet _ _ _ _ od vd Hod Hvd); [by apply IH|].
    by eapply (proj1 (Forall_lookup _ _) Hsync). }
  apply Hall. apply Forall_forall. intros v Hv.
  apply elem_of_seq in Hv. lia.
Qed.

Lemma flush_listeners_all_emitted objs : ∀ ls listener_i,
  Forall (λ l, emitted l = true) ls →
  flush_listeners objs ls listener_i = (ls, []).
Proof.
  induction ls as [|l ls IH]; intros listener_i Hall; [done|].
  apply Forall_cons in Hall as [Hl Hall].
  cbn [flush_listeners]. by rewrite IH, Hl.
Qed.

(** X2.  A pull that finds every enabled variable equal to the host's
    value, with no listener waiting to be called, modifies no object and no
    listener and calls no listener: only the batch flag is left at the flag
    of the pull. *)
Theorem quiet_pull_calls_nobody get_variable p_flags b :
  in_sync get_variable b →
  Forall (λ l, emitted l = true) (changes_listeners b) →
  detect_and_signal_changed_variables get_variable p_flags b =
    mkBase (objects b) (changes_listeners b) p_flags false false false false
      (listener_calls b).
Proof.
  intros Hsync Hemitted. unfold detect_and_signal_changed_variables.
  set (b1 := if event_flag b =? p_flags then b else _).
  assert (Hobjs : objects b1 = objects b).
  { unfold b1. by destruct (event_flag b =? p_flags). }
  assert (Hquiet : ∀ ods,
    Forall (λ od_i, (od_i < length (objects b1))%nat) ods →
    foldl (λ b od_i, pull_node_changes get_variable od_i b) b1 ods = b1).
  { induction ods as [|od_i ods IH]; intros Hods; [done|].
    apply Forall_cons in Hods as [Hi Hods]. cbn [foldl].
    destruct (lookup_lt_is_Some_2 (objects b1) od_i Hi) as [od Hod].
    rewrite (pull_node_changes_quiet _ _ _ od Hod); [by apply IH|].
    rewrite Hobjs in Hod. by eapply (proj1 (Forall_lookup _ _) Hsync). }
  rewrite Hquiet
    by (apply Forall_forall; intros i Hi; apply elem_of_seq in Hi; lia).
  unfold change_events_flush.
  assert (Hls : changes_listeners b1 = changes_listeners b).
  { unfold b1. by destruct (event_flag b =? p_flags). }
  rewrite Hls, flush_listeners_all_emitted by done.
  rewrite app_nil_r, Hobjs. f_equal.
  - unfold b1. by destruct (Z.eqb_spec (event_flag b) p_flags).
  - unfold b1. by destruct (event_flag b =? p_flags).
Qed.


(** *** Flushing a batch *)

(** The positions of the listeners a flush will call, in the order of the
    calls: those whose "has emitted" bit is not set. *)
Fixpoint waiting (ls : list ChangesListener) (listener_i : nat) : list nat :=
  match ls with
  | [] => []
  | l :: rest =>
      if emitted l then waiting rest (S listener_i)
      else listener_i :: waiting rest (S listener_i)
  end.

Lemma flush_listeners_fst objs : ∀ ls listener_i,
  (flush_listeners objs ls listener_i).2.*1 = waiting ls listener_i.
Proof.
  induction ls as [|l ls IH]; intros listener_i; [done|].
  cbn [flush_listeners waiting]. specialize (IH (S listener_i)).
  destruct (flush_listeners objs ls (S listener_i)) as [rest' calls].
  cbn [snd] in IH. destruct (emitted l); cbn; by rewrite IH.
Qed.

Lemma waiting_spec : ∀ ls listener_i j,
  j ∈ waiting ls listener_i ↔
  (listener_i ≤ j)%nat ∧
  ∃ l, ls !! (j - listener_i)%nat = Some l ∧ emitted l = false.
Proof.
  induction ls as [|l ls IH]; intros listener_i j; cbn [waiting].
  - split; [by intros H%elem_of_nil|]. by intros (_ & l & Hl & _).
  - assert (Hrest :
      j ∈ waiting ls (S listener_i) ↔
      (listener_i < j)%nat ∧
      ∃ l', (l :: ls) !! (j - listener_i)%nat = Some l' ∧ emitted l' = false).
    { rewrite IH. split.
      - intros (Hle & l' & Hl' & He). split; [lia|]. exists l'.
        split; [|done].
        replace (j - listener_i)%nat with (S (j - S listener_i)) by lia.
        done.
      - intros (Hlt & l' & Hl' & He). split; [lia|]. exists l'.
        split; [|done].
        replace (j - listener_i)%nat with (S (j - S listener_i)) in Hl' by lia.
        done. }
    destruct (emitted l) eqn:Hemitted.
    + rewrite Hrest. split.
      * intros (Hlt & H). split; [lia|done].
      * intros (Hle & l' & Hl' & He). split; [|by exists l'].
        destruct (decide (j = listener_i)) as [->|]; [|lia].
        rewrite Nat.sub_diag in Hl'. cbn in Hl'. congruence.
    + rewrite elem_of_cons, Hrest. split.
      * intros [->|(Hlt & H)]; [|split; [lia|done]].
        split; [done|]. exists l. by rewrite Nat.sub_diag.
      * intros (Hle & l' & Hl' & He).
        destruct (decide (j = listener_i)) as [->|]; [by left|].
        right. split; [lia|by exists l'].
Qed.

Lemma waiting_NoDup : ∀ ls listener_i, NoDup (waiting ls listener_i).
Proof.
  induction ls as [|l ls IH]; intros listener_i; cbn [waiting];
    [apply NoDup_nil_2|].
  destruct (emitted l); [apply IH|].
  apply NoDup_cons. split; [|apply IH].
  intros Hin%waiting_spec. lia.
Qed.

Lemma waiting_sorted : ∀ ls listener_i,
  StronglySorted lt (waiting ls listener_i).
Proof.
  induction ls as [|l ls IH]; intros listener_i; cbn [waiting];
    [constructor|].
  destruct (emitted l); [apply IH|].
  constructor; [apply IH|].
  apply Forall_forall. intros j Hin%waiting_spec. lia.
Qed.

Lemma flush_listeners_emitted objs : ∀ ls listener_i,
  Forall (λ l, emitted l = true) (flush_listeners objs ls listener_i).1.
Proof.
  induction ls as [|l ls IH]; intros listener_i; [done|].
  cbn [flush_listeners]. specialize (IH (S listener_i)).
  destruct (flush_listeners objs ls (S listener_i)) as [rest' calls].
  cbn [fst] in IH. destruct (emitted l) eqn:Hemitted; cbn;
    by apply Forall_cons.
Qed.

(** A listener that has emitted is passed over by the flush. *)
Lemma flush_listeners_keeps objs : ∀ ls listener_i j l,
  ls !! j = Some l → emitted l = true →
  (flush_listeners objs ls listener_i).1 !! j = Some l.
Proof.
  induction ls as [|l0 ls IH]; intros listener_i j l Hj Hl; [done|].
  cbn [flush_listeners].
  pose proof (IH (S listener_i)) as IH'.
  destruct (flush_listeners objs ls (S listener_i)) as [rest' calls].
  cbn [fst] in IH'. destruct j as [|j]; cbn in Hj.
  - injection Hj as ->. by rewrite Hl.
  - destruct (emitted l0); cbn; by apply IH'.
Qed.

Lemma change_events_flush_calls b :
  listener_calls (change_events_flush b) = listener_calls b ++ flush_calls b.
Proof.
  unfold change_events_flush, flush_calls.
  by destruct (flush_listeners _ _ _).
Qed.

(** X3.  A flush calls the listeners whose "has emitted" bit is clear, each
    once and in the order of the listener vector (the indices of the
    listeners called increase along the calls), and no other listener;
    afterwards every listener has the bit set, so that flushing again
    changes nothing and calls nobody. *)
Theorem flush_calls_waiting_listeners_once b :
  listener_calls (change_events_flush b) = listener_calls b ++ flush_calls b ∧
  NoDup (flush_calls b).*1 ∧
  StronglySorted lt (flush_calls b).*1 ∧
  (∀ j, j ∈ (flush_calls b).*1 ↔
        ∃ l, changes_listeners b !! j = Some l ∧ emitted l = false) ∧
  Forall (λ l, emitted l = true) (changes_listeners (change_events_flush b)) ∧
  change_events_flush (change_events_flush b) = change_events_flush b.
Proof.
  assert (Hemitted :
    Forall (λ l, emitted l = true) (changes_listeners (change_events_flush b))).
  { unfold change_events_flush.
    pose proof (flush_listeners_emitted (objects b) (changes_listeners b) 0).
    by destruct (flush_listeners _ _ _). }
  split; [apply change_events_flush_calls|].
  unfold flush_calls. rewrite flush_listeners_fst.
  split; [apply waiting_NoDup|]. split; [apply waiting_sorted|].
  split; [|split; [done|]].
  - intros j. rewrite waiting_spec, Nat.sub_0_r. split.
    + by intros (_ & H).
    + intros H. split; [lia|done].
  - unfold change_events_flush at 1.
    rewrite flush_listeners_all_emitted by done.
    rewrite app_nil_r. unfold change_events_flush.
    by destruct (flush_listeners _ _ _).
Qed.

(** *** A listener that does not listen to the flag of the batch *)

Lemma notify_others_keep flag_now p_var_id p_old idxs :
  ∀ (ls : list ChangesListener) (j : nat) l,
  ls !! j = Some l → Z.land (flag l) flag_now = 0 →
  foldl (λ ls i, alter (notify_listener flag_now p_var_id p_old) i ls) ls idxs
    !! j = Some l.
Proof.
  induction idxs as [|i idxs IH]; intros ls j l Hj Hflag; [done|].
  cbn [foldl]. apply IH; [|done].
  destruct (decide (i = j)) as [->|Hne].
  - rewrite list_lookup_alter_eq, Hj. cbn. unfold notify_listener.
    by rewrite Hflag.
  - by rewrite list_lookup_alter_ne.
Qed.

Lemma change_event_add_keeps od_i p_var_id p_old b j l :
  changes_listeners b !! j = Some l → Z.land (flag l) (event_flag b) = 0 →
  changes_listeners (change_event_add od_i p_var_id p_old b) !! j = Some l.
Proof. intros Hj Hflag. by apply notify_others_keep. Qed.

Lemma pull_var_keeps get_variable od_i v b j l :
  changes_listeners b !! j = Some l → Z.land (flag l) (event_flag b) = 0 →
  changes_listeners (pull_var get_variable od_i v b) !! j = Some l.
Proof.
  intros Hj Hflag. unfold pull_var.
  destruct (objects b !! od_i) as [od|]; [|done].
  destruct (vars od !! v) as [vd|]; [|done].
  destruct (negb (enabled vd)); [done|]. case_bool_decide; [done|].
  by apply change_event_add_keeps.
Qed.

Lemma pull_node_changes_keeps get_variable od_i b j l :
  changes_listeners b !! j = Some l → Z.land (flag l) (event_flag b) = 0 →
  changes_listeners (pull_node_changes get_variable od_i b) !! j = Some l.
Proof.
  unfold pull_node_changes. destruct (objects b !! od_i) as [od|]; [|done].
  generalize (seq 0 (length (vars od))). intros vs. revert b.
  induction vs as [|v vs IH]; intros b Hj Hflag; [done|].
  cbn [foldl]. apply IH; [by apply pull_var_keeps|].
  by rewrite pull_var_event_flag.
Qed.

(** X4.  A listener whose flag mask shares no bit with the flag of a pull,
    and which is not waiting to be called, is left untouched and is not
    called by that pull, whatever variables changed. *)
Theorem other_flag_listener_not_called get_variable p_flags b j l :
  changes_listeners b !! j = Some l →
  Z.land (flag l) p_flags = 0 → emitted l = true →
  let b' := detect_and_signal_changed_variables get_variable p_flags b in
  changes_listeners b' !! j = Some l ∧
  ∃ calls, listener_calls b' = listener_calls b ++ calls ∧ j ∉ calls.*1.
Proof.
  intros Hj Hflag Hemitted. cbn zeta.
  unfold detect_and_signal_changed_variables.
  set (b1 := if event_flag b =? p_flags then b else _).
  assert (H1 : changes_listeners b1 !! j = Some l ∧ event_flag b1 = p_flags ∧
               listener_calls b1 = listener_calls b).
  { unfold b1. by destruct (Z.eqb_spec (event_flag b) p_flags). }
  assert (Hloop : ∀ ods b2,
    changes_listeners b2 !! j = Some l ∧ event_flag b2 = p_flags ∧
      listener_calls b2 = listener_calls b →
    let b3 := foldl (λ b od_i, pull_node_changes get_variable od_i b) b2 ods in
    changes_listeners b3 !! j = Some l ∧ event_flag b3 = p_flags ∧
      listener_calls b3 = listener_calls b).
  { induction ods as [|od_i ods IH]; intros b2 (H2 & H3 & H4); [done|].
    cbn [foldl]. apply IH. split; [|split].
    - apply pull_node_changes_keeps; [done|by rewrite H3].
    - by rewrite pull_node_changes_event_flag.
    - by rewrite pull_node_changes_calls. }
  specialize (Hloop (seq 0 (length (objects b1))) b1 H1). cbn zeta in Hloop.
  set (b3 := foldl _ b1 _) in *. destruct Hloop as (H2 & H3 & H4).
  split.
  - unfold change_events_flush.
    pose proof (flush_listeners_keeps (objects b3) _ 0 j l H2 Hemitted).
    by destruct (flush_listeners _ _ _).
  - exists (flush_calls b3). rewrite change_events_flush_calls, H4.
    split; [done|]. unfold flush_calls. rewrite flush_listeners_fst.
    intros (_ & l' & Hl' & He)%waiting_spec.
    rewrite Nat.sub_0_r in Hl'. congruence.
Qed.

(** *** Unregistering a variable and registering it again *)

(** The ids of the slots are their positions, as [register_variable]
    assigns them. *)
Definition ids_are_positions (vs : list VarDescriptor) : Prop :=
  ∀ i vd, vs !! i = Some vd → vd_id vd = Z.of_nat i.

Lemma find_variable_id_found name : ∀ vs off,
  (∀ i vd, vs !! i = Some vd → vd_id vd = Z.of_nat (off + i)) →
  find_variable_id vs name ≠ VarId_NONE →
  ∃ k vd, find_variable_id vs name = Z.of_nat (off + k) ∧
          vs !! k = Some vd ∧ nv_name (var vd) = name.
Proof.
  induction vs as [|v vs IH]; intros off Hids Hfound; [done|].
  cbn [find_variable_id] in *.
  destruct (String.eqb_spec (nv_name (var v)) name) as [Hname|Hname].
  - exists 0%nat, v. split; [by apply (Hids 0%nat)|done].
  - destruct (IH (S off)) as (k & vd & Hk & Hvd & Hn); [|done|].
    + intros i vd Hi. rewrite (Hids (S i) vd Hi). f_equal. lia.
    + exists (S k), vd. split; [|done]. rewrite Hk. f_equal. lia.
Qed.

Lemma find_variable_id_alter f k name : ∀ vs,
  (∀ vd, vd_id (f vd) = vd_id vd ∧ nv_name (var (f vd)) = nv_name (var vd)) →
  find_variable_id (alter f k vs) name = find_variable_id vs name.
Proof.
  intros vs Hf. revert k. induction vs as [|v vs IH]; intros k; [done|].
  destruct k as [|k]; cbn [alter list_alter find_variable_id].
  - destruct (Hf v) as [-> ->]. done.
  - change (list_alter f k vs) with (alter f k vs). by rewrite IH.
Qed.

Lemma get_object_data_Some b p_id od :
  get_object_data b p_id = Some od →
  p_id ≠ ObjectLocalId_NONE ∧ objects b !! Z.to_nat p_id = Some od.
Proof.
  unfold get_object_data.
  destruct (Z.ltb_spec p_id 0); [done|].
  destruct (Z.eqb_spec p_id ObjectLocalId_NONE); [done|]. done.
Qed.

Lemma get_object_data_insert b p_id od od' :
  get_object_data b p_id = Some od →
  get_object_data (set_objects (<[Z.to_nat p_id := od']> (objects b)) b) p_id =
    Some od'.
Proof.
  unfold get_object_data. cbn [objects set_objects].
  destruct (p_id <? 0); [done|]. destruct (p_id =? ObjectLocalId_NONE); [done|].
  cbn. intros Hod. apply list_lookup_insert_eq. by eapply lookup_lt_Some.
Qed.

(** X5.  Unregistering a registered variable and registering it again:
    both calls succeed, the host is not asked for the value, and the slot
    keeps its position, id, name, stored value and skip-rewinding flag and
    is enabled; its list of change listeners is empty, so listeners that
    tracked the variable are no longer attached to it.  In between, the
    variable still counts as registered. *)
Theorem unregister_then_register get_variable p_id p_variable b od :
  get_object_data b p_id = Some od → p_variable ≠ ""%string →
  ids_are_positions (vars od) →
  find_variable_id (vars od) p_variable ≠ VarId_NONE →
  ∃ k vd b1,
    vars od !! k = Some vd ∧ nv_name (var vd) = p_variable ∧
    unregister_variable p_id p_variable b = (b1, Completed) ∧
    is_variable_registered b1 p_id p_variable = true ∧
    register_variable get_variable p_id p_variable b1 =
      (set_objects
         (<[Z.to_nat p_id :=
              set_vars
                (<[k := mkVarDescriptor (vd_id vd) (var vd) (skip_rewinding vd)
                          true []]> (vars od)) od]> (objects b)) b,
       Reenabled).
Proof.
  intros Hod Hname Hids Hfound.
  destruct (get_object_data_Some _ _ _ Hod) as [Hid Hlookup].
  destruct (find_variable_id_found p_variable (vars od) 0 Hids Hfound)
    as (k & vd & Hk & Hvd & Hn). cbn [Nat.add] in Hk.
  set (f := λ vd, set_vd_changes_listeners [] (set_enabled false vd)).
  set (od1 := set_vars (alter f k (vars od)) od).
  set (b1 := set_objects (<[Z.to_nat p_id := od1]> (objects b)) b).
  assert (Hun : unregister_variable p_id p_variable b = (b1, Completed)).
  { unfold unregister_variable. rewrite Hod.
    destruct (Z.eqb_spec p_id ObjectLocalId_NONE) as [?|_]; [done|].
    destruct (String.eqb_spec p_variable "") as [?|_]; [done|].
    destruct (Z.eqb_spec (find_variable_id (vars od) p_variable) VarId_NONE)
      as [?|_]; [done|].
    cbn zeta. by rewrite Hk, Nat2Z.id. }
  assert (Hod1 : get_object_data b1 p_id = Some od1)
    by (by eapply get_object_data_insert).
  assert (Hfind1 : find_variable_id (vars od1) p_variable = Z.of_nat k).
  { unfold od1. cbn [vars set_vars]. by rewrite find_variable_id_alter. }
  exists k, vd, b1. repeat split; [done..| |].
  - unfold is_variable_registered. rewrite Hod1, Hfind1, <- Hk.
    by destruct (Z.eqb_spec (find_variable_id (vars od) p_variable) VarId_NONE).
  - unfold register_variable. rewrite Hod1, Hfind1.
    destruct (Z.eqb_spec p_id ObjectLocalId_NONE) as [?|_]; [done|].
    destruct (String.eqb_spec p_variable "") as [?|_]; [done|].
    destruct (Z.eqb_spec (Z.of_nat k) VarId_NONE) as [Heq|_]; [congruence|].
    rewrite Nat2Z.id. unfold b1, set_objects.
    cbn [objects changes_listeners event_flag recover_in_progress
         reset_in_progress rewinding_in_progress end_sync listener_calls].
    rewrite list_insert_insert_eq. do 3 f_equal.
    unfold od1, set_vars. cbn [vars object_name app_object_handle]. f_equal.
    apply list_eq. intros i. destruct (decide (k = i)) as [<-|Hne].
    + rewrite !list_lookup_alter_eq, Hvd.
      by rewrite list_lookup_insert_eq by (by eapply lookup_lt_Some).
    + by rewrite !list_lookup_alter_ne, list_lookup_insert_ne.
Qed.


(** *** Tracking and untracking variables *)

Section Tracking.

(** The default member initializers of [ChangesListener::emitted] and of
    [ListeningVariable::old_set]; the two structs are declared outside the
    embedded files. *)
Variable fresh_emitted : bool.
Variable fresh_old_set : bool.

(** The loop of [track_variables_changes] that resolves the watched pairs;
    [None] is [is_valid = false]. *)
Fixpoint resolve_watched (b : SceneSynchronizerBase) (p_object_ids : list Z)
    (p_variables : list string) : option (list ListeningVariable) :=
  match p_object_ids, p_variables with
  | id :: ids', variable_name :: names' =>
      match get_object_data b id with
      | None => None
      | Some od =>
          let vid := find_variable_id (vars od) variable_name in
          if vid =? VarId_NONE then None
          else
            (λ rest, mkListeningVariable (Z.to_nat id) vid fresh_old_set :: rest)
              <$> resolve_watched b ids' names'
      end
  | _, _ => Some []
  end.

(** A change of the listener list of one slot of one object. *)
Definition on_slot (f : list nat → list nat) (od_i slot : nat)
    (objs : list ObjectData) : list ObjectData :=
  alter
    (λ od,
       set_vars
         (alter (λ vd, set_vd_changes_listeners (f (vd_changes_listeners vd)) vd)
            slot (vars od)) od)
    od_i objs.

(** [nd->vars[wv.var_id.id].changes_listeners.push_back (listener)] *)
Definition link_listener (handle : nat) (objs : list ObjectData)
    (wv : ListeningVariable) : list ObjectData :=
  on_slot (λ l, l ++ [handle]) (node_data wv) (Z.to_nat (var_id wv)) objs.

(** [SceneSynchronizerBase::track_variables_changes]: the state afterwards
    and the handle, [None] for [nulllistenerhandle].  A listener is named by
    its position in [changes_listeners]. *)
Definition track_variables_changes (p_object_ids : list Z)
    (p_variables : list string) (p_flags : Z) (b : SceneSynchronizerBase)
    : SceneSynchronizerBase * option nat :=
  if negb (length p_object_ids =? length p_variables)%nat then (b, None)
  else if (length p_object_ids =? 0)%nat then (b, None)
  else if (length p_variables =? 0)%nat then (b, None)
  else
    match resolve_watched b p_object_ids p_variables with
    | None => (b, None)
    | Some watching =>
        let handle := length (changes_listeners b) in
        let listener :=
          mkChangesListener watching
            (replicate (length p_object_ids) VNil) p_flags fresh_emitted in
        (mkBase (foldl (link_listener handle) (objects b) watching)
           (changes_listeners b ++ [listener]) (event_flag b)
           (recover_in_progress b) (reset_in_progress b)
           (rewinding_in_progress b) (end_sync b) (listener_calls b),
         Some handle)
    end.

(** [SceneSynchronizerBase::track_variable_changes]. *)
Definition track_variable_changes (p_id : Z) (p_variable : string)
    (p_flags : Z) (b : SceneSynchronizerBase)
    : SceneSynchronizerBase * option nat :=
  track_variables_changes [p_id] [p_variable] p_flags b.

(** [ns_find] then [erase] on a vector of listeners: the first occurrence
    is removed. *)
Fixpoint erase_handle (h : nat) (l : list nat) : list nat :=
  match l with
  | [] => []
  | x :: rest => if (x =? h)%nat then rest else x :: erase_handle h rest
  end.

(** One round of the loop of [untrack_variable_changes]. *)
Definition unlink_listener (handle : nat) (objs : list ObjectData)
    (wv : ListeningVariable) : list ObjectData :=
  match objs !! node_data wv with
  | None => objs
  | Some od =>
      if Z.of_nat (length (vars od)) >? var_id wv
      then on_slot (erase_handle handle) (node_data wv) (Z.to_nat (var_id wv))
             objs
      else objs
  end.

(** Erasing a listener from [changes_listeners] moves the later listeners
    down by one place; the positions stored in the slots, which stand for
    pointers to those listeners, move with them. *)
Definition after_erase (removed h : nat) : nat :=
  if (removed <? h)%nat then pred h else h.

Definition renumber (removed : nat) (od : ObjectData) : ObjectData :=
  set_vars
    ((λ vd, set_vd_changes_listeners
              (after_erase removed <$> vd_changes_listeners vd) vd)
       <$> vars od) od.

(** [SceneSynchronizerBase::untrack_variable_changes]. *)
Definition untrack_variable_changes (p_handle : nat)
    (b : SceneSynchronizerBase) : SceneSynchronizerBase :=
  match changes_listeners b !! p_handle with
  | None => b
  | Some listener =>
      let objs :=
        foldl (unlink_listener p_handle) (objects b) (watching_vars listener) in
      mkBase (renumber p_handle <$> objs) (delete p_handle (changes_listeners b))
        (event_flag b) (recover_in_progress b) (reset_in_progress b)
        (rewinding_in_progress b) (end_sync b) (listener_calls b)
  end.

(** Every listener named in a slot is in [changes_listeners]. *)
Definition handles_in_range (b : SceneSynchronizerBase) : Prop :=
  Forall (λ od,
    Forall (λ vd,
      Forall (λ h, (h < length (changes_listeners b))%nat)
        (vd_changes_listeners vd)) (vars od)) (objects b).

(** A listener list in which the handle [h] occurs only at the end. *)
Definition tail_handles (h : nat) (l : list nat) : Prop :=
  ∃ l0 k, l = l0 ++ replicate k h ∧ h ∉ l0.

Definition all_tail (h : nat) (objs : list ObjectData) : Prop :=
  Forall (λ od, Forall (λ vd, tail_handles h (vd_changes_listeners vd))
                  (vars od)) objs.

Lemma alter_fix {A} (f : A → A) i (l : list A) :
  (∀ x, l !! i = Some x → f x = x) → alter f i l = l.
Proof.
  intros Hf. apply list_eq. intros j. destruct (decide (i = j)) as [<-|Hne].
  - rewrite list_lookup_alter_eq. destruct (l !! i) as [x|] eqn:Hx; [|done].
    cbn. by rewrite Hf.
  - by rewrite list_lookup_alter_ne.
Qed.

Lemma erase_handle_not_elem h l : h ∉ l → erase_handle h l = l.
Proof.
  induction l as [|x l IH]; [done|].
  intros [Hne Hin]%not_elem_of_cons. cbn.
  destruct (Nat.eqb_spec x h); [done|]. by rewrite IH.
Qed.

Lemma erase_handle_tail h l :
  tail_handles h l → erase_handle h (l ++ [h]) = l.
Proof.
  intros (l0 & k & -> & Hnot). rewrite <- app_assoc, <- replicate_S_end.
  induction l0 as [|x l0 IH].
  - cbn [app replicate erase_handle]. by rewrite Nat.eqb_refl.
  - apply not_elem_of_cons in Hnot as [Hne Hnot]. cbn [app erase_handle].
    destruct (Nat.eqb_spec x h); [done|]. by rewrite IH.
Qed.

Lemma tail_handles_snoc h l : tail_handles h l → tail_handles h (l ++ [h]).
Proof.
  intros (l0 & k & -> & Hnot). exists l0, (S k).
  by rewrite <- app_assoc, <- replicate_S_end.
Qed.

Lemma all_tail_link h objs wv :
  all_tail h objs → all_tail h (link_listener h objs wv).
Proof.
  intros Hall. unfold all_tail, link_listener, on_slot.
  apply Forall_alter; [done|]. intros od _ Hod. cbn.
  apply Forall_alter; [done|]. intros vd _ Hvd. cbn.
  by apply tail_handles_snoc.
Qed.

Lemma all_tail_links h ws : ∀ objs,
  all_tail h objs → all_tail h (foldl (link_listener h) objs ws).
Proof.
  induction ws as [|w ws IH]; intros objs Hall; [done|].
  cbn [foldl]. by apply IH, all_tail_link.
Qed.

Lemma link_listener_comm h objs w w' :
  link_listener h (link_listener h objs w) w' =
  link_listener h (link_listener h objs w') w.
Proof.
  unfold link_listener, on_slot.
  destruct (decide (node_data w = node_data w')) as [Ho|Ho].
  - rewrite Ho, !list_alter_alter_eq. apply list_alter_ext; [|done].
    intros od _. unfold compose, set_vars.
    cbn [vars object_name app_object_handle]. f_equal.
    destruct (decide (Z.to_nat (var_id w) = Z.to_nat (var_id w'))) as [Hv|Hv].
    + by rewrite Hv.
    + apply list_alter_alter_ne. congruence.
  - apply list_alter_alter_ne. congruence.
Qed.

Lemma links_after_link h ws : ∀ objs w,
  foldl (link_listener h) (link_listener h objs w) ws =
  link_listener h (foldl (link_listener h) objs ws) w.
Proof.
  induction ws as [|w' ws IH]; intros objs w; [done|].
  cbn [foldl]. by rewrite link_listener_comm, IH.
Qed.

Lemma unlink_link h objs w :
  all_tail h objs → unlink_listener h (link_listener h objs w) w = objs.
Proof.
  intros Hall. unfold unlink_listener, link_listener, on_slot.
  rewrite list_lookup_alter_eq.
  destruct (objs !! node_data w) as [od|] eqn:Hod; cbn.
  - rewrite length_alter.
    assert (Hvars : Forall (λ vd, tail_handles h (vd_changes_listeners vd))
                      (vars od))
      by (by eapply (proj1 (Forall_lookup _ _) Hall)).
    destruct (Z.gtb_spec (Z.of_nat (length (vars od))) (var_id w)) as [Hin|Hout].
    + rewrite list_alter_alter_eq. apply alter_fix.
      intros od' Hod'. assert (od' = od) as -> by congruence. cbn.
      rewrite list_alter_alter_eq.
      rewrite alter_fix; [by destruct od|].
      intros vd Hvd. cbn.
      rewrite erase_handle_tail
        by (by eapply (proj1 (Forall_lookup _ _) Hvars)).
      by destruct vd.
    + apply alter_fix. intros od' Hod'. assert (od' = od) as -> by congruence.
      rewrite alter_fix; [by destruct od|].
      intros vd Hvd%lookup_lt_Some. lia.
  - apply alter_fix. intros od' Hod'. congruence.
Qed.

Lemma unlinks_after_links h ws : ∀ objs,
  all_tail h objs →
  foldl (unlink_listener h) (foldl (link_listener h) objs ws) ws = objs.
Proof.
  induction ws as [|w ws IH]; intros objs Hall; [done|].
  cbn [foldl]. rewrite links_after_link.
  rewrite unlink_link by (by apply all_tail_links). by apply IH.
Qed.

Lemma handles_in_range_all_tail b :
  handles_in_range b → all_tail (length (changes_listeners b)) (objects b).
Proof.
  unfold handles_in_range, all_tail. intros Hall.
  eapply Forall_impl; [exact Hall|]. intros od Hod.
  eapply Forall_impl; [exact Hod|]. intros vd Hvd.
  exists (vd_changes_listeners vd), 0%nat. rewrite app_nil_r. split; [done|].
  intros Hin. apply (proj1 (Forall_forall _ _) Hvd) in Hin. lia.
Qed.

Lemma fmap_fix {A} (f : A → A) (l : list A) :
  Forall (λ x, f x = x) l → f <$> l = l.
Proof.
  induction 1 as [|x l Hx _ IH]; [done|]. cbn. by rewrite Hx, IH.
Qed.

Lemma handles_in_range_renumber b :
  handles_in_range b →
  renumber (length (changes_listeners b)) <$> objects b = objects b.
Proof.
  unfold handles_in_range. intros Hall. apply fmap_fix.
  eapply Forall_impl; [exact Hall|]. intros od Hod. unfold renumber.
  rewrite fmap_fix; [by destruct od|].
  eapply Forall_impl; [exact Hod|]. intros vd Hvd.
  rewrite fmap_fix; [by destruct vd|].
  eapply Forall_impl; [exact Hvd|]. intros x Hx. cbn beta in Hx.
  unfold after_erase.
  destruct (Nat.ltb_spec (length (changes_listeners b)) x) as [Hlt|_];
    [lia|done].
Qed.

(** X6.  Untracking the handle that [track_variables_changes] has just
    returned restores the synchronizer as it was before the call: the
    listener is gone and every watched slot has the listener list it had,
    also when one slot is watched more than once. *)
Theorem untrack_undoes_track p_object_ids p_variables p_flags b b' handle :
  handles_in_range b →
  track_variables_changes p_object_ids p_variables p_flags b =
    (b', Some handle) →
  untrack_variable_changes handle b' = b.
Proof.
  intros Hrange. unfold track_variables_changes.
  destruct (negb _); [done|]. destruct (_ =? _)%nat; [done|].
  destruct (_ =? _)%nat; [done|].
  destruct (resolve_watched b p_object_ids p_variables) as [ws|]; [|done].
  intros [= <- <-]. unfold untrack_variable_changes.
  cbn [changes_listeners objects event_flag recover_in_progress
       reset_in_progress rewinding_in_progress end_sync listener_calls].
  rewrite lookup_app_r, Nat.sub_diag by done. cbn [lookup list_lookup].
  cbn [watching_vars].
  rewrite unlinks_after_links by (by apply handles_in_range_all_tail).
  rewrite handles_in_range_renumber by done.
  rewrite (delete_middle (changes_listeners b) []), app_nil_r.
  by destruct b.
Qed.

(** What a failed call leaves, and what a call that succeeds returns. *)
Lemma track_variables_changes_outcome p_object_ids p_variables p_flags b :
  let '(b', handle) :=
    track_variables_changes p_object_ids p_variables p_flags b in
  match handle with
  | None => b' = b
  | Some h =>
      h = length (changes_listeners b) ∧
      ∃ l, changes_listeners b' = changes_listeners b ++ [l] ∧
           flag l = p_flags ∧
           length (watching_vars l) = length p_object_ids ∧
           old_values l = replicate (length p_object_ids) VNil
  end.
Proof.
  unfold track_variables_changes.
  destruct (Nat.eqb_spec (length p_object_ids) (length p_variables))
    as [Hlen|]; [|done]. cbn [negb].
  destruct (_ =? _)%nat; [done|]. destruct (_ =? _)%nat; [done|].
  destruct (resolve_watched b p_object_ids p_variables) as [ws|] eqn:Hws;
    [|done].
  split; [done|]. eexists. split; [done|]. cbn. split; [done|]. split; [|done].
  clear -Hws Hlen. revert p_variables ws Hws Hlen.
  induction p_object_ids as [|id ids IH]; intros [|n ns] ws Hws Hlen;
    cbn in *; try done.
  - by injection Hws as <-.
  - destruct (get_object_data b id) as [od|]; [|done].
    destruct (_ =? VarId_NONE); [done|].
    destruct (resolve_watched b ids ns) as [rest|] eqn:Hrest; [|done].
    injection Hws as <-. cbn. f_equal. apply (IH ns); [done|lia].
Qed.


(** *** From tracking to the call of the listener *)

(** The listener at position [h] listens with mask [mask]; with [waits],
    it is also waiting to be called. *)
Definition listens (h : nat) (mask : Z) (waits : bool)
    (ls : list ChangesListener) : Prop :=
  ∃ l, ls !! h = Some l ∧ flag l = mask ∧ (waits = true → emitted l = false).

Lemma notify_listener_listens h mask waits flag_now p_var_id p_old i ls :
  listens h mask waits ls →
  listens h mask waits (alter (notify_listener flag_now p_var_id p_old) i ls).
Proof.
  intros (l & Hl & Hflag & Hwaits). destruct (decide (i = h)) as [->|Hne].
  - exists (notify_listener flag_now p_var_id p_old l).
    rewrite list_lookup_alter_eq, Hl. split; [done|].
    unfold notify_listener. by destruct (_ =? 0).
  - exists l. by rewrite list_lookup_alter_ne.
Qed.

Lemma notify_listeners_listens h mask waits flag_now p_var_id p_old idxs :
  ∀ ls, listens h mask waits ls →
  listens h mask waits
    (foldl (λ ls i, alter (notify_listener flag_now p_var_id p_old) i ls)
       ls idxs).
Proof.
  induction idxs as [|i idxs IH]; intros ls Hls; [done|].
  cbn [foldl]. by apply IH, notify_listener_listens.
Qed.

Lemma pull_var_listens get_variable h mask waits od_i v b :
  listens h mask waits (changes_listeners b) →
  listens h mask waits (changes_listeners (pull_var get_variable od_i v b)).
Proof.
  intros Hls. unfold pull_var.
  destruct (objects b !! od_i) as [od|]; [|done].
  destruct (vars od !! v) as [vd|]; [|done].
  destruct (negb (enabled vd)); [done|]. case_bool_decide; [done|].
  by apply notify_listeners_listens.
Qed.

Lemma pull_vars_listens get_variable h mask waits od_i vs : ∀ b,
  listens h mask waits (changes_listeners b) →
  listens h mask waits
    (changes_listeners (foldl (λ b v, pull_var get_variable od_i v b) b vs)).
Proof.
  induction vs as [|v vs IH]; intros b Hls; [done|].
  cbn [foldl]. by apply IH, pull_var_listens.
Qed.

Lemma pull_node_changes_listens get_variable h mask waits od_i b :
  listens h mask waits (changes_listeners b) →
  listens h mask waits
    (changes_listeners (pull_node_changes get_variable od_i b)).
Proof.
  intros Hls. unfold pull_node_changes.
  destruct (objects b !! od_i) as [od|]; [|done].
  by apply pull_vars_listens.
Qed.

Lemma pull_objects_listens get_variable h mask waits ods : ∀ b,
  listens h mask waits (changes_listeners b) →
  listens h mask waits
    (changes_listeners
       (foldl (λ b od_i, pull_node_changes get_variable od_i b) b ods)).
Proof.
  induction ods as [|od_i ods IH]; intros b Hls; [done|].
  cbn [foldl]. by apply IH, pull_node_changes_listens.
Qed.

Lemma pull_vars_event_flag get_variable od_i vs : ∀ b,
  event_flag (foldl (λ b v, pull_var get_variable od_i v b) b vs) =
  event_flag b.
Proof.
  induction vs as [|v vs IH]; intros b; [done|].
  cbn [foldl]. by rewrite IH, pull_var_event_flag.
Qed.

Lemma pull_objects_event_flag get_variable ods : ∀ b,
  event_flag (foldl (λ b od_i, pull_node_changes get_variable od_i b) b ods) =
  event_flag b.
Proof.
  induction ods as [|od_i ods IH]; intros b; [done|].
  cbn [foldl]. by rewrite IH, pull_node_changes_event_flag.
Qed.

Lemma pull_objects_calls get_variable ods : ∀ b,
  listener_calls
    (foldl (λ b od_i, pull_node_changes get_variable od_i b) b ods) =
  listener_calls b.
Proof.
  induction ods as [|od_i ods IH]; intros b; [done|].
  cbn [foldl]. by rewrite IH, pull_node_changes_calls.
Qed.

Lemma seq_split k n :
  (k < n)%nat → seq 0 n = seq 0 k ++ k :: seq (S k) (n - S k).
Proof.
  intros Hk. assert (n = (k + S (n - S k))%nat) as Hn by lia.
  rewrite Hn at 1. by rewrite seq_app.
Qed.

(** The round of the loop of [pull_node_changes] that finds the watched
    slot changed leaves the listener waiting. *)
Lemma pull_var_wakes get_variable h mask od_i v b od vd :
  objects b !! od_i = Some od → vars od !! v = Some vd →
  enabled vd = true →
  nv_value (var vd) ≠ host_value get_variable od vd →
  h ∈ vd_changes_listeners vd →
  Z.land mask (event_flag b) ≠ 0 →
  listens h mask false (changes_listeners b) →
  listens h mask true (changes_listeners (pull_var get_variable od_i v b)).
Proof.
  intros Hod Hvd Henabled Hchanged Hin Hmask Hls.
  unfold pull_var. rewrite Hod, Hvd, Henabled. cbn [negb].
  rewrite bool_decide_false by done.
  unfold change_event_add.
  cbn [objects set_objects changes_listeners set_changes_listeners event_flag].
  rewrite list_lookup_insert_eq by (by eapply lookup_lt_Some).
  cbn [mbind option_bind vars set_vars].
  rewrite Nat2Z.id, list_lookup_alter_eq, Hvd.
  cbn [fmap option_fmap option_map mbind option_bind default from_option
       Datatypes.id vd_changes_listeners set_value].
  apply list_elem_of_split in Hin as (l1 & l2 & ->).
  rewrite foldl_app. cbn [foldl].
  apply notify_listeners_listens.
  pose proof (notify_listeners_listens h mask false (event_flag b)
                (Z.of_nat v) (nv_value (var vd)) l1 _ Hls)
    as (l & Hl & Hflag & _).
  eexists. rewrite list_lookup_alter_eq, Hl. split; [done|].
  unfold notify_listener. rewrite Hflag.
  by destruct (Z.eqb_spec (Z.land mask (event_flag b)) 0).
Qed.

(** X7.  A variable tracked with [track_variable_changes] whose value then
    changes in the host: the next pull under a flag that the listener's mask
    contains calls the new listener. *)
Theorem tracked_change_calls_listener get_variable p_id p_variable p_flags
    flag_now b od k vd b' h :
  get_object_data b p_id = Some od →
  find_variable_id (vars od) p_variable = Z.of_nat k →
  vars od !! k = Some vd → enabled vd = true →
  nv_value (var vd) ≠ host_value get_variable od vd →
  Z.land p_flags flag_now ≠ 0 →
  track_variable_changes p_id p_variable p_flags b = (b', Some h) →
  ∃ calls x,
    listener_calls (detect_and_signal_changed_variables get_variable flag_now b')
      = listener_calls b ++ calls ∧ (h, x) ∈ calls.
Proof.
  intros Hod Hfind Hvd Henabled Hchanged Hmask.
  destruct (get_object_data_Some _ _ _ Hod) as [Hid Hlookup].
  unfold track_variable_changes, track_variables_changes.
  cbn [length Nat.eqb negb resolve_watched]. rewrite Hod, Hfind.
  destruct (Z.of_nat k =? VarId_NONE); [done|].
  cbn [fmap option_fmap option_map foldl]. intros [= <- <-].
  set (h := length (changes_listeners b)).
  set (w := mkListeningVariable (Z.to_nat p_id) (Z.of_nat k) fresh_old_set).
  set (o := Z.to_nat p_id) in *.
  set (vd' := set_vd_changes_listeners (vd_changes_listeners vd ++ [h]) vd).
  set (od' := set_vars (alter (λ _, vd') k (vars od)) od).
  set (b' := mkBase _ _ _ _ _ _ _ _).
  assert (Hobjs' : objects b' !! o = Some od' ∧ vars od' !! k = Some vd').
  { unfold b', link_listener, on_slot, od'. cbn [objects node_data var_id w].
    rewrite Nat2Z.id, list_lookup_alter_eq, Hlookup. cbn. split.
    - do 2 f_equal. apply list_alter_ext; [|done]. intros x Hx.
      assert (x = vd) as -> by congruence. done.
    - by rewrite list_lookup_alter_eq, Hvd. }
  destruct Hobjs' as [Hod' Hvd'].
  assert (Hls' : listens h p_flags false (changes_listeners b')).
  { eexists. unfold b', h. cbn [changes_listeners].
    rewrite lookup_app_r, Nat.sub_diag by done. done. }
  unfold detect_and_signal_changed_variables.
  set (b1 := if event_flag b' =? flag_now then b' else _).
  assert (H1 : objects b1 = objects b' ∧ event_flag b1 = flag_now ∧
               listener_calls b1 = listener_calls b ∧
               changes_listeners b1 = changes_listeners b').
  { unfold b1. by destruct (Z.eqb_spec (event_flag b') flag_now). }
  destruct H1 as (Hobjs1 & Hflag1 & Hcalls1 & Hls1).
  assert (Ho : (o < length (objects b1))%nat).
  { rewrite Hobjs1. by eapply lookup_lt_Some. }
  assert (Hk : (k < length (vars od'))%nat) by (by eapply lookup_lt_Some).
  (* the rounds before, at and after the watched object *)
  rewrite (seq_split o) by done.
  rewrite foldl_app. cbn [foldl].
  set (b2 := foldl _ b1 (seq 0 o)).
  assert (Hod2 : objects b2 !! o = Some od').
  { unfold b2. rewrite pull_objects_rounds by lia.
    rewrite lookup_app_r; rewrite length_fmap, length_take; [|lia].
    rewrite lookup_drop, <- Hod', <- Hobjs1. f_equal. lia. }
  assert (Hflag2 : event_flag b2 = flag_now)
    by (unfold b2; by rewrite pull_objects_event_flag).
  assert (Hls2 : listens h p_flags false (changes_listeners b2)).
  { unfold b2. apply pull_objects_listens. by rewrite Hls1. }
  assert (Hwake : listens h p_flags true
                    (changes_listeners (pull_node_changes get_variable o b2))).
  { unfold pull_node_changes. rewrite Hod2.
    rewrite (seq_split k) by done.
    rewrite foldl_app. cbn [foldl]. apply pull_vars_listens.
    set (b3 := foldl _ b2 (seq 0 k)).
    assert (Hod3 : objects b3 !! o =
      Some (set_vars ((pulled_var get_variable od' <$> take k (vars od')) ++
                      drop k (vars od')) od')).
    { unfold b3. rewrite (pull_rounds_objects _ _ _ od') by (done || lia).
      apply list_lookup_insert_eq. by eapply lookup_lt_Some. }
    eapply (pull_var_wakes _ _ _ _ _ _ _ vd'); [exact Hod3| |done| | | |].
    - cbn [vars set_vars].
      rewrite lookup_app_r; rewrite length_fmap, length_take; [|lia].
      rewrite lookup_drop, <- Hvd'. f_equal. lia.
    - exact Hchanged.
    - cbn. apply elem_of_app. right. apply list_elem_of_here.
    - unfold b3. by rewrite pull_vars_event_flag, Hflag2.
    - unfold b3. by apply pull_vars_listens. }
  set (b4 := foldl _ (pull_node_changes get_variable o b2) _).
  assert (Hls4 : listens h p_flags true (changes_listeners b4))
    by (by apply pull_objects_listens).
  exists (flush_calls b4).
  destruct Hls4 as (l & Hl & _ & Hwaits).
  assert (Hin : h ∈ (flush_calls b4).*1).
  { unfold flush_calls. rewrite flush_listeners_fst. apply waiting_spec.
    split; [lia|]. exists l. rewrite Nat.sub_0_r. split; [done|by apply Hwaits]. }
  apply list_elem_of_fmap in Hin as ([h' x] & Hh & Hin). cbn in Hh. subst h'.
  exists x. split; [|done].
  rewrite change_events_flush_calls. f_equal.
  unfold b4. rewrite pull_objects_calls, pull_node_changes_calls.
  unfold b2. by rewrite pull_objects_calls.
Qed.

End Tracking.

(** *** A lamp with two variables *)

(** One object "lamp" with the enabled variable "on", stored as true and
    watched by one listener for [END_SYNC], and the disabled variable
    "hue". *)
Definition lamp : ObjectData :=
  mkObjectData "lamp" 3
    [mkVarDescriptor 0 (mkNameAndVar "on" (VBool true)) false true [0%nat];
     mkVarDescriptor 1 (mkNameAndVar "hue" (VInt 4)) false false []].

Definition end_sync_listener : ChangesListener :=
  mkChangesListener [mkListeningVariable 0 0 false] [VNil]
    NetEventFlag.END_SYNC true.

Definition lamp_scene : SceneSynchronizerBase :=
  mkBase [lamp] [end_sync_listener] 0 false false false false [].

(** A host where the lamp is on, and one where it has been switched off. *)
Definition lit_host (handle : Z) (name : string) : option variant :=
  if (handle =? 3) && String.eqb name "on" then Some (VBool true) else None.
Definition dark_host (handle : Z) (name : string) : option variant :=
  if (handle =? 3) && String.eqb name "on" then Some (VBool false) else None.

Lemma lamp_in_sync : in_sync lit_host lamp_scene.
Proof.
  repeat (apply Forall_cons; split); try apply Forall_nil; cbn; done.
Defined.

Lemma lamp_ids_are_positions : ids_are_positions (vars lamp).
Proof. intros [|[|i]] vd; cbn; intros [= <-]; reflexivity. Defined.

Lemma lamp_handles_in_range : handles_in_range lamp_scene.
Proof.
  repeat (apply Forall_cons; split); try apply Forall_nil; cbn; lia.
Defined.

Lemma quiet_pull_calls_nobody_witness :
  detect_and_signal_changed_variables lit_host NetEventFlag.CHANGE lamp_scene =
    mkBase [lamp] [end_sync_listener] NetEventFlag.CHANGE false false false
      false [].
Proof.
  apply (quiet_pull_calls_nobody lit_host NetEventFlag.CHANGE lamp_scene
           lamp_in_sync).
  repeat constructor.
Defined.

Lemma other_flag_listener_not_called_witness :
  changes_listeners
    (detect_and_signal_changed_variables dark_host NetEventFlag.CHANGE
       lamp_scene) !! 0%nat = Some end_sync_listener ∧
  ∃ calls,
    listener_calls
      (detect_and_signal_changed_variables dark_host NetEventFlag.CHANGE
         lamp_scene) = [] ++ calls ∧
    0%nat ∉ calls.*1.
Proof.
  exact (other_flag_listener_not_called dark_host NetEventFlag.CHANGE
           lamp_scene 0 end_sync_listener eq_refl eq_refl eq_refl).
Defined.

Lemma unregister_then_register_witness :
  ∃ k vd b1,
    vars lamp !! k = Some vd ∧ nv_name (var vd) = "on"%string ∧
    unregister_variable 0 "on" lamp_scene = (b1, Completed) ∧
    is_variable_registered b1 0 "on" = true ∧
    register_variable dark_host 0 "on" b1 =
      (set_objects
         (<[Z.to_nat 0 :=
              set_vars
                (<[k := mkVarDescriptor (vd_id vd) (var vd) (skip_rewinding vd)
                          true []]> (vars lamp)) lamp]> (objects lamp_scene))
         lamp_scene,
       Reenabled).
Proof.
  apply (unregister_then_register dark_host 0 "on" lamp_scene lamp eq_refl).
  - discriminate.
  - exact lamp_ids_are_positions.
  - vm_compute. discriminate.
Defined.

Lemma untrack_undoes_track_witness :
  untrack_variable_changes 1
    (track_variables_changes true false [0; 0] ["on"; "on"]%string
       NetEventFlag.CHANGE lamp_scene).1 = lamp_scene.
Proof.
  apply (untrack_undoes_track true false [0; 0] ["on"; "on"]%string
           NetEventFlag.CHANGE lamp_scene _ 1 lamp_handles_in_range).
  reflexivity.
Defined.

Lemma tracked_change_calls_listener_witness :
  ∃ calls x,
    listener_calls
      (detect_and_signal_changed_variables dark_host NetEventFlag.CHANGE
         (track_variable_changes true false 0 "on" NetEventFlag.CHANGE
            lamp_scene).1)
      = listener_calls lamp_scene ++ calls ∧ (1%nat, x) ∈ calls.
Proof.
  apply (tracked_change_calls_listener true false dark_host 0 "on"
           NetEventFlag.CHANGE NetEventFlag.CHANGE lamp_scene lamp 0
           (mkVarDescriptor 0 (mkNameAndVar "on" (VBool true)) false true
              [0%nat]) _ 1 eq_refl eq_refl eq_refl eq_refl).
  - vm_compute. discriminate.
  - vm_compute. discriminate.
  - reflexivity.
Defined.

(** The listener just tracked is called once, with the value the variable
    has after the change. *)
Lemma tracked_change_calls_listener_run :
  listener_calls
    (detect_and_signal_changed_variables dark_host NetEventFlag.CHANGE
       (track_variable_changes true false 0 "on" NetEventFlag.CHANGE
          lamp_scene).1)
  = [(1%nat, [VBool false])].
Proof. reflexivity. Qed.

End Variables.

(** ** The server, continued: one pass seen from one peer, and the calls
    that decide what the next pass sends *)
Module Peers.
Import Server.

Definition set_enabled (e : bool) (pd : PeerData) : PeerData :=
  mkPeerData e (controller_id pd) (sync_group_id pd) (force_notify_snapshot pd)
    (need_full_snapshot pd).

Definition set_controller_id (id : Z) (pd : PeerData) : PeerData :=
  mkPeerData (enabled pd) id (sync_group_id pd) (force_notify_snapshot pd)
    (need_full_snapshot pd).

Definition set_need_full_snapshot (full : bool) (pd : PeerData) : PeerData :=
  mkPeerData (enabled pd) (controller_id pd) (sync_group_id pd)
    (force_notify_snapshot pd) full.

(** [SceneSynchronizerBase::set_peer_networking_enable] on a synchronizer
    in the server role, without the "peers are dirty" mark and the
    [rpc_handler_notify_peer_status] call that close it; neither touches the
    peers' data or the sync groups. *)
Definition set_peer_networking_enable (p_peer : Z) (p_enable : bool)
    (st : ServerState) : ServerState * Status :=
  if p_peer =? 1 then (st, Failed)
  else
    match peer_data st !! p_peer with
    | None => (st, Failed)
    | Some pd =>
        if bool_decide (enabled pd = p_enable) then (st, Done)
        else
          let pd' := set_snapshot_flags true true (set_enabled p_enable pd) in
          let st1 := set_peer_data (<[p_peer := pd']> (peer_data st)) st in
          ((if p_enable
            then server_sync_group_move_peer_to p_peer (sync_group_id pd') st1
            else server_sync_group_move_peer_to p_peer UINT32_MAX st1).1,
           Done)
    end.

(** [SceneSynchronizerBase::is_peer_networking_enable] on a server; [None]
    is the [ERR_FAIL_COND_V_MSG] for an unknown peer, which returns false. *)
Definition is_peer_networking_enable (p_peer : Z) (st : ServerState)
    : option bool :=
  if p_peer =? 1 then Some true else enabled <$> peer_data st !! p_peer.

(** [SceneSynchronizerBase::force_state_notify]; [real_add] is the sum of
    two [real_t] values as the platform computes it, here that of the
    interval and 1.0. *)
Definition force_state_notify (real_add : Q → Q → Q) (p_sync_group_id : Z)
    (st : ServerState) : ServerState * Status :=
  if negb (group_exists st p_sync_group_id) then (st, Failed)
  else
    (set_sync_groups
       (alter (set_timer (real_add (server_notify_state_interval st) 1%Q))
          (Z.to_nat p_sync_group_id) (sync_groups st)) st, Done).

(** [SceneSynchronizerBase::force_state_notify_all]. *)
Definition force_state_notify_all (real_add : Q → Q → Q) (st : ServerState)
    : ServerState :=
  set_sync_groups
    (set_timer (real_add (server_notify_state_interval st) 1%Q)
       <$> sync_groups st) st.

(** [SceneSynchronizerBase::rpc__notify_need_full_snapshot]; the argument
    is [rpc_get_sender ()]. *)
Definition rpc__notify_need_full_snapshot (sender_peer : Z) (st : ServerState)
    : ServerState * Status :=
  match peer_data st !! sender_peer with
  | None => (st, Failed)
  | Some pd =>
      (set_peer_data
         (<[sender_peer := set_need_full_snapshot true pd]> (peer_data st)) st,
       Done)
  end.

(** *** One pass of the notificator, seen from one peer *)

Section Pass.

Variable snapshot_body : bool → SyncGroup → list bool.
Variable is_realtime_node_list_changed : SyncGroup → bool.
Variable real_add : Q → Q → Q.

Abbreviation notifies := (Server.notifies real_add).

Lemma process_groups_for_peer objs interval p_delta p l1 l2 :
  ∀ gs1 g gs2 pd gs' pd' packets peer,
  Forall (λ g, p ∉ peers g) gs1 → Forall (λ g, p ∉ peers g) gs2 →
  peers g = l1 ++ p :: l2 → p ∉ l1 → p ∉ l2 → pd !! p = Some peer →
  process_groups snapshot_body is_realtime_node_list_changed real_add objs
      interval p_delta (gs1 ++ g :: gs2) pd =
    Some (gs', pd', packets) →
  if served (notifies interval p_delta g) peer
  then (∃ pk, to_p p packets = [pk] ∧ is_full pk = need_full_snapshot peer) ∧
       pd' !! p = Some (set_snapshot_flags false false peer)
  else to_p p packets = [] ∧ pd' !! p = Some peer.
Proof.
  induction gs1 as [|g1 gs1 IH];
    intros g gs2 pd gs' pd' packets peer Hgs1 Hgs2 Hpeers Hl1 Hl2 Hp;
    cbn [app process_groups].
  - destruct (process_group snapshot_body is_realtime_node_list_changed
      real_add objs interval p_delta g pd)
      as [[g' e]|] eqn:Hgroup; [|done].
    cbn [mbind option_bind].
    destruct (process_groups snapshot_body is_realtime_node_list_changed
        real_add objs interval p_delta gs2
                (em_peer_data e))
      as [[[rest' pd1] packets1]|] eqn:Hrest; [|done].
    cbn [mbind option_bind]. intros [= <- <- <-].
    pose proof (process_group_for_peer _ _ _ _ _ _ _ _ _ _ _ _ _ _
        Hpeers Hl1 Hl2 Hp
                  Hgroup) as Hone.
    destruct (process_groups_other _ _ _ _ _ _ _ _ _ _ _ _ Hgs2 Hrest)
      as [Hd Hnone].
    unfold to_p in *. rewrite filter_app, Hnone, app_nil_r, Hd.
    exact Hone.
  - apply Forall_cons in Hgs1 as [Hg1 Hgs1].
    destruct (process_group snapshot_body is_realtime_node_list_changed
        real_add objs interval p_delta g1 pd)
      as [[g' e]|] eqn:Hgroup; [|done].
    cbn [mbind option_bind].
    destruct (process_groups snapshot_body is_realtime_node_list_changed
        real_add objs interval p_delta
                (gs1 ++ g :: gs2) (em_peer_data e))
      as [[[rest' pd1] packets1]|] eqn:Hrest; [|done].
    cbn [mbind option_bind]. intros [= <- <- <-].
    destruct (process_group_other _ _ _ _ _ _ _ _ _ _ p Hg1 Hgroup) as [Hd Hnone].
    rewrite <- Hd in Hp.
    pose proof (IH _ _ _ _ _ _ _ Hgs1 Hgs2 Hpeers Hl1 Hl2 Hp Hrest) as Hone.
    unfold to_p in *. by rewrite filter_app, Hnone.
Qed.

(** The peer is listed by the group at position [j], once, and by no other
    group. *)
Definition subscribed_to (st : ServerState) (p : Z) (j : nat) : Prop :=
  ∃ g, sync_groups st !! j = Some g ∧ p ∈ peers g ∧ NoDup (peers g) ∧
       ∀ i g', sync_groups st !! i = Some g' → p ∈ peers g' → i = j.

(** The peer is listed by no group. *)
Definition unsubscribed (st : ServerState) (p : Z) : Prop :=
  Forall (λ g, p ∉ peers g) (sync_groups st).

(** One pass, seen from a peer that one group lists. *)
Lemma pass_for_subscribed_peer p_delta st p pd j g :
  peer_data st !! p = Some pd →
  subscribed_to st p j → sync_groups st !! j = Some g →
  controllers_valid (objects st) (peer_data st) →
  all_ids_fit (sync_groups st) →
  ∃ st' packets,
    process_snapshot_notificator snapshot_body is_realtime_node_list_changed
      real_add p_delta st = Some (st', packets) ∧
    if served (notifies (server_notify_state_interval st) p_delta g) pd
    then (∃ pk, to_p p packets = [pk] ∧ is_full pk = need_full_snapshot pd) ∧
         peer_data st' !! p = Some (set_snapshot_flags false false pd)
    else to_p p packets = [] ∧ peer_data st' !! p = Some pd.
Proof.
  intros Hp (g0 & Hg0 & Hin & Hnodup & Honly) Hg Hvalid Hfit.
  assert (g0 = g) as -> by congruence.
  apply list_elem_of_split in Hin as (l1 & l2 & Hpeers).
  rewrite Hpeers in Hnodup. apply NoDup_app in Hnodup as (_ & Hl1 & Hl2).
  apply NoDup_cons in Hl2 as [Hl2 _].
  assert (Hnot1 : p ∉ l1).
  { intros H1. apply (Hl1 _ H1). apply list_elem_of_here. }
  unfold process_snapshot_notificator.
  rewrite bool_decide_false
    by (intros Hempty; by rewrite Hempty, lookup_empty in Hp).
  destruct (process_groups_total snapshot_body is_realtime_node_list_changed
              real_add (objects st)
              (server_notify_state_interval st) p_delta (sync_groups st)
              (peer_data st) Hvalid Hfit) as (gs' & pd1 & packets & Hrun & _).
  rewrite Hrun. cbn [mbind option_bind].
  exists (set_peer_data pd1 (set_sync_groups gs' st)), packets.
  split; [done|]. cbn [peer_data set_peer_data].
  pose proof (take_drop_middle _ _ _ Hg) as Hsplit.
  rewrite <- Hsplit in Hrun.
  eapply (process_groups_for_peer _ _ _ p l1 l2); [| |done..|exact Hrun].
  - apply Forall_lookup. intros i g' Hi.
    assert (Hlt : (i < j)%nat).
    { apply lookup_lt_Some in Hi. rewrite length_take in Hi. lia. }
    rewrite lookup_take_lt in Hi by done.
    intros Hin'. specialize (Honly _ _ Hi Hin'). lia.
  - apply Forall_lookup. intros i g' Hi. rewrite lookup_drop in Hi.
    intros Hin'. specialize (Honly _ _ Hi Hin'). lia.
Qed.

(** X8.  One pass of [process_snapshot_notificator], seen from a connected
    peer that is subscribed to one group, with every peer's controller id
    naming nothing or a controller and every realtime net id fitting 16 bits
    (so that no [CRASH_COND] aborts the pass): the pass completes; the peer
    is sent exactly one snapshot if its "force" bit is set or the group's
    timer, after [p_delta] is added to it as the platform adds [real_t]
    values, is not below the notify interval, and none otherwise; the
    snapshot is a full one exactly if the peer's "needs full snapshot" bit was
    set; and a peer that was sent a snapshot has both bits cleared, while one
    that was not keeps its data. *)
Theorem snapshot_pass_for_one_peer p_delta st p pd j g :
  peer_data st !! p = Some pd →
  subscribed_to st p j → sync_groups st !! j = Some g →
  controllers_valid (objects st) (peer_data st) →
  all_ids_fit (sync_groups st) →
  ∃ st' packets,
    process_snapshot_notificator snapshot_body is_realtime_node_list_changed
      real_add p_delta st = Some (st', packets) ∧
    if served (notifies (server_notify_state_interval st) p_delta g) pd
    then (∃ pk, to_p p packets = [pk] ∧ is_full pk = need_full_snapshot pd) ∧
         peer_data st' !! p = Some (set_snapshot_flags false false pd)
    else to_p p packets = [] ∧ peer_data st' !! p = Some pd.
Proof. apply pass_for_subscribed_peer. Qed.

(** A peer that no group lists is sent nothing and keeps its data. *)
Lemma snapshot_pass_for_unsubscribed p_delta st p :
  unsubscribed st p →
  controllers_valid (objects st) (peer_data st) →
  all_ids_fit (sync_groups st) →
  ∃ st' packets,
    process_snapshot_notificator snapshot_body is_realtime_node_list_changed
      real_add p_delta st = Some (st', packets) ∧
    to_p p packets = [] ∧ peer_data st' !! p = peer_data st !! p.
Proof.
  intros Hnone Hvalid Hfit. unfold process_snapshot_notificator.
  case_bool_decide as Hempty; [by eexists _, _|].
  destruct (process_groups_total snapshot_body is_realtime_node_list_changed
              real_add (objects st)
              (server_notify_state_interval st) p_delta (sync_groups st)
              (peer_data st) Hvalid Hfit) as (gs' & pd1 & packets & Hrun & _).
  rewrite Hrun. cbn [mbind option_bind].
  destruct (process_groups_other _ _ _ _ _ _ _ _ _ _ _ _ Hnone Hrun) as [Hd Hs].
  by eexists _, _.
Qed.

(** *** What moving a peer does *)

Lemma add_node_keeps_timers od g rt st :
  server_notify_state_interval (sync_group_add_node od g rt st).1 =
    server_notify_state_interval st ∧
  ∀ j, state_notifier_timer <$> (sync_groups (sync_group_add_node od g rt
      st).1 !! j) =
       state_notifier_timer <$> (sync_groups st !! j).
Proof.
  unfold sync_group_add_node. destruct od as [od|]; [|done].
  destruct (negb (group_exists st g)); [done|].
  destruct (g =? GLOBAL_SYNC_GROUP_ID); [done|].
  cbn. split; [done|]. intros j.
  destruct (decide (Z.to_nat g = j)) as [<-|Hne].
  - rewrite list_lookup_alter_eq.
    destruct (sync_groups st !! Z.to_nat g) as [x|]; cbn; [|done].
    unfold add_new_node. by destruct rt.
  - by rewrite list_lookup_alter_ne.
Qed.

(** [ServerSynchronizer::sync_group_move_peer_to] with the "no group" id:
    the peer leaves every group and nothing else changes. *)
Lemma server_move_to_no_group p st :
  server_sync_group_move_peer_to p UINT32_MAX st =
    (set_sync_groups
       ((λ g, set_peers (erase p (peers g)) g) <$> sync_groups st) st, Done).
Proof. done. Qed.

(** [ServerSynchronizer::sync_group_move_peer_to] with the id of a group,
    for a connected peer. *)
Lemma server_move_to_group st p gid pd :
  peer_data st !! p = Some pd →
  group_exists st gid = true → gid ≠ UINT32_MAX →
  let st' := (server_sync_group_move_peer_to p gid st).1 in
  peer_data st' = <[p := set_snapshot_flags true true pd]> (peer_data st) ∧
  objects st' = objects st ∧
  server_notify_state_interval st' = server_notify_state_interval st ∧
  (∀ j, peers <$> (sync_groups st' !! j) =
        (λ g, if decide (j = Z.to_nat gid)
              then erase p (peers g) ++ [p] else erase p (peers g))
          <$> (sync_groups st !! j)) ∧
  (∀ j, state_notifier_timer <$> (sync_groups st' !! j) =
        state_notifier_timer <$> (sync_groups st !! j)).
Proof.
  intros Hp Hex Hmax. cbn zeta. unfold server_sync_group_move_peer_to.
  destruct (Z.eqb_spec gid UINT32_MAX) as [?|_]; [done|].
  set (st1 := set_sync_groups _ st).
  assert (Hex1 : group_exists st1 gid = true).
  { unfold group_exists in *. cbn. by rewrite length_fmap. }
  rewrite Hex1. cbn [negb].
  set (st2 := set_sync_groups _ st1).
  assert (Hp2 : peer_data st2 !! p = Some pd) by done.
  rewrite Hp2.
  set (st3 := set_peer_data _ st2).
  assert (Hgroups : ∀ j, peers <$> (sync_groups st3 !! j) =
    (λ g, if decide (j = Z.to_nat gid)
          then erase p (peers g) ++ [p] else erase p (peers g))
      <$> (sync_groups st !! j)).
  { intros j. cbn. destruct (decide (j = Z.to_nat gid)) as [->|Hne].
    - rewrite list_lookup_alter_eq, list_lookup_fmap.
      by destruct (sync_groups st !! Z.to_nat gid).
    - rewrite list_lookup_alter_ne, list_lookup_fmap by done.
      by destruct (sync_groups st !! j). }
  assert (Htimers : ∀ j, state_notifier_timer <$> (sync_groups st3 !! j) =
                         state_notifier_timer <$> (sync_groups st !! j)).
  { intros j. cbn. destruct (decide (j = Z.to_nat gid)) as [->|Hne].
    - rewrite list_lookup_alter_eq, list_lookup_fmap.
      by destruct (sync_groups st !! Z.to_nat gid).
    - rewrite list_lookup_alter_ne, list_lookup_fmap by done.
      by destruct (sync_groups st !! j). }
  destruct (objects st3 !! controller_id pd).
  - cbn [fst].
    destruct (add_node_keeps_peers (Some (controller_id pd)) gid true st3)
      as (H1 & H2 & H3).
    destruct (add_node_keeps_timers (Some (controller_id pd)) gid true st3)
      as (H4 & H5).
    rewrite H1, H2, H4. repeat split; try done.
    + intros j. by rewrite H3.
    + intros j. by rewrite H5.
  - done.
Qed.

Lemma group_exists_lookup st gid :
  group_exists st gid = true → is_Some (sync_groups st !! Z.to_nat gid).
Proof.
  unfold group_exists. intros [H0%Z.leb_le H1%Z.ltb_lt]%andb_prop.
  apply lookup_lt_is_Some. lia.
Qed.

(** After the move the peer is subscribed to the target group and to no
    other. *)
Lemma server_move_subscribes st p gid pd :
  peer_data st !! p = Some pd → subscribed_once st →
  group_exists st gid = true → gid ≠ UINT32_MAX →
  subscribed_to (server_sync_group_move_peer_to p gid st).1 p (Z.to_nat gid).
Proof.
  intros Hp Honce Hex Hmax.
  destruct (server_move_to_group st p gid pd Hp Hex Hmax)
    as (_ & _ & _ & Hgroups & _).
  set (st' := (server_sync_group_move_peer_to p gid st).1) in *.
  destruct (group_exists_lookup _ _ Hex) as [g0 Hg0].
  assert (Hnd : ∀ j g, sync_groups st !! j = Some g → NoDup (peers g)).
  { intros j g Hj. by eapply (proj1 (Forall_lookup _ _) Honce). }
  pose proof (Hgroups (Z.to_nat gid)) as Hat. rewrite Hg0 in Hat.
  destruct (sync_groups st' !! Z.to_nat gid) as [g|] eqn:Hg; [|done].
  cbn in Hat. rewrite decide_True in Hat by done. injection Hat as Hpeers.
  exists g. split; [done|]. rewrite Hpeers. split; [|split].
  - apply elem_of_app. right. apply list_elem_of_here.
  - apply NoDup_app. split; [|split].
    + apply NoDup_erase. by eapply Hnd.
    + intros q Hq ->%list_elem_of_singleton.
      exact (erase_not_elem p _ (Hnd _ _ Hg0) Hq).
    + apply NoDup_singleton.
  - intros i g' Hi Hin. destruct (decide (i = Z.to_nat gid)) as [|Hne]; [done|].
    specialize (Hgroups i). rewrite Hi in Hgroups.
    destruct (sync_groups st !! i) as [g1|] eqn:Hg1; [|done].
    cbn in Hgroups. rewrite decide_False in Hgroups by done.
    injection Hgroups as Hpeers'. rewrite Hpeers' in Hin.
    destruct (erase_not_elem p _ (Hnd _ _ Hg1) Hin).
Qed.

Lemma erase_all_unsubscribes p st :
  subscribed_once st →
  unsubscribed
    (set_sync_groups
       ((λ g, set_peers (erase p (peers g)) g) <$> sync_groups st) st) p.
Proof.
  intros Honce. unfold unsubscribed. cbn. apply Forall_fmap.
  eapply Forall_impl; [exact Honce|]. intros g. apply erase_not_elem.
Qed.

Lemma controllers_valid_same_ids objs (pd pd' : gmap Z PeerData) :
  (∀ q peer', pd' !! q = Some peer' →
     ∃ peer, pd !! q = Some peer ∧ controller_id peer' = controller_id peer) →
  controllers_valid objs pd → controllers_valid objs pd'.
Proof.
  intros Hsame Hvalid q peer' Hq.
  destruct (Hsame _ _ Hq) as (peer & Hpeer & Hid).
  rewrite (fetch_input_id_controller objs _ _ Hid). by eapply Hvalid.
Qed.

Lemma controllers_valid_insert objs pd p peer peer' :
  pd !! p = Some peer → controller_id peer' = controller_id peer →
  controllers_valid objs pd → controllers_valid objs (<[p := peer']> pd).
Proof.
  intros Hp Hid. apply controllers_valid_same_ids. intros q x Hq.
  destruct (decide (p = q)) as [<-|Hne].
  - rewrite lookup_insert_eq in Hq. injection Hq as <-. by exists peer.
  - rewrite lookup_insert_ne in Hq by done. by exists x.
Qed.

(** *** Disabling and enabling a peer *)

(** X9.  With peer lists without duplicates, controller ids that name
    nothing or a controller and net ids that fit 16 bits (so that no
    [CRASH_COND] aborts a pass): disabling the networking of an enabled peer
    other than peer 1 keeps the group id stored for the peer, sets its two
    snapshot bits and removes it from every group, so that a pass of the
    notificator completes and sends it nothing.  Enabling it again, when
    the stored group id names a group, subscribes it to that group and to no
    other, and the next pass completes and sends it exactly one snapshot, a
    full one. *)
Theorem disabled_peer_is_sent_nothing p_delta st p pd :
  p ≠ 1 → peer_data st !! p = Some pd → enabled pd = true →
  subscribed_once st → controllers_valid (objects st) (peer_data st) →
  all_ids_fit (sync_groups st) → controller_fits st p →
  let st1 := (set_peer_networking_enable p false st).1 in
  peer_data st1 !! p =
    Some (mkPeerData false (controller_id pd) (sync_group_id pd) true true) ∧
  unsubscribed st1 p ∧
  (∃ st2 packets,
     process_snapshot_notificator snapshot_body is_realtime_node_list_changed
         real_add p_delta st1 =
       Some (st2, packets) ∧ to_p p packets = []) ∧
  (group_exists st (sync_group_id pd) = true → sync_group_id pd ≠ UINT32_MAX →
   let st3 := (set_peer_networking_enable p true st1).1 in
   subscribed_to st3 p (Z.to_nat (sync_group_id pd)) ∧
   ∃ st4 packets pk,
     process_snapshot_notificator snapshot_body is_realtime_node_list_changed
         real_add p_delta st3 =
       Some (st4, packets) ∧ to_p p packets = [pk] ∧ is_full pk = true).
Proof.
  intros Hp1 Hp Henabled Honce Hvalid Hfit Hcontroller. cbn zeta.
  set (pd1 := mkPeerData false (controller_id pd) (sync_group_id pd) true true).
  set (st0 := set_peer_data (<[p := pd1]> (peer_data st)) st).
  set (st1 := set_sync_groups
                ((λ g, set_peers (erase p (peers g)) g) <$> sync_groups st0)
                st0).
  assert (Hst1 : (set_peer_networking_enable p false st).1 = st1).
  { unfold set_peer_networking_enable. rewrite Hp.
    destruct (Z.eqb_spec p 1) as [?|_]; [done|].
    rewrite bool_decide_false by (rewrite Henabled; discriminate).
    by rewrite server_move_to_no_group. }
  rewrite Hst1.
  assert (Hp1' : peer_data st1 !! p = Some pd1) by apply lookup_insert_eq.
  assert (Honce1 : subscribed_once st1).
  { apply (subscribed_once_fmap _ st0); [|done]. intros g. apply NoDup_erase. }
  assert (Hnone1 : unsubscribed st1 p) by (by apply erase_all_unsubscribes).
  assert (Hvalid1 : controllers_valid (objects st1) (peer_data st1))
    by (by eapply controllers_valid_insert).
  assert (Hfit1 : all_ids_fit (sync_groups st1)).
  { cbn. by apply all_ids_fit_fmap. }
  split; [done|]. split; [done|]. split.
  - destruct (snapshot_pass_for_unsubscribed p_delta st1 p Hnone1 Hvalid1
                Hfit1)
      as (st2 & packets & Hrun & Hnone & _).
    by exists st2, packets.
  - intros Hex Hmax.
    set (pd3 := mkPeerData true (controller_id pd) (sync_group_id pd) true true).
    set (st2 := set_peer_data (<[p := pd3]> (peer_data st1)) st1).
    assert (Hst3 : (set_peer_networking_enable p true st1).1 =
                   (server_sync_group_move_peer_to p (sync_group_id pd) st2).1).
    { unfold set_peer_networking_enable. rewrite Hp1'.
      destruct (Z.eqb_spec p 1) as [?|_]; [done|].
      by rewrite bool_decide_false by discriminate. }
    rewrite Hst3.
    assert (Hp2 : peer_data st2 !! p = Some pd3) by apply lookup_insert_eq.
    assert (Hex2 : group_exists st2 (sync_group_id pd) = true).
    { unfold group_exists in *. cbn. by rewrite length_fmap. }
    assert (Hfit3 : all_ids_fit
              (sync_groups
                 (server_sync_group_move_peer_to p (sync_group_id pd) st2).1)).
    { apply server_move_ids_fit; [done|]. intros pd0. rewrite Hp2.
      intros [= <-]. exact (Hcontroller pd Hp). }
    assert (Hsub : subscribed_to
              (server_sync_group_move_peer_to p (sync_group_id pd) st2).1 p
              (Z.to_nat (sync_group_id pd)))
      by (by apply (server_move_subscribes st2 p _ pd3)).
    split; [done|].
    destruct (server_move_to_group st2 p (sync_group_id pd) pd3 Hp2 Hex2 Hmax)
      as (Hpd & Hobjs & _ & _ & _).
    set (st3 := (server_sync_group_move_peer_to p (sync_group_id pd) st2).1)
      in *.
    assert (Hp3 : peer_data st3 !! p = Some pd3).
    { rewrite Hpd. apply lookup_insert_eq. }
    assert (Hvalid3 : controllers_valid (objects st3) (peer_data st3)).
    { rewrite Hobjs, Hpd.
      apply (controllers_valid_insert _ _ _ pd3); [done|done|].
      by apply (controllers_valid_insert _ _ _ pd1). }
    destruct Hsub as (g & Hg & Hsub).
    destruct (pass_for_subscribed_peer p_delta st3 p pd3
                (Z.to_nat (sync_group_id pd)) g Hp3
                (ex_intro _ g (conj Hg Hsub)) Hg Hvalid3 Hfit3)
      as (st4 & packets & Hrun & Hserved).
    cbn [served force_notify_snapshot pd3 orb need_full_snapshot] in Hserved.
    destruct Hserved as [(pk & Hpk & Hfull) _].
    by exists st4, packets, pk.
Qed.

(** *** Forcing the state of a group *)




(** *** Several passes *)

(** Consecutive calls of [process_snapshot_notificator], one per time step
    of [ds]; the packets of all of them, oldest first. *)
Fixpoint passes (ds : list Q) (st : ServerState)
    : option (ServerState * list Packet) :=
  match ds with
  | [] => Some (st, [])
  | d :: rest =>
      '(st1, packets1) ← process_snapshot_notificator snapshot_body
          is_realtime_node_list_changed real_add d st;
      '(st2, packets2) ← passes rest st1;
      Some (st2, packets1 ++ packets2)
  end.

Lemma process_group_keeps_peers objs interval p_delta g pd g' e :
  process_group snapshot_body is_realtime_node_list_changed real_add objs
      interval p_delta g pd = Some (g', e) →
  peers g' = peers g.
Proof.
  unfold process_group. destruct (peers g) as [|q0 qs] eqn:Hg.
  - by intros [= <- <-].
  - match goal with
    | |- context [process_peers ?b ?o ?gr ?n ?t ?s] =>
        destruct (process_peers b o gr n t s) as [e1|]; [|done]
    end.
    cbn [mbind option_bind]. intros [= <- <-].
    by destruct (Qle_bool _ _).
Qed.

Lemma process_groups_keep_peers objs interval p_delta gs :
  ∀ pd gs' pd' packets,
  process_groups snapshot_body is_realtime_node_list_changed real_add objs
      interval p_delta gs pd =
    Some (gs', pd', packets) →
  peers <$> gs' = peers <$> gs.
Proof.
  induction gs as [|g gs IH]; intros pd gs' pd' packets; cbn [process_groups];
    [by intros [= <- <- <-]|].
  destruct (process_group snapshot_body is_realtime_node_list_changed real_add
      objs interval p_delta g pd)
    as [[g1 e]|] eqn:Hgroup; [|done].
  cbn [mbind option_bind].
  destruct (process_groups snapshot_body is_realtime_node_list_changed
      real_add objs interval p_delta gs
              (em_peer_data e)) as [[[rest' pd1] packets1]|] eqn:Hrest; [|done].
  cbn [mbind option_bind]. intros [= <- <- <-]. cbn [fmap list_fmap].
  f_equal; [by eapply process_group_keeps_peers|by eapply IH].
Qed.

Lemma process_groups_keep_valid objs interval p_delta gs :
  ∀ pd gs' pd' packets,
  controllers_valid objs pd → all_ids_fit gs →
  process_groups snapshot_body is_realtime_node_list_changed real_add objs
    interval p_delta gs pd = Some (gs', pd', packets) →
  controllers_valid objs pd' ∧ all_ids_fit gs'.
Proof.
  induction gs as [|g gs IH]; intros pd gs' pd' packets Hvalid Hfit;
    cbn [process_groups]; [by intros [= <- <- <-]|].
  apply Forall_cons in Hfit as [Hg Hfit].
  destruct (process_group_total snapshot_body is_realtime_node_list_changed
              real_add objs interval p_delta g pd Hvalid Hg)
    as (g1 & e & -> & Hvalid1 & Hg1).
  cbn [mbind option_bind].
  destruct (process_groups snapshot_body is_realtime_node_list_changed real_add
              objs interval p_delta gs (em_peer_data e))
    as [[[rest' pd1] packets1]|] eqn:Hrest; [|done].
  cbn [mbind option_bind]. intros [= <- <- <-].
  destruct (IH _ _ _ _ Hvalid1 Hfit Hrest) as [H1 H2].
  split; [done|]. by apply Forall_cons.
Qed.

(** What the notificator needs to complete: controller ids that name
    nothing or a controller, and realtime net ids that fit 16 bits. *)
Definition ready (st : ServerState) : Prop :=
  controllers_valid (objects st) (peer_data st) ∧
  all_ids_fit (sync_groups st).

(** What a pass leaves alone. *)
Lemma pass_keeps p_delta st st' packets :
  process_snapshot_notificator snapshot_body is_realtime_node_list_changed
    real_add p_delta st = Some (st', packets) →
  objects st' = objects st ∧
  server_notify_state_interval st' = server_notify_state_interval st ∧
  peers <$> sync_groups st' = peers <$> sync_groups st ∧
  (ready st → ready st').
Proof.
  unfold process_snapshot_notificator.
  case_bool_decide as Hempty; [by intros [= <- <-]|].
  destruct (process_groups snapshot_body is_realtime_node_list_changed real_add
              (objects st)
              (server_notify_state_interval st) p_delta (sync_groups st)
              (peer_data st)) as [[[gs' pd1] packets1]|] eqn:Hrun; [|done].
  cbn [mbind option_bind]. intros [= <- <-].
  split; [done|]. split; [done|]. split.
  - by eapply process_groups_keep_peers.
  - intros [Hvalid Hfit]. by eapply process_groups_keep_valid.
Qed.

(** A pass completes on a server that is ready. *)
Lemma pass_total p_delta st :
  ready st →
  is_Some (process_snapshot_notificator snapshot_body
             is_realtime_node_list_changed real_add p_delta st).
Proof.
  intros [Hvalid Hfit]. unfold process_snapshot_notificator.
  case_bool_decide; [done|].
  destruct (process_groups_total snapshot_body is_realtime_node_list_changed
              real_add (objects st) (server_notify_state_interval st) p_delta
              (sync_groups st) (peer_data st) Hvalid Hfit)
    as (gs' & pd1 & packets & -> & _).
  done.
Qed.

(** So do consecutive passes. *)
Lemma passes_total ds : ∀ st, ready st → is_Some (passes ds st).
Proof.
  induction ds as [|d ds IH]; intros st Hready; [done|].
  cbn [passes].
  destruct (pass_total d st Hready) as [[st1 packets1] Hrun].
  rewrite Hrun. cbn [mbind option_bind].
  destruct (pass_keeps _ _ _ _ Hrun) as (_ & _ & _ & Hready1).
  destruct (IH st1 (Hready1 Hready)) as [[st2 packets2] ->]. done.
Qed.

Lemma subscribed_to_peers st st' p j :
  peers <$> sync_groups st' = peers <$> sync_groups st →
  subscribed_to st p j → subscribed_to st' p j.
Proof.
  intros Hsame (g & Hg & Hin & Hnodup & Honly).
  assert (Hat : ∀ i, peers <$> (sync_groups st' !! i) =
                     peers <$> (sync_groups st !! i)).
  { intros i. by rewrite <- !list_lookup_fmap, Hsame. }
  pose proof (Hat j) as Hj. rewrite Hg in Hj.
  destruct (sync_groups st' !! j) as [g'|] eqn:Hg'; [|done].
  injection Hj as Hpeers. exists g'. rewrite Hpeers.
  split; [done|]. split; [done|]. split; [done|].
  intros i g1 Hi Hin1. specialize (Hat i). rewrite Hi in Hat.
  destruct (sync_groups st !! i) as [g2|] eqn:Hg2; [|done].
  injection Hat as Hpeers1. rewrite Hpeers1 in Hin1. by eapply Honly.
Qed.

(** A peer that needs a full snapshot keeps needing it until it is served,
    and is then served a full one. *)
Lemma passes_full_first ds : ∀ st p pd j,
  peer_data st !! p = Some pd → need_full_snapshot pd = true →
  subscribed_to st p j → ready st →
  ∃ st' packets,
    passes ds st = Some (st', packets) ∧
    match to_p p packets with
    | [] => need_full_snapshot <$> peer_data st' !! p = Some true
    | pk :: _ => is_full pk = true
    end.
Proof.
  induction ds as [|d ds IH]; intros st p pd j Hp Hfull Hsub Hvalid.
  - exists st, []. split; [done|]. cbn. by rewrite Hp, <- Hfull.
  - pose proof Hsub as (g & Hg & _).
    destruct (pass_for_subscribed_peer d st p pd j g Hp Hsub Hg
                (proj1 Hvalid) (proj2 Hvalid))
      as (st1 & packets1 & Hrun & Hcase).
    destruct (pass_keeps _ _ _ _ Hrun) as (Hobjs & _ & Hpeers & Hvalid1).
    cbn [passes]. rewrite Hrun. cbn [mbind option_bind].
    destruct (served _ pd).
    + destruct Hcase as [(pk & Hpk & Hkind) Hpd1].
      assert (Hrest : is_Some (passes ds st1))
        by apply passes_total, Hvalid1, Hvalid.
      destruct Hrest as [[st2 packets2] Hrest]. rewrite Hrest.
      cbn [mbind option_bind]. exists st2, (packets1 ++ packets2).
      split; [done|]. unfold to_p in *. rewrite filter_app, Hpk. cbn [app].
      congruence.
    + destruct Hcase as [Hnone Hpd1].
      destruct (IH st1 p pd j Hpd1 Hfull
                  (subscribed_to_peers st st1 p j Hpeers Hsub)
                  (Hvalid1 Hvalid)) as (st2 & packets2 & Hrest & Hhead).
      rewrite Hrest. cbn [mbind option_bind].
      exists st2, (packets1 ++ packets2). split; [done|].
      unfold to_p in *. by rewrite filter_app, Hnone.
Qed.

(** X11.  With controller ids that name nothing or a controller and net
    ids that fit 16 bits (so that no [CRASH_COND] aborts a pass): after a
    subscribed peer's request for a full snapshot
    ([rpc__notify_need_full_snapshot]), however many passes of the notificator
    follow and whatever their time steps, the passes complete and the first
    snapshot sent to that peer is a full one; as long as none was sent the
    peer still needs one.  A request from an unknown peer fails and changes
    nothing. *)
Theorem full_snapshot_request_is_honoured ds st p pd j :
  peer_data st !! p = Some pd → subscribed_to st p j →
  controllers_valid (objects st) (peer_data st) →
  all_ids_fit (sync_groups st) →
  (∀ q, peer_data st !! q = None →
        rpc__notify_need_full_snapshot q st = (st, Failed)) ∧
  ∃ st1 st2 packets,
    rpc__notify_need_full_snapshot p st = (st1, Done) ∧
    passes ds st1 = Some (st2, packets) ∧
    match to_p p packets with
    | [] => need_full_snapshot <$> peer_data st2 !! p = Some true
    | pk :: _ => is_full pk = true
    end.
Proof.
  intros Hp Hsub Hvalid Hfit. split.
  { intros q Hq. unfold rpc__notify_need_full_snapshot. by rewrite Hq. }
  unfold rpc__notify_need_full_snapshot. rewrite Hp.
  set (st1 := set_peer_data _ st).
  destruct (passes_full_first ds st1 p (set_need_full_snapshot true pd) j)
    as (st2 & packets & Hrun & Hhead).
  - apply lookup_insert_eq.
  - done.
  - by apply (subscribed_to_peers st).
  - split; [by eapply controllers_valid_insert|done].
  - by exists st1, st2, packets.
Qed.

(** *** A peer without data *)

Lemma process_peer_absent objs g notify_state q e e' p :
  em_peer_data e !! p = None →
  process_peer snapshot_body is_realtime_node_list_changed objs g notify_state
      q e = Some e' →
  em_peer_data e' !! p = None ∧ to_p p (sent e') = to_p p (sent e).
Proof.
  intros Hp. destruct (decide (q = p)) as [->|Hne].
  - unfold process_peer. rewrite Hp. by intros [= <-].
  - intros Hstep.
    destruct (process_peer_other _ _ _ _ _ _ _ _ p Hne Hstep) as [H1 H2].
    split; congruence.
Qed.

Lemma process_peers_absent objs g notify_state todo p : ∀ e e',
  em_peer_data e !! p = None →
  process_peers snapshot_body is_realtime_node_list_changed objs g
      notify_state todo e = Some e' →
  em_peer_data e' !! p = None ∧ to_p p (sent e') = to_p p (sent e).
Proof.
  induction todo as [|q todo IH]; intros e e' Hp; cbn [process_peers];
    [by intros [= <-]|].
  destruct (process_peer snapshot_body is_realtime_node_list_changed objs g
      notify_state q e) as [e1|]
    eqn:Hstep; [|done].
  cbn [mbind option_bind]. intros Hrest.
  destruct (process_peer_absent _ _ _ _ _ _ _ Hp Hstep) as [H1 H2].
  destruct (IH _ _ H1 Hrest) as [H3 H4]. split; congruence.
Qed.

Lemma process_groups_absent objs interval p_delta gs p :
  ∀ pd gs' pd' packets,
  pd !! p = None →
  process_groups snapshot_body is_realtime_node_list_changed real_add objs
      interval p_delta gs pd =
    Some (gs', pd', packets) →
  pd' !! p = None ∧ to_p p packets = [].
Proof.
  induction gs as [|g gs IH]; intros pd gs' pd' packets Hp;
    cbn [process_groups]; [by intros [= <- <- <-]|].
  destruct (process_group snapshot_body is_realtime_node_list_changed real_add
      objs interval p_delta g pd)
    as [[g1 e]|] eqn:Hgroup; [|done].
  cbn [mbind option_bind].
  destruct (process_groups snapshot_body is_realtime_node_list_changed
      real_add objs interval p_delta gs
              (em_peer_data e)) as [[[rest' pd1] packets1]|] eqn:Hrest; [|done].
  cbn [mbind option_bind]. intros [= <- <- <-].
  assert (He : em_peer_data e !! p = None ∧ to_p p (sent e) = []).
  { unfold process_group in Hgroup. destruct (peers g) as [|q0 qs].
    - by injection Hgroup as <- <-.
    - match type of Hgroup with
      | context [process_peers ?b ?o ?gr ?n ?t ?s] =>
          destruct (process_peers b o gr n t s) as [e1|] eqn:Hrun; [|done]
      end.
      cbn [mbind option_bind] in Hgroup. injection Hgroup as _ <-.
      by apply (process_peers_absent _ _ _ _ p) in Hrun. }
  destruct He as [H1 H2]. destruct (IH _ _ _ _ H1 Hrest) as [H3 H4].
  split; [done|]. unfold to_p in *. by rewrite filter_app, H2, H4.
Qed.

Lemma passes_absent ds p : ∀ st,
  peer_data st !! p = None → ready st →
  ∃ st' packets,
    passes ds st = Some (st', packets) ∧
    to_p p packets = [] ∧ peer_data st' !! p = None.
Proof.
  induction ds as [|d ds IH]; intros st Hp Hvalid; [by exists st, []|].
  cbn [passes].
  assert (Hstep : ∃ st1 packets1,
    process_snapshot_notificator snapshot_body is_realtime_node_list_changed
        real_add d st = Some (st1, packets1) ∧
    to_p p packets1 = [] ∧ peer_data st1 !! p = None).
  { unfold process_snapshot_notificator.
    case_bool_decide as Hempty; [by exists st, []|].
    destruct (process_groups_total snapshot_body is_realtime_node_list_changed
                real_add (objects st)
                (server_notify_state_interval st) d (sync_groups st)
                (peer_data st) (proj1 Hvalid) (proj2 Hvalid))
      as (gs' & pd1 & packets & Hrun & _).
    rewrite Hrun. cbn [mbind option_bind].
    destruct (process_groups_absent _ _ _ _ _ _ _ _ _ Hp Hrun) as [H1 H2].
    by eexists _, _. }
  destruct Hstep as (st1 & packets1 & Hrun & Hnone & Hp1).
  rewrite Hrun. cbn [mbind option_bind].
  destruct (pass_keeps _ _ _ _ Hrun) as (_ & _ & _ & Hvalid1).
  destruct (IH st1 Hp1 (Hvalid1 Hvalid)) as (st2 & packets2 & Hrest & H2 & H3).
  rewrite Hrest. cbn [mbind option_bind].
  exists st2, (packets1 ++ packets2). split; [done|]. split; [|done].
  unfold to_p in *. by rewrite filter_app, Hnone, H2.
Qed.

Lemma controllers_valid_delete objs (pd : gmap Z PeerData) p :
  controllers_valid objs pd → controllers_valid objs (delete p pd).
Proof.
  apply controllers_valid_same_ids. intros q x Hq.
  apply lookup_delete_Some in Hq as [_ Hq]. by exists x.
Qed.

(** X13.  With controller ids that name nothing or a controller and net
    ids that fit 16 bits (so that no [CRASH_COND] aborts a pass): after a
    peer disconnects, its data is gone and it is listed by a group only
    where it was listed more than once; whatever passes of the notificator
    follow, they complete and send nothing to that peer, also while a group
    still lists it. *)
Theorem disconnected_peer_is_sent_nothing ds st p :
  controllers_valid (objects st) (peer_data st) →
  all_ids_fit (sync_groups st) →
  let st1 := peer_disconnected p st in
  peer_data st1 !! p = None ∧
  peers <$> sync_groups st1 = (erase p ∘ peers) <$> sync_groups st ∧
  ∃ st2 packets,
    passes ds st1 = Some (st2, packets) ∧
    to_p p packets = [] ∧ peer_data st2 !! p = None.
Proof.
  intros Hvalid Hfit. cbn zeta. unfold peer_disconnected, on_peer_disconnected.
  split; [apply lookup_delete_eq|]. split.
  - cbn. rewrite <- list_fmap_compose. by apply list_fmap_ext.
  - apply passes_absent; [apply lookup_delete_eq|]. split.
    + by apply controllers_valid_delete.
    + cbn. by apply all_ids_fit_fmap.
Qed.

End Pass.

(** *** Binding peers to their controllers *)

(** Whether [id] names a registered object that carries a controller whose
    authority is [peer]. *)
Definition is_controller_of (objs : gmap Z ObjectData) (peer id : Z) : bool :=
  match objs !! id with
  | Some od =>
      match controller od with
      | Some c => bool_decide (unit_authority c = peer)
      | None => false
      end
  | None => false
  end.

(** One round of the loop of [update_peers], up to the status
    notification: a controller id that no longer names the peer's controller
    is reset; a peer without one takes the first object of
    [get_controllers_objects_data ()], given by net id, whose controller it
    is the authority of. *)
Definition validate_peer (controllers : list Z) (objs : gmap Z ObjectData)
    (peer : Z) (pd : PeerData) : PeerData :=
  if bool_decide (controller_id pd ≠ ObjectNetId_NONE) then
    if is_controller_of objs peer (controller_id pd) then pd
    else set_controller_id ObjectNetId_NONE pd
  else
    match list_find (λ id, is_controller_of objs peer id = true) controllers with
    | Some (_, id) => set_controller_id id pd
    | None => pd
    end.

(** One [event_peer_status_updated.broadcast (nd, peer, true, enabled)]:
    the object by net id, the peer, the peer's [enabled]. *)
Record PeerStatus := mkPeerStatus {
  status_object : Z;
  status_peer : Z;
  status_enabled : bool }.

(** The order of a [std::map] keyed by peer. *)
Definition by_peer (a b : Z * PeerData) : Prop := a.1 ≤ b.1.

#[local] Instance by_peer_dec : RelDecision by_peer.
Proof. intros a b. unfold by_peer. apply _. Defined.

(** One round of the loop of [update_peers]: the peer's record is
    validated and stored; if its controller id names a registered object,
    the object takes the peer's [enabled] in
    [realtime_sync_enabled_on_client] and the status is broadcast. *)
Definition update_peer (controllers : list Z)
    (acc : gmap Z PeerData * gmap Z ObjectData * list PeerStatus)
    (it : Z * PeerData)
    : gmap Z PeerData * gmap Z ObjectData * list PeerStatus :=
  let '(pds, objs, broadcasts) := acc in
  let pd := validate_peer controllers objs it.1 it.2 in
  match objs !! controller_id pd with
  | Some nd =>
      (<[it.1 := pd]> pds,
       <[controller_id pd :=
           set_realtime_sync_enabled_on_client (enabled pd) nd]> objs,
       broadcasts ++ [mkPeerStatus (controller_id pd) it.1 (enabled pd)])
  | None => (<[it.1 := pd]> pds, objs, broadcasts)
  end.

(** [SceneSynchronizerBase::update_peers]: the state afterwards, the
    [peer_dirty] flag afterwards and the status broadcasts.  The loop visits
    the peers in the key order of the [std::map]. *)
Definition update_peers (controllers : list Z) (peer_dirty : bool)
    (st : ServerState) : ServerState * bool * list PeerStatus :=
  if negb peer_dirty then (st, false, [])
  else
    let '(pds, objs, broadcasts) :=
      foldl (update_peer controllers) (peer_data st, objects st, [])
        (merge_sort by_peer (map_to_list (peer_data st))) in
    (set_objects objs (set_peer_data pds st), false, broadcasts).

Lemma validate_peer_bound controllers objs peer pd :
  let pd' := validate_peer controllers objs peer pd in
  controller_id pd' = ObjectNetId_NONE ∨
  is_controller_of objs peer (controller_id pd') = true.
Proof.
  cbn zeta. unfold validate_peer. case_bool_decide as Hid.
  - destruct (is_controller_of objs peer (controller_id pd)) eqn:Hc;
      [by right|by left].
  - destruct (list_find _ controllers) as [[i id]|] eqn:Hfind.
    + apply list_find_Some in Hfind as (_ & Hc & _). by right.
    + left. by destruct (decide (controller_id pd = ObjectNetId_NONE)).
Qed.

Lemma validate_peer_keeps controllers objs peer pd :
  let pd' := validate_peer controllers objs peer pd in
  enabled pd' = enabled pd ∧ sync_group_id pd' = sync_group_id pd ∧
  force_notify_snapshot pd' = force_notify_snapshot pd ∧
  need_full_snapshot pd' = need_full_snapshot pd.
Proof.
  cbn zeta. unfold validate_peer. case_bool_decide as Hid.
  - by destruct (is_controller_of objs peer (controller_id pd)).
  - by destruct (list_find _ controllers) as [[i id]|].
Qed.

Lemma is_controller_of_input objs peer pd :
  is_controller_of objs peer (controller_id pd) = true →
  is_Some (fetch_input_id objs pd).
Proof.
  unfold is_controller_of, fetch_input_id.
  destruct (objs !! controller_id pd) as [od|]; [|done].
  by destruct (controller od).
Qed.

(** What [update_peers] leaves of an object: everything but
    [realtime_sync_enabled_on_client]. *)
Definition sans_flag (od : ObjectData) : string * option Controller :=
  (object_name od, controller od).

Definition same_sans_flag (objs objs' : gmap Z ObjectData) : Prop :=
  ∀ id, sans_flag <$> objs' !! id = sans_flag <$> objs !! id.

Lemma same_sans_flag_controller objs objs' peer id :
  same_sans_flag objs objs' →
  is_controller_of objs' peer id = is_controller_of objs peer id.
Proof.
  intros Hsame. unfold is_controller_of. specialize (Hsame id).
  destruct (objs' !! id) as [od'|], (objs !! id) as [od|]; try done.
  cbn in Hsame. unfold sans_flag in Hsame. by injection Hsame as _ ->.
Qed.

Lemma same_sans_flag_validate controllers objs objs' peer pd :
  same_sans_flag objs objs' →
  validate_peer controllers objs' peer pd =
  validate_peer controllers objs peer pd.
Proof.
  intros Hsame. unfold validate_peer.
  rewrite (same_sans_flag_controller objs objs') by done.
  case_bool_decide; [done|].
  assert (Hfind :
    list_find (λ id, is_controller_of objs' peer id = true) controllers =
    list_find (λ id, is_controller_of objs peer id = true) controllers).
  { apply list_find_ext. intros id.
    by rewrite (same_sans_flag_controller objs objs'). }
  by rewrite Hfind.
Qed.

Lemma same_sans_flag_input objs objs' pd :
  same_sans_flag objs objs' →
  fetch_input_id objs' pd = fetch_input_id objs pd.
Proof.
  intros Hsame. unfold fetch_input_id. specialize (Hsame (controller_id pd)).
  destruct (objs' !! controller_id pd) as [od'|],
           (objs !! controller_id pd) as [od|]; try done.
  cbn in Hsame. unfold sans_flag in Hsame. by injection Hsame as _ ->.
Qed.

(** Two peers are not bound to one registered object. *)
Lemma validate_peer_owner controllers objs p q pd_p pd_q :
  objs !! ObjectNetId_NONE = None →
  controller_id (validate_peer controllers objs p pd_p) =
  controller_id (validate_peer controllers objs q pd_q) →
  is_Some (objs !! controller_id (validate_peer controllers objs p pd_p)) →
  p = q.
Proof.
  intros Hnone Hsame Hreg.
  destruct (validate_peer_bound controllers objs p pd_p) as [Hp|Hp];
    [rewrite Hp, Hnone in Hreg; by destruct Hreg|].
  destruct (validate_peer_bound controllers objs q pd_q) as [Hq|Hq];
    [rewrite Hsame, Hq, Hnone in Hreg; by destruct Hreg|].
  rewrite <- Hsame in Hq. unfold is_controller_of in Hp, Hq. clear Hnone Hreg.
  destruct (objs !! _) as [od|]; [|done].
  destruct (controller od) as [c|]; [|done].
  apply bool_decide_eq_true in Hp, Hq. congruence.
Qed.

(** The loop of [update_peers] over any part of the peers. *)
Lemma update_peer_loop controllers pds0 objs0 broadcasts0 l :
  objs0 !! ObjectNetId_NONE = None →
  (∀ p pd, (p, pd) ∈ l → pds0 !! p = Some pd) →
  let '(pds, objs, _) :=
    foldl (update_peer controllers) (pds0, objs0, broadcasts0) l in
  (∀ p pd, (p, pd) ∈ l →
     pds !! p = Some (validate_peer controllers objs0 p pd)) ∧
  (∀ p, p ∉ l.*1 → pds !! p = pds0 !! p) ∧
  same_sans_flag objs0 objs ∧
  (∀ p pd od', (p, pd) ∈ l →
     objs !! controller_id (validate_peer controllers objs0 p pd) = Some od' →
     realtime_sync_enabled_on_client od' = enabled pd) ∧
  (∀ id, (∀ p pd, (p, pd) ∈ l →
            controller_id (validate_peer controllers objs0 p pd) ≠ id) →
         objs !! id = objs0 !! id).
Proof.
  intros Hnone. induction l as [|[q pd_q] l IH] using rev_ind; intros Hl.
  - cbn. split; [by intros ? ? ?%elem_of_nil|]. split; [done|].
    split; [done|]. split; [by intros ? ? ? ?%elem_of_nil|done].
  - rewrite foldl_snoc.
    destruct (foldl (update_peer controllers) (pds0, objs0, broadcasts0) l)
      as [[pds objs] broadcasts].
    destruct IH as (Hin & Hout & Hsame & Hflag & Hother).
    { intros p pd Hp. apply Hl, elem_of_app. by left. }
    assert (Hq : pds0 !! q = Some pd_q).
    { apply Hl, elem_of_app. right. apply list_elem_of_here. }
    unfold update_peer. cbn [fst snd].
    rewrite (same_sans_flag_validate controllers objs0 objs) by done.
    set (pd' := validate_peer controllers objs0 q pd_q).
    assert (Hpds : (∀ p pd, (p, pd) ∈ l ++ [(q, pd_q)] →
                      <[q := pd']> pds !! p =
                        Some (validate_peer controllers objs0 p pd)) ∧
                   (∀ p, p ∉ (l ++ [(q, pd_q)]).*1 →
                      <[q := pd']> pds !! p = pds0 !! p)).
    { split.
      - intros p pd Hp. destruct (decide (p = q)) as [->|Hne].
        + rewrite lookup_insert_eq. f_equal. unfold pd'. f_equal.
          apply Hl in Hp. congruence.
        + rewrite lookup_insert_ne by done. apply Hin.
          apply elem_of_app in Hp as [Hp|Hp]; [done|].
          apply list_elem_of_singleton in Hp. congruence.
      - intros p Hp. rewrite fmap_app, elem_of_app in Hp.
        rewrite lookup_insert_ne.
        + apply Hout. tauto.
        + intros <-. apply Hp. right. apply list_elem_of_here. }
    destruct Hpds as [Hin' Hout'].
    destruct (objs !! controller_id pd') as [nd|] eqn:Hnd.
    + split; [done|]. split; [done|]. split; [|split].
      * intros id. destruct (decide (id = controller_id pd')) as [->|Hne].
        -- rewrite lookup_insert_eq, <- Hsame, Hnd. done.
        -- rewrite lookup_insert_ne by done. apply Hsame.
      * intros p pd od' Hp Hod'.
        destruct (decide (controller_id (validate_peer controllers objs0 p pd)
                          = controller_id pd')) as [Heq|Hne].
        -- rewrite Heq, lookup_insert_eq in Hod'. injection Hod' as <-.
           cbn [realtime_sync_enabled_on_client
                set_realtime_sync_enabled_on_client].
           assert (p = q) as ->.
           { apply (validate_peer_owner controllers objs0 p q pd pd_q);
               [done|done|].
             rewrite Heq. specialize (Hsame (controller_id pd')).
             rewrite Hnd in Hsame. by destruct (objs0 !! controller_id pd'). }
           apply Hl in Hp. assert (pd = pd_q) as -> by congruence.
           unfold pd'.
           by destruct (validate_peer_keeps controllers objs0 q pd_q)
             as (-> & _).
        -- rewrite lookup_insert_ne in Hod' by done.
           apply elem_of_app in Hp as [Hp|Hp]; [by eapply Hflag|].
           apply list_elem_of_singleton in Hp. injection Hp as -> ->. done.
      * intros id Hid. rewrite lookup_insert_ne.
        -- apply Hother. intros p pd Hp. apply Hid, elem_of_app. by left.
        -- apply (Hid q pd_q), elem_of_app. right. apply list_elem_of_here.
    + split; [done|]. split; [done|]. split; [done|]. split.
      * intros p pd od' Hp Hod'.
        apply elem_of_app in Hp as [Hp|Hp]; [by eapply Hflag|].
        apply list_elem_of_singleton in Hp. injection Hp as -> ->.
        fold pd' in Hod'. congruence.
      * intros id Hid. apply Hother.
        intros p pd Hp. apply Hid, elem_of_app. by left.
Qed.

(** [update_peers] keeps the groups, and every peer stays known. *)
Lemma update_peers_keeps controllers dirty st :
  let st' := (update_peers controllers dirty st).1.1 in
  sync_groups st' = sync_groups st ∧
  server_notify_state_interval st' = server_notify_state_interval st ∧
  ∀ q, is_Some (peer_data st !! q) → is_Some (peer_data st' !! q).
Proof.
  cbn zeta. unfold update_peers. destruct (negb dirty); [done|].
  assert (Hloop : ∀ l acc q,
    is_Some (acc.1.1 !! q) →
    is_Some ((foldl (update_peer controllers) acc l).1.1 !! q)).
  { induction l as [|[p pd] l IH]; intros [[pds objs] broadcasts] q Hq;
      [done|].
    cbn [foldl]. apply IH. unfold update_peer. cbn [fst snd] in *.
    destruct (objs !! _); cbn [fst];
      (destruct (decide (p = q)) as [->|Hne];
         [by rewrite lookup_insert_eq|by rewrite lookup_insert_ne]). }
  pose proof (Hloop (merge_sort by_peer (map_to_list (peer_data st)))
                (peer_data st, objects st, [])) as Hkeeps.
  destruct (foldl _ _ _) as [[pds objs] broadcasts].
  split; [done|]. split; [done|]. exact Hkeeps.
Qed.

(** The peers and objects a dirty [update_peers] leaves. *)
Lemma update_peers_spec controllers st :
  objects st !! ObjectNetId_NONE = None →
  let st' := (update_peers controllers true st).1.1 in
  sync_groups st' = sync_groups st ∧
  (∀ peer, peer_data st' !! peer =
           validate_peer controllers (objects st) peer <$> peer_data st !! peer) ∧
  same_sans_flag (objects st) (objects st') ∧
  (∀ peer pd' od', peer_data st' !! peer = Some pd' →
     objects st' !! controller_id pd' = Some od' →
     realtime_sync_enabled_on_client od' = enabled pd') ∧
  (∀ id, (∀ peer pd', peer_data st' !! peer = Some pd' →
            controller_id pd' ≠ id) →
         objects st' !! id = objects st !! id).
Proof.
  intros Hnone. cbn zeta. unfold update_peers. cbn [negb].
  set (l := merge_sort by_peer (map_to_list (peer_data st))).
  assert (Hl : ∀ p pd, (p, pd) ∈ l ↔ peer_data st !! p = Some pd).
  { intros p pd. unfold l. rewrite merge_sort_Permutation.
    apply elem_of_map_to_list. }
  pose proof (update_peer_loop controllers (peer_data st) (objects st) [] l
                Hnone (λ p pd, proj1 (Hl p pd))) as Hloop.
  destruct (foldl (update_peer controllers) (peer_data st, objects st, []) l)
    as [[pds objs] broadcasts].
  destruct Hloop as (Hin & Hout & Hsame & Hflag & Hother).
  cbn [fst sync_groups set_objects set_peer_data peer_data objects].
  assert (Hat : ∀ peer, pds !! peer =
    validate_peer controllers (objects st) peer <$> peer_data st !! peer).
  { intros peer. destruct (peer_data st !! peer) as [pd|] eqn:Hpd.
    - by apply Hin, Hl.
    - rewrite Hout; [done|].
      intros ([p pd] & -> & Hp)%list_elem_of_fmap. apply Hl in Hp.
      cbn in Hpd. congruence. }
  split; [done|]. split; [exact Hat|]. split; [exact Hsame|]. split.
  - intros peer pd' od' Hpeer Hod'. rewrite Hat in Hpeer.
    destruct (peer_data st !! peer) as [pd|] eqn:Hpd; [|done].
    injection Hpeer as <-.
    rewrite (Hflag peer pd od') by (by apply Hl || done).
    by destruct (validate_peer_keeps controllers (objects st) peer pd)
      as (-> & _).
  - intros id Hid. apply Hother. intros p pd Hp. apply (Hid p).
    rewrite Hat. apply Hl in Hp. by rewrite Hp.
Qed.

Section Binding.

Variable snapshot_body : bool → SyncGroup → list bool.
Variable is_realtime_node_list_changed : SyncGroup → bool.
Variable real_add : Q → Q → Q.

(** X12.  A dirty [update_peers] leaves every peer either without a
    controller id or with the id of a registered object whose controller it
    is the authority of, and changes nothing else of the peers and nothing of
    the sync groups.  Of the objects it changes only
    [realtime_sync_enabled_on_client]: the object a peer is bound to
    afterwards carries that peer's [enabled], and an object no peer is bound
    to is as before.  A peer whose stored id had become stale is left
    without a controller by this call, also when a controller of its own is
    registered: the search runs only for a peer that had no id.  When no
    object is registered under the "none" id and the net ids of the groups'
    simulated objects fit the 16 bits they are written in, the notificator
    pass that follows completes. *)
Theorem update_peers_binds_controllers controllers p_delta st :
  objects st !! ObjectNetId_NONE = None → all_ids_fit (sync_groups st) →
  let st' := (update_peers controllers true st).1.1 in
  sync_groups st' = sync_groups st ∧
  (∀ id, sans_flag <$> objects st' !! id = sans_flag <$> objects st !! id) ∧
  (∀ peer pd' od', peer_data st' !! peer = Some pd' →
     objects st' !! controller_id pd' = Some od' →
     realtime_sync_enabled_on_client od' = enabled pd') ∧
  (∀ id, (∀ peer pd', peer_data st' !! peer = Some pd' →
            controller_id pd' ≠ id) →
         objects st' !! id = objects st !! id) ∧
  (∀ peer, peer_data st' !! peer =
           validate_peer controllers (objects st) peer <$> peer_data st !! peer) ∧
  (∀ peer pd', peer_data st' !! peer = Some pd' →
     (controller_id pd' = ObjectNetId_NONE ∨
      is_controller_of (objects st) peer (controller_id pd') = true) ∧
     ∃ pd, peer_data st !! peer = Some pd ∧
           pd' = set_controller_id (controller_id pd') pd ∧
           (controller_id pd ≠ ObjectNetId_NONE →
            is_controller_of (objects st) peer (controller_id pd) = false →
            controller_id pd' = ObjectNetId_NONE)) ∧
  is_Some (process_snapshot_notificator snapshot_body
             is_realtime_node_list_changed real_add p_delta st').
Proof.
  intros Hnone Hfit. cbn zeta.
  destruct (update_peers_spec controllers st Hnone)
    as (Hgroups & Hat & Hsame & Hflag & Hother).
  set (st' := (update_peers controllers true st).1.1) in *.
  split; [done|]. split; [exact Hsame|]. split; [exact Hflag|].
  split; [exact Hother|]. split; [exact Hat|]. split.
  - intros peer x Hx. rewrite Hat in Hx.
    destruct (peer_data st !! peer) as [pd|] eqn:Hpd; [|done].
    injection Hx as <-. split; [apply validate_peer_bound|].
    exists pd. split; [done|]. split.
    + destruct (validate_peer_keeps controllers (objects st) peer pd)
        as (H1 & H2 & H3 & H4).
      destruct (validate_peer controllers (objects st) peer pd) as [e c g f n].
      destruct pd as [e0 c0 g0 f0 n0]. cbn in *. by subst.
    + intros Hid Hstale. unfold validate_peer.
      by rewrite bool_decide_true, Hstale by done.
  - assert (Hvalid : controllers_valid (objects st') (peer_data st')).
    { intros q x Hx. rewrite Hat in Hx.
      destruct (peer_data st !! q) as [pd|]; [|done]. injection Hx as <-.
      rewrite (same_sans_flag_input (objects st)) by done.
      destruct (validate_peer_bound controllers (objects st) q pd) as [Hc|Hc].
      - unfold fetch_input_id. by rewrite Hc, Hnone.
      - by apply (is_controller_of_input _ q). }
    unfold process_snapshot_notificator. case_bool_decide; [done|].
    rewrite <- Hgroups in Hfit.
    destruct (process_groups_total snapshot_body is_realtime_node_list_changed
                real_add (objects st')
                (server_notify_state_interval st') p_delta (sync_groups st')
                (peer_data st') Hvalid Hfit) as (gs' & pd1 & packets & -> & _).
    done.
Qed.

End Binding.

(** *** A lobby of two peers, and an arena with one pawn *)

Definition one_bit (full : bool) (_ : SyncGroup) : list bool := [full].

(** A list of realtime objects that counts as changed whenever it is not
    empty, and timers added without rounding. *)
Definition changed_if_any (g : SyncGroup) : bool :=
  bool_decide (realtime_sync_nodes g ≠ []).
Definition exact_add (a b : Q) : Q := (a + b)%Q.


Lemma fits (st : ServerState) :
  bool_decide (all_ids_fit (sync_groups st)) = true →
  all_ids_fit (sync_groups st).
Proof. apply bool_decide_eq_true_1. Defined.

Definition newcomer : PeerData :=
  mkPeerData true ObjectNetId_NONE 0 false false.

(** Two groups; peers 5 and 7 have just connected. *)
Definition lobby : ServerState :=
  ServerExamples.server_after
    [SyncGroupCreate; PeerConnected newcomer 5; PeerConnected newcomer 7].

(** The lobby after a first pass of a quarter of the notify interval. *)
Definition settled_lobby : ServerState :=
  from_option fst lobby (process_snapshot_notificator one_bit changed_if_any
      exact_add (1 # 4)%Q lobby).

Definition served_peer : PeerData :=
  mkPeerData true ObjectNetId_NONE 0 false false.

Lemma lobby_valid st :
  objects st = ∅ → controllers_valid (objects st) (peer_data st).
Proof.
  intros Hobjs q peer _. unfold fetch_input_id.
  rewrite Hobjs, lookup_empty. by eexists.
Defined.

Lemma two_in_global st l :
  peers <$> sync_groups st = [l; []] → 5 ∈ l → NoDup l →
  subscribed_to st 5 0.
Proof.
  intros Hgroups Hin Hnodup. unfold subscribed_to.
  destruct (sync_groups st) as [|g0 [|g1 [|g2 gs]]]; try done.
  injection Hgroups as H0 H1.
  exists g0. split; [done|]. rewrite H0. split; [done|]. split; [done|].
  intros [|[|i]] g' Hi Hin'; [done| |done].
  injection Hi as <-. rewrite H1 in Hin'. by apply elem_of_nil in Hin'.
Defined.

Lemma five_seven_NoDup : NoDup [5; 7].
Proof. apply (bool_decide_unpack (NoDup [5; 7])). by vm_compute. Defined.

Lemma lobby_subscribed : subscribed_to lobby 5 0.
Proof.
  apply (two_in_global lobby [5; 7]);
    [reflexivity|apply list_elem_of_here|apply five_seven_NoDup].
Defined.

Lemma settled_lobby_subscribed : subscribed_to settled_lobby 5 0.
Proof.
  apply (two_in_global settled_lobby [5; 7]);
    [by vm_compute|apply list_elem_of_here|apply five_seven_NoDup].
Defined.

Lemma lobby_subscribed_once : subscribed_once lobby.
Proof.
  apply Forall_cons. split; [apply five_seven_NoDup|].
  apply Forall_cons. split; [apply NoDup_nil_2|apply Forall_nil_2].
Defined.

Lemma snapshot_pass_for_one_peer_witness :
  ∃ st' packets,
    process_snapshot_notificator one_bit changed_if_any exact_add (1 # 4)%Q
        settled_lobby =
      Some (st', packets) ∧
    to_p 5 packets = [] ∧ peer_data st' !! 5 = Some served_peer.
Proof.
  exact (snapshot_pass_for_one_peer one_bit changed_if_any exact_add
           (1 # 4)%Q settled_lobby 5
           served_peer 0%nat (mkSyncGroup [] [] [5; 7] (1 # 4)%Q 0)
           eq_refl settled_lobby_subscribed eq_refl
           (lobby_valid settled_lobby eq_refl) (fits settled_lobby eq_refl)).
Defined.

Definition connected_peer : PeerData :=
  mkPeerData true ObjectNetId_NONE 0 true true.

Lemma disabled_peer_is_sent_nothing_witness :
  let st1 := (set_peer_networking_enable 5 false lobby).1 in
  peer_data st1 !! 5 = Some (mkPeerData false ObjectNetId_NONE 0 true true) ∧
  unsubscribed st1 5 ∧
  (∃ st2 packets,
     process_snapshot_notificator one_bit changed_if_any exact_add (1 # 4)%Q
         st1 = Some (st2, packets) ∧
     to_p 5 packets = []) ∧
  (group_exists lobby 0 = true → 0 ≠ UINT32_MAX →
   let st3 := (set_peer_networking_enable 5 true st1).1 in
   subscribed_to st3 5 0 ∧
   ∃ st4 packets pk,
     process_snapshot_notificator one_bit changed_if_any exact_add (1 # 4)%Q
         st3 = Some (st4, packets) ∧
     to_p 5 packets = [pk] ∧ is_full pk = true).
Proof.
  refine (disabled_peer_is_sent_nothing one_bit changed_if_any exact_add
            (1 # 4)%Q lobby 5
            connected_peer _ eq_refl eq_refl lobby_subscribed_once
            (lobby_valid lobby eq_refl) (fits lobby eq_refl) _).
  - lia.
  - intros pd _ Hobj. by destruct Hobj as [od Hod].
Defined.


Lemma full_snapshot_request_is_honoured_witness :
  (∀ q, peer_data settled_lobby !! q = None →
        rpc__notify_need_full_snapshot q settled_lobby =
          (settled_lobby, Failed)) ∧
  ∃ st1 st2 packets,
    rpc__notify_need_full_snapshot 5 settled_lobby = (st1, Done) ∧
    passes one_bit changed_if_any exact_add [(1 # 4)%Q; (1 # 4)%Q; (1 # 4)%Q] st1 =
      Some (st2, packets) ∧
    match to_p 5 packets with
    | [] => need_full_snapshot <$> peer_data st2 !! 5 = Some true
    | pk :: _ => is_full pk = true
    end.
Proof.
  exact (full_snapshot_request_is_honoured one_bit changed_if_any exact_add
           [(1 # 4)%Q; (1 # 4)%Q; (1 # 4)%Q] settled_lobby 5 served_peer 0%nat
           eq_refl settled_lobby_subscribed
           (lobby_valid settled_lobby eq_refl) (fits settled_lobby eq_refl)).
Defined.

Lemma disconnected_peer_is_sent_nothing_witness :
  let st1 := peer_disconnected 7 lobby in
  peer_data st1 !! 7 = None ∧
  peers <$> sync_groups st1 = (erase 7 ∘ peers) <$> sync_groups lobby ∧
  ∃ st2 packets,
    passes one_bit changed_if_any exact_add [1%Q; 1%Q] st1 = Some (st2, packets) ∧
    to_p 7 packets = [] ∧ peer_data st2 !! 7 = None.
Proof.
  exact (disconnected_peer_is_sent_nothing one_bit changed_if_any exact_add
           [1%Q; 1%Q] lobby 7
           (lobby_valid lobby eq_refl) (fits lobby eq_refl)).
Defined.

(** Peer 5 connects, then its pawn is registered under net id 0; peer 7
    holds the id of an object that is gone. *)
Definition pawn : ObjectData :=
  mkObjectData "pawn" (Some (mkController 3 5)) false.

Definition arena : ServerState :=
  set_peer_data
    (<[7 := mkPeerData true 4 0 false false]>
       (peer_data
          (ServerExamples.server_after
             [PeerConnected newcomer 5; RegisterAppObject 0 pawn])))
    (ServerExamples.server_after
       [PeerConnected newcomer 5; RegisterAppObject 0 pawn]).

Lemma update_peers_binds_controllers_witness :
  let st' := (update_peers [0] true arena).1.1 in
  sync_groups st' = sync_groups arena ∧
  (∀ id, sans_flag <$> objects st' !! id = sans_flag <$> objects arena !! id) ∧
  (∀ peer pd' od', peer_data st' !! peer = Some pd' →
     objects st' !! controller_id pd' = Some od' →
     realtime_sync_enabled_on_client od' = enabled pd') ∧
  (∀ id, (∀ peer pd', peer_data st' !! peer = Some pd' →
            controller_id pd' ≠ id) →
         objects st' !! id = objects arena !! id) ∧
  (∀ peer, peer_data st' !! peer =
           validate_peer [0] (objects arena) peer <$> peer_data arena !! peer) ∧
  (∀ peer pd', peer_data st' !! peer = Some pd' →
     (controller_id pd' = ObjectNetId_NONE ∨
      is_controller_of (objects arena) peer (controller_id pd') = true) ∧
     ∃ pd, peer_data arena !! peer = Some pd ∧
           pd' = set_controller_id (controller_id pd') pd ∧
           (controller_id pd ≠ ObjectNetId_NONE →
            is_controller_of (objects arena) peer (controller_id pd) = false →
            controller_id pd' = ObjectNetId_NONE)) ∧
  is_Some (process_snapshot_notificator one_bit changed_if_any exact_add
             (1 # 4)%Q st').
Proof.
  exact (update_peers_binds_controllers one_bit changed_if_any exact_add [0]
           (1 # 4)%Q arena eq_refl (fits arena eq_refl)).
Defined.

(** In the arena the update binds peer 5 to its pawn and unbinds peer 7;
    the pawn takes the [enabled] of peer 5, and the one status broadcast is
    for peer 5. *)
Lemma update_peers_arena :
  controller_id <$> peer_data (update_peers [0] true arena).1.1 !! 5 = Some 0 ∧
  controller_id <$> peer_data (update_peers [0] true arena).1.1 !! 7 =
    Some ObjectNetId_NONE ∧
  objects arena !! 0 = Some pawn ∧
  objects (update_peers [0] true arena).1.1 !! 0 =
    Some (set_realtime_sync_enabled_on_client true pawn) ∧
  (update_peers [0] true arena).2 = [mkPeerStatus 0 5 true].
Proof. by vm_compute. Qed.

End Peers.

(** ** The snapshot on the wire: what the server writes, read by the
    client's parser *)
Module Wire.
Import Parse.

Inductive SnapshotGenerationMode :=
| SNAPSHOT_GENERATION_MODE_NORMAL
| SNAPSHOT_GENERATION_MODE_FORCE_NODE_PATH_ONLY
| SNAPSHOT_GENERATION_MODE_FORCE_FULL.

(** Modelled from the spec: the writing side of the [DataBuffer], defined
    outside the embedded files.  [add] appends one typed value. *)
Definition add (t : Token) (db : list Token) : list Token := db ++ [t].

Section Generate.

(** [ObjectHandle::NONE], a constant of the core headers. *)
Variable ObjectHandle_NONE : Z.
(** The server's objects by net id; a node of a group points to one of
    them, or to none (a null pointer). *)
Variable objs : gmap Z Registry.ObjectData.
(** [SyncGroup::is_realtime_node_list_changed] and
    [SyncGroup::is_deferred_node_list_changed]. *)
Variable is_realtime_node_list_changed : Server.SyncGroup → bool.
Variable is_deferred_node_list_changed : Server.SyncGroup → bool.
(** [SynchronizerManager::snapshot_get_custom_data]: the data, if the host
    gives any. *)
Variable snapshot_get_custom_data : Server.SyncGroup → option variant.
(** The default-constructed [NS::SyncGroup::Change ()]. *)
Variable default_change : Server.Change.

(** The three assignments to [var_has_value] in the variable loop. *)
Definition var_has_value (force_snapshot_variables allow_vars : bool)
    (p_change : Server.Change) (var : Registry.VarDescriptor) : bool :=
  let v0 := allow_vars in
  let v1 := if negb (Registry.enabled var) then false else v0 in
  if negb force_snapshot_variables &&
     negb (bool_decide (nv_name (Registry.var var) ∈
                          Server.changed_vars p_change))
  then false else v1.

(** One round of the variable loop. *)
Definition add_var (force_snapshot_variables allow_vars : bool)
    (p_change : Server.Change) (db : list Token)
    (var : Registry.VarDescriptor) : list Token :=
  let has_value :=
    var_has_value force_snapshot_variables allow_vars p_change var in
  let db1 := add (TBool has_value) db in
  if has_value then add (TVariant (nv_value (Registry.var var))) db1 else db1.

(** [ServerSynchronizer::generate_snapshot_object_data]; [net_id] is
    [p_object_data->get_net_id ()]. *)
Definition generate_snapshot_object_data (net_id : Z)
    (p_object_data : Registry.ObjectData) (p_mode : SnapshotGenerationMode)
    (p_change : Server.Change) (db : list Token) : list Token :=
  if Registry.app_object_handle p_object_data =? ObjectHandle_NONE then db
  else
    let force_using_node_path :=
      match p_mode with
      | SNAPSHOT_GENERATION_MODE_FORCE_FULL
      | SNAPSHOT_GENERATION_MODE_FORCE_NODE_PATH_ONLY => true
      | SNAPSHOT_GENERATION_MODE_NORMAL => false
      end in
    let force_snapshot_variables :=
      if p_mode is SNAPSHOT_GENERATION_MODE_FORCE_FULL then true else false in
    let skip_snapshot_variables :=
      if p_mode is SNAPSHOT_GENERATION_MODE_FORCE_NODE_PATH_ONLY then true
      else false in
    let unknown := Server.unknown p_change in
    let node_has_changes :=
      negb (bool_decide (Server.changed_vars p_change = [])) in
    let db1 := add (TUInt net_id) db in
    let db2 :=
      if force_using_node_path || unknown
      then add (TString (Registry.object_name p_object_data))
             (add (TBool true) db1)
      else add (TBool false) db1 in
    let allow_vars :=
      force_snapshot_variables ||
      (node_has_changes && negb skip_snapshot_variables) || unknown in
    let vars_count :=
      Z.of_nat (length (Registry.vars p_object_data)) mod 256 in
    let db3 := add (TUInt8 vars_count) db2 in
    foldl (add_var force_snapshot_variables allow_vars p_change) db3
      (Registry.vars p_object_data).

(** The loop that writes the net ids of the simulated objects; [None]
    is a [CRASH_COND], or the dereference of a null [od]. *)
Fixpoint add_simulated_ids (nodes : list Server.RealtimeNodeInfo)
    (db : list Token) : option (list Token) :=
  match nodes with
  | [] => Some db
  | node :: rest =>
      match objs !! Server.rt_od node with
      | None => None
      | Some _ =>
          if (Server.rt_od node =? ObjectNetId_NONE) ||
             (65535 <? Server.rt_od node)
          then None
          else add_simulated_ids rest (add (TUInt (Server.rt_od node)) db)
      end
  end.

(** The loop over the deferred nodes; [None] is the dereference of a null
    [od] in [generate_snapshot_object_data]. *)
Fixpoint add_deferred_nodes (p_force_full_snapshot : bool)
    (nodes : list Server.DeferredNodeInfo) (db : list Token)
    : option (list Token) :=
  match nodes with
  | [] => Some db
  | node :: rest =>
      if Server.df_unknown node || p_force_full_snapshot then
        match objs !! Server.df_od node with
        | None => None
        | Some od =>
            add_deferred_nodes p_force_full_snapshot rest
              (generate_snapshot_object_data (Server.df_od node) od
                 SNAPSHOT_GENERATION_MODE_FORCE_NODE_PATH_ONLY default_change
                 db)
        end
      else add_deferred_nodes p_force_full_snapshot rest db
  end.

(** One round of the loop over the relevant nodes. *)
Definition add_relevant_node (mode : SnapshotGenerationMode)
    (db : list Token) (node : Server.RealtimeNodeInfo) : list Token :=
  match objs !! Server.rt_od node with
  | Some node_data =>
      generate_snapshot_object_data (Server.rt_od node) node_data mode
        (Server.rt_change node) db
  | None => db
  end.

(** [ServerSynchronizer::generate_snapshot]: what the buffer holds
    afterwards. *)
Definition generate_snapshot (p_force_full_snapshot : bool)
    (p_group : Server.SyncGroup) (r_snapshot_db : list Token)
    : option (list Token) :=
  let relevant_node_data := Server.realtime_sync_nodes p_group in
  db1 ←
    (if is_realtime_node_list_changed p_group || p_force_full_snapshot then
       db' ← add_simulated_ids relevant_node_data
               (add (TBool true) r_snapshot_db);
       Some (add (TUInt ObjectNetId_NONE) db')
     else Some (add (TBool false) r_snapshot_db));
  let db2 :=
    match snapshot_get_custom_data p_group with
    | Some vd => add (TVariant vd) (add (TBool true) db1)
    | None => add (TBool false) db1
    end in
  db3 ←
    (if is_deferred_node_list_changed p_group || p_force_full_snapshot
     then add_deferred_nodes p_force_full_snapshot
            (Server.deferred_sync_nodes p_group) db2
     else Some db2);
  let mode :=
    if p_force_full_snapshot then SNAPSHOT_GENERATION_MODE_FORCE_FULL
    else SNAPSHOT_GENERATION_MODE_NORMAL in
  let db4 := foldl (add_relevant_node mode) db3 relevant_node_data in
  Some (add (TUInt ObjectNetId_NONE) db4).

(** *** The records of a snapshot *)

(** An object record as the parser reads it. *)
Record ObjectRecord := mkObjectRecord {
  rec_id : Z;
  rec_name : option string;
  rec_values : list (option variant) }.

Definition tokens_of (r : ObjectRecord) : list Token :=
  record_tokens (rec_id r) (rec_name r) (rec_values r).

Definition names_sent (p_mode : SnapshotGenerationMode)
    (p_change : Server.Change) : bool :=
  match p_mode with
  | SNAPSHOT_GENERATION_MODE_NORMAL => Server.unknown p_change
  | _ => true
  end.

(** Whether the record of an object carries the value of a variable: in
    a forced full snapshot every enabled variable; in a normal one the
    enabled variables named by the change record; for a deferred node, whose
    change record is the default one, those that record names too, if it says
    "unknown". *)
Definition value_sent (p_mode : SnapshotGenerationMode)
    (p_change : Server.Change) (var : Registry.VarDescriptor) : bool :=
  match p_mode with
  | SNAPSHOT_GENERATION_MODE_FORCE_FULL => Registry.enabled var
  | SNAPSHOT_GENERATION_MODE_NORMAL =>
      Registry.enabled var &&
      bool_decide (nv_name (Registry.var var) ∈ Server.changed_vars p_change)
  | SNAPSHOT_GENERATION_MODE_FORCE_NODE_PATH_ONLY =>
      Registry.enabled var && Server.unknown p_change &&
      bool_decide (nv_name (Registry.var var) ∈ Server.changed_vars p_change)
  end.

Definition object_record (net_id : Z) (od : Registry.ObjectData)
    (p_mode : SnapshotGenerationMode) (p_change : Server.Change)
    : list ObjectRecord :=
  if Registry.app_object_handle od =? ObjectHandle_NONE then []
  else
    [mkObjectRecord net_id
       (if names_sent p_mode p_change then Some (Registry.object_name od)
        else None)
       ((λ var, if value_sent p_mode p_change var
                then Some (nv_value (Registry.var var)) else None)
          <$> Registry.vars od)].

(** The records of the deferred nodes and of the relevant nodes. *)
Definition deferred_records (p_force_full_snapshot : bool)
    (p_group : Server.SyncGroup) : list ObjectRecord :=
  if is_deferred_node_list_changed p_group || p_force_full_snapshot then
    concat
      ((λ node,
          if Server.df_unknown node || p_force_full_snapshot then
            match objs !! Server.df_od node with
            | Some od =>
                object_record (Server.df_od node) od
                  SNAPSHOT_GENERATION_MODE_FORCE_NODE_PATH_ONLY default_change
            | None => []
            end
          else []) <$> Server.deferred_sync_nodes p_group)
  else [].

Definition realtime_records (p_force_full_snapshot : bool)
    (p_group : Server.SyncGroup) : list ObjectRecord :=
  concat
    ((λ node,
        match objs !! Server.rt_od node with
        | Some od =>
            object_record (Server.rt_od node) od
              (if p_force_full_snapshot
               then SNAPSHOT_GENERATION_MODE_FORCE_FULL
               else SNAPSHOT_GENERATION_MODE_NORMAL) (Server.rt_change node)
        | None => []
        end) <$> Server.realtime_sync_nodes p_group).

Definition snapshot_records (p_force_full_snapshot : bool)
    (p_group : Server.SyncGroup) : list ObjectRecord :=
  deferred_records p_force_full_snapshot p_group ++
  realtime_records p_force_full_snapshot p_group.

(** The list of simulated objects, when it is sent. *)
Definition simulated_list (p_force_full_snapshot : bool)
    (p_group : Server.SyncGroup) : option (list Z) :=
  if is_realtime_node_list_changed p_group || p_force_full_snapshot
  then Some (Server.realtime_ids p_group) else None.

Definition list_tokens (l : option (list Z)) : list Token :=
  match l with
  | Some ids => TBool true :: (TUInt <$> ids) ++ [TUInt ObjectNetId_NONE]
  | None => [TBool false]
  end.

Definition custom_tokens (c : option variant) : list Token :=
  match c with
  | Some vd => [TBool true; TVariant vd]
  | None => [TBool false]
  end.

(** Every object a node of the group points to has fewer than 256
    variables, the most the one-byte count of a record can tell. *)
Definition counts_fit (p_group : Server.SyncGroup) : Prop :=
  ∀ id od, objs !! id = Some od →
    id ∈ Server.realtime_ids p_group ∨ id ∈ Server.deferred_ids p_group →
    (length (Registry.vars od) < 256)%nat.

Lemma var_has_value_sent p_mode p_change var :
  var_has_value
    (if p_mode is SNAPSHOT_GENERATION_MODE_FORCE_FULL then true else false)
    ((if p_mode is SNAPSHOT_GENERATION_MODE_FORCE_FULL then true else false) ||
     (negb (bool_decide (Server.changed_vars p_change = [])) &&
      negb (if p_mode is SNAPSHOT_GENERATION_MODE_FORCE_NODE_PATH_ONLY
            then true else false)) || Server.unknown p_change) p_change var =
  value_sent p_mode p_change var.
Proof.
  unfold var_has_value, value_sent.
  destruct (Registry.enabled var), (Server.unknown p_change), p_mode;
    cbn [negb andb orb]; try done;
    case_bool_decide as Hin; cbn [negb andb orb]; try done;
    case_bool_decide as Hnil; cbn [negb andb orb]; try done;
    rewrite Hnil in Hin; by apply elem_of_nil in Hin.
Qed.

Lemma add_vars_tokens force allow p_change (sent : Registry.VarDescriptor → bool)
    vars : ∀ db,
  (∀ var, var_has_value force allow p_change var = sent var) →
  foldl (add_var force allow p_change) db vars =
  db ++ concat (var_tokens <$>
                  ((λ var, if sent var then Some (nv_value (Registry.var var))
                           else None) <$> vars)).
Proof.
  induction vars as [|var vars IH]; intros db Hsent; cbn [foldl].
  - cbn. by rewrite app_nil_r.
  - rewrite IH by done. unfold add_var, add. rewrite Hsent.
    cbn [fmap list_fmap concat].
    destruct (sent var); cbn [var_tokens]; by rewrite <- !app_assoc.
Qed.

(** What [generate_snapshot_object_data] appends is the record of the
    object. *)
Lemma generate_object_tokens net_id od p_mode p_change db :
  (length (Registry.vars od) < 256)%nat →
  generate_snapshot_object_data net_id od p_mode p_change db =
  db ++ concat (tokens_of <$> object_record net_id od p_mode p_change).
Proof.
  intros Hcount. unfold generate_snapshot_object_data, object_record.
  destruct (Registry.app_object_handle od =? ObjectHandle_NONE).
  { cbn. by rewrite app_nil_r. }
  rewrite (add_vars_tokens _ _ _ (value_sent p_mode p_change))
    by (intros var; apply var_has_value_sent).
  cbn [fmap list_fmap concat]. rewrite app_nil_r.
  unfold tokens_of, record_tokens, add.
  cbn [rec_id rec_name rec_values]. rewrite length_fmap.
  rewrite Z.mod_small by lia.
  assert (Hname :
    (match p_mode with
     | SNAPSHOT_GENERATION_MODE_NORMAL => false
     | _ => true
     end || Server.unknown p_change) = names_sent p_mode p_change).
  { by destruct p_mode. }
  rewrite Hname. destruct (names_sent p_mode p_change);
    by rewrite <- !app_assoc.
Qed.

Lemma add_simulated_ids_tokens nodes : ∀ db db',
  add_simulated_ids nodes db = Some db' →
  db' = db ++ (TUInt <$> (Server.rt_od <$> nodes)) ∧
  Forall (λ id, id ≠ ObjectNetId_NONE ∧ is_Some (objs !! id))
    (Server.rt_od <$> nodes).
Proof.
  induction nodes as [|node nodes IH]; intros db db'; cbn [add_simulated_ids].
  - intros [= <-]. cbn. by rewrite app_nil_r.
  - destruct (objs !! Server.rt_od node) as [od|] eqn:Hod; [|done].
    destruct (Z.eqb_spec (Server.rt_od node) ObjectNetId_NONE) as [?|Hne];
      [done|].
    cbn [orb]. destruct (65535 <? Server.rt_od node); [done|].
    intros Hrest. destruct (IH _ _ Hrest) as [-> Hall].
    unfold add. cbn [fmap list_fmap]. rewrite <- app_assoc. split; [done|].
    apply Forall_cons. by rewrite Hod.
Qed.

Lemma add_deferred_nodes_tokens full nodes : ∀ db db',
  (∀ id od, objs !! id = Some od → id ∈ Server.df_od <$> nodes →
            (length (Registry.vars od) < 256)%nat) →
  add_deferred_nodes full nodes db = Some db' →
  db' = db ++
    concat (tokens_of <$>
      concat
        ((λ node,
            if Server.df_unknown node || full then
              match objs !! Server.df_od node with
              | Some od =>
                  object_record (Server.df_od node) od
                    SNAPSHOT_GENERATION_MODE_FORCE_NODE_PATH_ONLY
                    default_change
              | None => []
              end
            else []) <$> nodes)).
Proof.
  induction nodes as [|node nodes IH]; intros db db' Hfit;
    cbn [add_deferred_nodes].
  - intros [= <-]. cbn. by rewrite app_nil_r.
  - assert (Hrest : ∀ id od, objs !! id = Some od →
              id ∈ Server.df_od <$> nodes →
              (length (Registry.vars od) < 256)%nat).
    { intros id od Hod Hin. apply (Hfit id od Hod).
      rewrite fmap_cons. by apply list_elem_of_further. }
    cbn [fmap list_fmap concat].
    destruct (Server.df_unknown node || full).
    + destruct (objs !! Server.df_od node) as [od|] eqn:Hod; [|done].
      intros Hrun. rewrite (IH _ _ Hrest Hrun).
      rewrite generate_object_tokens.
      * by rewrite fmap_app, concat_app, <- app_assoc.
      * apply (Hfit _ od Hod). rewrite fmap_cons. apply list_elem_of_here.
    + intros Hrun. by rewrite (IH _ _ Hrest Hrun).
Qed.

Lemma add_relevant_nodes_tokens mode nodes : ∀ db,
  (∀ id od, objs !! id = Some od → id ∈ Server.rt_od <$> nodes →
            (length (Registry.vars od) < 256)%nat) →
  foldl (add_relevant_node mode) db nodes =
  db ++
    concat (tokens_of <$>
      concat
        ((λ node,
            match objs !! Server.rt_od node with
            | Some od =>
                object_record (Server.rt_od node) od mode
                  (Server.rt_change node)
            | None => []
            end) <$> nodes)).
Proof.
  induction nodes as [|node nodes IH]; intros db Hfit; cbn [foldl].
  - cbn. by rewrite app_nil_r.
  - rewrite IH.
    2:{ intros id od Hod Hin. apply (Hfit id od Hod).
        rewrite fmap_cons. by apply list_elem_of_further. }
    cbn [fmap list_fmap concat]. unfold add_relevant_node.
    destruct (objs !! Server.rt_od node) as [od|] eqn:Hod; [|done].
    rewrite generate_object_tokens.
    + by rewrite fmap_app, concat_app, <- app_assoc.
    + apply (Hfit _ od Hod). rewrite fmap_cons. apply list_elem_of_here.
Qed.

(** What [generate_snapshot] writes: the list of simulated objects if it
    is sent, the custom data if there is any, the records, and the end
    mark. *)
Lemma generate_snapshot_tokens full p_group db body :
  counts_fit p_group →
  generate_snapshot full p_group db = Some body →
  body = db ++ list_tokens (simulated_list full p_group) ++
         custom_tokens (snapshot_get_custom_data p_group) ++
         concat (tokens_of <$> snapshot_records full p_group) ++
         [TUInt ObjectNetId_NONE] ∧
  (∀ ids, simulated_list full p_group = Some ids →
          Forall (λ id, id ≠ ObjectNetId_NONE ∧ is_Some (objs !! id)) ids).
Proof.
  intros Hfit. unfold generate_snapshot, simulated_list, snapshot_records,
    deferred_records, realtime_records, Server.realtime_ids.
  set (sent_list := is_realtime_node_list_changed p_group || full).
  set (sent_deferred := is_deferred_node_list_changed p_group || full).
  assert (Hfit_rt : ∀ id od, objs !! id = Some od →
            id ∈ Server.rt_od <$> Server.realtime_sync_nodes p_group →
            (length (Registry.vars od) < 256)%nat).
  { intros id od Hod Hin. apply (Hfit id od Hod). by left. }
  assert (Hfit_df : ∀ id od, objs !! id = Some od →
            id ∈ Server.df_od <$> Server.deferred_sync_nodes p_group →
            (length (Registry.vars od) < 256)%nat).
  { intros id od Hod Hin. apply (Hfit id od Hod). by right. }
  destruct sent_list.
  - destruct (add_simulated_ids (Server.realtime_sync_nodes p_group)
                (add (TBool true) db)) as [db1|] eqn:Hids; [|done].
    cbn [mbind option_bind].
    destruct (add_simulated_ids_tokens _ _ _ Hids) as [-> Hall].
    destruct sent_deferred.
    + match goal with
      | |- context [add_deferred_nodes ?f ?n ?d] =>
          destruct (add_deferred_nodes f n d) as [db3|] eqn:Hdf; [|done]
      end.
      cbn [mbind option_bind]. intros [= <-].
      rewrite (add_deferred_nodes_tokens _ _ _ _ Hfit_df Hdf).
      rewrite add_relevant_nodes_tokens by done.
      split; [|by intros ids [= <-]].
      unfold add, list_tokens, custom_tokens.
      destruct (snapshot_get_custom_data p_group);
        rewrite fmap_app, concat_app; cbn [app];
        by rewrite <- ?app_assoc.
    + cbn [mbind option_bind]. intros [= <-].
      rewrite add_relevant_nodes_tokens by done.
      split; [|by intros ids [= <-]].
      unfold add, list_tokens, custom_tokens.
      destruct (snapshot_get_custom_data p_group); cbn [app];
        by rewrite <- ?app_assoc.
  - cbn [mbind option_bind].
    destruct sent_deferred.
    + match goal with
      | |- context [add_deferred_nodes ?f ?n ?d] =>
          destruct (add_deferred_nodes f n d) as [db3|] eqn:Hdf; [|done]
      end.
      cbn [mbind option_bind]. intros [= <-].
      rewrite (add_deferred_nodes_tokens _ _ _ _ Hfit_df Hdf).
      rewrite add_relevant_nodes_tokens by done.
      split; [|done].
      unfold add, list_tokens, custom_tokens.
      destruct (snapshot_get_custom_data p_group);
        rewrite fmap_app, concat_app; cbn [app];
        by rewrite <- ?app_assoc.
    + cbn [mbind option_bind]. intros [= <-].
      rewrite add_relevant_nodes_tokens by done.
      split; [|done].
      unfold add, list_tokens, custom_tokens.
      destruct (snapshot_get_custom_data p_group); cbn [app];
        by rewrite <- ?app_assoc.
Qed.

(** *** The client reads what the server wrote *)

(** The host of the client, as [parse_sync_data] uses it. *)
Variable fetch_app_object : string → option Z.
Variable new_object_data : Z → ObjectData.

(** The client has an object registered under the net id of the record,
    with as many variables as the record has slots. *)
Definition readable (client_objects : list ObjectData) (r : ObjectRecord)
    : Prop :=
  rec_id r ≠ ObjectNetId_NONE ∧
  ∃ local od, get_object_data client_objects (rec_id r) = Some local ∧
              client_objects !! local = Some od ∧
              length (vars od) = length (rec_values r).

(** The callback calls for a record of a registered object. *)
Definition record_events (client_objects : list ObjectData)
    (r : ObjectRecord) : list ParseEvent :=
  match get_object_data client_objects (rec_id r) with
  | Some local =>
      match client_objects !! local with
      | Some od =>
          NodeParsed local ::
          (if has_controller od then [ControllerParsed local] else []) ++
          variable_events local (vars od) (rec_values r)
      | None => []
      end
  | None => []
  end.

Definition remember_all (records : list ObjectRecord)
    (names : gmap Z string) : gmap Z string :=
  foldl (λ names r, remember (rec_id r) (rec_name r) names) names records.

Lemma parse_object_known p r rest :
  db p = mkDataBuffer (tokens_of r ++ rest) false →
  readable (objects p) r →
  parse_object fetch_app_object new_object_data p =
    (Next,
     mkParser (objects p) (remember (rec_id r) (rec_name r) (objects_names p))
       (need_full_snapshot_notified p) (full_snapshot_requests p)
       (mkDataBuffer rest false)
       (events p ++ record_events (objects p) r)).
Proof.
  intros Hdb (Hid & local & od & Hget & Hod & Hlen).
  unfold parse_object, record_events. rewrite Hdb, Hget, Hod.
  unfold tokens_of, record_tokens.
  cbn [read_uint buffer_failed pending app].
  destruct (Z.eqb_spec (rec_id r) ObjectNetId_NONE) as [?|_]; [done|].
  destruct (rec_name r) as [n|];
    cbn [read_bool read_string buffer_failed pending app];
    cbn [set_objects_names set_db objects]; rewrite Hget;
    (erewrite parse_object_variables_known; [|reflexivity|exact Hod|done]);
    unfold remember; cbn [objects objects_names need_full_snapshot_notified
                          full_snapshot_requests events]; done.
Qed.

Lemma parse_objects_records records : ∀ p rest rounds,
  db p = mkDataBuffer
           (concat (tokens_of <$> records) ++ TUInt ObjectNetId_NONE :: rest)
           false →
  Forall (readable (objects p)) records →
  (length records < rounds)%nat →
  parse_objects fetch_app_object new_object_data rounds p =
    Some (true,
          mkParser (objects p) (remember_all records (objects_names p))
            (need_full_snapshot_notified p) (full_snapshot_requests p)
            (mkDataBuffer rest false)
            (events p ++ concat (record_events (objects p) <$> records))).
Proof.
  induction records as [|r records IH]; intros p rest rounds Hdb Hall Hlt;
    (destruct rounds as [|n]; [cbn in Hlt; lia|]); cbn [parse_objects].
  - unfold parse_object. rewrite Hdb. cbn. destruct p. cbn.
    by rewrite app_nil_r.
  - apply Forall_cons in Hall as [Hr Hall].
    cbn [fmap list_fmap concat] in Hdb. rewrite <- app_assoc in Hdb.
    rewrite (parse_object_known p r _ Hdb Hr).
    rewrite (IH _ rest n); [|done|done|cbn in Hlt; lia].
    cbn [objects objects_names need_full_snapshot_notified
         full_snapshot_requests events remember_all foldl fmap list_fmap concat].
    by rewrite <- app_assoc.
Qed.

(** Every object a node of the group points to is registered on the
    client under the same net id and with as many variables. *)
Definition mirrored (client_objects : list ObjectData)
    (p_group : Server.SyncGroup) : Prop :=
  ∀ id od, objs !! id = Some od →
    id ∈ Server.realtime_ids p_group ∨ id ∈ Server.deferred_ids p_group →
    ∃ local od_c, get_object_data client_objects id = Some local ∧
                  client_objects !! local = Some od_c ∧
                  length (vars od_c) = length (Registry.vars od).

Lemma object_record_readable client_objects id od p_mode p_change :
  id ≠ ObjectNetId_NONE →
  (∃ local od_c, get_object_data client_objects id = Some local ∧
                 client_objects !! local = Some od_c ∧
                 length (vars od_c) = length (Registry.vars od)) →
  Forall (readable client_objects) (object_record id od p_mode p_change).
Proof.
  intros Hid (local & od_c & Hget & Hod & Hlen). unfold object_record.
  destruct (Registry.app_object_handle od =? ObjectHandle_NONE);
    [apply Forall_nil_2|].
  apply Forall_singleton. split; [done|]. exists local, od_c.
  cbn [rec_id rec_values]. by rewrite length_fmap.
Qed.

Lemma snapshot_records_readable client_objects full p_group :
  objs !! ObjectNetId_NONE = None →
  mirrored client_objects p_group →
  Forall (readable client_objects) (snapshot_records full p_group).
Proof.
  intros Hnone Hmirror. unfold snapshot_records. apply Forall_app. split.
  - unfold deferred_records.
    destruct (is_deferred_node_list_changed p_group || full);
      [|apply Forall_nil_2].
    apply Forall_concat, Forall_fmap, Forall_forall. intros node Hnode.
    unfold compose. lazy beta.
    destruct (Server.df_unknown node || full); [|apply Forall_nil_2].
    destruct (objs !! Server.df_od node) as [od|] eqn:Hod;
      [|apply Forall_nil_2].
    apply object_record_readable; [congruence|].
    apply (Hmirror _ od Hod). right. unfold Server.deferred_ids.
    by apply list_elem_of_fmap_2.
  - unfold realtime_records.
    apply Forall_concat, Forall_fmap, Forall_forall. intros node Hnode.
    unfold compose. lazy beta.
    destruct (objs !! Server.rt_od node) as [od|] eqn:Hod;
      [|apply Forall_nil_2].
    apply object_record_readable; [congruence|].
    apply (Hmirror _ od Hod). left. unfold Server.realtime_ids.
    by apply list_elem_of_fmap_2.
Qed.

Lemma records_length (records : list ObjectRecord) :
  (length records ≤ length (concat (tokens_of <$> records)))%nat.
Proof.
  induction records as [|r records IH]; [done|].
  cbn [fmap list_fmap concat]. rewrite length_app.
  unfold tokens_of at 1, record_tokens. cbn [length]. lia.
Qed.

(** The client after a snapshot of the group has been parsed: the names
    sent are remembered; the callbacks are called for the input id, the
    custom data, each record in the order written and, when the list of
    simulated objects was sent, the activation of every registered object
    that has a net id, in the order of the net ids; a full snapshot is asked
    for when that list names an object that is not registered. *)
Definition received (full : bool) (p_group : Server.SyncGroup)
    (input_id : Z) (p : Parser) : Parser :=
  let records := snapshot_records full p_group in
  let evs0 :=
    events p ++
    InputIdParsed input_id ::
    match snapshot_get_custom_data p_group with
    | Some vd => [CustomDataParsed vd]
    | None => []
    end ++
    concat (record_events (objects p) <$> records) in
  let '(left_over, evs) :=
    match simulated_list full p_group with
    | Some ids =>
        report_activation (get_sorted_objects_data (objects p)) ids evs0
    | None => ([], evs0)
    end in
  let p6 :=
    mkParser (objects p) (remember_all records (objects_names p))
      (need_full_snapshot_notified p) (full_snapshot_requests p)
      (mkDataBuffer [] false) evs in
  if bool_decide (left_over = []) then p6
  else notify_server_full_snapshot_is_needed p6.

(** X14.  A snapshot written by [generate_snapshot] behind the input id
    is read by [parse_sync_data] to its end and accepted, on a client that has
    every object of the group registered under the same net id with the same
    number of variables (fewer than 256): the client's objects are unchanged,
    the buffer is used up, and the variable callback is called, in the order
    written, for exactly the values the server sent, each with the id of the
    client's variable at the same position; after the records of a snapshot
    that carries the list of simulated objects, the activation of the
    client's objects is reported in the order of their net ids. *)
Theorem generated_snapshot_is_parsed full p_group input_id body p :
  counts_fit p_group → objs !! ObjectNetId_NONE = None →
  mirrored (objects p) p_group →
  generate_snapshot full p_group [] = Some body →
  db p = mkDataBuffer (TUInt input_id :: body) false →
  parse_sync_data fetch_app_object new_object_data p =
    Some (true, received full p_group input_id p) ∧
  objects (received full p_group input_id p) = objects p ∧
  db (received full p_group input_id p) = mkDataBuffer [] false.
Proof.
  intros Hfit Hnone Hmirror Hgen Hdb. split.
  2:{ unfold received, notify_server_full_snapshot_is_needed.
      destruct (simulated_list full p_group) as [ids|];
        [destruct (report_activation _ _ _) as [left_over evs]|];
        case_bool_decide; try done;
        by destruct (need_full_snapshot_notified p). }
  destruct (generate_snapshot_tokens full p_group [] body Hfit Hgen)
    as [Hbody Hids].
  pose proof (snapshot_records_readable (objects p) full p_group Hnone Hmirror)
    as Hreadable.
  set (records := snapshot_records full p_group) in *.
  unfold parse_sync_data, received. fold records.
  rewrite Hdb. cbn [pending read_uint buffer_failed].
  set (rounds := S (length (TUInt input_id :: body))).
  assert (Hlen_body : (length records < rounds)%nat ∧
    ∀ ids, simulated_list full p_group = Some ids →
           (length ids < rounds)%nat).
  { unfold rounds. rewrite Hbody. cbn [length app].
    rewrite !length_app. pose proof (records_length records) as Hsum. split.
    - lia.
    - intros ids ->. cbn [list_tokens length].
      rewrite length_app, length_fmap. lia. }
  destruct Hlen_body as [Hlen_records Hlen_ids].
  rewrite Hbody. cbn [app].
  destruct (simulated_list full p_group) as [ids|] eqn:Hlist;
    cbn [list_tokens app read_bool buffer_failed pending].
  - rewrite <- app_assoc. cbn [app].
    rewrite read_active_objects_ids;
      [|eapply Forall_impl; [by apply Hids|by intros id [? _]]
       |by apply Hlen_ids].
    cbn [mbind option_bind negb app].
    destruct (snapshot_get_custom_data p_group) as [vd|];
      cbn [custom_tokens app read_bool read_variant buffer_failed pending];
      (erewrite parse_objects_records;
         [|reflexivity|exact Hreadable|exact Hlen_records]);
      cbn [mbind option_bind negb objects objects_names events add_event
           set_db need_full_snapshot_notified full_snapshot_requests db];
      rewrite <- ?app_assoc; cbn [app];
      by destruct (report_activation _ _ _).
  - destruct (snapshot_get_custom_data p_group) as [vd|];
      cbn [mbind option_bind negb custom_tokens app read_bool read_variant
           buffer_failed pending];
      (erewrite parse_objects_records;
         [|reflexivity|exact Hreadable|exact Hlen_records]);
      cbn [mbind option_bind negb objects objects_names events add_event
           set_db need_full_snapshot_notified full_snapshot_requests db];
      rewrite <- ?app_assoc; cbn [app]; done.
Qed.

End Generate.

(** *** A lamp and a door *)

Definition lamp : Registry.ObjectData :=
  Registry.mkObjectData "lamp" 20
    [Registry.mkVarDescriptor 0 (mkNameAndVar "on" (VBool true)) false true [];
     Registry.mkVarDescriptor 1 (mkNameAndVar "hue" (VInt 7)) false true []].

Definition door : Registry.ObjectData :=
  Registry.mkObjectData "door" 21
    [Registry.mkVarDescriptor 0 (mkNameAndVar "open" (VBool false)) false true
       []].

(** The server: the lamp under net id 3, the door under net id 4. *)
Definition house : gmap Z Registry.ObjectData := <[3 := lamp]> {[ 4 := door ]}.

(** The lamp is simulated and its "on" has changed; the door is a deferred
    node the clients do not know yet. *)
Definition house_group : Server.SyncGroup :=
  Server.mkSyncGroup
    [Server.mkRealtimeNodeInfo 3 (Server.mkChange false ["on"%string])]
    [Server.mkDeferredNodeInfo 4 true 1%Q 0%Q] [5] 0%Q 0.

Definition house_body : list Token :=
  Eval vm_compute in
    default []
      (generate_snapshot 0 house (λ _, false) (λ _, true)
         (λ _, Some (VInt 9)) (Server.mkChange false []) false house_group []).

(** A client that has both objects registered, in another order. *)
Definition house_client : Parser :=
  mkParser
    [mkObjectData 4 "door" 41 [mkVarSlot 0 "open"] false;
     mkObjectData 3 "lamp" 40 [mkVarSlot 0 "on"; mkVarSlot 1 "hue"] true]
    ∅ false 0 (mkDataBuffer (TUInt 12 :: house_body) false) [].

Definition no_host (_ : string) : option Z := None.

Lemma house_counts_fit : counts_fit house house_group.
Proof.
  intros id od Hod _. unfold house in Hod.
  apply lookup_insert_Some in Hod as [[<- <-]|[_ Hod]];
    [|apply lookup_singleton_Some in Hod as [<- <-]]; cbn; lia.
Defined.

Lemma house_mirrored : mirrored house (objects house_client) house_group.
Proof.
  intros id od Hod _. unfold house in Hod.
  apply lookup_insert_Some in Hod as [[<- <-]|[_ Hod]];
    [|apply lookup_singleton_Some in Hod as [<- <-]].
  - by exists 1%nat, (mkObjectData 3 "lamp" 40
                        [mkVarSlot 0 "on"; mkVarSlot 1 "hue"] true).
  - by exists 0%nat, (mkObjectData 4 "door" 41 [mkVarSlot 0 "open"] false).
Defined.

Lemma generated_snapshot_is_parsed_witness :
  let after :=
    received 0 house (λ _, false) (λ _, true) (λ _, Some (VInt 9))
      (Server.mkChange false []) false house_group 12 house_client in
  parse_sync_data no_host (λ _, mkObjectData 0 "" 0 [] false) house_client =
    Some (true, after) ∧
  objects after = objects house_client ∧ db after = mkDataBuffer [] false.
Proof.
  exact (generated_snapshot_is_parsed 0 house (λ _, false) (λ _, true)
           (λ _, Some (VInt 9)) (Server.mkChange false []) no_host
           (λ _, mkObjectData 0 "" 0 [] false) false house_group 12 house_body
           house_client house_counts_fit eq_refl house_mirrored eq_refl
           eq_refl).
Defined.

(** What the server wrote for the house, and what the client's callbacks
    were told: the door by name and without values, the lamp without name and
    with the one changed value. *)
Lemma house_on_the_wire :
  house_body =
    [TBool false; TBool true; TVariant (VInt 9);
     TUInt 4; TBool true; TString "door"; TUInt8 1; TBool false;
     TUInt 3; TBool false; TUInt8 2; TBool true; TVariant (VBool true);
     TBool false;
     TUInt ObjectNetId_NONE] ∧
  (snd <$> parse_sync_data no_host (λ _, mkObjectData 0 "" 0 [] false)
             house_client) =
    Some (mkParser (objects house_client) {[ 4 := "door"%string ]} false 0
            (mkDataBuffer [] false)
            [InputIdParsed 12; CustomDataParsed (VInt 9); NodeParsed 0;
             NodeParsed 1; ControllerParsed 1;
             VariableParsed 1 0 (VBool true)]).
Proof. by vm_compute. Qed.

(** The same group in a full snapshot: the list of active objects is on
    the wire, and the client reports the activation by net id, the lamp (net
    id 3, local id 1) before the door (net id 4, local id 0). *)
Definition house_full_body : list Token :=
  Eval vm_compute in
    default []
      (generate_snapshot 0 house (λ _, false) (λ _, true)
         (λ _, Some (VInt 9)) (Server.mkChange false []) true house_group []).

Lemma house_activation_by_net_id :
  (events ∘ snd) <$>
    parse_sync_data no_host (λ _, mkObjectData 0 "" 0 [] false)
      (mkParser (objects house_client) ∅ false 0
         (mkDataBuffer (TUInt 12 :: house_full_body) false) []) =
  Some [InputIdParsed 12; CustomDataParsed (VInt 9);
        NodeParsed 0; NodeParsed 1; ControllerParsed 1;
        VariableParsed 1 0 (VBool true); VariableParsed 1 1 (VInt 7);
        NodeActivationParsed 1 true; NodeActivationParsed 0 false].
Proof. by vm_compute. Qed.

End Wire.

(** ** The client's two snapshot queues over the life of a client *)
Module Queues.
Import Client.

(** [ClientSynchronizer::clear], on the fields of [ClientSynchronizer]. *)
Definition clear : ClientSynchronizer := mkClient None [] [] 0.

(** [ClientSynchronizer::receive_snapshot]; [parsed] is what
    [parse_snapshot] left in [last_received_snapshot], [None] when it
    failed. *)
Definition receive_snapshot (parsed : option Snapshot)
    (cs : ClientSynchronizer) : ClientSynchronizer :=
  match parsed with
  | None => cs
  | Some last_received_snapshot =>
      set_queues
        (store_controllers_snapshot
           (bool_decide (player_controller_node_data cs ≠ None))
           last_received_snapshot (server_snapshots cs)).1
        (client_snapshots cs) cs
  end.

(** [ClientSynchronizer::on_object_data_removed], on the fields of
    [ClientSynchronizer]. *)
Definition on_object_data_removed (p_object_data : Z)
    (cs : ClientSynchronizer) : ClientSynchronizer :=
  if bool_decide (player_controller_node_data cs = Some p_object_data)
  then mkClient None [] [] (last_checked_input cs)
  else cs.

(** [ClientSynchronizer::on_controller_reset]; the second argument is
    [p_object_data->get_controller ()->is_player_controller ()]. *)
Definition on_controller_reset (p_object_data : Z)
    (is_player_controller : bool) (cs : ClientSynchronizer)
    : ClientSynchronizer :=
  let cs1 :=
    if bool_decide (player_controller_node_data cs = Some p_object_data)
    then mkClient None [] [] (last_checked_input cs)
    else cs in
  if is_player_controller then
    match player_controller_node_data cs1 with
    | Some _ => cs1
    | None => mkClient (Some p_object_data) [] [] (last_checked_input cs1)
    end
  else cs1.

Section Life.

Context {World : Type}.
Variable apply_snapshot : Snapshot → Z → bool → World → World.
Variable snapshot_compare : World → Snapshot → Snapshot → bool * Snapshot.
Variable update_client_snapshot : World → Snapshot → Snapshot.
Variable state_validated : Z → World → World.
Variable frames_input_count : World → nat.
Variable rewind_frame : nat → nat → World → World.

(** [ClientSynchronizer::store_snapshot]; the argument is the
    controller's [get_current_input_id ()]. *)
Definition store_snapshot (current_input_id : Z) (w : World)
    (cs : ClientSynchronizer) : ClientSynchronizer :=
  set_queues (server_snapshots cs)
    (client_snapshots cs ++
       [update_client_snapshot w (snapshot_of_id current_input_id)])
    cs.

(** What happens to a client between two calls of [clear]. *)
Inductive ClientCall :=
| ReceiveSnapshot (parsed : option Snapshot)
| StoreSnapshot (current_input_id : Z)
| ProcessReceivedServerState
| ControllerReset (p_object_data : Z) (is_player_controller : bool)
| ObjectDataRemoved (p_object_data : Z)
| SceneChanged (w : World).

Definition run_client_call (c : ClientCall) (s : World * ClientSynchronizer)
    : World * ClientSynchronizer :=
  match c with
  | ReceiveSnapshot parsed => (s.1, receive_snapshot parsed s.2)
  | StoreSnapshot id => (s.1, store_snapshot id s.1 s.2)
  | ProcessReceivedServerState =>
      process_received_server_state apply_snapshot snapshot_compare
        update_client_snapshot state_validated frames_input_count rewind_frame
        s.1 s.2
  | ControllerReset od is_player => (s.1, on_controller_reset od is_player s.2)
  | ObjectDataRemoved od => (s.1, on_object_data_removed od s.2)
  | SceneChanged w => (w, s.2)
  end.

Definition run_client_calls (calls : list ClientCall)
    (s : World * ClientSynchronizer) : World * ClientSynchronizer :=
  foldl (λ s c, run_client_call c s) s calls.

Lemma length_set_back p q : length (set_back p q) = length q.
Proof.
  induction q as [|s [|s' r] IH]; [done|done|].
  change (set_back p (s :: s' :: r)) with (s :: set_back p (s' :: r)).
  cbn [length]. by rewrite IH.
Qed.

Lemma store_controllers_snapshot_length pc p q :
  (length (store_controllers_snapshot pc p q).1 ≤ 1 `max` length q)%nat.
Proof.
  unfold store_controllers_snapshot.
  destruct ((input_id p =? UINT32_MAX) && pc); [cbn; lia|].
  destruct (input_id p =? UINT32_MAX); [cbn; lia|].
  destruct (last q) as [back|] eqn:Hlast.
  - destruct (input_id p =? input_id back);
      [cbn [fst]; rewrite length_set_back; lia|].
    destruct (input_id p <? input_id back); cbn; lia.
  - apply last_None in Hlast as ->. cbn. lia.
Qed.

Lemma drop_old_drop k q : ∃ n, drop_old k q = drop n q.
Proof.
  induction q as [|s q [n IH]]; [by exists 0%nat|].
  cbn [drop_old]. destruct (input_id s <? k).
  - by exists (S n).
  - by exists 0%nat.
Qed.

Lemma drop_old_length k q : (length (drop_old k q) ≤ length q)%nat.
Proof.
  destruct (drop_old_drop k q) as [n ->]. rewrite length_drop. lia.
Qed.

Lemma rewind_loop_length remaining todo : ∀ i w client,
  length (rewind_loop update_client_snapshot rewind_frame remaining i todo w
            client).2 = length client.
Proof.
  induction todo as [|todo IH]; intros i w client; [done|].
  cbn [rewind_loop]. rewrite IH. apply length_alter.
Qed.

(** The comparison and recovery take the front of both queues and leave
    what was behind it. *)
Lemma compare_and_recover_queues k w cs :
  let cs' := (compare_and_recover apply_snapshot snapshot_compare
                update_client_snapshot state_validated frames_input_count
                rewind_frame k w cs).2 in
  player_controller_node_data cs' = player_controller_node_data cs ∧
  (server_snapshots cs' = server_snapshots cs ∧
   client_snapshots cs' = client_snapshots cs ∧
   last_checked_input cs' = last_checked_input cs ∨
   server_snapshots cs' = drop 1 (server_snapshots cs) ∧
   length (client_snapshots cs') = pred (length (client_snapshots cs)) ∧
   last_checked_input cs' = k).
Proof.
  cbn zeta. unfold compare_and_recover.
  destruct (server_snapshots cs) as [|server_front server_rest] eqn:Hs;
    [by (split; [|left])|].
  destruct (client_snapshots cs) as [|client_front client_rest] eqn:Hc;
    [by (split; [|left])|].
  destruct (snapshot_compare w server_front client_front)
    as [is_equal no_rewind_recover].
  split.
  - destruct is_equal; cbn [negb].
    + destruct (input_id no_rewind_recover =? 0); by cbn.
    + unfold pcr_rewind. by destruct (rewind_loop _ _ _ _ _ _ _).
  - right. destruct is_equal; cbn [negb].
    + destruct (input_id no_rewind_recover =? 0); cbn; [|done].
      by rewrite length_alter.
    + unfold pcr_rewind.
      match goal with
      | |- context [rewind_loop ?u ?r ?n ?i ?t ?x ?c] =>
          pose proof (rewind_loop_length n t i x c) as Hlen;
          destruct (rewind_loop u r n i t x c) as [w' client']
      end.
      cbn in *. by rewrite Hlen.
Qed.

(** What [process_received_server_state] does to the queues: snapshots
    leave them from the front, and none is added or moved. *)
Lemma process_received_queues w cs :
  let cs' := (process_received_server_state apply_snapshot snapshot_compare
                update_client_snapshot state_validated frames_input_count
                rewind_frame w cs).2 in
  player_controller_node_data cs' = player_controller_node_data cs ∧
  (∃ n, server_snapshots cs' = drop n (server_snapshots cs)) ∧
  (length (client_snapshots cs') ≤ length (client_snapshots cs))%nat.
Proof.
  cbn zeta. unfold process_received_server_state.
  destruct (last (server_snapshots cs)) as [newest|] eqn:Hlast.
  2:{ split; [done|]. split; [by exists 0%nat|done]. }
  destruct (input_id newest =? UINT32_MAX).
  { cbn. split; [done|]. split; [|lia].
    exists (length (server_snapshots cs)). by rewrite drop_all. }
  destruct (player_controller_node_data cs) as [pc|] eqn:Hpc.
  2:{ split; [done|]. split; [by exists 0%nat|done]. }
  destruct (client_snapshots cs) as [|c0 crest] eqn:Hc.
  - unfold process_paused_controller_recovery. rewrite Hlast. cbn.
    split; [done|]. split; [|rewrite ?Hc; cbn; lia].
    exists (length (server_snapshots cs)). by rewrite drop_all.
  - destruct (find_checkable _ _ _ =? UINT32_MAX).
    { split; [done|]. split; [by exists 0%nat|]. cbn [snd]. by rewrite Hc. }
    match goal with
    | |- context [compare_and_recover _ _ _ _ _ _ ?k ?x ?c] =>
        destruct (compare_and_recover_queues k x c) as [Hsame Hcases];
        set (cs' := (compare_and_recover apply_snapshot snapshot_compare
                       update_client_snapshot state_validated
                       frames_input_count rewind_frame k x c).2) in *
    end.
    cbn [player_controller_node_data server_snapshots client_snapshots
         set_queues] in Hsame, Hcases.
    destruct (drop_old_drop
                (find_checkable (rev (server_snapshots cs)) (c0 :: crest)
                   UINT32_MAX) (server_snapshots cs)) as [n Hn].
    pose proof (drop_old_length
                  (find_checkable (rev (server_snapshots cs)) (c0 :: crest)
                     UINT32_MAX) (c0 :: crest)) as Hlen.
    split; [congruence|].
    destruct Hcases as [(H1 & H2 & _)|(H1 & H2 & _)]; rewrite H1.
    + split; [by exists n|]. rewrite H2. done.
    + split; [exists (n + 1)%nat; by rewrite Hn, drop_drop|]. rewrite H2. lia.
Qed.

(** X15.  From [clear] on, whatever snapshots are received and stored,
    whenever the reconciliation runs and whichever controllers are reset or
    objects removed, the queue of server snapshots never holds more than one
    snapshot. *)
Theorem server_queue_holds_at_most_one calls w :
  (length (server_snapshots (run_client_calls calls (w, clear)).2) ≤ 1)%nat.
Proof.
  induction calls as [|c calls IH] using rev_ind; [cbn; lia|].
  unfold run_client_calls. rewrite foldl_snoc.
  fold (run_client_calls calls (w, clear)).
  destruct (run_client_calls calls (w, clear)) as [w1 cs]. cbn [snd] in IH.
  destruct c as [[p|]|id| |od is_player|od|w2]; cbn [run_client_call fst snd].
  - cbn [receive_snapshot set_queues server_snapshots].
    pose proof (store_controllers_snapshot_length
                  (bool_decide (player_controller_node_data cs ≠ None)) p
                  (server_snapshots cs)). lia.
  - done.
  - done.
  - destruct (process_received_queues w1 cs) as (_ & [n Hn] & _).
    rewrite Hn, length_drop. lia.
  - unfold on_controller_reset.
    case_bool_decide; destruct is_player; cbn; try lia.
    destruct (player_controller_node_data cs); cbn; lia.
  - unfold on_object_data_removed. case_bool_decide; cbn; lia.
  - done.
Qed.

(** X16.  One run of [process_received_server_state] keeps the player
    controller, leaves of the server queue a tail of what it was, and leaves
    the client queue no longer than it was: snapshots leave the queues from
    the front, and none is added or reordered. *)
Theorem reconciliation_only_consumes w cs :
  let cs' := (process_received_server_state apply_snapshot snapshot_compare
                update_client_snapshot state_validated frames_input_count
                rewind_frame w cs).2 in
  player_controller_node_data cs' = player_controller_node_data cs ∧
  (∃ n, server_snapshots cs' = drop n (server_snapshots cs)) ∧
  (length (client_snapshots cs') ≤ length (client_snapshots cs))%nat.
Proof. apply process_received_queues. Qed.

End Life.

End Queues.

(** ** Capturing the scene in a client snapshot, and applying a snapshot *)
Module Capture.
Import Registry.

(** The calls made to the host's [SynchronizerManager]. *)
Inductive HostCall :=
| SetVariable (handle : Z) (name : string) (value : variant)
| SetCustomData (data : variant).

(** [std::vector::resize]: cut to [n] elements, or filled up with
    default-constructed ones. *)
Definition resize {A} (n : nat) (d : A) (l : list A) : list A :=
  take n l ++ replicate (n - length l) d.

(** The default-constructed [NameAndVar]. *)
Definition no_var : NameAndVar := mkNameAndVar "" VNil.

Section Scene.

(** [objects_data_storage.get_object_data (net_id)]: the objects by net
    id, each given by its local id; [None] stands for [nullptr].  An object
    found under a net id carries that net id. *)
Variable by_net_id : list (option nat).
(** [ObjectData::realtime_sync_enabled_on_client], by local id. *)
Variable realtime_sync_enabled_on_client : nat → bool.
(** [SynchronizerManager::snapshot_get_custom_data (nullptr, out)]: what
    the call leaves in [out]. *)
Variable snapshot_get_custom_data : variant → variant.

Definition ObjectNetId_NONE : Z := UINT32_MAX.

Definition object_at (b : SceneSynchronizerBase) (net_node_id : nat)
    : option (nat * ObjectData) :=
  local ← by_net_id !! net_node_id ≫= id;
  nd ← objects b !! local;
  Some (local, nd).

(** One round of the variable loop of [update_client_snapshot]. *)
Definition capture_var (vd : VarDescriptor) (slot : NameAndVar) : NameAndVar :=
  if enabled vd then var vd else mkNameAndVar "" (nv_value slot).

(** The variable loop, on the entry resized to the object's variables. *)
Definition capture_vars (vs : list VarDescriptor)
    (snap_node_vars : list NameAndVar) : list NameAndVar :=
  zip_with capture_var vs (resize (length vs) no_var snap_node_vars).

(** The object loop of [update_client_snapshot]; the [ERR_FAIL_COND_MSG]
    returns from the function. *)
Fixpoint capture_objects (b : SceneSynchronizerBase) (todo : list nat)
    (object_vars : list (list NameAndVar)) : list (list NameAndVar) :=
  match todo with
  | [] => object_vars
  | net_node_id :: rest =>
      match object_at b net_node_id with
      | None => capture_objects b rest object_vars
      | Some (local, nd) =>
          if negb (realtime_sync_enabled_on_client local)
          then capture_objects b rest object_vars
          else if Z.of_nat net_node_id =? ObjectNetId_NONE then object_vars
          else
            capture_objects b rest
              (alter (capture_vars (vars nd)) net_node_id object_vars)
      end
  end.

(** [ClientSynchronizer::update_client_snapshot]. *)
Definition update_client_snapshot (b : SceneSynchronizerBase)
    (p_snapshot : Snapshot) : Snapshot :=
  let size := length by_net_id in
  mkSnapshot (input_id p_snapshot)
    (capture_objects b (seq 0 size) (resize size [] (object_vars p_snapshot)))
    (has_custom_data p_snapshot)
    (snapshot_get_custom_data (custom_data p_snapshot)).

(** One round of the variable loop of [apply_snapshot], for the object
    with local id [local]; [None] is the read of a variable the object does
    not have. *)
Definition apply_var (local : nat) (slot : NameAndVar) (v : nat)
    (st : SceneSynchronizerBase * list HostCall)
    : option (SceneSynchronizerBase * list HostCall) :=
  let '(b, calls) := st in
  if String.eqb (nv_name slot) "" then Some st
  else
    nd ← objects b !! local;
    vd ← vars nd !! v;
    let current_val := nv_value (var vd) in
    let b1 :=
      set_objects
        (<[local := set_vars (alter (set_value (nv_value slot)) v (vars nd))
                      nd]> (objects b)) b in
    if bool_decide (current_val = nv_value slot) then Some (b1, calls)
    else
      Some (change_event_add local (Z.of_nat v) current_val b1,
            calls ++
              [SetVariable (app_object_handle nd) (nv_name slot)
                 (nv_value slot)]).

(** The variable loop, from position [v] on. *)
Fixpoint apply_vars (local : nat) (slots : list NameAndVar) (v : nat)
    (st : SceneSynchronizerBase * list HostCall)
    : option (SceneSynchronizerBase * list HostCall) :=
  match slots with
  | [] => Some st
  | slot :: rest =>
      st' ← apply_var local slot v st;
      apply_vars local rest (S v) st'
  end.

(** The object loop, from net id [net_node_id] on. *)
Fixpoint apply_objects (objects_vars : list (list NameAndVar))
    (net_node_id : nat) (st : SceneSynchronizerBase * list HostCall)
    : option (SceneSynchronizerBase * list HostCall) :=
  match objects_vars with
  | [] => Some st
  | slots :: rest =>
      st' ←
        match object_at st.1 net_node_id with
        | None => Some st
        | Some (local, _) =>
            if negb (realtime_sync_enabled_on_client local) then Some st
            else apply_vars local slots 0 st
        end;
      apply_objects rest (S net_node_id) st'
  end.

(** [ClientSynchronizer::apply_snapshot], without the optional log
    [r_applied_data_info]; the scene afterwards and the calls made to the
    host, oldest first. *)
Definition apply_snapshot (p_snapshot : Snapshot) (p_flag : Z)
    (p_skip_custom_data : bool) (st : SceneSynchronizerBase * list HostCall)
    : option (SceneSynchronizerBase * list HostCall) :=
  '(b1, calls1) ←
    apply_objects (object_vars p_snapshot) 0
      (change_events_begin p_flag st.1, st.2);
  let calls2 :=
    if has_custom_data p_snapshot && negb p_skip_custom_data
    then calls1 ++ [SetCustomData (custom_data p_snapshot)] else calls1 in
  Some (change_events_flush b1, calls2).

(** *** What the variable loop of [apply_snapshot] stores *)

(** The variables of one object after the variable loop has run over
    [slots] from position [v] on. *)
Fixpoint store (slots : list NameAndVar) (v : nat) (vs : list VarDescriptor)
    : list VarDescriptor :=
  match slots with
  | [] => vs
  | slot :: rest =>
      store rest (S v)
        (if String.eqb (nv_name slot) "" then vs
         else alter (set_value (nv_value slot)) v vs)
  end.

(** The calls of [set_variable] the loop makes for that object. *)
Fixpoint writes (handle : Z) (slots : list NameAndVar) (v : nat)
    (vs : list VarDescriptor) : list HostCall :=
  match slots with
  | [] => []
  | slot :: rest =>
      if String.eqb (nv_name slot) "" then writes handle rest (S v) vs
      else
        match vs !! v with
        | Some vd =>
            (if bool_decide (nv_value (var vd) = nv_value slot) then []
             else [SetVariable handle (nv_name slot) (nv_value slot)]) ++
            writes handle rest (S v) (alter (set_value (nv_value slot)) v vs)
        | None => []
        end
  end.

Lemma length_store slots : ∀ v vs, length (store slots v vs) = length vs.
Proof.
  induction slots as [|slot slots IH]; intros v vs; [done|].
  cbn [store]. rewrite IH. destruct (String.eqb _ _); [done|].
  apply length_alter.
Qed.

Lemma store_before slots : ∀ v vs k,
  (k < v)%nat → store slots v vs !! k = vs !! k.
Proof.
  induction slots as [|slot slots IH]; intros v vs k Hk; [done|].
  cbn [store]. rewrite IH by lia. destruct (String.eqb _ _); [done|].
  apply list_lookup_alter_ne. lia.
Qed.

(** The slot at position [v + k] takes the value of the snapshot's slot
    [k] if that one is named, and is left alone otherwise. *)
Lemma store_lookup slots : ∀ v vs k slot,
  slots !! k = Some slot →
  store slots v vs !! (v + k)%nat =
    (if String.eqb (nv_name slot) "" then id else set_value (nv_value slot))
      <$> vs !! (v + k)%nat.
Proof.
  induction slots as [|slot0 slots IH]; intros v vs k slot Hk; [done|].
  cbn [store]. destruct k as [|k]; cbn in Hk.
  - injection Hk as ->. rewrite Nat.add_0_r, store_before by lia.
    destruct (String.eqb _ _).
    + by destruct (vs !! v).
    + apply list_lookup_alter_eq.
  - replace (v + S k)%nat with (S v + k)%nat by lia.
    rewrite (IH _ _ _ _ Hk).
    destruct (String.eqb (nv_name slot0) ""); [done|].
    by rewrite list_lookup_alter_ne by lia.
Qed.

Lemma store_beyond slots : ∀ v vs k,
  (v + length slots ≤ k)%nat → store slots v vs !! k = vs !! k.
Proof.
  induction slots as [|slot slots IH]; intros v vs k Hk; [done|].
  cbn [store length] in *. rewrite IH by lia.
  destruct (String.eqb _ _); [done|]. apply list_lookup_alter_ne. lia.
Qed.

(** [set_variable] is called exactly for the named slots whose value
    differs from the one stored. *)
Lemma writes_spec handle slots : ∀ v vs c,
  (v + length slots ≤ length vs)%nat →
  c ∈ writes handle slots v vs ↔
  ∃ k slot vd, slots !! k = Some slot ∧ vs !! (v + k)%nat = Some vd ∧
               nv_name slot ≠ ""%string ∧
               nv_value (var vd) ≠ nv_value slot ∧
               c = SetVariable handle (nv_name slot) (nv_value slot).
Proof.
  induction slots as [|slot0 slots IH]; intros v vs c Hfit.
  { cbn. split; [by intros ?%elem_of_nil|]. by intros (k & ? & ? & ? & _). }
  cbn [writes length] in *.
  assert (Hshift : ∀ vs', length vs' = length vs →
    (∀ j, (v < j)%nat → vs' !! j = vs !! j) →
    c ∈ writes handle slots (S v) vs' ↔
    ∃ k slot vd, slots !! k = Some slot ∧ vs !! (v + S k)%nat = Some vd ∧
                 nv_name slot ≠ ""%string ∧
                 nv_value (var vd) ≠ nv_value slot ∧
                 c = SetVariable handle (nv_name slot) (nv_value slot)).
  { intros vs' Hlen Hsame. rewrite IH by lia.
    split; intros (k & slot & vd & Hk & Hvd & Hrest);
      exists k, slot, vd; (split; [done|]); (split; [|done]).
    - rewrite <- Hsame by lia. by replace (v + S k)%nat with (S v + k)%nat by lia.
    - replace (S v + k)%nat with (v + S k)%nat by lia. by rewrite Hsame by lia. }
  destruct (String.eqb_spec (nv_name slot0) "") as [Hempty|Hnamed].
  - rewrite (Hshift vs) by done. split.
    + intros (k & slot & vd & Hk & Hrest). by exists (S k), slot, vd.
    + intros ([|k] & slot & vd & Hk & Hvd & Hname & Hrest); cbn in Hk.
      * by injection Hk as ->.
      * by exists k, slot, vd.
  - destruct (vs !! v) as [vd0|] eqn:Hvd0.
    2:{ apply lookup_ge_None in Hvd0. lia. }
    rewrite elem_of_app, (Hshift (alter (set_value (nv_value slot0)) v vs)).
    2:{ apply length_alter. }
    2:{ intros j Hj. apply list_lookup_alter_ne. lia. }
    split.
    + intros [Hhere|(k & slot & vd & Hk & Hrest)].
      * case_bool_decide as Hsame; [by apply elem_of_nil in Hhere|].
        apply list_elem_of_singleton in Hhere as ->.
        exists 0%nat, slot0, vd0. by rewrite Nat.add_0_r.
      * by exists (S k), slot, vd.
    + intros ([|k] & slot & vd & Hk & Hvd & Hname & Hdiff & ->); cbn in Hk.
      * injection Hk as ->. rewrite Nat.add_0_r, Hvd0 in Hvd.
        injection Hvd as ->. left. rewrite bool_decide_false by done.
        apply list_elem_of_here.
      * right. by exists k, slot, vd.
Qed.

(** The variable loop on the scene. *)
Lemma apply_vars_spec local slots : ∀ v b calls nd,
  objects b !! local = Some nd →
  (v + length slots ≤ length (vars nd))%nat →
  ∃ b', apply_vars local slots v (b, calls) =
          Some (b', calls ++ writes (app_object_handle nd) slots v (vars nd)) ∧
        objects b' = <[local := set_vars (store slots v (vars nd)) nd]>
                       (objects b).
Proof.
  induction slots as [|slot slots IH]; intros v b calls nd Hnd Hfit.
  { exists b. cbn. rewrite app_nil_r. split; [done|].
    destruct nd. by rewrite list_insert_id. }
  cbn [apply_vars writes store length] in *. unfold apply_var.
  destruct (String.eqb (nv_name slot) "").
  - cbn [mbind option_bind].
    destruct (IH (S v) b calls nd Hnd) as (b' & Hrun & Hobjs); [lia|].
    by exists b'.
  - rewrite Hnd. cbn [mbind option_bind].
    destruct (vars nd !! v) as [vd|] eqn:Hvd.
    2:{ apply lookup_ge_None in Hvd. lia. }
    cbn [mbind option_bind].
    set (nd1 := set_vars (alter (set_value (nv_value slot)) v (vars nd)) nd).
    set (b1 := set_objects (<[local := nd1]> (objects b)) b).
    assert (Hnd1 : ∀ b2, objects b2 = objects b1 → objects b2 !! local = Some nd1).
    { intros b2 ->. cbn. apply list_lookup_insert_eq.
      by apply lookup_lt_Some in Hnd. }
    assert (Hdone : ∀ b2 calls2, objects b2 = objects b1 →
      ∃ b', apply_vars local slots (S v) (b2, calls2) =
              Some (b', calls2 ++
                      writes (app_object_handle nd) slots (S v)
                        (alter (set_value (nv_value slot)) v (vars nd))) ∧
            objects b' =
              <[local := set_vars
                           (store slots (S v)
                              (alter (set_value (nv_value slot)) v (vars nd)))
                           nd]> (objects b)).
    { intros b2 calls2 Hb2.
      destruct (IH (S v) b2 calls2 nd1 (Hnd1 b2 Hb2)) as (b' & Hrun & Hobjs).
      { cbn. rewrite length_alter. lia. }
      exists b'. split; [exact Hrun|].
      rewrite Hobjs, Hb2. cbn. by rewrite list_insert_insert_eq. }
    case_bool_decide as Hsame; cbn [mbind option_bind].
    + destruct (Hdone b1 calls eq_refl) as (b' & Hrun & Hobjs).
      exists b'. by rewrite Hrun.
    + destruct (Hdone (change_event_add local (Z.of_nat v)
                         (nv_value (var vd)) b1)
                  (calls ++ [SetVariable (app_object_handle nd) (nv_name slot)
                               (nv_value slot)]) eq_refl)
        as (b' & Hrun & Hobjs).
      exists b'. rewrite Hrun. by rewrite <- app_assoc.
Qed.

(** *** What the object loop stores *)

(** Whether the round of net id [i] works on the object [local]. *)
Definition targets (i local : nat) : bool :=
  bool_decide (by_net_id !! i = Some (Some local)) &&
  realtime_sync_enabled_on_client local.

(** The variables of the object [local] after the rounds of the net ids
    from [i] on. *)
Fixpoint stored (objects_vars : list (list NameAndVar)) (i local : nat)
    (vs : list VarDescriptor) : list VarDescriptor :=
  match objects_vars with
  | [] => vs
  | slots :: rest =>
      stored rest (S i) local
        (if targets i local then store slots 0 vs else vs)
  end.

Lemma object_at_Some b i local nd :
  object_at b i = Some (local, nd) ↔
  by_net_id !! i = Some (Some local) ∧ objects b !! local = Some nd.
Proof.
  unfold object_at. destruct (by_net_id !! i) as [[l|]|]; cbn.
  - destruct (objects b !! l) as [x|] eqn:Hx; cbn.
    + split; [by intros [= <- <-]|]. intros [[= <-] Hnd]. congruence.
    + split; [done|]. intros [[= <-] Hnd]. congruence.
  - split; [done|]. by intros [? _].
  - split; [done|]. by intros [? _].
Qed.

Lemma length_stored objects_vars : ∀ i local vs,
  length (stored objects_vars i local vs) = length vs.
Proof.
  induction objects_vars as [|slots rest IH]; intros i local vs; [done|].
  cbn [stored]. rewrite IH. destruct (targets i local); [|done].
  apply length_store.
Qed.

Lemma set_vars_set_vars vs vs' (nd : ObjectData) :
  set_vars vs (set_vars vs' nd) = set_vars vs nd.
Proof. done. Qed.

Lemma set_vars_same (nd : ObjectData) : set_vars (vars nd) nd = nd.
Proof. by destruct nd. Qed.

(** The snapshot has, for every object a round works on, no more slots
    than the object has variables. *)
Definition fits (objects_vars : list (list NameAndVar)) (i : nat)
    (objs : list ObjectData) : Prop :=
  ∀ k slots local nd,
    objects_vars !! k = Some slots → targets (i + k) local = true →
    objs !! local = Some nd → (length slots ≤ length (vars nd))%nat.

Lemma apply_objects_spec objects_vars : ∀ i b calls,
  fits objects_vars i (objects b) →
  ∃ b' calls',
    apply_objects objects_vars i (b, calls) = Some (b', calls') ∧
    ∀ local nd, objects b !! local = Some nd →
      objects b' !! local =
        Some (set_vars (stored objects_vars i local (vars nd)) nd).
Proof.
  induction objects_vars as [|slots rest IH]; intros i b calls Hfits.
  { exists b, calls. split; [done|]. intros local nd Hnd. cbn.
    by rewrite set_vars_same. }
  cbn [apply_objects stored fst].
  assert (Hrest : fits rest (S i) (objects b)).
  { intros k slots' local nd Hk Ht Hnd.
    apply (Hfits (S k) slots' local nd); [done| |done].
    by replace (i + S k)%nat with (S i + k)%nat by lia. }
  assert (Hskip : (∀ local nd, objects b !! local = Some nd →
                     targets i local = false) →
    ∃ b' calls',
      apply_objects rest (S i) (b, calls) = Some (b', calls') ∧
      ∀ local nd, objects b !! local = Some nd →
        objects b' !! local =
          Some (set_vars
                  (stored rest (S i) local
                     (if targets i local then store slots 0 (vars nd)
                      else vars nd)) nd)).
  { intros Hnot. destruct (IH (S i) b calls Hrest) as (b' & calls' & Hrun & Hall).
    exists b', calls'. split; [done|]. intros local nd Hnd.
    rewrite (Hnot local nd Hnd). by apply Hall. }
  destruct (object_at b i) as [[l0 nd0]|] eqn:Hat.
  - apply object_at_Some in Hat as [Hid Hnd0].
    destruct (realtime_sync_enabled_on_client l0) eqn:Hsync; cbn [negb].
    + assert (Ht0 : targets i l0 = true).
      { unfold targets. by rewrite bool_decide_true, Hsync by done. }
      destruct (apply_vars_spec l0 slots 0 b calls nd0 Hnd0)
        as (b1 & Hrun1 & Hobjs1).
      { apply (Hfits 0%nat slots l0 nd0); [done| |done].
        by rewrite Nat.add_0_r. }
      rewrite Hrun1. cbn [mbind option_bind].
      destruct (IH (S i) b1
                  (calls ++ writes (app_object_handle nd0) slots 0 (vars nd0)))
        as (b' & calls' & Hrun & Hall).
      { intros k slots' local nd Hk Ht Hnd. rewrite Hobjs1 in Hnd.
        destruct (decide (l0 = local)) as [<-|Hne].
        - rewrite list_lookup_insert_eq in Hnd
            by (by apply lookup_lt_Some in Hnd0).
          injection Hnd as <-. cbn [vars set_vars]. rewrite length_store.
          by apply (Hrest k slots' l0 nd0).
        - rewrite list_lookup_insert_ne in Hnd by done.
          by apply (Hrest k slots' local nd). }
      exists b', calls'. split; [done|]. intros local nd Hnd.
      destruct (decide (l0 = local)) as [<-|Hne].
      * assert (nd = nd0) as -> by congruence. rewrite Ht0.
        erewrite Hall.
        2:{ rewrite Hobjs1. apply list_lookup_insert_eq.
            by apply lookup_lt_Some in Hnd0. }
        done.
      * assert (Ht : targets i local = false).
        { unfold targets. rewrite bool_decide_false; [done|]. congruence. }
        rewrite Ht. apply Hall. rewrite Hobjs1.
        by rewrite list_lookup_insert_ne.
    + cbn [mbind option_bind]. apply Hskip. intros local nd Hnd.
      unfold targets. case_bool_decide as Hl; [|done].
      assert (local = l0) as -> by congruence. by rewrite Hsync.
  - cbn [mbind option_bind]. apply Hskip. intros local nd Hnd.
    unfold targets. case_bool_decide as Hl; [|done].
    assert (object_at b i = Some (local, nd)) as Hsome
      by (by apply object_at_Some).
    congruence.
Qed.

(** Each object is stored under one net id at most. *)
Definition one_net_id : Prop :=
  ∀ i j local, by_net_id !! i = Some (Some local) →
               by_net_id !! j = Some (Some local) → i = j.

Lemma stored_untargeted objects_vars : ∀ i local vs,
  (∀ k, (k < length objects_vars)%nat → targets (i + k) local = false) →
  stored objects_vars i local vs = vs.
Proof.
  induction objects_vars as [|slots rest IH]; intros i local vs Hnone;
    [done|].
  cbn [stored].
  assert (H0 : targets i local = false).
  { specialize (Hnone 0%nat). rewrite Nat.add_0_r in Hnone.
    apply Hnone. cbn. lia. }
  rewrite H0. apply IH. intros k Hk.
  replace (S i + k)%nat with (i + S k)%nat by lia. apply Hnone. cbn. lia.
Qed.

Lemma stored_targeted objects_vars : ∀ i local vs k slots,
  one_net_id → objects_vars !! k = Some slots →
  targets (i + k) local = true →
  stored objects_vars i local vs = store slots 0 vs.
Proof.
  induction objects_vars as [|slots0 rest IH]; intros i local vs k slots
    Hone Hk Ht; [done|].
  assert (Hother : ∀ j, j ≠ (i + k)%nat → targets j local = false).
  { intros j Hj. unfold targets in *.
    apply andb_prop in Ht as [Hid%bool_decide_eq_true _].
    rewrite bool_decide_false; [done|]. intros Hid'.
    apply Hj. by apply (Hone j (i + k)%nat local). }
  cbn [stored]. destruct k as [|k]; cbn in Hk.
  - injection Hk as ->. rewrite Nat.add_0_r in Ht. rewrite Ht.
    apply stored_untargeted. intros j _. apply Hother. lia.
  - rewrite (Hother i) by lia.
    apply (IH (S i) local vs k slots Hone Hk).
    by replace (S i + k)%nat with (i + S k)%nat by lia.
Qed.

(** *** What [update_client_snapshot] captures *)

Lemma length_resize {A} n (d : A) l : length (resize n d l) = n.
Proof.
  unfold resize. rewrite length_app, length_take, length_replicate. lia.
Qed.

Lemma length_capture_vars vs entry :
  length (capture_vars vs entry) = length vs.
Proof.
  unfold capture_vars. rewrite length_zip_with, length_resize. lia.
Qed.

Lemma length_capture_objects b todo : ∀ object_vars,
  length (capture_objects b todo object_vars) = length object_vars.
Proof.
  induction todo as [|j todo IH]; intros object_vars; [done|].
  cbn [capture_objects]. destruct (object_at b j) as [[local nd]|]; [|done].
  destruct (negb _); [done|]. destruct (_ =? _); [done|].
  rewrite IH. apply length_alter.
Qed.

(** The entry of a net id the loop visits: captured from the object if
    one is registered under it and synchronized, left alone otherwise. *)
Lemma capture_objects_lookup b todo : ∀ object_vars i,
  NoDup todo → Forall (λ j, Z.of_nat j ≠ ObjectNetId_NONE) todo →
  capture_objects b todo object_vars !! i =
    match object_at b i with
    | Some (local, nd) =>
        if bool_decide (i ∈ todo) && realtime_sync_enabled_on_client local
        then capture_vars (vars nd) <$> object_vars !! i
        else object_vars !! i
    | None => object_vars !! i
    end.
Proof.
  induction todo as [|j todo IH]; intros object_vars i Hnodup Hids.
  { cbn. by destruct (object_at b i) as [[local nd]|]. }
  apply NoDup_cons in Hnodup as [Hj Hnodup].
  apply Forall_cons in Hids as [Hid Hids].
  assert (Hmem : i ≠ j → bool_decide (i ∈ j :: todo) = bool_decide (i ∈ todo)).
  { intros Hne. apply bool_decide_ext. rewrite elem_of_cons.
    split; [by intros [?|?]|by right]. }
  cbn [capture_objects].
  destruct (object_at b j) as [[local nd]|] eqn:Hat.
  - destruct (realtime_sync_enabled_on_client local) eqn:Hsync; cbn [negb].
    + destruct (Z.eqb_spec (Z.of_nat j) ObjectNetId_NONE) as [?|_]; [done|].
      rewrite IH by done.
      destruct (decide (i = j)) as [->|Hne].
      * rewrite Hat, Hsync, (bool_decide_false (j ∈ todo)) by done.
        rewrite bool_decide_true by apply list_elem_of_here.
        cbn [andb]. apply list_lookup_alter_eq.
      * rewrite Hmem by done. rewrite list_lookup_alter_ne by done. done.
    + rewrite IH by done.
      destruct (decide (i = j)) as [->|Hne].
      * rewrite Hat, Hsync. by rewrite !andb_false_r.
      * by rewrite Hmem.
  - rewrite IH by done.
    destruct (decide (i = j)) as [->|Hne]; [by rewrite Hat|].
    by rewrite Hmem.
Qed.

Lemma seq_below_none n :
  Z.of_nat n ≤ UINT32_MAX →
  Forall (λ j, Z.of_nat j ≠ ObjectNetId_NONE) (seq 0 n).
Proof.
  intros Hn. apply Forall_forall. intros j Hj%elem_of_seq.
  unfold ObjectNetId_NONE. lia.
Qed.

(** The entry of a synchronized object in a snapshot just captured. *)
Lemma captured_entry b p_snapshot i local nd :
  Z.of_nat (length by_net_id) ≤ UINT32_MAX →
  object_at b i = Some (local, nd) →
  realtime_sync_enabled_on_client local = true →
  ∃ entry,
    object_vars (update_client_snapshot b p_snapshot) !! i =
      Some (capture_vars (vars nd) entry).
Proof.
  intros Hsize Hat Hsync. unfold update_client_snapshot. cbn [object_vars].
  rewrite capture_objects_lookup, Hat, Hsync
    by (apply NoDup_seq || by apply seq_below_none).
  assert (Hlt : (i < length by_net_id)%nat).
  { apply object_at_Some in Hat as [Hid _]. by apply lookup_lt_Some in Hid. }
  rewrite bool_decide_true by (apply elem_of_seq; lia). cbn [andb].
  destruct (lookup_lt_is_Some_2
              (resize (length by_net_id) [] (object_vars p_snapshot))
              i) as [entry ->].
  { by rewrite length_resize. }
  by exists entry.
Qed.

Lemma alter_same {A} (f : A → A) i (l : list A) x :
  l !! i = Some x → f x = x → alter f i l = l.
Proof.
  intros Hx Hf. apply list_eq. intros j.
  destruct (decide (i = j)) as [<-|Hne].
  - by rewrite list_lookup_alter_eq, Hx; cbn; rewrite Hf.
  - by rewrite list_lookup_alter_ne.
Qed.

Lemma set_value_var (vd : VarDescriptor) :
  set_value (nv_value (var vd)) vd = vd.
Proof. by destruct vd as [? [] ? ? ?]. Qed.

Lemma set_objects_same (b : SceneSynchronizerBase) :
  set_objects (objects b) b = b.
Proof. by destruct b. Qed.

(** Applying the captured slots of an object to that object changes
    nothing and calls nothing. *)
Lemma apply_vars_captured local b calls nd :
  objects b !! local = Some nd →
  ∀ ws es v,
  drop v (vars nd) = ws → length es = length ws →
  apply_vars local (zip_with capture_var ws es) v (b, calls) =
    Some (b, calls).
Proof.
  intros Hnd. induction ws as [|w ws IH]; intros es v Hdrop Hlen; [done|].
  destruct es as [|e es]; [done|]. injection Hlen as Hlen.
  cbn [zip_with apply_vars].
  assert (Hw : vars nd !! v = Some w).
  { rewrite <- (Nat.add_0_r v), <- lookup_drop, Hdrop. done. }
  assert (Hrest : drop (S v) (vars nd) = ws).
  { by rewrite (drop_S _ w v Hw) in Hdrop; injection Hdrop. }
  assert (Hstep : apply_var local (capture_var w e) v (b, calls) =
                  Some (b, calls)).
  { unfold apply_var, capture_var. destruct (enabled w); cbn [nv_name];
      [|done].
    destruct (String.eqb (nv_name (var w)) ""); [done|].
    rewrite Hnd. cbn [mbind option_bind]. rewrite Hw. cbn [mbind option_bind].
    rewrite bool_decide_true by done.
    rewrite (alter_same _ _ _ w Hw (set_value_var w)), set_vars_same.
    by rewrite list_insert_id, set_objects_same. }
  rewrite Hstep. cbn [mbind option_bind]. by apply IH.
Qed.

Lemma apply_objects_captured objects_vars : ∀ i b calls,
  (∀ k slots local nd,
     objects_vars !! k = Some slots → object_at b (i + k) = Some (local, nd) →
     realtime_sync_enabled_on_client local = true →
     ∃ entry, slots = capture_vars (vars nd) entry) →
  apply_objects objects_vars i (b, calls) = Some (b, calls).
Proof.
  induction objects_vars as [|slots rest IH]; intros i b calls Hall; [done|].
  cbn [apply_objects fst].
  assert (Hrest : apply_objects rest (S i) (b, calls) = Some (b, calls)).
  { apply IH. intros k slots' local nd Hk Hat Hsync.
    apply (Hall (S k) slots' local nd); [done| |done].
    by replace (i + S k)%nat with (S i + k)%nat by lia. }
  destruct (object_at b i) as [[local nd]|] eqn:Hat; [|done].
  destruct (realtime_sync_enabled_on_client local) eqn:Hsync; [|done].
  cbn [negb].
  destruct (Hall 0%nat slots local nd) as [entry ->]; [done| |done|].
  { by rewrite Nat.add_0_r. }
  apply object_at_Some in Hat as [_ Hnd].
  unfold capture_vars.
  rewrite (apply_vars_captured local b calls nd Hnd (vars nd)); [done|done|].
  by rewrite length_resize.
Qed.

(** X18.  A snapshot applied to the scene it has just been captured from
    writes no variable, calls [set_variable] for none and records no change:
    what is left of [apply_snapshot] is the begin and the flush of the change
    events, and the host is handed custom data only if the snapshot the
    capture started from was marked as having some. *)
Theorem fresh_capture_applies_as_nothing b p_snapshot p_flag
    p_skip_custom_data calls :
  Z.of_nat (length by_net_id) ≤ UINT32_MAX →
  apply_snapshot (update_client_snapshot b p_snapshot) p_flag
    p_skip_custom_data (b, calls) =
  Some (change_events_flush (change_events_begin p_flag b),
        if has_custom_data p_snapshot && negb p_skip_custom_data
        then calls ++
               [SetCustomData
                  (snapshot_get_custom_data (custom_data p_snapshot))]
        else calls).
Proof.
  intros Hsize. unfold apply_snapshot. cbn [fst snd].
  rewrite apply_objects_captured; [done|].
  intros k slots local nd Hk Hat Hsync. cbn [Nat.add] in Hat.
  assert (Hat' : object_at b k = Some (local, nd)).
  { apply object_at_Some. by apply object_at_Some in Hat. }
  destruct (captured_entry b p_snapshot k local nd Hsize Hat' Hsync)
    as [entry Hentry].
  exists entry. congruence.
Qed.

(** The calls of the object loop: those of the variable loop of every
    round, each on the object as it was before the loop. *)
Lemma apply_objects_calls objects_vars : ∀ i b calls b' calls',
  one_net_id → fits objects_vars i (objects b) →
  apply_objects objects_vars i (b, calls) = Some (b', calls') →
  ∀ c, c ∈ calls' ↔
    c ∈ calls ∨
    ∃ k local nd slots,
      objects_vars !! k = Some slots ∧ targets (i + k) local = true ∧
      objects b !! local = Some nd ∧
      c ∈ writes (app_object_handle nd) slots 0 (vars nd).
Proof.
  induction objects_vars as [|slots0 rest IH];
    intros i b calls b' calls' Hone Hfits.
  { intros [= <- <-] c. split; [by left|].
    intros [?|(k & ? & ? & ? & ? & _)]; done. }
  cbn [apply_objects fst].
  assert (Hrest : fits rest (S i) (objects b)).
  { intros k slots' local nd Hk Ht Hnd.
    apply (Hfits (S k) slots' local nd); [done| |done].
    by replace (i + S k)%nat with (S i + k)%nat by lia. }
  assert (Hskip : (∀ local nd, objects b !! local = Some nd →
                     targets i local = false) →
    apply_objects rest (S i) (b, calls) = Some (b', calls') →
    ∀ c, c ∈ calls' ↔
      c ∈ calls ∨
      ∃ k local nd slots,
        (slots0 :: rest) !! k = Some slots ∧ targets (i + k) local = true ∧
        objects b !! local = Some nd ∧
        c ∈ writes (app_object_handle nd) slots 0 (vars nd)).
  { intros Hnot Hrun c. rewrite (IH _ _ _ _ _ Hone Hrest Hrun c).
    split; (intros [?|(k & local & nd & slots & Hk & Ht & Hnd & Hc)];
            [by left|right]).
    - exists (S k), local, nd, slots.
      by replace (i + S k)%nat with (S i + k)%nat by lia.
    - destruct k as [|k].
      + rewrite Nat.add_0_r, (Hnot local nd Hnd) in Ht. done.
      + exists k, local, nd, slots.
        by replace (S i + k)%nat with (i + S k)%nat by lia. }
  destruct (object_at b i) as [[l0 nd0]|] eqn:Hat.
  - apply object_at_Some in Hat as [Hid Hnd0].
    destruct (realtime_sync_enabled_on_client l0) eqn:Hsync; cbn [negb].
    + assert (Ht0 : targets i l0 = true).
      { unfold targets. by rewrite bool_decide_true, Hsync by done. }
      destruct (apply_vars_spec l0 slots0 0 b calls nd0 Hnd0)
        as (b1 & Hrun1 & Hobjs1).
      { apply (Hfits 0%nat slots0 l0 nd0); [done| |done].
        by rewrite Nat.add_0_r. }
      rewrite Hrun1. cbn [mbind option_bind]. intros Hrun c.
      assert (Hlater : ∀ k local, targets (S i + k) local = true →
                objects b1 !! local = objects b !! local).
      { intros k local [Hk%bool_decide_eq_true _]%andb_prop.
        rewrite Hobjs1. apply list_lookup_insert_ne. intros <-.
        pose proof (Hone _ _ _ Hid Hk). lia. }
      rewrite (IH _ _ _ _ _ Hone) by
        (try exact Hrun; intros k slots' local nd Hk Ht Hnd;
         rewrite (Hlater k local Ht) in Hnd;
         by apply (Hrest k slots' local nd)).
      rewrite elem_of_app. split.
      * intros [[?|Hc]|(k & local & nd & slots & Hk & Ht & Hnd & Hc)].
        -- by left.
        -- right. exists 0%nat, l0, nd0, slots0. by rewrite Nat.add_0_r.
        -- right. exists (S k), local, nd, slots.
           rewrite (Hlater k local Ht) in Hnd.
           by replace (i + S k)%nat with (S i + k)%nat by lia.
      * intros [?|(k & local & nd & slots & Hk & Ht & Hnd & Hc)];
          [by left; left|].
        destruct k as [|k]; cbn in Hk.
        -- injection Hk as ->. rewrite Nat.add_0_r in Ht.
           assert (local = l0) as ->.
           { apply andb_prop in Ht as [Hl%bool_decide_eq_true _]. congruence. }
           assert (nd = nd0) as -> by congruence. by left; right.
        -- right. exists k, local, nd, slots.
           replace (S i + k)%nat with (i + S k)%nat by lia.
           split; [done|]. split; [done|]. split; [|done].
           rewrite (Hlater k local); [done|].
           by replace (S i + k)%nat with (i + S k)%nat by lia.
    + cbn [mbind option_bind]. apply Hskip. intros local nd Hnd.
      unfold targets. case_bool_decide as Hl; [|done].
      assert (local = l0) as -> by congruence. by rewrite Hsync.
  - cbn [mbind option_bind]. apply Hskip. intros local nd Hnd.
    unfold targets. case_bool_decide as Hl; [|done].
    assert (object_at b i = Some (local, nd)) as Hsome
      by (by apply object_at_Some).
    congruence.
Qed.

Lemma flush_keeps_objects b : objects (change_events_flush b) = objects b.
Proof. unfold change_events_flush. by destruct (flush_listeners _ _ _). Qed.

(** X19.  [apply_snapshot] on a snapshot that has, for every object it
    works on, no more slots than the object has variables, with every object
    stored under one net id: the call completes; a synchronized object
    registered under net id [i] takes, in every variable for which entry [i]
    has a named slot, the value of the slot, and keeps its other variables;
    an object no round works on is unchanged. *)
Theorem snapshot_values_are_stored p_snapshot p_flag p_skip_custom_data b
    calls :
  one_net_id → fits (object_vars p_snapshot) 0 (objects b) →
  ∃ b' calls',
    apply_snapshot p_snapshot p_flag p_skip_custom_data (b, calls) =
      Some (b', calls') ∧
    ∀ local nd, objects b !! local = Some nd →
      ∃ nd', objects b' !! local = Some nd' ∧
        object_name nd' = object_name nd ∧
        app_object_handle nd' = app_object_handle nd ∧
        (∀ i slots,
           targets i local = true → object_vars p_snapshot !! i = Some slots →
           (∀ v slot, slots !! v = Some slot →
              vars nd' !! v =
                (if String.eqb (nv_name slot) "" then id
                 else set_value (nv_value slot)) <$> vars nd !! v) ∧
           (∀ v, (length slots ≤ v)%nat → vars nd' !! v = vars nd !! v)) ∧
        ((∀ i, (i < length (object_vars p_snapshot))%nat →
               targets i local = false) → nd' = nd).
Proof.
  intros Hone Hfits. unfold apply_snapshot. cbn [fst snd].
  destruct (apply_objects_spec (object_vars p_snapshot) 0
              (change_events_begin p_flag b) calls Hfits)
    as (b1 & calls1 & -> & Hall).
  cbn [mbind option_bind]. eexists _, _. split; [done|].
  intros local nd Hnd. rewrite flush_keeps_objects.
  eexists. split; [by apply Hall|]. cbn [object_name app_object_handle vars
                                          set_vars].
  split; [done|]. split; [done|]. split.
  - intros i slots Ht Hslots.
    rewrite (stored_targeted _ 0 local (vars nd) i slots Hone Hslots Ht).
    split.
    + intros v slot Hv. by apply (store_lookup slots 0 (vars nd) v slot).
    + intros v Hv. apply store_beyond. cbn. lia.
  - intros Hnone. rewrite stored_untargeted by done. apply set_vars_same.
Qed.

(** X20.  During [apply_snapshot], under the conditions of X19, the
    host's [set_variable] is called exactly for the named slots of the entries
    of synchronized objects whose value differs from the value stored for the
    variable, with the handle of the object and the name and value of the
    slot; a slot whose value is already stored makes no call. *)
Theorem set_variable_called_for_differences p_snapshot p_flag
    p_skip_custom_data b calls b' calls' :
  one_net_id → fits (object_vars p_snapshot) 0 (objects b) →
  apply_snapshot p_snapshot p_flag p_skip_custom_data (b, calls) =
    Some (b', calls') →
  ∀ handle name value,
    SetVariable handle name value ∈ calls' ↔
    SetVariable handle name value ∈ calls ∨
    ∃ i local nd slots v slot vd,
      targets i local = true ∧ objects b !! local = Some nd ∧
      object_vars p_snapshot !! i = Some slots ∧ slots !! v = Some slot ∧
      vars nd !! v = Some vd ∧
      nv_name slot ≠ ""%string ∧ nv_value (var vd) ≠ nv_value slot ∧
      handle = app_object_handle nd ∧ name = nv_name slot ∧
      value = nv_value slot.
Proof.
  intros Hone Hfits. unfold apply_snapshot. cbn [fst snd].
  destruct (apply_objects (object_vars p_snapshot) 0
              (change_events_begin p_flag b, calls)) as [[b1 calls1]|] eqn:Hrun;
    [|done].
  cbn [mbind option_bind]. intros [= <- <-] handle name value.
  pose proof (apply_objects_calls _ 0 (change_events_begin p_flag b) calls b1
                calls1 Hone Hfits Hrun (SetVariable handle name value))
    as Hcalls.
  assert (Hcustom :
    SetVariable handle name value ∈
      (if has_custom_data p_snapshot && negb p_skip_custom_data
       then calls1 ++ [SetCustomData (custom_data p_snapshot)] else calls1) ↔
    SetVariable handle name value ∈ calls1).
  { destruct (has_custom_data p_snapshot && negb p_skip_custom_data);
      [|done].
    rewrite elem_of_app, list_elem_of_singleton. split; [|by left].
    by intros [?|?]. }
  rewrite Hcustom, Hcalls. clear Hcustom Hcalls.
  split; (intros [?|Hex]; [by left|right]).
  - destruct Hex as (k & local & nd & slots & Hk & Ht & Hnd & Hc).
    apply writes_spec in Hc as (v & slot & vd & Hv & Hvd & Hname & Hdiff & Heq).
    2:{ cbn [Nat.add]. by apply (Hfits k slots local nd). }
    injection Heq as -> -> ->.
    by exists k, local, nd, slots, v, slot, vd.
  - destruct Hex as (i & local & nd & slots & v & slot & vd & Ht & Hnd & Hi &
                     Hv & Hvd & Hname & Hdiff & -> & -> & ->).
    exists i, local, nd, slots. split; [done|]. split; [done|].
    split; [done|]. apply writes_spec.
    { cbn [Nat.add]. by apply (Hfits i slots local nd). }
    by exists v, slot, vd.
Qed.

(** Whether a variable, as it was at the capture, comes back when the
    captured snapshot is applied: its object is stored under a net id and
    synchronized, and the variable is enabled and named. *)
Definition restorable (local : nat) (vd0 : VarDescriptor) : bool :=
  bool_decide (Some local ∈ by_net_id) &&
  realtime_sync_enabled_on_client local && enabled vd0 &&
  negb (String.eqb (nv_name (var vd0)) "").

(** X17.  A snapshot captured from a scene and applied later, when the
    objects still have as many variables as at the capture: [apply_snapshot]
    completes, every restorable variable is back at the value it had at the
    capture, and every other variable keeps the value it has. *)
Theorem apply_restores_captured b0 p_snapshot b p_flag p_skip_custom_data
    calls :
  one_net_id → Z.of_nat (length by_net_id) ≤ UINT32_MAX →
  Forall2 (λ nd0 nd, length (vars nd0) = length (vars nd))
    (objects b0) (objects b) →
  ∃ b' calls',
    apply_snapshot (update_client_snapshot b0 p_snapshot) p_flag
      p_skip_custom_data (b, calls) = Some (b', calls') ∧
    ∀ local nd0 nd,
      objects b0 !! local = Some nd0 → objects b !! local = Some nd →
      ∃ nd', objects b' !! local = Some nd' ∧
        object_name nd' = object_name nd ∧
        app_object_handle nd' = app_object_handle nd ∧
        ∀ v vd0 vd, vars nd0 !! v = Some vd0 → vars nd !! v = Some vd →
          vars nd' !! v =
            Some (if restorable local vd0
                  then set_value (nv_value (var vd0)) vd else vd).
Proof.
  intros Hone Hsize Hshape.
  set (s := update_client_snapshot b0 p_snapshot).
  assert (Hentry : ∀ i local nd0,
    targets i local = true → objects b0 !! local = Some nd0 →
    ∃ entry, object_vars s !! i = Some (capture_vars (vars nd0) entry)).
  { intros i local nd0 [Hid%bool_decide_eq_true Hsync]%andb_prop Hnd0.
    apply (captured_entry b0 p_snapshot i local nd0 Hsize); [|done].
    by apply object_at_Some. }
  assert (Hfits : fits (object_vars s) 0 (objects b)).
  { intros k slots local nd Hk Ht Hnd. cbn [Nat.add] in Ht.
    destruct (Forall2_lookup_r _ _ _ _ _ Hshape Hnd) as (nd0 & Hnd0 & Hlen).
    destruct (Hentry k local nd0 Ht Hnd0) as [entry Hslots].
    assert (slots = capture_vars (vars nd0) entry) as -> by congruence.
    rewrite length_capture_vars. lia. }
  unfold apply_snapshot. cbn [fst snd].
  destruct (apply_objects_spec (object_vars s) 0
              (change_events_begin p_flag b) calls Hfits)
    as (b1 & calls1 & -> & Hall).
  cbn [mbind option_bind]. eexists _, _. split; [done|].
  intros local nd0 nd Hnd0 Hnd. rewrite flush_keeps_objects.
  eexists. split; [by apply Hall|].
  cbn [object_name app_object_handle vars set_vars].
  split; [done|]. split; [done|].
  intros v vd0 vd Hvd0 Hvd. unfold restorable.
  destruct (decide (Some local ∈ by_net_id)) as [Hin|Hnotin].
  - rewrite bool_decide_true by done. cbn [andb].
    apply list_elem_of_lookup in Hin as [i Hid].
    destruct (realtime_sync_enabled_on_client local) eqn:Hsync; cbn [andb].
    + assert (Ht : targets i local = true).
      { unfold targets. by rewrite bool_decide_true, Hsync by done. }
      destruct (Hentry i local nd0 Ht Hnd0) as [entry Hslots].
      rewrite (stored_targeted _ 0 local (vars nd) i _ Hone Hslots Ht).
      assert (Hslot : ∃ e, capture_vars (vars nd0) entry !! v =
                             Some (capture_var vd0 e)).
      { unfold capture_vars. rewrite lookup_zip_with, Hvd0.
        cbn [mbind option_bind].
        destruct (lookup_lt_is_Some_2
                    (resize (length (vars nd0)) no_var entry) v) as [e ->].
        { rewrite length_resize. by apply lookup_lt_Some in Hvd0. }
        by exists e. }
      destruct Hslot as [e Hslot].
      pose proof (store_lookup _ 0 (vars nd) v _ Hslot) as Hstore.
      cbn [Nat.add] in Hstore. rewrite Hstore, Hvd. unfold capture_var.
      destruct (enabled vd0); cbn [nv_name nv_value andb negb]; [|done].
      by destruct (String.eqb (nv_name (var vd0)) "").
    + rewrite stored_untargeted; [done|]. intros k _.
      unfold targets. by rewrite Hsync, andb_false_r.
  - rewrite bool_decide_false by done. cbn [andb].
    rewrite stored_untargeted; [done|]. intros k _.
    unfold targets. rewrite bool_decide_false; [done|].
    intros Hid. apply Hnotin. by apply list_elem_of_lookup_2 in Hid.
Qed.

End Scene.

(** *** A room with a lamp and a door *)

(** The door is stored under net id 0, the lamp under net id 2; nothing
    is stored under net id 1. *)
Definition room_ids : list (option nat) := [Some 1%nat; None; Some 0%nat].

Definition all_synchronized (_ : nat) : bool := true.

Definition same_custom_data (v : variant) : variant := v.

Definition room (on : bool) (hue : Z) (open : bool) : SceneSynchronizerBase :=
  mkBase
    [mkObjectData "lamp" 20
       [mkVarDescriptor 0 (mkNameAndVar "on" (VBool on)) false true [];
        mkVarDescriptor 1 (mkNameAndVar "hue" (VInt hue)) false false []];
     mkObjectData "door" 21
       [mkVarDescriptor 0 (mkNameAndVar "open" (VBool open)) false true []]]
    [] 0 false false false false [].

(** The room at the capture, and later. *)
Definition room_then : SceneSynchronizerBase := room true 7 false.
Definition room_now : SceneSynchronizerBase := room false 9 true.

(** A snapshot as a server sends it: the door is open, the lamp keeps
    its state and its hue is 3. *)
Definition from_server : Snapshot :=
  mkSnapshot 5
    [[mkNameAndVar "open" (VBool true)]; [];
     [mkNameAndVar "" VNil; mkNameAndVar "hue" (VInt 3)]]
    false VNil.

Lemma room_one_net_id : one_net_id room_ids.
Proof.
  unfold room_ids.
  intros [|[|[|i]]] [|[|[|j]]] local Hi Hj; cbn in Hi, Hj;
    try (by destruct i); try (by destruct j); congruence.
Defined.

Lemma room_size : Z.of_nat (length room_ids) ≤ UINT32_MAX.
Proof. unfold UINT32_MAX. cbn. lia. Defined.

Lemma room_same_shape :
  Forall2 (λ nd0 nd, length (vars nd0) = length (vars nd))
    (objects room_then) (objects room_now).
Proof. repeat constructor. Defined.

Lemma from_server_fits :
  fits room_ids all_synchronized (object_vars from_server) 0
    (objects room_then).
Proof.
  intros [|[|[|k]]] slots local nd Hk Ht Hnd; cbn in Hk; try done;
    injection Hk as <-;
    apply andb_prop in Ht as [Ht%bool_decide_eq_true _]; cbn in Ht;
    try done; injection Ht as <-; cbn in Hnd; injection Hnd as <-; cbn; lia.
Defined.

Lemma apply_restores_captured_witness :
  ∃ b' calls',
    apply_snapshot room_ids all_synchronized
      (update_client_snapshot room_ids all_synchronized same_custom_data
         room_then (snapshot_of_id 4))
      NetEventFlag.SYNC_RECOVER false (room_now, []) = Some (b', calls') ∧
    ∀ local nd0 nd,
      objects room_then !! local = Some nd0 →
      objects room_now !! local = Some nd →
      ∃ nd', objects b' !! local = Some nd' ∧
        object_name nd' = object_name nd ∧
        app_object_handle nd' = app_object_handle nd ∧
        ∀ v vd0 vd, vars nd0 !! v = Some vd0 → vars nd !! v = Some vd →
          vars nd' !! v =
            Some (if restorable room_ids all_synchronized local vd0
                  then set_value (nv_value (var vd0)) vd else vd).
Proof.
  exact (apply_restores_captured room_ids all_synchronized same_custom_data
           room_then (snapshot_of_id 4) room_now NetEventFlag.SYNC_RECOVER
           false [] room_one_net_id room_size room_same_shape).
Defined.

(** In the room: the lamp is on again and the door shut, the disabled
    hue keeps its later value, and the host is told the two values that had
    changed, the door's first. *)
Lemma room_restored :
  (λ r, (objects r.1, r.2)) <$>
    apply_snapshot room_ids all_synchronized
      (update_client_snapshot room_ids all_synchronized same_custom_data
         room_then (snapshot_of_id 4))
      NetEventFlag.SYNC_RECOVER false (room_now, []) =
  Some (objects (room true 9 false),
        [SetVariable 21 "open" (VBool false);
         SetVariable 20 "on" (VBool true)]).
Proof. by vm_compute. Qed.

Lemma fresh_capture_applies_as_nothing_witness :
  apply_snapshot room_ids all_synchronized
    (update_client_snapshot room_ids all_synchronized same_custom_data
       room_now (snapshot_of_id 4))
    NetEventFlag.SYNC_RECOVER false (room_now, []) =
  Some (change_events_flush
          (change_events_begin NetEventFlag.SYNC_RECOVER room_now), []).
Proof.
  exact (fresh_capture_applies_as_nothing room_ids all_synchronized
           same_custom_data room_now (snapshot_of_id 4)
           NetEventFlag.SYNC_RECOVER false [] room_size).
Defined.

Lemma snapshot_values_are_stored_witness :
  ∃ b' calls',
    apply_snapshot room_ids all_synchronized from_server
      NetEventFlag.SYNC_RECOVER false (room_then, []) = Some (b', calls') ∧
    ∀ local nd, objects room_then !! local = Some nd →
      ∃ nd', objects b' !! local = Some nd' ∧
        object_name nd' = object_name nd ∧
        app_object_handle nd' = app_object_handle nd ∧
        (∀ i slots,
           targets room_ids all_synchronized i local = true →
           object_vars from_server !! i = Some slots →
           (∀ v slot, slots !! v = Some slot →
              vars nd' !! v =
                (if String.eqb (nv_name slot) "" then id
                 else set_value (nv_value slot)) <$> vars nd !! v) ∧
           (∀ v, (length slots ≤ v)%nat → vars nd' !! v = vars nd !! v)) ∧
        ((∀ i, (i < length (object_vars from_server))%nat →
               targets room_ids all_synchronized i local = false) →
         nd' = nd).
Proof.
  exact (snapshot_values_are_stored room_ids all_synchronized from_server
           NetEventFlag.SYNC_RECOVER false room_then [] room_one_net_id
           from_server_fits).
Defined.

Lemma set_variable_called_for_differences_witness :
  SetVariable 20 "hue" (VInt 3) ∈
    [SetVariable 21 "open" (VBool true); SetVariable 20 "hue" (VInt 3)] ↔
  SetVariable 20 "hue" (VInt 3) ∈ [] ∨
  ∃ i local nd slots v slot vd,
    targets room_ids all_synchronized i local = true ∧
    objects room_then !! local = Some nd ∧
    object_vars from_server !! i = Some slots ∧ slots !! v = Some slot ∧
    vars nd !! v = Some vd ∧
    nv_name slot ≠ ""%string ∧ nv_value (var vd) ≠ nv_value slot ∧
    20 = app_object_handle nd ∧ "hue"%string = nv_name slot ∧
    VInt 3 = nv_value slot.
Proof.
  exact (set_variable_called_for_differences room_ids all_synchronized
           from_server NetEventFlag.SYNC_RECOVER false room_then []
           (change_events_flush
              (change_events_begin NetEventFlag.SYNC_RECOVER
                 (room true 3 true)))
           [SetVariable 21 "open" (VBool true); SetVariable 20 "hue" (VInt 3)]
           room_one_net_id from_server_fits eq_refl 20 "hue"%string (VInt 3)).
Defined.

End Capture.

(** ** Deferred sync on the server: which objects are sent in a tick *)
Module DeferredSend.
Import Server.

Definition UINT16_MAX : Z := 65535.

(** One call of [rpc_handler_deferred_sync_data.rpc]: the recipient and
    the buffer before its framing, that is the epoch and, for each object
    sent, its net id and the bits collected for it. *)
Record DeferredRpc := mkDeferredRpc {
  rpc_peer : Z;
  rpc_epoch : Z;
  rpc_entries : list (Z * list bool) }.

Definition set_update_priority (p : Q) (node : DeferredNodeInfo)
    : DeferredNodeInfo :=
  mkDeferredNodeInfo (df_od node) (df_unknown node) (update_rate node) p.

Definition set_deferred_nodes (df : list DeferredNodeInfo) (g : SyncGroup)
    : SyncGroup :=
  set_nodes (realtime_sync_nodes g) df g.

Section WithHost.

(** The sum of two [real_t] values as the platform computes and rounds it;
    nothing is assumed of it. *)
Variable real_add : Q → Q → Q.
(** [SyncGroup::sort_deferred_node_by_update_priority], defined outside
    the embedded files: what it leaves in the vector. *)
Variable sort_deferred_node_by_update_priority :
  list DeferredNodeInfo → list DeferredNodeInfo.
(** [od->collect_epoch_func.is_null ()]. *)
Variable collect_epoch_func_is_null : Z → bool.
(** The call of [collect_epoch_func] of an object: the bits it writes
    into the emptied [tmp_buffer], and whether the call was [CALL_OK]. *)
Variable collect_epoch : Z → list bool * bool.
(** [scene_synchronizer->max_deferred_nodes_per_update], an [int]. *)
Variable max_deferred_nodes_per_update : Z.
(** The [epoch] of the server. *)
Variable epoch : Z.

(** The three assignments to [send] at the top of the node loop. *)
Definition sendable (node : DeferredNodeInfo) (update_node_count : Z) : bool :=
  let send0 :=
    if negb (Qle_bool 1 (update_priority node)) ||
       (max_deferred_nodes_per_update <=? update_node_count)
    then false else true in
  let send1 := if UINT16_MAX <? df_od node then false else send0 in
  if collect_epoch_func_is_null (df_od node) then false else send1.

(** One round of the node loop: the node afterwards,
    [update_node_count] and what [global_buffer] holds behind the epoch. *)
Definition process_node (node : DeferredNodeInfo) (update_node_count : Z)
    (entries : list (Z * list bool))
    : DeferredNodeInfo * Z * list (Z * list bool) :=
  if sendable node update_node_count then
    let node' := set_update_priority 0%Q node in
    let '(collected, call_ok) := collect_epoch (df_od node) in
    if negb call_ok then (node', update_node_count, entries)
    else if UINT16_MAX <? Z.of_nat (length collected)
    then (node', update_node_count, entries)
    else (node', update_node_count + 1, entries ++ [(df_od node, collected)])
  else
    (set_update_priority (real_add (update_priority node) (update_rate node))
       node,
     update_node_count, entries).

(** The node loop. *)
Fixpoint process_nodes (node_info : list DeferredNodeInfo)
    (update_node_count : Z) (entries : list (Z * list bool))
    : list DeferredNodeInfo * Z * list (Z * list bool) :=
  match node_info with
  | [] => ([], update_node_count, entries)
  | node :: rest =>
      let '(node', count1, entries1) :=
        process_node node update_node_count entries in
      let '(rest', count2, entries2) := process_nodes rest count1 entries1 in
      (node' :: rest', count2, entries2)
  end.

(** One round of the group loop of [process_deferred_sync]. *)
Definition process_group (group : SyncGroup) : SyncGroup * list DeferredRpc :=
  match peers group, deferred_sync_nodes group with
  | [], _ => (group, [])
  | _ :: _, [] => (group, [])
  | _ :: _, _ :: _ =>
      let node_info :=
        sort_deferred_node_by_update_priority (deferred_sync_nodes group) in
      let '(node_info', update_node_count, entries) :=
        process_nodes node_info 0 [] in
      (set_deferred_nodes node_info' group,
       if 0 <? update_node_count
       then (λ peer, mkDeferredRpc peer epoch entries) <$> peers group
       else [])
  end.

(** [ServerSynchronizer::process_deferred_sync]: the groups afterwards
    and the calls of the RPC, oldest first. *)
Fixpoint process_deferred_sync (sync_groups : list SyncGroup)
    : list SyncGroup * list DeferredRpc :=
  match sync_groups with
  | [] => ([], [])
  | group :: rest =>
      let '(group', rpcs) := process_group group in
      let '(rest', rpcs') := process_deferred_sync rest in
      (group' :: rest', rpcs ++ rpcs')
  end.

(** *** What one tick sends *)

(** A node after a round: the same node, with its priority back at 0 if
    the round tried to send it and raised by its update rate if not. *)
Definition stepped (count : Z) (before after : DeferredNodeInfo) : Prop :=
  after =
    set_update_priority
      (if sendable before count then 0%Q
       else real_add (update_priority before) (update_rate before)) before.

(** An entry of the buffer: an object whose priority had reached 1, whose
    net id fits 16 bits, which has a collect function, and the bits that
    function wrote, at most 65535. *)
Definition sent_entry (node_info : list DeferredNodeInfo)
    (entry : Z * list bool) : Prop :=
  ∃ node, node ∈ node_info ∧ df_od node = entry.1 ∧
    Qle_bool 1 (update_priority node) = true ∧
    df_od node ≤ UINT16_MAX ∧
    collect_epoch_func_is_null (df_od node) = false ∧
    collect_epoch (df_od node) = (entry.2, true) ∧
    Z.of_nat (length entry.2) ≤ UINT16_MAX.

Lemma sendable_true node count :
  sendable node count = true →
  Qle_bool 1 (update_priority node) = true ∧
  count < max_deferred_nodes_per_update ∧
  df_od node ≤ UINT16_MAX ∧
  collect_epoch_func_is_null (df_od node) = false.
Proof.
  unfold sendable.
  destruct (collect_epoch_func_is_null (df_od node)); [done|].
  destruct (Z.ltb_spec UINT16_MAX (df_od node)); [done|].
  destruct (Qle_bool 1 (update_priority node)); [|done].
  destruct (Z.leb_spec max_deferred_nodes_per_update count); [done|].
  intros _. repeat split; (done || lia).
Qed.

Lemma process_node_spec node count entries node' count' entries' :
  process_node node count entries = (node', count', entries') →
  stepped count node node' ∧
  (count' = count ∧ entries' = entries ∨
   count' = count + 1 ∧ count < max_deferred_nodes_per_update ∧
   ∃ entry, entries' = entries ++ [entry] ∧ sent_entry [node] entry).
Proof.
  unfold process_node, stepped.
  destruct (sendable node count) eqn:Hsend.
  - apply sendable_true in Hsend as (Hprio & Hcount & Hid & Hnull).
    destruct (collect_epoch (df_od node)) as [collected call_ok] eqn:Hcollect.
    destruct call_ok; cbn [negb].
    + destruct (Z.ltb_spec UINT16_MAX (Z.of_nat (length collected))).
      * intros [= <- <- <-]. split; [done|]. by left.
      * intros [= <- <- <-]. split; [done|]. right.
        split; [done|]. split; [done|].
        exists (df_od node, collected). split; [done|].
        exists node. cbn [fst snd].
        split; [apply list_elem_of_here|]. by rewrite Hcollect.
    + intros [= <- <- <-]. split; [done|]. by left.
  - intros [= <- <- <-]. split; [done|]. by left.
Qed.

Lemma sent_entry_mono l1 l2 entry :
  l1 ⊆ l2 → sent_entry l1 entry → sent_entry l2 entry.
Proof.
  intros Hsub (node & Hin & Hrest). exists node. split; [by apply Hsub|done].
Qed.

(** The node loop: the counter counts the entries added, never passes
    the maximum once below it, and every node is stepped. *)
Lemma process_nodes_spec node_info : ∀ count entries nodes' count' entries',
  process_nodes node_info count entries = (nodes', count', entries') →
  length nodes' = length node_info ∧
  (∀ i before after, node_info !! i = Some before → nodes' !! i = Some after →
     ∃ c, count ≤ c ≤ count + Z.of_nat i ∧ stepped c before after) ∧
  ∃ new, entries' = entries ++ new ∧
         count' = count + Z.of_nat (length new) ∧
         Forall (sent_entry node_info) new ∧
         (new ≠ [] → count' ≤ max_deferred_nodes_per_update).
Proof.
  induction node_info as [|node rest IH];
    intros count entries nodes' count' entries'; cbn [process_nodes].
  { intros [= <- <- <-]. split; [done|]. split; [by intros i ? ? ?|].
    exists []. rewrite app_nil_r. cbn. split; [done|]. split; [lia|].
    split; [done|]. done. }
  destruct (process_node node count entries) as [[node1 count1] entries1]
    eqn:Hnode.
  destruct (process_nodes rest count1 entries1) as [[rest1 count2] entries2]
    eqn:Hrest.
  intros [= <- <- <-].
  destruct (process_node_spec _ _ _ _ _ _ Hnode) as [Hstep Hcase].
  destruct (IH _ _ _ _ _ Hrest)
    as (Hlen & Hsteps & new & -> & -> & Hnew & Hbound).
  assert (Hcount1 : count ≤ count1 ≤ count + 1) by (destruct Hcase; lia).
  split; [cbn; by rewrite Hlen|]. split.
  - intros [|i] before after Hb Ha; cbn in Hb, Ha.
    + injection Hb as <-. injection Ha as <-. exists count. split; [lia|done].
    + destruct (Hsteps i before after Hb Ha) as (c & Hc & Hs).
      exists c. split; [lia|done].
  - assert (Hsub : rest ⊆ node :: rest) by (intros x; apply list_elem_of_further).
    assert (Hnew' : Forall (sent_entry (node :: rest)) new).
    { eapply Forall_impl; [exact Hnew|]. intros entry.
      by apply sent_entry_mono. }
    destruct Hcase as [[-> ->]|(-> & Hbelow & entry & -> & Hentry)].
    + exists new. split; [done|]. split; [done|]. split; [done|]. exact Hbound.
    + exists (entry :: new). rewrite <- app_assoc. cbn [app length].
      split; [done|]. split; [lia|]. split.
      * apply Forall_cons. split; [|done].
        eapply sent_entry_mono; [|exact Hentry].
        intros x ->%list_elem_of_singleton. apply list_elem_of_here.
      * intros _. destruct new as [|e new']; [cbn; lia|].
        by apply Hbound.
Qed.

Lemma process_group_peers group :
  peers (process_group group).1 = peers group ∧
  realtime_sync_nodes (process_group group).1 = realtime_sync_nodes group.
Proof.
  unfold process_group. destruct (peers group) as [|p ps] eqn:Hp; [done|].
  destruct (deferred_sync_nodes group) as [|n ns]; [done|].
  by destruct (process_nodes _ _ _) as [[? ?] ?].
Qed.

(** The calls of one round of the group loop. *)
Lemma process_group_rpcs group :
  Forall (λ rpc,
            rpc_epoch rpc = epoch ∧ rpc_peer rpc ∈ peers group ∧
            rpc_entries rpc ≠ [] ∧
            Z.of_nat (length (rpc_entries rpc)) ≤
              max_deferred_nodes_per_update ∧
            Forall (sent_entry
                      (sort_deferred_node_by_update_priority
                         (deferred_sync_nodes group)))
              (rpc_entries rpc))
    (process_group group).2 ∧
  ((process_group group).2 = [] ∨
   rpc_peer <$> (process_group group).2 = peers group).
Proof.
  unfold process_group.
  destruct (peers group) as [|p ps] eqn:Hp; [by split; [|left]|].
  destruct (deferred_sync_nodes group) as [|n ns] eqn:Hn; [by split; [|left]|].
  destruct (process_nodes _ _ _) as [[nodes' count] entries] eqn:Hrun.
  destruct (process_nodes_spec _ _ _ _ _ _ Hrun)
    as (_ & _ & new & -> & -> & Hnew & Hbound).
  cbn [snd app] in *.
  destruct (Z.ltb_spec 0 (0 + Z.of_nat (length new))) as [Hpos|_];
    [|by split; [|left]].
  assert (Hne : new ≠ []) by (intros ->; cbn in Hpos; lia).
  split.
  - apply Forall_fmap, Forall_forall. intros peer Hpeer. cbn.
    split; [done|]. split; [done|]. split; [done|].
    split; [|done]. specialize (Hbound Hne). lia.
  - right. rewrite <- list_fmap_compose. by apply list_fmap_id.
Qed.

Lemma process_deferred_sync_groups sync_groups :
  process_deferred_sync sync_groups =
    ((λ g, (process_group g).1) <$> sync_groups,
     concat ((λ g, (process_group g).2) <$> sync_groups)).
Proof.
  induction sync_groups as [|g gs IH]; [done|].
  cbn [process_deferred_sync fmap list_fmap concat]. rewrite IH.
  by destruct (process_group g).
Qed.

(** X21.  One call of [process_deferred_sync]: the peers of the groups
    are unchanged; every buffer sent carries the server's epoch, goes to a
    peer of a group, holds at least one and at most
    [max_deferred_nodes_per_update] objects, and each of them is a deferred
    object of that group whose priority had reached 1, whose net id fits 16
    bits and whose collect function is set, with the bits that function
    wrote, at most 65535. *)
Theorem deferred_sync_sends_ready_objects sync_groups :
  peers <$> (process_deferred_sync sync_groups).1 = peers <$> sync_groups ∧
  Forall (λ rpc,
            rpc_epoch rpc = epoch ∧ rpc_entries rpc ≠ [] ∧
            Z.of_nat (length (rpc_entries rpc)) ≤
              max_deferred_nodes_per_update ∧
            ∃ group, group ∈ sync_groups ∧ rpc_peer rpc ∈ peers group ∧
              Forall (sent_entry
                        (sort_deferred_node_by_update_priority
                           (deferred_sync_nodes group)))
                (rpc_entries rpc))
    (process_deferred_sync sync_groups).2.
Proof.
  rewrite process_deferred_sync_groups. cbn [fst snd]. split.
  - rewrite <- list_fmap_compose. apply list_fmap_ext. intros i g _.
    apply process_group_peers.
  - apply Forall_concat, Forall_fmap, Forall_forall. intros g Hg.
    unfold compose. eapply Forall_impl; [apply process_group_rpcs|].
    intros rpc (H1 & H2 & H3 & H4 & H5). cbn beta.
    split; [done|]. split; [done|]. split; [done|]. by exists g.
Qed.

(** Whether an object is due: its priority has reached 1, its net id
    fits 16 bits and its collect function is set. *)
Definition ready (node : DeferredNodeInfo) : bool :=
  Qle_bool 1 (update_priority node) && (df_od node <=? UINT16_MAX) &&
  negb (collect_epoch_func_is_null (df_od node)).

Lemma sendable_ready node count :
  sendable node count =
    ready node && (count <? max_deferred_nodes_per_update).
Proof.
  unfold sendable, ready.
  rewrite (Z.ltb_antisym (df_od node) UINT16_MAX).
  rewrite (Z.leb_antisym count max_deferred_nodes_per_update).
  by destruct (collect_epoch_func_is_null (df_od node)),
              (df_od node <=? UINT16_MAX),
              (Qle_bool 1 (update_priority node)),
              (count <? max_deferred_nodes_per_update).
Qed.

(** X22.  One round of [process_deferred_sync] on a group with peers and
    deferred objects leaves the objects in the order of the sort, each with
    its id, rate and "unknown" mark, and with its priority either back at 0 or
    replaced by the sum of priority and rate as the platform adds two
    [real_t] values: the sum if the object was not due, and 0 if it was due
    and stands in the sorted vector before position
    [max_deferred_nodes_per_update], whether or not its state could be
    collected. *)
Theorem deferred_priorities_step group :
  peers group ≠ [] → deferred_sync_nodes group ≠ [] →
  let node_info :=
    sort_deferred_node_by_update_priority (deferred_sync_nodes group) in
  let after_info := deferred_sync_nodes (process_group group).1 in
  length after_info = length node_info ∧
  ∀ i before after,
    node_info !! i = Some before → after_info !! i = Some after →
    df_od after = df_od before ∧ df_unknown after = df_unknown before ∧
    update_rate after = update_rate before ∧
    (update_priority after = 0%Q ∨
     update_priority after =
       real_add (update_priority before) (update_rate before)) ∧
    (ready before = false →
     update_priority after =
       real_add (update_priority before) (update_rate before)) ∧
    (ready before = true → Z.of_nat i < max_deferred_nodes_per_update →
     update_priority after = 0%Q).
Proof.
  intros Hpeers Hnodes. cbn zeta. unfold process_group.
  destruct (peers group) as [|p ps]; [done|].
  destruct (deferred_sync_nodes group) as [|n ns] eqn:Hn; [done|].
  destruct (process_nodes _ _ _) as [[nodes' count] entries] eqn:Hrun.
  destruct (process_nodes_spec _ _ _ _ _ _ Hrun) as (Hlen & Hsteps & _).
  cbn [fst deferred_sync_nodes set_deferred_nodes set_nodes].
  split; [done|]. intros i before after Hb Ha.
  destruct (Hsteps i before after Hb Ha) as (c & Hc & ->).
  rewrite sendable_ready. cbn [df_od df_unknown update_rate update_priority
                               set_update_priority].
  split; [done|]. split; [done|]. split; [done|]. split; [|split].
  - destruct (ready before && _); [by left|by right].
  - by intros ->.
  - intros -> Hi. cbn [andb].
    by destruct (Z.ltb_spec c max_deferred_nodes_per_update); [|lia].
Qed.

End WithHost.

(** *** Three objects, two of them due *)

Definition stable (l : list DeferredNodeInfo) : list DeferredNodeInfo := l.

(** Priorities added without rounding. *)
Definition exact_add (a b : Q) : Q := (a + b)%Q.

Definition always_set (_ : Z) : bool := false.

Definition two_bits (_ : Z) : list bool * bool := ([true; false], true).

Definition lobby : SyncGroup :=
  mkSyncGroup []
    [mkDeferredNodeInfo 4 false (1 # 2) (3 # 2);
     mkDeferredNodeInfo 5 false (1 # 2) (1 # 2);
     mkDeferredNodeInfo 6 false 1 2]
    [8; 9] 0 0.

Lemma deferred_priorities_step_witness :
  let node_info := stable (deferred_sync_nodes lobby) in
  let after_info :=
    deferred_sync_nodes
      (process_group exact_add stable always_set two_bits 1 7 lobby).1 in
  length after_info = length node_info ∧
  ∀ i before after,
    node_info !! i = Some before → after_info !! i = Some after →
    df_od after = df_od before ∧ df_unknown after = df_unknown before ∧
    update_rate after = update_rate before ∧
    (update_priority after = 0%Q ∨
     update_priority after =
       exact_add (update_priority before) (update_rate before)) ∧
    (ready always_set before = false →
     update_priority after =
       exact_add (update_priority before) (update_rate before)) ∧
    (ready always_set before = true → Z.of_nat i < 1 →
     update_priority after = 0%Q).
Proof.
  apply (deferred_priorities_step exact_add stable always_set two_bits 1 7
           lobby);
    discriminate.
Defined.

(** With at most one object per tick: object 4 is sent to both peers and
    starts over, object 6 is due but has to wait, and both waiting objects
    gain their rate. *)
Lemma lobby_tick :
  process_group exact_add stable always_set two_bits 1 7 lobby =
    (mkSyncGroup []
       [mkDeferredNodeInfo 4 false (1 # 2) 0;
        mkDeferredNodeInfo 5 false (1 # 2) ((1 # 2) + (1 # 2));
        mkDeferredNodeInfo 6 false 1 (2 + 1)]
       [8; 9] 0 0,
     [mkDeferredRpc 8 7 [(4, [true; false])];
      mkDeferredRpc 9 7 [(4, [true; false])]]).
Proof. reflexivity. Qed.

End DeferredSend.

(** * Who is subscribed where, over the life of a server *)

Module Membership.
Import Server.
Import Peers.

(** The calls that reach a server: those of [Server.Call], the calls about
    one peer, the forced notifications, and the steps of
    [ServerSynchronizer::process] that touch the peers or the groups. *)
Inductive ServerCall :=
| Base (c : Call)
| SetPeerNetworkingEnable (peer : Z) (enable : bool)
| ForceStateNotify (group : Z)
| ForceStateNotifyAll
| NotifyNeedFullSnapshot (sender : Z)
| UpdatePeers (controllers : list Z) (peer_dirty : bool)
| ProcessSnapshotNotificator (delta : Q)
| ProcessDeferredSync (epoch : Z).

Section Host.

Variable snapshot_body : bool → SyncGroup → list bool.
Variable is_realtime_node_list_changed : SyncGroup → bool.
Variable real_add : Q → Q → Q.
Variable sort_deferred_node_by_update_priority :
  list DeferredNodeInfo → list DeferredNodeInfo.
Variable collect_epoch_func_is_null : Z → bool.
Variable collect_epoch : Z → list bool * bool.
Variable max_deferred_nodes_per_update : Z.

(** One call; [None] is a registration or a pass of the notificator that
    aborts. *)
Definition run_server_call (c : ServerCall) (st : ServerState)
    : option ServerState :=
  match c with
  | Base c => run_call c st
  | SetPeerNetworkingEnable p e => Some (set_peer_networking_enable p e st).1
  | ForceStateNotify g => Some (force_state_notify real_add g st).1
  | ForceStateNotifyAll => Some (force_state_notify_all real_add st)
  | NotifyNeedFullSnapshot p => Some (rpc__notify_need_full_snapshot p st).1
  | UpdatePeers controllers dirty => Some (update_peers controllers dirty st).1.1
  | ProcessSnapshotNotificator delta =>
      fst <$> process_snapshot_notificator snapshot_body
                is_realtime_node_list_changed real_add delta st
  | ProcessDeferredSync epoch =>
      Some (set_sync_groups
              (DeferredSend.process_deferred_sync real_add
                 sort_deferred_node_by_update_priority
                 collect_epoch_func_is_null collect_epoch
                 max_deferred_nodes_per_update epoch (sync_groups st)).1 st)
  end.

(** The server after a sequence of calls, oldest first. *)
Fixpoint run_server_calls (calls : list ServerCall) (st : ServerState)
    : option ServerState :=
  match calls with
  | [] => Some st
  | c :: rest => st' ← run_server_call c st; run_server_calls rest st'
  end.

(** *** The peer lists and the connected peers *)

(** Peer lists [P] against the connected peers [C]: no list names a peer
    twice, no two lists name the same peer, and a named peer is connected. *)
Definition well_listed (P : list (list Z)) (C : Z → Prop) : Prop :=
  Forall (NoDup (A:=Z)) P ∧
  (∀ i j li lj p, P !! i = Some li → P !! j = Some lj →
                  p ∈ li → p ∈ lj → i = j) ∧
  (∀ i l p, P !! i = Some l → p ∈ l → C p).

(** The peer lists after [ServerSynchronizer::sync_group_move_peer_to]:
    the peer is erased from every list and pushed on the list of the target,
    if there is one. *)
Definition moved (p : Z) (target : option nat) (P : list (list Z))
    : list (list Z) :=
  imap (λ j l, if decide (target = Some j) then erase p l ++ [p]
               else erase p l) P.

Definition lists (st : ServerState) : list (list Z) :=
  peers <$> sync_groups st.

Definition connected (st : ServerState) (p : Z) : Prop :=
  is_Some (peer_data st !! p).

Lemma well_listed_weaken P (C C' : Z → Prop) :
  (∀ p, C p → C' p) → well_listed P C → well_listed P C'.
Proof.
  intros HC (H1 & H2 & H3). repeat split; [done|done|].
  intros i l p Hi Hp. apply HC. by eapply H3.
Qed.

Lemma well_listed_created P C : well_listed P C → well_listed (P ++ [[]]) C.
Proof.
  intros (H1 & H2 & H3).
  assert (Hold : ∀ i l p, (P ++ [[]]) !! i = Some l → p ∈ l → P !! i = Some l).
  { intros i l p Hi Hp. apply lookup_app_Some in Hi as [Hi|[_ Hi]]; [done|].
    apply list_lookup_singleton_Some in Hi as [_ <-].
    by apply elem_of_nil in Hp. }
  split; [|split].
  - apply Forall_app. split; [done|]. apply Forall_singleton, NoDup_nil_2.
  - intros i j li lj p Hi Hj Hpi Hpj.
    eapply H2; [by eapply Hold|by eapply Hold|done|done].
  - intros i l p Hi Hp. eapply H3; [by eapply Hold|done].
Qed.

Lemma moved_lookup p target P j l' :
  moved p target P !! j = Some l' →
  ∃ l, P !! j = Some l ∧
       l' = if decide (target = Some j) then erase p l ++ [p] else erase p l.
Proof.
  unfold moved. rewrite list_lookup_imap.
  destruct (P !! j) as [l|]; [|done]. intros [= <-]. by exists l.
Qed.

Lemma well_listed_moved P (C : Z → Prop) p target :
  C p → well_listed P C → well_listed (moved p target P) C.
Proof.
  intros Hp (H1 & H2 & H3).
  assert (Hin : ∀ j l' q, moved p target P !! j = Some l' → q ∈ l' →
    ∃ l, P !! j = Some l ∧ NoDup l ∧
         ((q = p ∧ target = Some j) ∨ (q ≠ p ∧ q ∈ l))).
  { intros j l' q Hj Hq.
    destruct (moved_lookup _ _ _ _ _ Hj) as (l & Hl & ->).
    assert (Hnd : NoDup l) by (by eapply (proj1 (Forall_lookup _ _) H1)).
    exists l. split; [done|]. split; [done|].
    assert (Herased : q ∈ erase p l → q ≠ p ∧ q ∈ l).
    { intros Hq'. split; [|by eapply erase_subseteq].
      intros ->. by eapply erase_not_elem. }
    destruct (decide (target = Some j)) as [Ht|Ht].
    - apply elem_of_app in Hq as [Hq|Hq%list_elem_of_singleton];
        [right; by apply Herased|].
      destruct (decide (q = p)) as [->|Hne]; [by left|done].
    - right. by apply Herased. }
  split; [|split].
  - apply Forall_lookup. intros j l' Hj.
    destruct (moved_lookup _ _ _ _ _ Hj) as (l & Hl & ->).
    assert (Hnd : NoDup l) by (by eapply (proj1 (Forall_lookup _ _) H1)).
    destruct (decide (target = Some j)); [|by apply NoDup_erase].
    apply NoDup_app. split; [by apply NoDup_erase|]. split.
    + intros q Hq ->%list_elem_of_singleton. by eapply erase_not_elem.
    + apply NoDup_singleton.
  - intros i j li lj q Hi Hj Hqi Hqj.
    destruct (Hin _ _ _ Hi Hqi) as (l1 & Hl1 & _ & [[-> Ht1]|[Hne1 Hq1]]);
      destruct (Hin _ _ _ Hj Hqj) as (l2 & Hl2 & _ & [[Heq Ht2]|[Hne2 Hq2]]);
      try done.
    + congruence.
    + by eapply H2.
  - intros j l' q Hj Hq.
    destruct (Hin _ _ _ Hj Hq) as (l & Hl & _ & [[-> _]|[_ Hq']]); [done|].
    by eapply H3.
Qed.

(** Erasing a peer from every list, for a peer that leaves. *)
Lemma well_listed_left P (C : Z → Prop) p :
  well_listed P C → well_listed (moved p None P) (λ q, C q ∧ q ≠ p).
Proof.
  intros (H1 & H2 & H3).
  assert (Hin : ∀ j l' q, moved p None P !! j = Some l' → q ∈ l' →
    ∃ l, P !! j = Some l ∧ q ≠ p ∧ q ∈ l).
  { intros j l' q Hj Hq.
    destruct (moved_lookup _ _ _ _ _ Hj) as (l & Hl & ->).
    rewrite decide_False in Hq by done.
    assert (Hnd : NoDup l) by (by eapply (proj1 (Forall_lookup _ _) H1)).
    exists l. split; [done|]. split; [|by eapply erase_subseteq].
    intros ->. by eapply erase_not_elem. }
  split; [|split].
  - apply Forall_lookup. intros j l' Hj.
    destruct (moved_lookup _ _ _ _ _ Hj) as (l & Hl & ->).
    rewrite decide_False by done. apply NoDup_erase.
    by eapply (proj1 (Forall_lookup _ _) H1).
  - intros i j li lj q Hi Hj Hqi Hqj.
    destruct (Hin _ _ _ Hi Hqi) as (l1 & Hl1 & _ & Hq1).
    destruct (Hin _ _ _ Hj Hqj) as (l2 & Hl2 & _ & Hq2).
    by eapply H2.
  - intros j l' q Hj Hq.
    destruct (Hin _ _ _ Hj Hq) as (l & Hl & Hne & Hq'). split; [|done].
    by eapply H3.
Qed.

(** *** What each call does to the lists *)

Lemma lists_alter f i st :
  (∀ g, peers (f g) = peers g) →
  lists (set_sync_groups (alter f i (sync_groups st)) st) = lists st.
Proof.
  intros Hf. unfold lists. cbn. apply list_eq. intros j.
  rewrite !list_lookup_fmap.
  destruct (decide (i = j)) as [<-|Hne].
  - rewrite list_lookup_alter_eq.
    destruct (sync_groups st !! i); cbn; [by rewrite Hf|done].
  - by rewrite list_lookup_alter_ne.
Qed.

Lemma lists_fmap f st :
  (∀ g, peers (f g) = peers g) →
  lists (set_sync_groups (f <$> sync_groups st) st) = lists st.
Proof.
  intros Hf. unfold lists. cbn. rewrite <- list_fmap_compose.
  apply list_fmap_ext. intros _ g _. apply Hf.
Qed.

Lemma lists_erased p st :
  lists (set_sync_groups
           ((λ g, set_peers (erase p (peers g)) g) <$> sync_groups st) st) =
  moved p None (lists st).
Proof.
  unfold lists, moved. cbn. apply list_eq. intros j.
  rewrite list_lookup_imap, !list_lookup_fmap.
  by destruct (sync_groups st !! j).
Qed.

Lemma lists_add_node od g rt st :
  lists (sync_group_add_node od g rt st).1 = lists st ∧
  peer_data (sync_group_add_node od g rt st).1 = peer_data st.
Proof.
  destruct (add_node_keeps_peers od g rt st) as (Hpd & _ & Hpeers).
  split; [|done]. unfold lists. apply list_eq. intros j.
  rewrite !list_lookup_fmap. apply Hpeers.
Qed.

Lemma connected_insert st p pd q :
  connected st p → connected st q →
  connected (set_peer_data (<[p := pd]> (peer_data st)) st) q.
Proof.
  unfold connected. cbn. intros Hp Hq.
  destruct (decide (p = q)) as [<-|Hne].
  - by rewrite lookup_insert_eq.
  - by rewrite lookup_insert_ne.
Qed.

(** [ServerSynchronizer::sync_group_move_peer_to]: the peer moves to the
    target or to no list, and no peer is forgotten. *)
Lemma server_move_lists p gid st :
  ∃ target,
    lists (server_sync_group_move_peer_to p gid st).1 =
      moved p target (lists st) ∧
    ∀ q, connected st q →
         connected (server_sync_group_move_peer_to p gid st).1 q.
Proof.
  unfold server_sync_group_move_peer_to.
  set (st1 := set_sync_groups _ st).
  assert (H1 : lists st1 = moved p None (lists st)) by apply lists_erased.
  destruct (gid =? UINT32_MAX); [by exists None|].
  destruct (negb (group_exists st1 gid)); [by exists None|].
  set (st2 := set_sync_groups _ st1).
  assert (H2 : lists st2 = moved p (Some (Z.to_nat gid)) (lists st)).
  { unfold lists, moved, st2, st1. cbn [sync_groups set_sync_groups].
    apply list_eq. intros j.
    rewrite list_lookup_imap, !list_lookup_fmap.
    destruct (decide (Z.to_nat gid = j)) as [<-|Hne].
    - rewrite list_lookup_alter_eq, list_lookup_fmap.
      destruct (sync_groups st !! Z.to_nat gid); [|done]. cbn.
      by case_decide.
    - rewrite list_lookup_alter_ne, list_lookup_fmap by done.
      destruct (sync_groups st !! j); [|done]. cbn.
      case_decide; [congruence|done]. }
  exists (Some (Z.to_nat gid)).
  destruct (peer_data st2 !! p) as [pd|] eqn:Hp; [|done].
  set (st3 := set_peer_data _ st2).
  assert (H3 : ∀ q, connected st q → connected st3 q).
  { intros q Hq. apply connected_insert; [by eexists|done]. }
  destruct (objects st3 !! controller_id pd); [|done]. cbn [fst].
  destruct (lists_add_node (Some (controller_id pd)) gid true st3)
    as [Hl Hpd].
  split; [by rewrite Hl|]. intros q Hq. unfold connected. rewrite Hpd.
  by apply H3.
Qed.

Lemma well_listed_server_move p gid st :
  connected st p → well_listed (lists st) (connected st) →
  let st' := (server_sync_group_move_peer_to p gid st).1 in
  well_listed (lists st') (connected st').
Proof.
  intros Hp Hst. cbn zeta.
  destruct (server_move_lists p gid st) as (target & -> & Hconn).
  eapply well_listed_weaken; [exact Hconn|]. by apply well_listed_moved.
Qed.

Lemma well_listed_same st st' :
  lists st' = lists st → (∀ q, connected st q → connected st' q) →
  well_listed (lists st) (connected st) →
  well_listed (lists st') (connected st').
Proof. intros -> Hconn. by apply well_listed_weaken. Qed.

Lemma well_listed_call c st st' :
  run_call c st = Some st' →
  well_listed (lists st) (connected st) →
  well_listed (lists st') (connected st').
Proof.
  intros Hrun Hst.
  destruct c as [net_id od|net_id| |od group rt|od group|group rt df|group
                |peer group|fresh peer|peer| ]; cbn [run_call] in Hrun;
    try (injection Hrun as <-).
  - unfold register_app_object, on_object_data_added in Hrun.
    destruct (sync_groups _ !! _); [|done].
    apply (well_listed_same st); [| |done].
    + destruct (controller od) as [c|];
        [destruct (get_peer_for_controller _ c)|];
        injection Hrun as <-;
        by apply (lists_alter _ _ (set_objects _ st)).
    + intros q Hq.
      destruct (controller od) as [c|]; [|by injection Hrun as <-].
      destruct (get_peer_for_controller _ c) as [pd|] eqn:Hc;
        injection Hrun as <-; [|done].
      unfold connected. cbn.
      destruct (decide (unit_authority c = q)) as [<-|Hne].
      * by rewrite lookup_insert_eq.
      * by rewrite lookup_insert_ne.
  - apply (well_listed_same st); [|done|done].
    unfold drop_object_data, on_object_data_removed. by apply (lists_fmap _ st).
  - unfold lists. cbn. rewrite fmap_app. by apply well_listed_created.
  - destruct (lists_add_node od group rt st) as [Hl Hpd].
    apply (well_listed_same st); [done| |done].
    intros q. unfold connected. by rewrite Hpd.
  - apply (well_listed_same st); [| |done].
    + unfold sync_group_remove_node. destruct od as [od|]; [|done].
      destruct (negb (group_exists st group)); [done|].
      destruct (group =? GLOBAL_SYNC_GROUP_ID); [done|]. by apply lists_alter.
    + intros q. unfold sync_group_remove_node. destruct od as [od|]; [|done].
      destruct (negb (group_exists st group)); [done|].
      by destruct (group =? GLOBAL_SYNC_GROUP_ID).
  - apply (well_listed_same st); [| |done].
    + unfold sync_group_replace_nodes.
      destruct (negb (group_exists st group)); [done|].
      destruct (group =? GLOBAL_SYNC_GROUP_ID); [done|]. by apply lists_alter.
    + intros q. unfold sync_group_replace_nodes.
      destruct (negb (group_exists st group)); [done|].
      by destruct (group =? GLOBAL_SYNC_GROUP_ID).
  - apply (well_listed_same st); [| |done].
    + unfold sync_group_remove_all_nodes.
      destruct (negb (group_exists st group)); [done|].
      destruct (group =? GLOBAL_SYNC_GROUP_ID); [done|]. by apply lists_alter.
    + intros q. unfold sync_group_remove_all_nodes.
      destruct (negb (group_exists st group)); [done|].
      by destruct (group =? GLOBAL_SYNC_GROUP_ID).
  - unfold sync_group_move_peer_to.
    destruct (peer_data st !! peer) as [pd|] eqn:Hp; [|done].
    destruct (sync_group_id pd =? group); [done|].
    assert (Hconn : connected st peer) by (by eexists).
    apply well_listed_server_move.
    + by apply connected_insert.
    + eapply well_listed_weaken; [|exact Hst].
      intros q Hq. by apply connected_insert.
  - unfold on_peer_connected.
    apply well_listed_server_move.
    + unfold connected. cbn.
      destruct (peer_data st !! peer) as [pd|] eqn:Hp; [by rewrite Hp|].
      by rewrite lookup_insert_eq.
    + eapply well_listed_weaken; [|exact Hst].
      intros q Hq. unfold connected. cbn.
      destruct (peer_data st !! peer) as [pd|] eqn:Hp; [done|].
      destruct (decide (peer = q)) as [<-|Hne].
      * by rewrite lookup_insert_eq.
      * by rewrite lookup_insert_ne.
  - unfold peer_disconnected, on_peer_disconnected.
    rewrite (lists_erased peer (set_peer_data _ st)).
    eapply well_listed_weaken; [|exact (well_listed_left _ _ peer Hst)].
    intros q [Hq Hne]. unfold connected. cbn. by rewrite lookup_delete_ne.
  - unfold lists. cbn. split; [apply Forall_nil_2|]. split.
    + intros i j li lj p Hi. by rewrite lookup_nil in Hi.
    + intros i l p Hi. by rewrite lookup_nil in Hi.
Qed.

(** The peer loop forgets no peer. *)
Lemma process_peer_connected objs g notify_state q e e' p :
  is_Some (em_peer_data e !! p) →
  process_peer snapshot_body is_realtime_node_list_changed
      objs g notify_state q e = Some e' →
  is_Some (em_peer_data e' !! p).
Proof.
  intros Hp. unfold process_peer.
  destruct (em_peer_data e !! q) as [peer|] eqn:Hq; [|by intros [= <-]].
  destruct (negb (force_notify_snapshot peer) && negb notify_state);
    [by intros [= <-]|].
  destruct (fetch_input_id objs peer) as [id|]; [|done].
  cbn [mbind option_bind].
  assert (Hkept : is_Some
            (<[q := set_snapshot_flags false false peer]> (em_peer_data e)
               !! p)).
  { destruct (decide (q = p)) as [<-|Hne].
    - by rewrite lookup_insert_eq.
    - by rewrite lookup_insert_ne. }
  destruct (need_full_snapshot peer);
    [destruct (full_snapshot_need_init e)
    |destruct (delta_snapshot_need_init e)];
    try (destruct (generate_snapshot _ _ _ _ _); [|done]);
    cbn [mbind option_bind]; by intros [= <-].
Qed.

Lemma process_peers_connected objs g notify_state todo p : ∀ e e',
  is_Some (em_peer_data e !! p) →
  process_peers snapshot_body is_realtime_node_list_changed
      objs g notify_state todo e = Some e' →
  is_Some (em_peer_data e' !! p).
Proof.
  induction todo as [|q todo IH]; intros e e' Hp; cbn [process_peers];
    [by intros [= <-]|].
  destruct (process_peer snapshot_body is_realtime_node_list_changed
      objs g notify_state q e) as [e1|]
    eqn:H1; [|done].
  cbn [mbind option_bind]. apply IH. by eapply process_peer_connected.
Qed.

Lemma process_groups_connected objs interval p_delta gs p :
  ∀ pd gs' pd' packets,
  is_Some (pd !! p) →
  process_groups snapshot_body is_realtime_node_list_changed
      real_add objs interval p_delta gs pd =
    Some (gs', pd', packets) →
  is_Some (pd' !! p).
Proof.
  induction gs as [|g gs IH]; intros pd gs' pd' packets Hp;
    cbn [process_groups]; [by intros [= <- <- <-]|].
  destruct (process_group snapshot_body is_realtime_node_list_changed
      real_add objs interval p_delta g pd)
    as [[g1 e]|] eqn:Hgroup; [|done].
  cbn [mbind option_bind].
  destruct (process_groups snapshot_body is_realtime_node_list_changed
      real_add objs interval p_delta gs
              (em_peer_data e)) as [[[rest' pd1] packets1]|] eqn:Hrest; [|done].
  cbn [mbind option_bind]. intros [= <- <- <-].
  eapply IH; [|exact Hrest].
  unfold process_group in Hgroup.
  destruct (peers g) as [|q0 qs]; [injection Hgroup as <- <-; exact Hp|].
  match type of Hgroup with
  | context [process_peers ?b ?o ?gr ?n ?t ?s] =>
      destruct (process_peers b o gr n t s) as [e1|] eqn:Hpeers; [|done]
  end.
  cbn [mbind option_bind] in Hgroup. injection Hgroup as <- <-.
  eapply process_peers_connected; [|exact Hpeers]. exact Hp.
Qed.

Lemma well_listed_server_call c st st' :
  run_server_call c st = Some st' →
  well_listed (lists st) (connected st) →
  well_listed (lists st') (connected st').
Proof.
  intros Hrun Hst.
  destruct c as [c|p e|g| |p|controllers dirty|delta|epoch];
    cbn [run_server_call] in Hrun.
  - by eapply well_listed_call.
  - injection Hrun as <-. unfold set_peer_networking_enable.
    destruct (p =? 1); [done|].
    destruct (peer_data st !! p) as [pd|] eqn:Hp; [|done].
    case_bool_decide; [done|]. cbn [fst].
    assert (Hconn : connected st p) by (by eexists).
    assert (H1 : well_listed
      (lists (set_peer_data
                (<[p := set_snapshot_flags true true (set_enabled e pd)]>
                   (peer_data st)) st))
      (connected (set_peer_data
                (<[p := set_snapshot_flags true true (set_enabled e pd)]>
                   (peer_data st)) st))).
    { eapply well_listed_weaken; [|exact Hst].
      intros q Hq. by apply connected_insert. }
    destruct e; apply well_listed_server_move;
      try (by apply connected_insert); done.
  - injection Hrun as <-. unfold force_state_notify.
    destruct (negb (group_exists st g)); [done|]. cbn [fst].
    apply (well_listed_same st); [by apply lists_alter|done|done].
  - injection Hrun as <-.
    apply (well_listed_same st); [by apply lists_fmap|done|done].
  - injection Hrun as <-. unfold rpc__notify_need_full_snapshot.
    destruct (peer_data st !! p) as [pd|] eqn:Hp; [|done]. cbn [fst].
    apply (well_listed_same st); [done| |done].
    intros q Hq. apply connected_insert; [by eexists|done].
  - injection Hrun as <-.
    destruct (update_peers_keeps controllers dirty st) as (Hgroups & _ & Hpeers).
    apply (well_listed_same st); [|exact Hpeers|done].
    unfold lists. by rewrite Hgroups.
  - destruct (process_snapshot_notificator snapshot_body
      is_realtime_node_list_changed
      real_add delta st)
      as [[st1 packets]|] eqn:Hpass; [|done].
    injection Hrun as <-.
    destruct (pass_keeps _ _ _ _ _ _ _ Hpass) as (_ & _ & Hpeers & _).
    apply (well_listed_same st); [done| |done].
    intros q Hq. unfold process_snapshot_notificator in Hpass.
    case_bool_decide; [by injection Hpass as <- _|].
    destruct (process_groups snapshot_body is_realtime_node_list_changed
      real_add (objects st)
                (server_notify_state_interval st) delta (sync_groups st)
                (peer_data st)) as [[[gs' pd1] packets1]|] eqn:Hgroups; [|done].
    cbn [mbind option_bind] in Hpass. injection Hpass as <- _.
    unfold connected. cbn. by eapply process_groups_connected.
  - injection Hrun as <-.
    apply (well_listed_same st); [|done|done].
    unfold lists. cbn. rewrite DeferredSend.process_deferred_sync_groups.
    cbn [fst]. rewrite <- list_fmap_compose. apply list_fmap_ext.
    intros _ g _. cbn. apply DeferredSend.process_group_peers.
Qed.

Lemma well_listed_reachable calls : ∀ st st',
  run_server_calls calls st = Some st' →
  well_listed (lists st) (connected st) →
  well_listed (lists st') (connected st').
Proof.
  induction calls as [|c calls IH]; intros st st'; cbn [run_server_calls];
    [by intros [= <-]|].
  destruct (run_server_call c st) as [st1|] eqn:Hc; [|done].
  cbn [mbind option_bind]. intros Hrest Hst.
  eapply IH; [exact Hrest|]. by eapply well_listed_server_call.
Qed.

(** X23.  On a server that started with the constructor's state, after
    any sequence of calls (registrations, group edits, moves, connections,
    disconnections, enabling and disabling of peers, forced notifications,
    requests of full snapshots, [update_peers], notificator passes and
    deferred syncs) during which no pass crashed: no group lists a peer
    twice, no peer is listed by two groups, and every listed peer has its
    [PeerData]. *)
Theorem subscriptions_stay_consistent interval calls st :
  run_server_calls calls (new_server interval) = Some st →
  (∀ j g, sync_groups st !! j = Some g → NoDup (peers g)) ∧
  (∀ i j gi gj p, sync_groups st !! i = Some gi → sync_groups st !! j = Some gj →
                  p ∈ peers gi → p ∈ peers gj → i = j) ∧
  (∀ j g p, sync_groups st !! j = Some g → p ∈ peers g →
            is_Some (peer_data st !! p)).
Proof.
  intros Hrun.
  assert (Hnew : well_listed (lists (new_server interval))
                   (connected (new_server interval))).
  { split; [|split].
    - apply Forall_singleton, NoDup_nil_2.
    - intros i j li lj p Hi _ Hp.
      apply list_lookup_singleton_Some in Hi as [_ <-].
      by apply elem_of_nil in Hp.
    - intros i l p Hi Hp.
      apply list_lookup_singleton_Some in Hi as [_ <-].
      by apply elem_of_nil in Hp. }
  destruct (well_listed_reachable _ _ _ Hrun Hnew) as (H1 & H2 & H3).
  assert (Hat : ∀ j g, sync_groups st !! j = Some g →
                       lists st !! j = Some (peers g)).
  { intros j g Hj. unfold lists. by rewrite list_lookup_fmap, Hj. }
  split; [|split].
  - intros j g Hj. by eapply (proj1 (Forall_lookup _ _) H1), Hat.
  - intros i j gi gj p Hi Hj Hpi Hpj.
    eapply H2; [by apply Hat|by apply Hat|done|done].
  - intros j g p Hj Hp. eapply H3; [by apply Hat|done].
Qed.

End Host.

(** *** A disabled peer and the group calls *)

Section Disabled.

Variable snapshot_body : bool → SyncGroup → list bool.
Variable is_realtime_node_list_changed : SyncGroup → bool.
Variable real_add : Q → Q → Q.

Lemma disabled_then_moved p_delta st p pd :
  p ≠ 1 → peer_data st !! p = Some pd → enabled pd = true →
  subscribed_once st → controllers_valid (objects st) (peer_data st) →
  all_ids_fit (sync_groups st) → controller_fits st p →
  let st1 := (set_peer_networking_enable p false st).1 in
  sync_group_move_peer_to p (sync_group_id pd) st1 = (st1, Done) ∧
  ∀ gid,
    sync_group_id pd ≠ gid → group_exists st gid = true → gid ≠ UINT32_MAX →
    let st2 := (sync_group_move_peer_to p gid st1).1 in
    is_peer_networking_enable p st2 = Some false ∧
    subscribed_to st2 p (Z.to_nat gid) ∧
    ∃ st3 packets pk,
      process_snapshot_notificator snapshot_body is_realtime_node_list_changed
        real_add p_delta st2 = Some (st3, packets) ∧
      to_p p packets = [pk] ∧ is_full pk = true.
Proof.
  intros Hp1 Hp Henabled Honce Hvalid Hfit Hcontroller. cbn zeta.
  set (pd1 := mkPeerData false (controller_id pd) (sync_group_id pd) true true).
  set (st0 := set_peer_data (<[p := pd1]> (peer_data st)) st).
  set (st1 := set_sync_groups
                ((λ g, set_peers (erase p (peers g)) g) <$> sync_groups st0)
                st0).
  assert (Hst1 : (set_peer_networking_enable p false st).1 = st1).
  { unfold set_peer_networking_enable. rewrite Hp.
    destruct (Z.eqb_spec p 1) as [?|_]; [done|].
    rewrite bool_decide_false by (rewrite Henabled; discriminate).
    by rewrite server_move_to_no_group. }
  rewrite Hst1.
  assert (Hp1' : peer_data st1 !! p = Some pd1) by apply lookup_insert_eq.
  assert (Honce1 : subscribed_once st1).
  { apply (subscribed_once_fmap _ st0); [|done]. intros g. apply NoDup_erase. }
  assert (Hvalid1 : controllers_valid (objects st1) (peer_data st1))
    by (by eapply controllers_valid_insert).
  split.
  { unfold sync_group_move_peer_to. rewrite Hp1'.
    cbn [sync_group_id pd1]. by rewrite Z.eqb_refl. }
  intros gid Hgroup Hex Hmax.
  set (pd2 := mkPeerData false (controller_id pd) gid true true).
  set (st2 := set_peer_data (<[p := pd2]> (peer_data st1)) st1).
  assert (Hmove : (sync_group_move_peer_to p gid st1).1 =
                  (server_sync_group_move_peer_to p gid st2).1).
  { unfold sync_group_move_peer_to. rewrite Hp1'.
    cbn [sync_group_id pd1].
    by destruct (Z.eqb_spec (sync_group_id pd) gid) as [?|_]. }
  rewrite Hmove.
  assert (Hp2 : peer_data st2 !! p = Some pd2) by apply lookup_insert_eq.
  assert (Hex2 : group_exists st2 gid = true).
  { unfold group_exists in *. cbn. by rewrite length_fmap. }
  assert (Hfit3 : all_ids_fit
            (sync_groups (server_sync_group_move_peer_to p gid st2).1)).
  { apply server_move_ids_fit.
    - cbn. by apply all_ids_fit_fmap.
    - intros pd0. rewrite Hp2. intros [= <-]. exact (Hcontroller pd Hp). }
  assert (Hsub : subscribed_to (server_sync_group_move_peer_to p gid st2).1 p
                   (Z.to_nat gid))
    by (by apply (server_move_subscribes st2 p _ pd2)).
  destruct (server_move_to_group st2 p gid pd2 Hp2 Hex2 Hmax)
    as (Hpd & Hobjs & _ & _ & _).
  set (st3 := (server_sync_group_move_peer_to p gid st2).1) in *.
  assert (Hp3 : peer_data st3 !! p = Some pd2).
  { rewrite Hpd. apply lookup_insert_eq. }
  split; [|split; [done|]].
  { unfold is_peer_networking_enable. rewrite Hp3.
    by destruct (Z.eqb_spec p 1). }
  assert (Hvalid3 : controllers_valid (objects st3) (peer_data st3)).
  { rewrite Hobjs, Hpd.
    apply (controllers_valid_insert _ _ _ pd2); [done|done|].
    by apply (controllers_valid_insert _ _ _ pd1). }
  destruct Hsub as (g & Hg & Hsub).
  destruct (pass_for_subscribed_peer snapshot_body
              is_realtime_node_list_changed real_add p_delta st3 p pd2
              (Z.to_nat gid) g Hp3 (ex_intro _ g (conj Hg Hsub)) Hg Hvalid3
              Hfit3)
    as (st4 & packets & Hrun & Hserved).
  cbn [served force_notify_snapshot pd2 orb need_full_snapshot] in Hserved.
  destruct Hserved as [(pk & Hpk & Hfull) _].
  by exists st4, packets, pk.
Qed.

(** X24.  The group calls do not look at a peer's [enabled].  With peer
    lists without duplicates, controller ids that name nothing or a
    controller and net ids that fit 16 bits (so that no [CRASH_COND] aborts
    the pass): after the networking of an enabled peer (not peer 1) was
    disabled, [sync_group_move_peer_to] to the group stored for the peer
    does nothing, so the peer stays out of it; to another, existing group
    it subscribes the peer there, and the next pass of the notificator
    completes and sends the peer a full snapshot although
    [is_peer_networking_enable] still answers false. *)
Theorem disabled_peer_moved_is_served p_delta st p pd gid :
  p ≠ 1 → peer_data st !! p = Some pd → enabled pd = true →
  subscribed_once st → controllers_valid (objects st) (peer_data st) →
  all_ids_fit (sync_groups st) → controller_fits st p →
  sync_group_id pd ≠ gid → group_exists st gid = true → gid ≠ UINT32_MAX →
  let st1 := (set_peer_networking_enable p false st).1 in
  let st2 := (sync_group_move_peer_to p gid st1).1 in
  sync_group_move_peer_to p (sync_group_id pd) st1 = (st1, Done) ∧
  is_peer_networking_enable p st2 = Some false ∧
  subscribed_to st2 p (Z.to_nat gid) ∧
  ∃ st3 packets pk,
    process_snapshot_notificator snapshot_body is_realtime_node_list_changed
      real_add p_delta st2 = Some (st3, packets) ∧
    to_p p packets = [pk] ∧ is_full pk = true.
Proof.
  intros Hp1 Hp Henabled Honce Hvalid Hfit Hcontroller Hgroup Hex Hmax.
  destruct (disabled_then_moved p_delta st p pd Hp1 Hp Henabled Honce Hvalid
              Hfit Hcontroller)
    as [Hsame Hother].
  split; [exact Hsame|]. by apply Hother.
Qed.

End Disabled.

(** *** An evening on a server *)

(** Peers 5 and 7 connect, a second group is created and peer 5 moves
    there; peer 7 is disabled and enabled again, peer 5 connects a second
    time, a peer that never connected is moved, and peer 7 leaves. *)
Definition evening : list ServerCall :=
  [Base (PeerConnected newcomer 5); Base SyncGroupCreate;
   Base (PeerConnected newcomer 7); Base (SyncGroupMovePeerTo 5 1);
   SetPeerNetworkingEnable 7 false; ProcessSnapshotNotificator (1 # 4);
   ForceStateNotifyAll; NotifyNeedFullSnapshot 5; UpdatePeers [] true;
   SetPeerNetworkingEnable 7 true; ProcessDeferredSync 1;
   Base (PeerConnected newcomer 5); Base (SyncGroupMovePeerTo 9 1);
   ProcessSnapshotNotificator 1; Base (PeerDisconnected 7)].

Definition run_evening : option ServerState :=
  run_server_calls one_bit changed_if_any exact_add DeferredSend.stable
    DeferredSend.always_set DeferredSend.two_bits 2 evening (new_server 1).

Definition closing_time : ServerState :=
  from_option id (new_server 1) run_evening.

Lemma subscriptions_stay_consistent_witness :
  run_evening = Some closing_time ∧
  (∀ j g, sync_groups closing_time !! j = Some g → NoDup (peers g)) ∧
  (∀ i j gi gj p,
     sync_groups closing_time !! i = Some gi →
     sync_groups closing_time !! j = Some gj →
     p ∈ peers gi → p ∈ peers gj → i = j) ∧
  (∀ j g p, sync_groups closing_time !! j = Some g → p ∈ peers g →
            is_Some (peer_data closing_time !! p)).
Proof.
  split; [vm_compute; reflexivity|].
  apply (subscriptions_stay_consistent one_bit changed_if_any exact_add
           DeferredSend.stable DeferredSend.always_set DeferredSend.two_bits 2
           1 evening).
  vm_compute. reflexivity.
Defined.

(** At closing time peer 5 is back in the global group, where its second
    connection put it, although its data still names group 1. *)
Example evening_lists :
  peers <$> sync_groups closing_time = [[5]; []] ∧
  sync_group_id <$> peer_data closing_time !! 5 = Some 1 ∧
  peer_data closing_time !! 7 = None.
Proof. vm_compute. done. Qed.

Lemma disabled_peer_moved_is_served_witness :
  let st1 := (set_peer_networking_enable 5 false lobby).1 in
  let st2 := (sync_group_move_peer_to 5 1 st1).1 in
  sync_group_move_peer_to 5 0 st1 = (st1, Done) ∧
  is_peer_networking_enable 5 st2 = Some false ∧
  subscribed_to st2 5 1 ∧
  ∃ st3 packets pk,
    process_snapshot_notificator one_bit changed_if_any exact_add
      (1 # 4)%Q st2 = Some (st3, packets) ∧
    to_p 5 packets = [pk] ∧ is_full pk = true.
Proof.
  refine (disabled_peer_moved_is_served one_bit changed_if_any exact_add
            (1 # 4)%Q lobby 5
            connected_peer 1 _ eq_refl eq_refl lobby_subscribed_once
            (lobby_valid lobby eq_refl) (fits lobby eq_refl) _ _ eq_refl _);
    try (cbn; unfold UINT32_MAX; lia).
  intros pd _ Hobj. by destruct Hobj as [od Hod].
Defined.

(** The lobby after peer 5 was disabled, and after it was then moved to
    group 1. *)
Definition quiet_lobby : ServerState :=
  (set_peer_networking_enable 5 false lobby).1.

Definition moved_lobby : ServerState :=
  (sync_group_move_peer_to 5 1 quiet_lobby).1.

(** The pass sends the disabled peer 5 a full snapshot, after the one for
    peer 7 in the global group. *)
Example disabled_peer_on_the_wire :
  peers <$> sync_groups quiet_lobby = [[7]; []] ∧
  peers <$> sync_groups moved_lobby = [[7]; [5]] ∧
  enabled <$> peer_data moved_lobby !! 5 = Some false ∧
  (λ r : ServerState * list Packet,
     (λ pk, (to_peer pk, is_full pk)) <$> r.2) <$>
    process_snapshot_notificator one_bit changed_if_any exact_add
      (1 # 4)%Q moved_lobby =
    Some [(7, true); (5, true)].
Proof. vm_compute. done. Qed.

End Membership.

(** * Slots and listeners over the life of a scene *)

Module Slots.
Import Registry.
Import Variables.

Definition set_skip (p_skip_rewinding : bool) (vd : VarDescriptor)
    : VarDescriptor :=
  mkVarDescriptor (vd_id vd) (var vd) p_skip_rewinding (enabled vd)
    (vd_changes_listeners vd).

(** [SceneSynchronizerBase::set_skip_rewinding]. *)
Definition set_skip_rewinding (p_id : Z) (p_variable : string)
    (p_skip_rewinding : bool) (b : SceneSynchronizerBase)
    : SceneSynchronizerBase * Report :=
  match get_object_data b p_id with
  | None => (b, ErrFail)
  | Some od =>
      let id := find_variable_id (vars od) p_variable in
      if id =? VarId_NONE then (b, ErrFail)
      else
        (set_objects
           (<[Z.to_nat p_id :=
                set_vars (alter (set_skip p_skip_rewinding) (Z.to_nat id)
                            (vars od)) od]> (objects b)) b,
         Completed)
  end.

(** The calls on the variables of a scene whose objects stay registered.
    The host's [get_variable] is part of a call, as its answers change with
    time. *)
Inductive SceneCall :=
| RegisterVariable (get_variable : Z → string → option variant)
    (p_id : Z) (p_variable : string)
| UnregisterVariable (p_id : Z) (p_variable : string)
| SetSkipRewinding (p_id : Z) (p_variable : string) (p_skip_rewinding : bool)
| TrackVariablesChanges (p_object_ids : list Z) (p_variables : list string)
    (p_flags : Z)
| UntrackVariableChanges (p_handle : nat)
| DetectAndSignalChangedVariables
    (get_variable : Z → string → option variant) (p_flags : Z).

(** *** Counting *)

(** How often a slot names the listener [h]. *)
Fixpoint occ (h : nat) (l : list nat) : nat :=
  match l with
  | [] => 0
  | x :: rest => (if (x =? h)%nat then 1 else 0) + occ h rest
  end.

(** How many of the watched pairs address slot [k] of object [i], the way
    [track_variables_changes] and [untrack_variable_changes] address it,
    [nd->vars[wv.var_id.id]]. *)
Fixpoint hits (i k : nat) (ws : list (nat * Z)) : nat :=
  match ws with
  | [] => 0
  | w :: rest =>
      (if (w.1 =? i)%nat && (Z.to_nat w.2 =? k)%nat then 1 else 0) +
      hits i k rest
  end.

Lemma occ_app h l l' : occ h (l ++ l') = (occ h l + occ h l')%nat.
Proof. induction l as [|x l IH]; cbn; [done|]. rewrite IH. lia. Qed.

Lemma occ_erase_handle h h0 l :
  occ h0 (erase_handle h l) =
    if (h0 =? h)%nat then pred (occ h l) else occ h0 l.
Proof.
  induction l as [|x l IH]; cbn [erase_handle occ]; [by destruct (h0 =? h)%nat|].
  destruct (Nat.eqb_spec x h) as [->|Hxh]; cbn [occ].
  - destruct (Nat.eqb_spec h0 h) as [->|Hh0]; [lia|].
    destruct (Nat.eqb_spec h h0); [congruence|lia].
  - rewrite IH. destruct (Nat.eqb_spec h0 h) as [->|Hh0]; [|done].
    destruct (Nat.eqb_spec x h); [done|lia].
Qed.

Lemma occ_iter_erase h h0 n l :
  occ h0 (Nat.iter n (erase_handle h) l) =
    if (h0 =? h)%nat then (occ h l - n)%nat else occ h0 l.
Proof.
  destruct (Nat.eqb_spec h0 h) as [->|Hne].
  - induction n as [|n IH]; [cbn; lia|].
    rewrite Nat.iter_succ, occ_erase_handle, Nat.eqb_refl, IH. lia.
  - induction n as [|n IH]; [done|].
    rewrite Nat.iter_succ, occ_erase_handle.
    by destruct (Nat.eqb_spec h0 h).
Qed.

Lemma occ_iter_snoc h h0 n l :
  occ h0 (Nat.iter n (λ l, l ++ [h]) l) =
    (occ h0 l + if (h0 =? h)%nat then n else 0)%nat.
Proof.
  induction n as [|n IH].
  - cbn. destruct (h0 =? h)%nat; lia.
  - rewrite Nat.iter_succ, occ_app, IH. cbn [occ].
    destruct (Nat.eqb_spec h0 h) as [->|Hne].
    + rewrite Nat.eqb_refl. lia.
    + destruct (Nat.eqb_spec h h0); [congruence|lia].
Qed.

Lemma occ_after_erase h h0 l :
  occ h l = 0%nat →
  occ h0 (after_erase h <$> l) = occ (if (h0 <? h)%nat then h0 else S h0) l.
Proof.
  induction l as [|x l IH]; cbn [occ fmap list_fmap]; [done|].
  destruct (Nat.eqb_spec x h) as [->|Hxh]; [lia|]. intros Hl.
  rewrite IH by lia. f_equal. unfold after_erase.
  destruct (Nat.ltb_spec h x), (Nat.ltb_spec h0 h);
    repeat match goal with
           | |- context [Nat.eqb ?a ?b] => destruct (Nat.eqb_spec a b)
           end; lia.
Qed.

Lemma occ_elem h l : h ∈ l → (0 < occ h l)%nat.
Proof.
  induction l as [|x l IH]; [by intros ?%elem_of_nil|].
  intros [->|Hin]%elem_of_cons; cbn [occ].
  - rewrite Nat.eqb_refl. lia.
  - specialize (IH Hin). lia.
Qed.

Lemma hits_elem i k ws :
  (0 < hits i k ws)%nat → ∃ w, w ∈ ws ∧ w.1 = i ∧ Z.to_nat w.2 = k.
Proof.
  induction ws as [|w ws IH]; cbn [hits]; [lia|].
  destruct (Nat.eqb_spec w.1 i) as [Hi|Hi];
    [destruct (Nat.eqb_spec (Z.to_nat w.2) k) as [Hk|Hk]|]; cbn [andb].
  - intros _. exists w. split; [apply list_elem_of_here|done].
  - intros H. destruct (IH H) as (w' & Hw' & Hrest).
    exists w'. split; [by apply list_elem_of_further|done].
  - intros H. destruct (IH H) as (w' & Hw' & Hrest).
    exists w'. split; [by apply list_elem_of_further|done].
Qed.

(** *** The tables of a scene *)

(** Per object and slot: the id and the name. *)
Definition frame_of (objs : list ObjectData) : list (list (Z * string)) :=
  (λ od, (λ vd, (vd_id vd, nv_name (var vd))) <$> vars od) <$> objs.

(** Per object and slot: the listeners the slot names. *)
Definition lists_of (objs : list ObjectData) : list (list (list nat)) :=
  (λ od, vd_changes_listeners <$> vars od) <$> objs.

(** Per listener: the pairs of object and variable id it watches. *)
Definition watched_of (ls : list ChangesListener) : list (list (nat * Z)) :=
  (λ l, (λ wv, (node_data wv, var_id wv)) <$> watching_vars l) <$> ls.

Definition watch_count (K : list (list (nat * Z))) (h i k : nat) : nat :=
  match K !! h with
  | Some ws => hits i k ws
  | None => 0
  end.

Definition ids_ok (F : list (list (Z * string))) : Prop :=
  ∀ i fs k x, F !! i = Some fs → fs !! k = Some x → x.1 = Z.of_nat k.

Definition names_ok (F : list (list (Z * string))) : Prop :=
  ∀ i fs, F !! i = Some fs → Z.of_nat (length fs) ≤ UINT32_MAX → NoDup fs.*2.

(** A slot names a listener no more often than the listener watches the
    slot. *)
Definition counted (L : list (list (list nat))) (K : list (list (nat * Z)))
    : Prop :=
  ∀ i ls k l h, L !! i = Some ls → ls !! k = Some l →
                (occ h l ≤ watch_count K h i k)%nat.

(** Every watched pair addresses a slot that is there. *)
Definition names_slot (F : list (list (Z * string))) (ws : list (nat * Z))
    : Prop :=
  ∀ w, w ∈ ws →
       0 ≤ w.2 ∧ ∃ fs x, F !! w.1 = Some fs ∧ fs !! Z.to_nat w.2 = Some x.

Definition linked (F : list (list (Z * string))) (L : list (list (list nat)))
    (K : list (list (nat * Z))) : Prop :=
  ids_ok F ∧ names_ok F ∧ counted L K ∧ Forall (names_slot F) K.

Definition scene_linked (b : SceneSynchronizerBase) : Prop :=
  linked (frame_of (objects b)) (lists_of (objects b))
    (watched_of (changes_listeners b)).

(** One slot's listeners changed by [f]. *)
Definition on_slots (f : list nat → list nat) (i k : nat)
    (L : list (list (list nat))) : list (list (list nat)) :=
  alter (alter f k) i L.

(** Every slot's listeners changed by [f] as often as the pairs address
    it. *)
Definition after_hits (f : list nat → list nat) (ws : list (nat * Z))
    (L : list (list (list nat))) : list (list (list nat)) :=
  imap (λ i ls, imap (λ k l, Nat.iter (hits i k ws) f l) ls) L.

(** The handles of every slot after the listener [h] was erased from
    [changes_listeners]. *)
Definition renumbered (h : nat) (L : list (list (list nat)))
    : list (list (list nat)) :=
  (λ ls : list (list nat), (λ l : list nat, after_erase h <$> l) <$> ls) <$> L.

Lemma foldl_on_slots f ws : ∀ L,
  foldl (λ L (w : nat * Z), on_slots f w.1 (Z.to_nat w.2) L) L ws =
  after_hits f ws L.
Proof.
  induction ws as [|w ws IH]; intros L; cbn [foldl].
  - unfold after_hits. apply list_eq. intros i. rewrite list_lookup_imap.
    destruct (L !! i) as [ls|]; [|done]. cbn. f_equal.
    apply list_eq. intros k. rewrite list_lookup_imap.
    by destruct (ls !! k).
  - rewrite IH. unfold after_hits, on_slots. apply list_eq. intros i.
    rewrite !list_lookup_imap, list_lookup_alter.
    destruct (decide (w.1 = i)) as [<-|Hne].
    + destruct (L !! w.1) as [ls|]; [|done]. cbn [fmap option_fmap option_map].
      f_equal. apply list_eq. intros k.
      rewrite !list_lookup_imap, list_lookup_alter.
      destruct (decide (Z.to_nat w.2 = k)) as [<-|Hk].
      * destruct (ls !! Z.to_nat w.2) as [l|]; [|done].
        cbn [fmap option_fmap option_map hits]. rewrite !Nat.eqb_refl.
        cbn [andb]. by rewrite Nat.iter_succ_r.
      * destruct (ls !! k) as [l|]; [|done].
        cbn [fmap option_fmap option_map hits]. rewrite Nat.eqb_refl.
        by destruct (Nat.eqb_spec (Z.to_nat w.2) k).
    + destruct (L !! i) as [ls|]; [|done]. cbn [fmap option_fmap option_map].
      f_equal. apply imap_ext. intros k l _. cbn [hits].
      by destruct (Nat.eqb_spec w.1 i).
Qed.

Lemma after_hits_lookup f ws L i ls' k l' :
  after_hits f ws L !! i = Some ls' → ls' !! k = Some l' →
  ∃ ls l, L !! i = Some ls ∧ ls !! k = Some l ∧
          l' = Nat.iter (hits i k ws) f l.
Proof.
  unfold after_hits. rewrite list_lookup_imap.
  destruct (L !! i) as [ls|]; [|done]. cbn [fmap option_fmap option_map].
  intros [= <-].
  rewrite list_lookup_imap. destruct (ls !! k) as [l|] eqn:Hl; [|done].
  cbn [fmap option_fmap option_map]. intros [= <-]. by exists ls, l.
Qed.

(** *** What keeps the tables linked *)

Lemma watch_count_snoc K ws h i k :
  watch_count (K ++ [ws]) h i k =
    if (h =? length K)%nat then hits i k ws else watch_count K h i k.
Proof.
  unfold watch_count. destruct (Nat.eqb_spec h (length K)) as [->|Hne].
  - by rewrite list_lookup_middle.
  - destruct (decide (h < length K)%nat) as [Hlt|Hge].
    + by rewrite lookup_app_l.
    + rewrite !lookup_ge_None_2; [done|lia|rewrite length_app; cbn; lia].
Qed.

Lemma watch_count_delete K h h0 i k :
  watch_count (delete h K) h0 i k =
    watch_count K (if (h0 <? h)%nat then h0 else S h0) i k.
Proof.
  unfold watch_count. destruct (Nat.ltb_spec h0 h).
  - by rewrite list_lookup_delete_lt.
  - by rewrite list_lookup_delete_ge.
Qed.

Lemma counted_out_of_range L K i ls k l :
  counted L K → L !! i = Some ls → ls !! k = Some l →
  occ (length K) l = 0%nat.
Proof.
  intros Hc Hi Hk. specialize (Hc i ls k l (length K) Hi Hk).
  unfold watch_count in Hc. rewrite lookup_ge_None_2 in Hc; lia.
Qed.

(** A new listener is linked to the slots it watches. *)
Lemma counted_tracked L K ws :
  counted L K →
  counted (after_hits (λ l, l ++ [length K]) ws L) (K ++ [ws]).
Proof.
  intros Hc i ls' k l' h Hi Hk.
  destruct (after_hits_lookup _ _ _ _ _ _ _ Hi Hk) as (ls & l & Hls & Hl & ->).
  rewrite occ_iter_snoc, watch_count_snoc.
  destruct (Nat.eqb_spec h (length K)) as [->|Hne].
  - rewrite (counted_out_of_range L K i ls k l); [lia|done..].
  - specialize (Hc i ls k l h Hls Hl). lia.
Qed.

(** A listener that is untracked leaves every slot, and the later
    listeners move down by one place. *)
Lemma counted_untracked L K h ws :
  counted L K → K !! h = Some ws →
  counted (renumbered h (after_hits (erase_handle h) ws L)) (delete h K).
Proof.
  intros Hc Hh i ls'' k l'' h0 Hi Hk. unfold renumbered in Hi.
  rewrite list_lookup_fmap in Hi.
  destruct (after_hits (erase_handle h) ws L !! i) as [ls'|] eqn:Hi'; [|done].
  injection Hi as <-. rewrite list_lookup_fmap in Hk.
  destruct (ls' !! k) as [l'|] eqn:Hk'; [|done]. injection Hk as <-.
  destruct (after_hits_lookup _ _ _ _ _ _ _ Hi' Hk')
    as (ls & l & Hls & Hl & ->).
  assert (Hgone : occ h (Nat.iter (hits i k ws) (erase_handle h) l) = 0%nat).
  { rewrite occ_iter_erase, Nat.eqb_refl.
    specialize (Hc i ls k l h Hls Hl). unfold watch_count in Hc.
    rewrite Hh in Hc. lia. }
  rewrite (occ_after_erase _ _ _ Hgone), watch_count_delete, occ_iter_erase.
  set (h1 := if (h0 <? h)%nat then h0 else S h0).
  assert (Hne : h1 ≠ h) by (unfold h1; destruct (Nat.ltb_spec h0 h); lia).
  destruct (Nat.eqb_spec h1 h) as [?|_]; [done|]. by eapply Hc.
Qed.

Lemma counted_on_slots f i k L K :
  (∀ l h, (occ h (f l) ≤ occ h l)%nat) →
  counted L K → counted (on_slots f i k L) K.
Proof.
  intros Hf Hc i' ls' k' l' h Hi Hk. unfold on_slots in Hi.
  rewrite list_lookup_alter in Hi.
  destruct (decide (i = i')) as [<-|Hne]; [|by eapply Hc].
  destruct (L !! i) as [ls|] eqn:Hls; [|done]. injection Hi as <-.
  rewrite list_lookup_alter in Hk.
  destruct (decide (k = k')) as [<-|Hnk]; [|by eapply Hc].
  destruct (ls !! k) as [l|] eqn:Hl; [|done]. injection Hk as <-.
  etrans; [apply Hf|]. by eapply Hc.
Qed.

Lemma counted_appended i ls L K :
  L !! i = Some ls → counted L K → counted (<[i := ls ++ [[]]]> L) K.
Proof.
  intros Hls Hc i' ls' k l h Hi Hk.
  destruct (decide (i = i')) as [<-|Hne].
  - rewrite list_lookup_insert_eq in Hi by (by eapply lookup_lt_Some).
    injection Hi as <-.
    apply lookup_app_Some in Hk as [Hk|[_ Hk]]; [by eapply Hc|].
    apply list_lookup_singleton_Some in Hk as [_ <-]. cbn. lia.
  - rewrite list_lookup_insert_ne in Hi by done. by eapply Hc.
Qed.

Lemma names_slot_appended F i fs x ws :
  F !! i = Some fs → names_slot F ws →
  names_slot (<[i := fs ++ [x]]> F) ws.
Proof.
  intros Hfs Hws w Hw. destruct (Hws w Hw) as (Hpos & fs' & y & Hfs' & Hy).
  split; [done|]. destruct (decide (i = w.1)) as [Heq|Hne].
  - exists (fs ++ [x]), y. split.
    + rewrite Heq. apply list_lookup_insert_eq. rewrite <- Heq.
      by eapply lookup_lt_Some.
    + rewrite <- Heq, Hfs in Hfs'. injection Hfs' as <-.
      by apply lookup_app_l_Some.
  - exists fs', y. by rewrite list_lookup_insert_ne.
Qed.

(** A new slot at the end of an object, under a name not found. *)
Lemma linked_appended F L K i fs ls name :
  F !! i = Some fs → L !! i = Some ls →
  (Z.of_nat (length fs) < UINT32_MAX → name ∉ fs.*2) →
  linked F L K →
  linked (<[i := fs ++ [(Z.of_nat (length fs), name)]]> F)
    (<[i := ls ++ [[]]]> L) K.
Proof.
  intros Hfs Hls Hfresh (Hids & Hnames & Hc & Hws).
  split; [|split; [|split]].
  - intros i' fs' k x Hi Hk. destruct (decide (i = i')) as [<-|Hne].
    + rewrite list_lookup_insert_eq in Hi by (by eapply lookup_lt_Some).
      injection Hi as <-.
      apply lookup_app_Some in Hk as [Hk|[Hlen Hk]]; [by eapply Hids|].
      apply list_lookup_singleton_Some in Hk as [Hk <-]. cbn. lia.
    + rewrite list_lookup_insert_ne in Hi by done. by eapply Hids.
  - intros i' fs' Hi Hlen. destruct (decide (i = i')) as [<-|Hne].
    + rewrite list_lookup_insert_eq in Hi by (by eapply lookup_lt_Some).
      injection Hi as <-. rewrite length_app in Hlen. cbn in Hlen.
      rewrite !fmap_app. cbn. apply NoDup_app. split; [|split].
      * eapply Hnames; [done|lia].
      * intros y Hy ->%list_elem_of_singleton. revert Hy. apply Hfresh. lia.
      * apply NoDup_singleton.
    + rewrite list_lookup_insert_ne in Hi by done. by eapply Hnames.
  - by apply counted_appended.
  - eapply Forall_impl; [exact Hws|]. intros ws. by apply names_slot_appended.
Qed.

(** *** The tables after each call *)

Definition frame_od (od : ObjectData) : list (Z * string) :=
  (λ vd, (vd_id vd, nv_name (var vd))) <$> vars od.

Definition lists_od (od : ObjectData) : list (list nat) :=
  vd_changes_listeners <$> vars od.

Definition key (wv : ListeningVariable) : nat * Z := (node_data wv, var_id wv).

Lemma fmap_alter_same {A B} (g : A → B) (f : A → A) i (l : list A) :
  (∀ x, g (f x) = g x) → g <$> alter f i l = g <$> l.
Proof.
  intros Hf. rewrite (list_fmap_alter g f id).
  - by apply list_alter_id.
  - apply Forall_true. intros x. apply Hf.
Qed.

Lemma insert_as_alter {A} (f : A → A) i (l : list A) x :
  l !! i = Some x → <[i := f x]> l = alter f i l.
Proof.
  intros Hi. apply list_eq. intros j. rewrite list_lookup_alter.
  destruct (decide (i = j)) as [<-|Hne].
  - rewrite list_lookup_insert_eq by (by eapply lookup_lt_Some).
    by rewrite Hi.
  - by rewrite list_lookup_insert_ne.
Qed.

Lemma frame_lookup objs i od :
  objs !! i = Some od → frame_of objs !! i = Some (frame_od od).
Proof. intros Hi. unfold frame_of. by rewrite list_lookup_fmap, Hi. Qed.

Lemma lists_lookup objs i od :
  objs !! i = Some od → lists_of objs !! i = Some (lists_od od).
Proof. intros Hi. unfold lists_of. by rewrite list_lookup_fmap, Hi. Qed.

Lemma ids_ok_positions objs i od :
  ids_ok (frame_of objs) → objs !! i = Some od → ids_are_positions (vars od).
Proof.
  intros Hids Hi k vd Hk.
  apply (Hids i (frame_od od) k (vd_id vd, nv_name (var vd)));
    [by apply frame_lookup|].
  unfold frame_od. by rewrite list_lookup_fmap, Hk.
Qed.

(** An object whose slots keep their ids, names and listeners. *)
Lemma tables_same_insert objs i od od' :
  objs !! i = Some od →
  frame_od od' = frame_od od → lists_od od' = lists_od od →
  frame_of (<[i := od']> objs) = frame_of objs ∧
  lists_of (<[i := od']> objs) = lists_of objs.
Proof.
  intros Hi Hf Hl. unfold frame_of, lists_of. rewrite !list_fmap_insert.
  fold (frame_od od') (lists_od od'). rewrite Hf, Hl.
  split; apply list_insert_id; by rewrite list_lookup_fmap, Hi.
Qed.

Lemma frame_on_slot f i k objs :
  frame_of (on_slot f i k objs) = frame_of objs.
Proof.
  unfold frame_of, on_slot. apply fmap_alter_same. intros od. cbn.
  by apply fmap_alter_same.
Qed.

Lemma lists_on_slot f i k objs :
  lists_of (on_slot f i k objs) = on_slots f i k (lists_of objs).
Proof.
  unfold lists_of, on_slot, on_slots. apply list_fmap_alter.
  apply Forall_true. intros od. cbn. apply list_fmap_alter.
  by apply Forall_true.
Qed.

Lemma frame_links h ws : ∀ objs,
  frame_of (foldl (link_listener h) objs ws) = frame_of objs.
Proof.
  induction ws as [|w ws IH]; intros objs; cbn [foldl]; [done|].
  rewrite IH. apply frame_on_slot.
Qed.

Lemma lists_links h ws objs :
  lists_of (foldl (link_listener h) objs ws) =
  after_hits (λ l, l ++ [h]) (key <$> ws) (lists_of objs).
Proof.
  rewrite <- foldl_on_slots. revert objs.
  induction ws as [|w ws IH]; intros objs; cbn [foldl fmap list_fmap]; [done|].
  rewrite IH. unfold link_listener. by rewrite lists_on_slot.
Qed.

(** For a pair with a variable id that is not negative, the guard of
    [untrack_variable_changes] only skips slots that are not there. *)
Lemma unlink_as_on_slot h objs wv :
  0 ≤ var_id wv →
  unlink_listener h objs wv =
  on_slot (erase_handle h) (node_data wv) (Z.to_nat (var_id wv)) objs.
Proof.
  intros Hpos. unfold unlink_listener, on_slot.
  destruct (objs !! node_data wv) as [od|] eqn:Hod.
  - destruct (Z.gtb_spec (Z.of_nat (length (vars od))) (var_id wv)) as [|Hge];
      [done|].
    symmetry. apply alter_fix. intros od' Hod'.
    rewrite Hod in Hod'. injection Hod' as <-.
    rewrite alter_fix; [by destruct od|].
    intros vd Hvd. apply lookup_lt_Some in Hvd. lia.
  - symmetry. apply alter_fix. intros od' Hod'. by rewrite Hod in Hod'.
Qed.

Lemma frame_unlinks h ws : ∀ objs,
  Forall (λ wv, 0 ≤ var_id wv) ws →
  frame_of (foldl (unlink_listener h) objs ws) = frame_of objs.
Proof.
  induction ws as [|w ws IH]; intros objs Hws; cbn [foldl]; [done|].
  apply Forall_cons in Hws as [Hw Hws].
  rewrite IH by done. rewrite unlink_as_on_slot by done. apply frame_on_slot.
Qed.

Lemma lists_unlinks h ws objs :
  Forall (λ wv, 0 ≤ var_id wv) ws →
  lists_of (foldl (unlink_listener h) objs ws) =
  after_hits (erase_handle h) (key <$> ws) (lists_of objs).
Proof.
  rewrite <- foldl_on_slots. revert objs.
  induction ws as [|w ws IH]; intros objs Hws; cbn [foldl fmap list_fmap];
    [done|].
  apply Forall_cons in Hws as [Hw Hws].
  rewrite IH by done. rewrite unlink_as_on_slot by done.
  by rewrite lists_on_slot.
Qed.

Lemma frame_renumber h objs :
  frame_of (renumber h <$> objs) = frame_of objs.
Proof.
  unfold frame_of. rewrite <- list_fmap_compose. apply list_fmap_ext.
  intros _ od _. cbn. rewrite <- list_fmap_compose. by apply list_fmap_ext.
Qed.

Lemma lists_renumber h objs :
  lists_of (renumber h <$> objs) = renumbered h (lists_of objs).
Proof.
  unfold lists_of, renumbered. rewrite <- !list_fmap_compose.
  apply list_fmap_ext. intros _ od _. cbn.
  rewrite <- !list_fmap_compose. by apply list_fmap_ext.
Qed.

Lemma names_slot_same_frame F F' ws :
  F' = F → names_slot F ws → names_slot F' ws.
Proof. by intros ->. Qed.

(** A name that [find_variable_id] does not find is the name of no slot,
    unless a slot has the id none. *)
Lemma find_none_fresh vs name :
  (∀ k vd, vs !! k = Some vd → vd_id vd ≠ VarId_NONE) →
  find_variable_id vs name = VarId_NONE →
  name ∉ ((λ vd, (vd_id vd, nv_name (var vd))) <$> vs).*2.
Proof.
  induction vs as [|v vs IH]; intros Hids; cbn [find_variable_id];
    [intros _ H; by apply elem_of_nil in H|].
  destruct (String.eqb_spec (nv_name (var v)) name) as [Heq|Hne].
  - intros Hv. by destruct (Hids 0%nat v).
  - intros Hfind. cbn. intros [?|Hin]%elem_of_cons; [done|].
    revert Hin. apply IH; [|done]. intros k vd Hk. by apply (Hids (S k)).
Qed.

(** *** Each call keeps the tables linked *)

Lemma register_variable_linked get_variable p_id p_variable b :
  scene_linked b →
  scene_linked (register_variable get_variable p_id p_variable b).1.
Proof.
  intros Hb. unfold register_variable.
  destruct (p_id =? ObjectLocalId_NONE); [done|].
  destruct (String.eqb p_variable ""); [done|].
  destruct (get_object_data b p_id) as [od|] eqn:Hget; [|done].
  destruct (get_object_data_Some _ _ _ Hget) as [_ Hod].
  destruct (Z.eqb_spec (find_variable_id (vars od) p_variable) VarId_NONE)
    as [Hnone|Hfound]; cbn [fst]; unfold scene_linked;
    cbn [objects changes_listeners set_objects].
  - unfold frame_of, lists_of. rewrite !list_fmap_insert. cbn [vars set_vars].
    rewrite !fmap_app. cbn [fmap list_fmap vd_id var nv_name
                              vd_changes_listeners].
    fold (frame_of (objects b)) (lists_of (objects b)) (frame_od od)
      (lists_od od).
    replace (length (vars od)) with (length (frame_od od))
      by (unfold frame_od; apply length_fmap).
    apply linked_appended;
      [by apply frame_lookup|by apply lists_lookup| |done].
    intros Hlen. apply find_none_fresh; [|done].
    intros k vd Hk.
    rewrite (ids_ok_positions _ _ _ (proj1 Hb) Hod k vd Hk).
    apply lookup_lt_Some in Hk. unfold frame_od in Hlen.
    rewrite length_fmap in Hlen. unfold VarId_NONE. lia.
  - destruct (tables_same_insert (objects b) (Z.to_nat p_id) od
                (set_vars (alter (set_enabled true)
                   (Z.to_nat (find_variable_id (vars od) p_variable))
                   (vars od)) od) Hod) as [-> ->]; [| |done];
      unfold frame_od, lists_od; cbn [vars set_vars];
      by apply fmap_alter_same.
Qed.

Lemma unregister_variable_linked p_id p_variable b :
  scene_linked b → scene_linked (unregister_variable p_id p_variable b).1.
Proof.
  intros Hb. unfold unregister_variable.
  destruct (p_id =? ObjectLocalId_NONE); [done|].
  destruct (String.eqb p_variable ""); [done|].
  destruct (get_object_data b p_id) as [od|] eqn:Hget; [|done].
  destruct (get_object_data_Some _ _ _ Hget) as [_ Hod].
  destruct (find_variable_id (vars od) p_variable =? VarId_NONE); [done|].
  cbn [fst]. unfold scene_linked. cbn [objects changes_listeners set_objects].
  set (k := Z.to_nat (find_variable_id (vars od) p_variable)).
  destruct Hb as (Hids & Hnames & Hc & Hws).
  assert (Hframe : frame_of
            (<[Z.to_nat p_id :=
                 set_vars
                   (alter (λ vd, set_vd_changes_listeners []
                                   (set_enabled false vd)) k (vars od)) od]>
               (objects b)) = frame_of (objects b)).
  { unfold frame_of. rewrite list_fmap_insert. cbn [vars set_vars].
    rewrite fmap_alter_same by done.
    apply list_insert_id. by rewrite list_lookup_fmap, Hod. }
  assert (Hlists : lists_of
            (<[Z.to_nat p_id :=
                 set_vars
                   (alter (λ vd, set_vd_changes_listeners []
                                   (set_enabled false vd)) k (vars od)) od]>
               (objects b)) =
            on_slots (λ _, []) (Z.to_nat p_id) k (lists_of (objects b))).
  { unfold lists_of, on_slots. rewrite list_fmap_insert. cbn [vars set_vars].
    rewrite (list_fmap_alter vd_changes_listeners _ (λ _, []))
      by (by apply Forall_true).
    apply (insert_as_alter (alter (λ _, []) k)).
    by rewrite list_lookup_fmap, Hod. }
  rewrite Hframe, Hlists. repeat split; try done.
  apply counted_on_slots; [|done]. intros l h. cbn. lia.
Qed.

Lemma set_skip_rewinding_linked p_id p_variable p_skip b :
  scene_linked b →
  scene_linked (set_skip_rewinding p_id p_variable p_skip b).1.
Proof.
  intros Hb. unfold set_skip_rewinding.
  destruct (get_object_data b p_id) as [od|] eqn:Hget; [|done].
  destruct (get_object_data_Some _ _ _ Hget) as [_ Hod].
  destruct (find_variable_id (vars od) p_variable =? VarId_NONE); [done|].
  cbn [fst]. unfold scene_linked. cbn [objects changes_listeners set_objects].
  destruct (tables_same_insert (objects b) (Z.to_nat p_id) od
              (set_vars (alter (set_skip p_skip)
                 (Z.to_nat (find_variable_id (vars od) p_variable))
                 (vars od)) od) Hod) as [-> ->]; [| |done];
    unfold frame_od, lists_od; cbn [vars set_vars];
    by apply fmap_alter_same.
Qed.

(** A pull changes values and what the listeners recorded, no id, name or
    link. *)
Lemma watched_of_marks ls ls' :
  (∀ j, watching_vars <$> (ls' !! j) = watching_vars <$> (ls !! j)) →
  watched_of ls' = watched_of ls.
Proof.
  intros Hsame. unfold watched_of. apply list_eq. intros j.
  rewrite !list_lookup_fmap. specialize (Hsame j).
  destruct (ls' !! j) as [l'|], (ls !! j) as [l|]; try done.
  cbn in *. injection Hsame as Hsame. by rewrite Hsame.
Qed.

Lemma pull_var_watched get_variable od_i v b :
  watched_of (changes_listeners (pull_var get_variable od_i v b)) =
  watched_of (changes_listeners b).
Proof.
  unfold pull_var.
  destruct (objects b !! od_i) as [od|]; [|done].
  destruct (vars od !! v) as [vd|]; [|done].
  destruct (negb (enabled vd)); [done|]. case_bool_decide; [done|].
  apply watched_of_marks. intros j.
  by rewrite change_event_add_keeps_marks.
Qed.

Lemma pull_node_changes_watched get_variable od_i b :
  watched_of (changes_listeners (pull_node_changes get_variable od_i b)) =
  watched_of (changes_listeners b).
Proof.
  unfold pull_node_changes. destruct (objects b !! od_i) as [od|]; [|done].
  generalize (seq 0 (length (vars od))). intros vs. revert b.
  induction vs as [|v vs IH]; intros b; cbn [foldl]; [done|].
  by rewrite IH, pull_var_watched.
Qed.

Lemma flush_listeners_watched objs : ∀ ls listener_i,
  watched_of (flush_listeners objs ls listener_i).1 = watched_of ls.
Proof.
  induction ls as [|l ls IH]; intros listener_i; cbn [flush_listeners];
    [done|].
  specialize (IH (S listener_i)).
  destruct (flush_listeners objs ls (S listener_i)) as [rest' calls].
  cbn [fst] in IH. unfold watched_of in *.
  destruct (emitted l); cbn [fst fmap list_fmap watching_vars];
    rewrite IH; [done|].
  f_equal. rewrite <- list_fmap_compose. by apply list_fmap_ext.
Qed.

Lemma pulled_tables get_variable objs :
  frame_of (pulled get_variable <$> objs) = frame_of objs ∧
  lists_of (pulled get_variable <$> objs) = lists_of objs.
Proof.
  unfold frame_of, lists_of. rewrite <- !list_fmap_compose.
  split; apply list_fmap_ext; intros _ od _; cbn;
    rewrite <- list_fmap_compose; apply list_fmap_ext; intros _ vd _; cbn;
    unfold pulled_var; by destruct (enabled vd).
Qed.

Lemma detect_objects get_variable p_flags b :
  objects (detect_and_signal_changed_variables get_variable p_flags b) =
    pulled get_variable <$> objects b.
Proof.
  unfold detect_and_signal_changed_variables.
  rewrite change_events_flush_objects.
  set (b1 := if event_flag b =? p_flags then b else _).
  assert (Hobjs : objects b1 = objects b).
  { unfold b1. by destruct (event_flag b =? p_flags). }
  rewrite pull_objects_rounds by done.
  by rewrite firstn_all, drop_all, app_nil_r, Hobjs.
Qed.

Lemma detect_watched get_variable p_flags b :
  watched_of
    (changes_listeners
       (detect_and_signal_changed_variables get_variable p_flags b)) =
  watched_of (changes_listeners b).
Proof.
  unfold detect_and_signal_changed_variables.
  set (b1 := if event_flag b =? p_flags then b else _).
  assert (H1 : changes_listeners b1 = changes_listeners b).
  { unfold b1. by destruct (event_flag b =? p_flags). }
  rewrite <- H1. generalize (seq 0 (length (objects b1))). intros ods.
  generalize b1. clear. induction ods as [|od_i ods IH]; intros b; cbn [foldl].
  - unfold change_events_flush.
    pose proof (flush_listeners_watched (objects b) (changes_listeners b) 0)
      as Hflush.
    by destruct (flush_listeners _ _ _).
  - by rewrite IH, pull_node_changes_watched.
Qed.

Lemma detect_linked get_variable p_flags b :
  scene_linked b →
  scene_linked (detect_and_signal_changed_variables get_variable p_flags b).
Proof.
  unfold scene_linked. rewrite detect_objects, detect_watched.
  by destruct (pulled_tables get_variable (objects b)) as [-> ->].
Qed.

Section Life.

(** The default member initializers of [ChangesListener::emitted] and of
    [ListeningVariable::old_set]. *)
Variable fresh_emitted : bool.
Variable fresh_old_set : bool.

Definition run_scene_call (c : SceneCall) (b : SceneSynchronizerBase)
    : SceneSynchronizerBase :=
  match c with
  | RegisterVariable get_variable p_id p_variable =>
      (register_variable get_variable p_id p_variable b).1
  | UnregisterVariable p_id p_variable =>
      (unregister_variable p_id p_variable b).1
  | SetSkipRewinding p_id p_variable p_skip_rewinding =>
      (set_skip_rewinding p_id p_variable p_skip_rewinding b).1
  | TrackVariablesChanges p_object_ids p_variables p_flags =>
      (track_variables_changes fresh_emitted fresh_old_set p_object_ids
         p_variables p_flags b).1
  | UntrackVariableChanges p_handle => untrack_variable_changes p_handle b
  | DetectAndSignalChangedVariables get_variable p_flags =>
      detect_and_signal_changed_variables get_variable p_flags b
  end.

(** The scene after a sequence of calls, oldest first. *)
Definition run_scene_calls (calls : list SceneCall)
    (b : SceneSynchronizerBase) : SceneSynchronizerBase :=
  foldl (λ b c, run_scene_call c b) b calls.

(** The pairs resolved by [track_variables_changes] address slots that are
    there. *)
Lemma resolve_watched_names b : ∀ p_object_ids p_variables ws,
  ids_ok (frame_of (objects b)) →
  resolve_watched fresh_old_set b p_object_ids p_variables = Some ws →
  names_slot (frame_of (objects b)) (key <$> ws).
Proof.
  induction p_object_ids as [|id ids IH]; intros p_variables ws Hids;
    cbn [resolve_watched].
  - intros [= <-] w Hw. by apply elem_of_nil in Hw.
  - destruct p_variables as [|name names];
      [intros [= <-] w Hw; by apply elem_of_nil in Hw|].
    destruct (get_object_data b id) as [od|] eqn:Hget; [|done].
    destruct (get_object_data_Some _ _ _ Hget) as [_ Hod].
    destruct (Z.eqb_spec (find_variable_id (vars od) name) VarId_NONE)
      as [|Hfound]; [done|].
    destruct (resolve_watched fresh_old_set b ids names) as [rest|] eqn:Hrest;
      [|done].
    cbn [fmap option_fmap option_map]. intros [= <-].
    destruct (find_variable_id_found name (vars od) 0
                (ids_ok_positions _ _ _ Hids Hod) Hfound)
      as (k & vd & Hk & Hvd & _).
    cbn [fmap list_fmap]. intros w [->|Hw]%elem_of_cons.
    + unfold key. cbn [node_data var_id fst snd]. rewrite Hk.
      split; [lia|]. exists (frame_od od), (vd_id vd, nv_name (var vd)).
      split; [by apply frame_lookup|].
      unfold frame_od. rewrite list_lookup_fmap.
      replace (Z.to_nat (Z.of_nat (0 + k))) with k by lia. by rewrite Hvd.
    + by apply (IH names rest).
Qed.

Lemma track_variables_changes_linked p_object_ids p_variables p_flags b :
  scene_linked b →
  scene_linked
    (track_variables_changes fresh_emitted fresh_old_set p_object_ids
       p_variables p_flags b).1.
Proof.
  intros Hb. unfold track_variables_changes.
  destruct (negb _); [done|].
  destruct (length p_object_ids =? 0)%nat; [done|].
  destruct (length p_variables =? 0)%nat; [done|].
  destruct (resolve_watched fresh_old_set b p_object_ids p_variables)
    as [ws|] eqn:Hws; [|done].
  cbn [fst]. unfold scene_linked. cbn [objects changes_listeners].
  destruct Hb as (Hids & Hnames & Hc & Hk).
  rewrite frame_links, lists_links.
  unfold watched_of. rewrite fmap_app. cbn [fmap list_fmap watching_vars].
  fold (watched_of (changes_listeners b)).
  replace (length (changes_listeners b))
    with (length (watched_of (changes_listeners b)))
    by (unfold watched_of; apply length_fmap).
  repeat split; try done.
  - by apply counted_tracked.
  - apply Forall_app. split; [done|]. apply Forall_singleton.
    by eapply resolve_watched_names.
Qed.

Lemma untrack_variable_changes_linked p_handle b :
  scene_linked b → scene_linked (untrack_variable_changes p_handle b).
Proof.
  intros Hb. unfold untrack_variable_changes.
  destruct (changes_listeners b !! p_handle) as [listener|] eqn:Hl; [|done].
  unfold scene_linked. cbn [objects changes_listeners].
  destruct Hb as (Hids & Hnames & Hc & Hk).
  assert (Hat : watched_of (changes_listeners b) !! p_handle =
                Some (key <$> watching_vars listener)).
  { unfold watched_of. by rewrite list_lookup_fmap, Hl. }
  assert (Hpos : Forall (λ wv, 0 ≤ var_id wv) (watching_vars listener)).
  { apply Forall_forall. intros wv Hwv.
    pose proof (proj1 (Forall_lookup _ _) Hk _ _ Hat (key wv)) as Hw.
    destruct Hw as [Hw _]; [|done].
    apply list_elem_of_fmap. by exists wv. }
  rewrite frame_renumber, lists_renumber, frame_unlinks, lists_unlinks by done.
  replace (watched_of (delete p_handle (changes_listeners b)))
    with (delete p_handle (watched_of (changes_listeners b)))
    by (unfold watched_of; by rewrite list_fmap_delete).
  repeat split; try done.
  - by apply counted_untracked.
  - apply Forall_forall. intros ws Hin.
    apply (proj1 (Forall_forall _ _) Hk).
    apply list_elem_of_lookup in Hin as [j Hj].
    apply list_elem_of_lookup.
    destruct (decide (j < p_handle)%nat).
    + exists j. by rewrite list_lookup_delete_lt in Hj.
    + exists (S j). by rewrite list_lookup_delete_ge in Hj by lia.
Qed.

Lemma scene_linked_call c b :
  scene_linked b → scene_linked (run_scene_call c b).
Proof.
  destruct c; cbn [run_scene_call].
  - apply register_variable_linked.
  - apply unregister_variable_linked.
  - apply set_skip_rewinding_linked.
  - apply track_variables_changes_linked.
  - apply untrack_variable_changes_linked.
  - apply detect_linked.
Qed.

(** A scene whose objects have no variable yet and which has no
    listener. *)
Definition bare (b : SceneSynchronizerBase) : Prop :=
  Forall (λ od, vars od = []) (objects b) ∧ changes_listeners b = [].

Lemma bare_linked b : bare b → scene_linked b.
Proof.
  intros [Hvars Hls].
  assert (Hnil : ∀ i od, objects b !! i = Some od → vars od = []).
  { intros i od Hi. by eapply (proj1 (Forall_lookup _ _) Hvars). }
  unfold scene_linked. rewrite Hls. repeat split.
  - intros i fs k x Hi Hk. unfold frame_of in Hi.
    rewrite list_lookup_fmap in Hi.
    destruct (objects b !! i) as [od|] eqn:Hod; [|done]. injection Hi as <-.
    by rewrite (Hnil _ _ Hod) in Hk.
  - intros i fs Hi _. unfold frame_of in Hi. rewrite list_lookup_fmap in Hi.
    destruct (objects b !! i) as [od|] eqn:Hod; [|done]. injection Hi as <-.
    rewrite (Hnil _ _ Hod). apply NoDup_nil_2.
  - intros i ls k l h Hi Hk. unfold lists_of in Hi.
    rewrite list_lookup_fmap in Hi.
    destruct (objects b !! i) as [od|] eqn:Hod; [|done]. injection Hi as <-.
    by rewrite (Hnil _ _ Hod) in Hk.
  - apply Forall_nil_2.
Qed.

Lemma scene_linked_reachable calls b0 :
  bare b0 → scene_linked (run_scene_calls calls b0).
Proof.
  intros Hbare. induction calls as [|c calls IH] using rev_ind.
  - by apply bare_linked.
  - unfold run_scene_calls. rewrite foldl_snoc. by apply scene_linked_call.
Qed.

(** X25.  On a scene that started with objects without variables and
    without listeners, after any sequence of [register_variable],
    [unregister_variable], [set_skip_rewinding], [track_variables_changes],
    [untrack_variable_changes] and [detect_and_signal_changed_variables]:
    in every object the id of each variable is its position in [vars], so
    that [find_variable_id] answers with the position of a slot of that
    name or with none; and as long as the object has at most [UINT32_MAX]
    variables, no two of them have the same name. *)
Theorem variable_ids_are_positions calls b0 i od :
  bare b0 → objects (run_scene_calls calls b0) !! i = Some od →
  ids_are_positions (vars od) ∧
  (Z.of_nat (length (vars od)) ≤ UINT32_MAX →
   NoDup ((λ vd, nv_name (var vd)) <$> vars od)) ∧
  ∀ name,
    find_variable_id (vars od) name = VarId_NONE ∨
    ∃ k vd, find_variable_id (vars od) name = Z.of_nat k ∧
            vars od !! k = Some vd ∧ nv_name (var vd) = name.
Proof.
  intros Hbare Hod.
  destruct (scene_linked_reachable calls b0 Hbare) as (Hids & Hnames & _ & _).
  pose proof (ids_ok_positions _ _ _ Hids Hod) as Hpos.
  split; [done|]. split.
  - intros Hlen.
    pose proof (Hnames i (frame_od od) (frame_lookup _ _ _ Hod)) as Hnd.
    unfold frame_od in Hnd. rewrite length_fmap in Hnd.
    specialize (Hnd Hlen). by rewrite <- list_fmap_compose in Hnd.
  - intros name.
    destruct (decide (find_variable_id (vars od) name = VarId_NONE))
      as [|Hfound]; [by left|right].
    destruct (find_variable_id_found name (vars od) 0 Hpos Hfound)
      as (k & vd & Hk & Hvd & Hname).
    by exists k, vd.
Qed.

(** X26.  On such a scene, after any such sequence of calls: a slot names
    only listeners that are in [changes_listeners] and that watch this very
    slot, and every pair a listener watches addresses an object and a slot
    that are there. *)
Theorem listeners_stay_linked calls b0 :
  bare b0 →
  let b := run_scene_calls calls b0 in
  (∀ i od k vd h,
     objects b !! i = Some od → vars od !! k = Some vd →
     h ∈ vd_changes_listeners vd →
     ∃ l wv, changes_listeners b !! h = Some l ∧ wv ∈ watching_vars l ∧
             node_data wv = i ∧ var_id wv = Z.of_nat k) ∧
  (∀ h l wv,
     changes_listeners b !! h = Some l → wv ∈ watching_vars l →
     ∃ od k vd, objects b !! node_data wv = Some od ∧
                var_id wv = Z.of_nat k ∧ vars od !! k = Some vd).
Proof.
  intros Hbare. cbn zeta.
  destruct (scene_linked_reachable calls b0 Hbare) as (_ & _ & Hc & Hk).
  set (b := run_scene_calls calls b0) in *.
  assert (Hwatch : ∀ h l wv,
    changes_listeners b !! h = Some l → wv ∈ watching_vars l →
    0 ≤ var_id wv ∧
    ∃ od vd, objects b !! node_data wv = Some od ∧
             vars od !! Z.to_nat (var_id wv) = Some vd).
  { intros h l wv Hl Hwv.
    assert (Hat : watched_of (changes_listeners b) !! h =
                  Some (key <$> watching_vars l)).
    { unfold watched_of. by rewrite list_lookup_fmap, Hl. }
    destruct (proj1 (Forall_lookup _ _) Hk _ _ Hat (key wv))
      as (Hpos & fs & x & Hfs & Hx).
    { apply list_elem_of_fmap. by exists wv. }
    split; [done|]. unfold frame_of in Hfs. rewrite list_lookup_fmap in Hfs.
    cbn [key fst snd] in *.
    destruct (objects b !! node_data wv) as [od|]; [|done].
    injection Hfs as <-. rewrite list_lookup_fmap in Hx.
    destruct (vars od !! Z.to_nat (var_id wv)) as [vd|] eqn:Hvd; [|done].
    by exists od, vd. }
  split.
  - intros i od k vd h Hod Hvd Hh.
    pose proof (Hc i (lists_od od) k (vd_changes_listeners vd) h
                  (lists_lookup _ _ _ Hod)) as Hle.
    unfold lists_od in Hle. rewrite list_lookup_fmap, Hvd in Hle.
    specialize (Hle eq_refl). apply occ_elem in Hh.
    unfold watch_count, watched_of in Hle. rewrite list_lookup_fmap in Hle.
    destruct (changes_listeners b !! h) as [l|] eqn:Hl; [|cbn in Hle; lia].
    cbn [fmap option_fmap option_map] in Hle.
    destruct (hits_elem i k (key <$> watching_vars l)) as (w & Hw & Hi & Hwk);
      [exact (Nat.lt_le_trans _ _ _ Hh Hle)|].
    apply list_elem_of_fmap in Hw as (wv & -> & Hwv).
    exists l, wv. cbn [key fst snd] in *.
    destruct (Hwatch h l wv Hl Hwv) as [Hpos _].
    repeat split; [done|done|lia].
  - intros h l wv Hl Hwv.
    destruct (Hwatch h l wv Hl Hwv) as (Hpos & od & vd & Hod & Hvd).
    exists od, (Z.to_nat (var_id wv)), vd. repeat split; [done|lia|done].
Qed.

End Life.

(** *** A rehearsal *)

(** Two objects without variables. *)
Definition stage : SceneSynchronizerBase :=
  mkBase [mkObjectData "player" 7 []; mkObjectData "door" 9 []] [] 0
    false false false false [].

Definition first_act (handle : Z) (name : string) : option variant :=
  Some (VInt handle).
Definition second_act (handle : Z) (name : string) : option variant :=
  Some (VInt (handle + 1)).

(** Three variables are registered; a listener watches "hp" twice and
    "open", a second one "mp"; "hp" is unregistered and registered again
    and gets a third listener; after a pull the first listener is
    untracked. *)
Definition rehearsal : list SceneCall :=
  [RegisterVariable first_act 0 "hp"; RegisterVariable first_act 0 "mp";
   RegisterVariable first_act 1 "open";
   TrackVariablesChanges [0; 0; 1] ["hp"; "hp"; "open"]%string 1;
   TrackVariablesChanges [0] ["mp"]%string 1;
   UnregisterVariable 0 "hp"; RegisterVariable second_act 0 "hp";
   TrackVariablesChanges [0] ["hp"]%string 2;
   DetectAndSignalChangedVariables second_act 1;
   UntrackVariableChanges 0; SetSkipRewinding 1 "open" true].

Definition after_rehearsal : SceneSynchronizerBase :=
  run_scene_calls false false rehearsal stage.

Definition player_after : ObjectData :=
  Eval vm_compute in
    default (mkObjectData "" 0 []) (objects after_rehearsal !! 0%nat).

Lemma stage_bare : bare stage.
Proof.
  split; [|reflexivity].
  apply Forall_cons. split; [reflexivity|].
  apply Forall_cons. split; [reflexivity|apply Forall_nil_2].
Defined.

Lemma variable_ids_are_positions_witness :
  ids_are_positions (vars player_after) ∧
  (Z.of_nat (length (vars player_after)) ≤ UINT32_MAX →
   NoDup ((λ vd, nv_name (var vd)) <$> vars player_after)) ∧
  ∀ name,
    find_variable_id (vars player_after) name = VarId_NONE ∨
    ∃ k vd, find_variable_id (vars player_after) name = Z.of_nat k ∧
            vars player_after !! k = Some vd ∧ nv_name (var vd) = name.
Proof.
  apply (variable_ids_are_positions false false rehearsal stage 0%nat
           player_after stage_bare).
  vm_compute. reflexivity.
Defined.

Lemma listeners_stay_linked_witness :
  (∀ i od k vd h,
     objects after_rehearsal !! i = Some od → vars od !! k = Some vd →
     h ∈ vd_changes_listeners vd →
     ∃ l wv, changes_listeners after_rehearsal !! h = Some l ∧
             wv ∈ watching_vars l ∧
             node_data wv = i ∧ var_id wv = Z.of_nat k) ∧
  (∀ h l wv,
     changes_listeners after_rehearsal !! h = Some l → wv ∈ watching_vars l →
     ∃ od k vd, objects after_rehearsal !! node_data wv = Some od ∧
                var_id wv = Z.of_nat k ∧ vars od !! k = Some vd).
Proof.
  exact (listeners_stay_linked false false rehearsal stage stage_bare).
Defined.

(** The tables after the rehearsal: the listeners that were second and
    third are now first and second, "hp" names the one that tracked it
    after it was registered again, and "open" names nobody. *)
Example rehearsal_tables :
  frame_of (objects after_rehearsal) =
    [[(0, "hp"); (1, "mp")]; [(0, "open")]]%string ∧
  lists_of (objects after_rehearsal) = [[[1]; [0]]; [[]]]%nat ∧
  watched_of (changes_listeners after_rehearsal) =
    [[(0%nat, 1)]; [(0%nat, 0)]].
Proof. vm_compute. done. Qed.

End Slots.

(** * Pausing and resuming the synchronization on a client *)

Module Enabling.

(** The broadcasts of [event_sync_started] and [event_sync_paused]. *)
Inductive SyncEvent := SyncStarted | SyncPaused.

(** The two flags of [ClientSynchronizer] that pause the client, with what
    the calls below leave behind: the broadcasts, the arguments of the
    [rpc_handler_set_network_enabled] calls to the server, both oldest
    first, and how often [parse_snapshot] reported "At this point the client
    is supposed to be disabled". *)
Record ClientSwitch := mkSwitch {
  enabled : bool;
  want_to_enable : bool;
  broadcasts : list SyncEvent;
  sent_to_server : list bool;
  errors : nat }.

(** The flags after the constructor: the default member initializers, then
    [clear]. *)
Definition new_client : ClientSwitch := mkSwitch true false [] [] 0.

(** [ClientSynchronizer::set_enabled]. *)
Definition client_set_enabled (p_enabled : bool) (s : ClientSwitch)
    : ClientSwitch :=
  if bool_decide (enabled s = p_enabled) then s
  else if p_enabled then
    mkSwitch (enabled s) true (broadcasts s) (sent_to_server s) (errors s)
  else
    mkSwitch false false (broadcasts s ++ [SyncPaused]) (sent_to_server s)
      (errors s).

(** [SceneSynchronizerBase::set_enabled] on a client. *)
Definition set_enabled (p_enable : bool) (s : ClientSwitch) : ClientSwitch :=
  let s1 :=
    mkSwitch (enabled s) (want_to_enable s) (broadcasts s)
      (sent_to_server s ++ [p_enable]) (errors s) in
  if negb p_enable then client_set_enabled p_enable s1 else s1.

(** [SceneSynchronizerBase::rpc_notify_peer_status] on a client. *)
Definition rpc_notify_peer_status (p_enabled : bool) (s : ClientSwitch)
    : ClientSwitch :=
  client_set_enabled p_enabled s.

(** The first statement of [ClientSynchronizer::parse_snapshot]. *)
Definition parse_snapshot_begin (s : ClientSwitch) : ClientSwitch :=
  if want_to_enable s then
    mkSwitch true false (broadcasts s ++ [SyncStarted]) (sent_to_server s)
      (if enabled s then S (errors s) else errors s)
  else s.

(** [ClientSynchronizer::clear], on the two flags: only [enabled] is
    written. *)
Definition clear (s : ClientSwitch) : ClientSwitch :=
  mkSwitch true (want_to_enable s) (broadcasts s) (sent_to_server s)
    (errors s).

Inductive SwitchCall :=
| SetEnabled (p_enable : bool)
| NotifyPeerStatus (p_enabled : bool)
| ParseSnapshot
| Clear.

Definition run_switch_call (c : SwitchCall) (s : ClientSwitch) : ClientSwitch :=
  match c with
  | SetEnabled p => set_enabled p s
  | NotifyPeerStatus p => rpc_notify_peer_status p s
  | ParseSnapshot => parse_snapshot_begin s
  | Clear => clear s
  end.

Definition run_switch_calls (calls : list SwitchCall) (s : ClientSwitch)
    : ClientSwitch :=
  foldl (λ s c, run_switch_call c s) s calls.

(** Replaying the broadcasts on a listener that starts in the state [on]:
    [None] if a pause reaches a paused listener or a start a running one. *)
Fixpoint replay (on : bool) (evs : list SyncEvent) : option bool :=
  match evs with
  | [] => Some on
  | SyncPaused :: rest => if on then replay false rest else None
  | SyncStarted :: rest => if on then None else replay true rest
  end.

Lemma replay_app on evs evs' :
  replay on (evs ++ evs') = on' ← replay on evs; replay on' evs'.
Proof.
  revert on. induction evs as [|e evs IH]; intros on; [done|].
  cbn [app replay]. destruct e, on; try done; apply IH.
Qed.

(** What the calls other than [clear] keep. *)
Definition in_step (s : ClientSwitch) : Prop :=
  replay true (broadcasts s) = Some (enabled s) ∧
  (want_to_enable s = true → enabled s = false) ∧
  errors s = 0%nat.

Lemma in_step_client_set_enabled p s :
  in_step s → in_step (client_set_enabled p s).
Proof.
  intros (Hre & Hwant & Herr). unfold client_set_enabled.
  case_bool_decide as Hp; [done|].
  destruct p; unfold in_step; cbn.
  - split; [exact Hre|]. split; [|exact Herr]. intros _.
    destruct (enabled s); [by destruct Hp|done].
  - rewrite replay_app, Hre. cbn.
    destruct (enabled s); [done|]. by destruct Hp.
Qed.

Lemma in_step_call c s :
  c ≠ Clear → in_step s → in_step (run_switch_call c s).
Proof.
  intros Hc Hs. destruct c as [p|p| |]; cbn [run_switch_call]; [| | |done].
  - unfold set_enabled. destruct p; cbn [negb].
    + exact Hs.
    + by apply in_step_client_set_enabled.
  - by apply in_step_client_set_enabled.
  - destruct Hs as (Hre & Hwant & Herr). unfold parse_snapshot_begin.
    destruct (want_to_enable s) eqn:Hw;
      [|split; [exact Hre|split; [by rewrite Hw|exact Herr]]].
    unfold in_step. cbn. rewrite replay_app, Hre. cbn.
    rewrite (Hwant eq_refl). done.
Qed.

Lemma in_step_reachable calls :
  Forall (λ c, c ≠ Clear) calls → in_step (run_switch_calls calls new_client).
Proof.
  induction calls as [|c calls IH] using rev_ind; intros Hcalls.
  { unfold in_step. cbn. split; [reflexivity|].
    split; [discriminate|reflexivity]. }
  apply Forall_app in Hcalls as [Hcalls Hc].
  rewrite Forall_singleton in Hc.
  unfold run_switch_calls. rewrite foldl_snoc.
  apply in_step_call; [exact Hc|]. by apply IH.
Qed.

(** X27.  On a client, over any sequence of [set_enabled] calls of the
    application, peer-status notifications of the server and received
    snapshots, without [clear]: the pause and start broadcasts alternate,
    beginning with a pause, and [enabled] is false exactly after a pause;
    a request to enable is never carried out at once but leaves
    [want_to_enable] set on a disabled client, and the "supposed to be
    disabled" error of [parse_snapshot] is never reported. *)
Theorem pause_and_start_alternate calls :
  Forall (λ c, c ≠ Clear) calls →
  let s := run_switch_calls calls new_client in
  replay true (broadcasts s) = Some (enabled s) ∧
  (want_to_enable s = true → enabled s = false) ∧
  errors s = 0%nat.
Proof. apply in_step_reachable. Qed.

(** A day on a client: the application pauses, asks to resume, the server
    agrees, a snapshot arrives. *)
Definition day : list SwitchCall :=
  [SetEnabled false; SetEnabled true; NotifyPeerStatus true; ParseSnapshot;
   ParseSnapshot; NotifyPeerStatus false; NotifyPeerStatus false].

Lemma day_without_clear : Forall (λ c, c ≠ Clear) day.
Proof. repeat (apply Forall_cons; split; [done|]). apply Forall_nil_2. Defined.

Lemma pause_and_start_alternate_witness :
  let s := run_switch_calls day new_client in
  replay true (broadcasts s) = Some (enabled s) ∧
  (want_to_enable s = true → enabled s = false) ∧
  errors s = 0%nat.
Proof. exact (pause_and_start_alternate day day_without_clear). Defined.

Example day_on_the_client :
  run_switch_calls day new_client =
    mkSwitch false false [SyncPaused; SyncStarted; SyncPaused] [false; true] 0.
Proof. reflexivity. Qed.

(** With [clear] between the request and the snapshot the error is
    reported; with [clear] before a second pause two pauses are broadcast
    in a row. *)
Example clear_breaks_the_step :
  errors (run_switch_calls
            [NotifyPeerStatus false; NotifyPeerStatus true; Clear;
             ParseSnapshot] new_client) = 1%nat ∧
  broadcasts (run_switch_calls
                [SetEnabled false; NotifyPeerStatus true; Clear;
                 SetEnabled false] new_client) = [SyncPaused; SyncPaused].
Proof. split; reflexivity. Qed.

End Enabling.

(** * How often a snapshot makes the client ask for a full one *)

Module Requests.
Import Parse.

(** From [p] to [p']: nothing was requested and the latch is as it was, or
    the latch was open, one request was sent and the latch is closed. *)
Definition asked_at_most_once (p p' : Parser) : Prop :=
  (full_snapshot_requests p' = full_snapshot_requests p ∧
   need_full_snapshot_notified p' = need_full_snapshot_notified p) ∨
  (need_full_snapshot_notified p = false ∧
   need_full_snapshot_notified p' = true ∧
   full_snapshot_requests p' = S (full_snapshot_requests p)).

Lemma asked_refl p p' :
  full_snapshot_requests p' = full_snapshot_requests p →
  need_full_snapshot_notified p' = need_full_snapshot_notified p →
  asked_at_most_once p p'.
Proof. intros. by left. Qed.

Lemma asked_trans p p' p'' :
  asked_at_most_once p p' → asked_at_most_once p' p'' →
  asked_at_most_once p p''.
Proof.
  intros [[H1 H2]|(H1 & H2 & H3)] [[H4 H5]|(H4 & H5 & H6)].
  - left. split; congruence.
  - right. repeat split; congruence.
  - right. repeat split; congruence.
  - congruence.
Qed.

Lemma asked_notify p :
  asked_at_most_once p (notify_server_full_snapshot_is_needed p).
Proof.
  unfold notify_server_full_snapshot_is_needed.
  destruct (need_full_snapshot_notified p) eqn:Hlatch; [by left|by right].
Qed.

Section WithHost.

Variable fetch_app_object : string → option Z.
Variable new_object_data : Z → ObjectData.

Lemma asked_parse_variables local_id slots : ∀ p,
  asked_at_most_once p (parse_variables local_id slots p).2.
Proof.
  induction slots as [|slot slots IH]; intros p; cbn [parse_variables];
    [by left|].
  destruct (read_bool (db p)) as [var_has_value d1].
  destruct (buffer_failed d1); [by left|].
  destruct var_has_value.
  - destruct (read_variant d1) as [value d2].
    destruct (buffer_failed d2); [by left|].
    eapply asked_trans; [|apply IH]. by left.
  - eapply asked_trans; [|apply IH]. by left.
Qed.

Lemma asked_resolve_unknown_object id object_name p :
  asked_at_most_once p
    (resolve_unknown_object fetch_app_object new_object_data id object_name
       p).1.
Proof.
  unfold resolve_unknown_object.
  set (named := if String.eqb object_name "" then _ else _).
  assert (Hnamed : asked_at_most_once p named.2).
  { unfold named. destruct (String.eqb object_name ""); [|by left].
    destruct (objects_names p !! id); [by left|apply asked_notify]. }
  destruct named as [name p1]. cbn [snd] in Hnamed.
  destruct (fetch_app_object name) as [handle|]; [|done].
  destruct (register_app_object new_object_data handle (objects p1))
    as [objs reg_obj_id].
  cbn [fst]. eapply asked_trans; [exact Hnamed|]. by left.
Qed.

Lemma asked_parse_object_variables sod p4 :
  asked_at_most_once p4 (parse_object_variables sod p4).2.
Proof.
  unfold parse_object_variables.
  set (p5 := match sod with Some _ => _ | None => _ end).
  assert (H5 : asked_at_most_once p4 p5).
  { unfold p5. destruct sod as [local_id|]; [|by left].
    by destruct (default false _); left. }
  destruct (read_uint8 (db p5)) as [vars_count d4].
  destruct (buffer_failed d4);
    [eapply asked_trans; [exact H5|by left]|].
  destruct sod as [local_id|].
  - pose proof (asked_parse_variables local_id
                  (default [] (vars <$> objects p5 !! local_id))
                  (set_db d4 p5)) as Hvars.
    destruct (parse_variables _ _ _) as [ok p6]. cbn [snd] in *.
    eapply asked_trans; [exact H5|].
    eapply asked_trans; [|exact Hvars]. by left.
  - cbn [snd]. eapply asked_trans; [exact H5|by left].
Qed.

Lemma asked_parse_object p :
  asked_at_most_once p
    (parse_object fetch_app_object new_object_data p).2.
Proof.
  unfold parse_object.
  destruct (read_uint (db p)) as [id d1].
  destruct (buffer_failed d1); [by left|].
  destruct (id =? ObjectNetId_NONE); [by left|].
  destruct (read_bool d1) as [has_object_name d2].
  destruct (buffer_failed d2); [by left|].
  set (named := if has_object_name then _ else _).
  destruct named as [object_name d3].
  destruct (buffer_failed d3); [by left|].
  set (p3 := set_objects_names _ _).
  assert (H3 : asked_at_most_once p p3) by (by left).
  destruct (get_object_data (objects p3) id) as [local_id|].
  - eapply asked_trans; [exact H3|apply asked_parse_object_variables].
  - pose proof (asked_resolve_unknown_object id object_name p3) as H4.
    destruct (resolve_unknown_object _ _ _ _ _) as [p4 sod]. cbn [fst] in H4.
    eapply asked_trans; [exact H3|].
    eapply asked_trans; [exact H4|apply asked_parse_object_variables].
Qed.

Lemma asked_parse_objects rounds : ∀ p ok p',
  parse_objects fetch_app_object new_object_data rounds p = Some (ok, p') →
  asked_at_most_once p p'.
Proof.
  induction rounds as [|n IH]; intros p ok p'; cbn [parse_objects]; [done|].
  pose proof (asked_parse_object p) as Hobject.
  destruct (parse_object fetch_app_object new_object_data p) as [[] p1];
    cbn [snd] in Hobject.
  - intros Hrest. eapply asked_trans; [exact Hobject|by eapply IH].
  - by intros [= <- <-].
  - by intros [= <- <-].
Qed.

Lemma asked_parse_sync_data p ok p' :
  parse_sync_data fetch_app_object new_object_data p = Some (ok, p') →
  asked_at_most_once p p'.
Proof.
  unfold parse_sync_data.
  destruct (pending (db p)) as [|t ts] eqn:Hpending;
    [intros [= <- <-]; by left|].
  destruct (read_uint (db p)) as [input_id d1].
  destruct (buffer_failed d1); [intros [= <- <-]; by left|].
  destruct (read_bool d1) as [has_active_list_array d2].
  destruct (buffer_failed d2); [intros [= <- <-]; by left|].
  set (p1 := add_event _ _).
  assert (H1 : asked_at_most_once p p1) by (by left).
  destruct (if has_active_list_array then _ else _)
    as [[[ok3 d3] active_objects]|]; [|done].
  cbn [mbind option_bind].
  destruct (negb ok3); [intros [= <- <-]; by left|].
  destruct (read_bool d3) as [has_custom_data d4].
  set (p4 := if has_custom_data then _ else _).
  assert (H4 : asked_at_most_once p p4).
  { unfold p4. destruct has_custom_data; [|by left].
    by destruct (read_variant d4); left. }
  destruct (parse_objects fetch_app_object new_object_data _ p4)
    as [[ok5 p5]|] eqn:Hobjects; [|done].
  cbn [mbind option_bind].
  pose proof (asked_parse_objects _ _ _ _ Hobjects) as H5.
  destruct (negb ok5);
    [intros [= <- <-]; by eapply asked_trans|].
  set (reported := if has_active_list_array then _ else _).
  destruct reported as [left_over evs].
  intros [= <- <-]. eapply asked_trans; [exact H4|].
  eapply asked_trans; [exact H5|].
  case_bool_decide; [by left|].
  eapply asked_trans; [|apply asked_notify]. by left.
Qed.

(** X28.  [parse_sync_data] returns, and however many unknown objects
    and left-over active ids the snapshot holds, it sends the "need full
    snapshot" RPC at most once: either no request was sent and the latch
    [need_full_snapshot_notified] is as it was, or the latch was open, one
    request was sent and the latch is closed.  With the latch closed before
    the call, nothing is sent. *)
Theorem full_snapshot_requested_at_most_once p :
  ∃ ok p',
    parse_sync_data fetch_app_object new_object_data p = Some (ok, p') ∧
    ((full_snapshot_requests p' = full_snapshot_requests p ∧
      need_full_snapshot_notified p' = need_full_snapshot_notified p) ∨
     (need_full_snapshot_notified p = false ∧
      need_full_snapshot_notified p' = true ∧
      full_snapshot_requests p' = S (full_snapshot_requests p))).
Proof.
  destruct (parse_sync_data_total fetch_app_object new_object_data p)
    as [[ok p'] Hparse].
  exists ok, p'. split; [done|]. by eapply asked_parse_sync_data.
Qed.

(** C9 (amended).  A record for a net id that names no registered object,
    read from a well-formed buffer.  If the host resolves the name (the one
    in the record, else the one remembered for the net id), the object is
    registered under the received net id and its values are handed to the
    variable callback, without a full-snapshot request.  If the host does
    not resolve it, the object's values are taken from the buffer, no
    callback is called and no object is registered; the record makes a
    request only when no name is known for the net id.  At the end of an
    accepted snapshot that carries the list of active objects, naming a net
    id that no registered object has by then, the latch is closed: a request
    has been sent if none was pending before the parse.  The parse of a
    snapshot without that list is the loop over the records, and nothing is
    requested at its end. *)
Theorem unknown_object_record p :
  (∀ id name values rest,
     db p = mkDataBuffer (record_tokens id name values ++ rest) false →
     id ≠ ObjectNetId_NONE → name ≠ Some ""%string →
     get_object_data (objects p) id = None →
     let names' := remember id name (objects_names p) in
     let known := effective_name id name (objects_names p) in
     (∀ n h, known = Some n → fetch_app_object n = Some h →
        find_object_local_id (objects p) h = None →
        length (vars (new_object_data h)) = length values →
        parse_object fetch_app_object new_object_data p =
          (Next,
           mkParser (objects p ++ [set_net_id id (new_object_data h)]) names'
             (need_full_snapshot_notified p) (full_snapshot_requests p)
             (mkDataBuffer rest false)
             (events p ++
                NodeParsed (length (objects p)) ::
                (if has_controller (new_object_data h)
                 then [ControllerParsed (length (objects p))] else []) ++
                variable_events (length (objects p))
                  (vars (new_object_data h)) values))) ∧
     (∀ n, known = Some n → fetch_app_object n = None →
        parse_object fetch_app_object new_object_data p =
          (Next,
           mkParser (objects p) names' (need_full_snapshot_notified p)
             (full_snapshot_requests p) (mkDataBuffer rest false)
             (events p))) ∧
     (known = None → fetch_app_object "" = None →
        parse_object fetch_app_object new_object_data p =
          (Next,
           mkParser (objects p) names' true
             (if need_full_snapshot_notified p then full_snapshot_requests p
              else S (full_snapshot_requests p))
             (mkDataBuffer rest false) (events p)))) ∧
  (∀ input_id ids tail p' id,
     db p = mkDataBuffer
              (TUInt input_id :: TBool true ::
               (TUInt <$> ids) ++ TUInt ObjectNetId_NONE :: tail) false →
     Forall (λ id, id ≠ ObjectNetId_NONE) ids →
     parse_sync_data fetch_app_object new_object_data p = Some (true, p') →
     id ∈ ids → get_object_data (objects p') id = None →
     need_full_snapshot_notified p' = true ∧
     full_snapshot_requests p' =
       (if need_full_snapshot_notified p then full_snapshot_requests p
        else S (full_snapshot_requests p))) ∧
  (∀ input_id custom body,
     db p = mkDataBuffer
              (TUInt input_id :: TBool false ::
               custom_data_tokens custom ++ body) false →
     parse_sync_data fetch_app_object new_object_data p =
       parse_objects fetch_app_object new_object_data
         (S (length (pending (db p))))
         (head_parsed input_id custom body p)).
Proof.
  split; [|split].
  - intros id name values rest Hdb Hid Hname Hunknown.
    by apply unknown_object_record_parsed.
  - intros input_id ids tail p' id Hdb Hids Hparse Hin Hunknown.
    pose proof (parse_with_left_over _ _ _ _ _ _ _ _ Hdb Hids Hparse Hin
                  Hunknown) as Hlatch.
    split; [done|].
    destruct (asked_parse_sync_data _ _ _ Hparse)
      as [[Hcount Hsame]|(Hopen & _ & Hcount)].
    + rewrite <- Hsame, Hlatch. exact Hcount.
    + by rewrite Hopen.
  - intros input_id custom body Hdb. by apply parse_without_active_list.
Qed.

End WithHost.

Lemma unknown_object_record_witness :
  parse_object tree_host tree_object
    (fresh_parser (record_tokens 7 (Some "tree"%string) [Some (VInt 9)] ++ []))
  = (Next,
     mkParser [mkObjectData 7 "tree" 11 [mkVarSlot 0 "height"] false]
       {[ 7 := "tree"%string ]} false 0 (mkDataBuffer [] false)
       [NodeParsed 0; VariableParsed 0 0 (VInt 9)]) ∧
  parse_object tree_host tree_object
    (fresh_parser (record_tokens 7 (Some "rock"%string) [Some (VInt 9)] ++ []))
  = (Next,
     mkParser [] {[ 7 := "rock"%string ]} false 0 (mkDataBuffer [] false) []) ∧
  parse_object tree_host tree_object
    (fresh_parser (record_tokens 7 None [Some (VInt 9)] ++ []))
  = (Next, mkParser [] ∅ true 1 (mkDataBuffer [] false) []) ∧
  (let p' :=
     mkParser [] {[ 7 := "rock"%string ]} true 1 (mkDataBuffer [] false)
       [InputIdParsed 5] in
   parse_sync_data tree_host tree_object (fresh_parser listed_rock_snapshot) =
     Some (true, p') ∧
   need_full_snapshot_notified p' = true ∧
   full_snapshot_requests p' = 1%nat) ∧
  parse_sync_data tree_host tree_object (fresh_parser rock_snapshot) =
    parse_objects tree_host tree_object
      (S (length (pending (db (fresh_parser rock_snapshot)))))
      (head_parsed 5 None
         (record_tokens 7 (Some "rock"%string) [Some (VInt 9)] ++
          [TUInt ObjectNetId_NONE])
         (fresh_parser rock_snapshot)).
Proof.
  split; [|split; [|split; [|split]]].
  - refine (proj1 (proj1 (unknown_object_record tree_host tree_object
      (fresh_parser
         (record_tokens 7 (Some "tree"%string) [Some (VInt 9)] ++ [])))
      7 (Some "tree"%string) [Some (VInt 9)] [] eq_refl _ _ eq_refl)
      "tree"%string 11 eq_refl eq_refl eq_refl eq_refl);
      by vm_compute.
  - refine (proj1 (proj2 (proj1 (unknown_object_record tree_host tree_object
      (fresh_parser
         (record_tokens 7 (Some "rock"%string) [Some (VInt 9)] ++ [])))
      7 (Some "rock"%string) [Some (VInt 9)] [] eq_refl _ _ eq_refl))
      "rock"%string eq_refl eq_refl);
      by vm_compute.
  - refine (proj2 (proj2 (proj1 (unknown_object_record tree_host tree_object
      (fresh_parser (record_tokens 7 None [Some (VInt 9)] ++ [])))
      7 None [Some (VInt 9)] [] eq_refl _ _ eq_refl))
      eq_refl eq_refl);
      by vm_compute.
  - cbn zeta. split; [by vm_compute|].
    refine (proj1 (proj2 (unknown_object_record tree_host tree_object
      (fresh_parser listed_rock_snapshot)))
      5 [7]
      (TBool false ::
       record_tokens 7 (Some "rock"%string) [Some (VInt 9)] ++
       [TUInt ObjectNetId_NONE])
      (mkParser [] {[ 7 := "rock"%string ]} true 1 (mkDataBuffer [] false)
         [InputIdParsed 5])
      7 eq_refl _ _ _ eq_refl).
    + by repeat constructor.
    + by vm_compute.
    + apply list_elem_of_here.
  - exact (proj2 (proj2 (unknown_object_record tree_host tree_object
      (fresh_parser rock_snapshot)))
      5 None
      (record_tokens 7 (Some "rock"%string) [Some (VInt 9)] ++
       [TUInt ObjectNetId_NONE])
      eq_refl).
Defined.

(** *** Two strangers in one snapshot *)

Definition nobody (_ : string) : option Z := None.
Definition blank (handle : Z) : ObjectData := mkObjectData 0 "" handle [] false.

(** A snapshot with the records of objects 11 and 12, both without a
    name, on a client that knows no object. *)
Definition two_strangers : Parser :=
  mkParser [] ∅ false 0
    (mkDataBuffer
       [TUInt 4; TBool false; TBool false;
        TUInt 11; TBool false; TUInt8 1; TBool true; TVariant (VInt 5);
        TUInt 12; TBool false; TUInt8 0;
        TUInt ObjectNetId_NONE] false) [].

Example two_strangers_one_request :
  (λ r : bool * Parser,
     (r.1, full_snapshot_requests r.2, need_full_snapshot_notified r.2,
      pending (db r.2), events r.2)) <$>
    parse_sync_data nobody blank two_strangers =
  Some (true, 1%nat, true, [], [InputIdParsed 4]).
Proof. reflexivity. Qed.

End Requests.

(** * The interpolation streams of a client *)

Module Streams.
Import Deferred.

(** What reaches the streams: a deferred-sync packet, or one
    [process_received_deferred_sync_data]. *)
Inductive StreamCall :=
| Receive (packet : DeferredPacket)
| Process (p_delta : Q).

Section WithHost.

Variable real_div : Q → Q → Q.
Variable real_add : Q → Q → Q.
Variable is_registered : Z → bool.
Variable collect_epoch : Z → list bool * bool.

Definition run_stream_call (c : StreamCall)
    (deferred_sync_array : list DeferredSyncInterpolationData)
    : list DeferredSyncInterpolationData :=
  match c with
  | Receive packet =>
      receive_deferred_sync_data real_div is_registered collect_epoch packet
        deferred_sync_array
  | Process p_delta =>
      (process_received_deferred_sync_data real_add p_delta deferred_sync_array).1
  end.

Definition run_stream_calls (calls : list StreamCall)
    (deferred_sync_array : list DeferredSyncInterpolationData)
    : list DeferredSyncInterpolationData :=
  foldl (λ array c, run_stream_call c array) deferred_sync_array calls.

(** One stream per object, and only for objects that are registered. *)
Definition one_each (array : list DeferredSyncInterpolationData) : Prop :=
  NoDup (nd <$> array) ∧ Forall (λ s, is_registered (nd s) = true) array.

Lemma nd_receive_stream p_epoch data stream :
  nd (receive_stream real_div collect_epoch p_epoch data stream) = nd stream.
Proof.
  unfold receive_stream. destruct (collect_epoch (nd stream)) as [c ok].
  destruct (negb ok); [done|]. by destruct (_ <? _).
Qed.

Lemma one_each_receive_entry p_epoch entry array :
  one_each array →
  one_each (receive_entry real_div is_registered collect_epoch p_epoch
      entry array).
Proof.
  intros [Hnd Hreg]. unfold receive_entry. destruct entry as [node_id data].
  destruct (is_registered node_id) eqn:Hnode; [|done]. cbn [negb].
  destruct (list_find _ array) as [[index stream]|] eqn:Hfind.
  - assert (Hsame : nd <$> alter (receive_stream real_div collect_epoch
      p_epoch data)
                             index array = nd <$> array).
    { apply list_eq. intros j. rewrite !list_lookup_fmap, list_lookup_alter.
      destruct (decide (index = j)) as [<-|]; [|done].
      destruct (array !! index); [|done]. cbn.
      by rewrite nd_receive_stream. }
    split; [by rewrite Hsame|].
    apply Forall_lookup. intros j s Hj. rewrite list_lookup_alter in Hj.
    destruct (decide (index = j)) as [<-|];
      [|by eapply (proj1 (Forall_lookup _ _) Hreg)].
    destruct (array !! index) as [s0|] eqn:Hs0; [|done]. injection Hj as <-.
    rewrite nd_receive_stream. by eapply (proj1 (Forall_lookup _ _) Hreg).
  - apply list_find_None in Hfind. split.
    + rewrite fmap_app. cbn [fmap list_fmap]. rewrite nd_receive_stream.
      cbn [nd new_stream]. apply NoDup_app. split; [done|]. split.
      * intros x Hx ->%list_elem_of_singleton.
        apply list_elem_of_fmap in Hx as (s & Hs & Hin).
        by eapply (proj1 (Forall_forall _ _) Hfind).
      * apply NoDup_singleton.
    + apply Forall_app. split; [done|]. apply Forall_singleton.
      by rewrite nd_receive_stream.
Qed.

Lemma one_each_receive packet array :
  one_each array →
  one_each (receive_deferred_sync_data real_div is_registered collect_epoch packet
              array).
Proof.
  unfold receive_deferred_sync_data. generalize (entries packet).
  intros es. revert array.
  induction es as [|e es IH]; intros array Harray; cbn [foldl]; [done|].
  by apply IH, one_each_receive_entry.
Qed.

(** A tick keeps the objects of the streams, and calls [apply_epoch_func]
    for some of them, in their order. *)
Lemma process_keeps_nd p_delta array :
  nd <$> (process_received_deferred_sync_data real_add p_delta array).1 =
      nd <$> array ∧
  call_nd <$> (process_received_deferred_sync_data real_add p_delta array).2
    `sublist_of` nd <$> array.
Proof.
  induction array as [|s array [IH1 IH2]];
    cbn [process_received_deferred_sync_data]; [done|].
  destruct (process_received_deferred_sync_data real_add p_delta array)
    as [rest' calls'].
  unfold process_stream. cbn [fst snd] in *.
  destruct (past_overshoot (alpha s)); cbn [fst snd fmap list_fmap app nd
                                             call_nd].
  - split; [by rewrite IH1|]. by apply sublist_cons.
  - split; [by rewrite IH1|]. by apply sublist_skip.
Qed.

Lemma one_each_call c array :
  one_each array → one_each (run_stream_call c array).
Proof.
  intros Harray. destruct c as [packet|p_delta]; cbn [run_stream_call].
  - by apply one_each_receive.
  - destruct Harray as [Hnd Hreg].
    destruct (process_keeps_nd p_delta array) as [Hsame _].
    split; [by rewrite Hsame|].
    assert (Hin : ∀ s', s' ∈ (process_received_deferred_sync_data real_add p_delta
                                array).1 → nd s' ∈ nd <$> array).
    { intros s' Hs'. rewrite <- Hsame. apply list_elem_of_fmap. by exists s'. }
    apply Forall_forall. intros s' Hs'.
    apply Hin, list_elem_of_fmap in Hs' as (s & -> & Hs).
    by apply (proj1 (Forall_forall _ _) Hreg).
Qed.

Lemma one_each_reachable calls : one_each (run_stream_calls calls []).
Proof.
  induction calls as [|c calls IH] using rev_ind.
  - split; [apply NoDup_nil_2|apply Forall_nil_2].
  - unfold run_stream_calls. rewrite foldl_snoc. by apply one_each_call.
Qed.

(** X29.  Starting without streams, after any sequence of received
    deferred-sync packets and of [process_received_deferred_sync_data]
    calls: no two streams are for the same object and every stream is for
    a registered object, so that one more
    [process_received_deferred_sync_data] calls [apply_epoch_func] at most
    once per object. *)
Theorem one_stream_per_object calls p_delta :
  let array := run_stream_calls calls [] in
  NoDup (nd <$> array) ∧
  Forall (λ s, is_registered (nd s) = true) array ∧
  NoDup (call_nd <$> (process_received_deferred_sync_data real_add
      p_delta array).2).
Proof.
  cbn zeta. destruct (one_each_reachable calls) as [Hnd Hreg].
  split; [done|]. split; [done|].
  eapply sublist_NoDup; [|exact (proj2 (process_keeps_nd _ _))]. exact Hnd.
Qed.

Lemma list_find_insert_same {A} (P : A → Prop) `{∀ x, Decision (P x)}
    (l : list A) i x y :
  list_find P l = Some (i, x) → P y → list_find P (<[i := y]> l) = Some (i, y).
Proof.
  intros (Hi & Hx & Hbefore)%list_find_Some Hy. apply list_find_Some.
  split; [|split; [done|]].
  - apply list_lookup_insert_eq. by eapply lookup_lt_Some.
  - intros j z Hj Hlt. rewrite list_lookup_insert_ne in Hj by lia.
    by eapply Hbefore.
Qed.

Lemma receive_entry_known p_epoch node_id data array index stream :
  is_registered node_id = true →
  list_find (λ s, nd s = node_id) array = Some (index, stream) →
  receive_entry real_div is_registered collect_epoch p_epoch
    (node_id, data) array =
    <[index := receive_stream real_div collect_epoch p_epoch data stream]> array.
Proof.
  intros Hreg Hfind. unfold receive_entry. rewrite Hreg, Hfind. cbn [negb].
  apply list_find_Some in Hfind as (Hlookup & _ & _).
  apply list_eq. intros j. destruct (decide (index = j)) as [<-|Hne].
  - rewrite list_lookup_alter_eq, Hlookup.
    by rewrite list_lookup_insert_eq by (by eapply lookup_lt_Some).
  - by rewrite list_lookup_alter_ne, list_lookup_insert_ne.
Qed.

(** A late packet, and the packet after it. *)
Lemma late_packet p_epoch q_epoch node_id data data' array index stream
    collected n p_delta :
  is_registered node_id = true →
  list_find (λ s, nd s = node_id) array = Some (index, stream) →
  collect_epoch (nd stream) = (collected, true) →
  p_epoch ≤ future_epoch stream → p_epoch < q_epoch →
  let halted :=
    mkStream (nd stream) collected data (future_epoch stream) p_epoch
      FLT_MAX FLT_MAX in
  let array' :=
    receive_entry real_div is_registered collect_epoch p_epoch
      (node_id, data) array in
  array' = <[index := halted]> array ∧
  ticks real_add n p_delta halted = (halted, []) ∧
  receive_entry real_div is_registered collect_epoch q_epoch
    (node_id, data') array' =
    <[index :=
        mkStream (nd stream) collected data' p_epoch q_epoch
          (real_div 1 (inject_Z q_epoch - inject_Z p_epoch)) 0]> array.
Proof.
  intros Hreg Hfind Hcollect Hlate Hnext. cbn zeta.
  set (halted := mkStream (nd stream) collected data (future_epoch stream)
                   p_epoch FLT_MAX FLT_MAX).
  assert (Hfirst : receive_entry real_div is_registered collect_epoch p_epoch
                     (node_id, data) array = <[index := halted]> array).
  { rewrite (receive_entry_known _ _ _ _ _ _ Hreg Hfind). f_equal.
    unfold receive_stream. rewrite Hcollect. cbn [negb].
    by destruct (Z.ltb_spec (future_epoch stream) p_epoch) as [?|_]; [lia|]. }
  split; [exact Hfirst|]. split; [by apply ticks_idle|].
  rewrite Hfirst.
  assert (Hnd : nd stream = node_id).
  { by apply list_find_Some in Hfind as (_ & ? & _). }
  rewrite (receive_entry_known q_epoch node_id data' _ index halted Hreg)
    by (by apply (list_find_insert_same _ _ _ stream)).
  rewrite list_insert_insert_eq. f_equal.
  unfold receive_stream. cbn [nd halted future_epoch]. rewrite Hcollect.
  cbn [negb].
  by destruct (Z.ltb_spec p_epoch q_epoch) as [_|?]; [|lia].
Qed.

(** X30.  A packet for a registered object that has a stream, with an
    epoch that is not newer than the stream's future epoch (a late or
    repeated packet), is not ignored: its bits and its epoch become the
    future of the stream and the old future epoch the past, and the
    interpolation halts, so that no number of ticks calls
    [apply_epoch_func] for it.  The next packet with an epoch above the late
    one restarts the interpolation from the late epoch, with alpha 0 and
    the step that the platform's division gives for 1 and [next - late],
    also when the stream had seen a newer epoch before.  ([collect_epoch]
    is taken to succeed for the object.) *)
Theorem late_packet_rewinds_stream p_epoch q_epoch node_id data data' array
    index stream collected n p_delta :
  is_registered node_id = true →
  list_find (λ s, nd s = node_id) array = Some (index, stream) →
  collect_epoch (nd stream) = (collected, true) →
  p_epoch ≤ future_epoch stream → p_epoch < q_epoch →
  let halted :=
    mkStream (nd stream) collected data (future_epoch stream) p_epoch
      FLT_MAX FLT_MAX in
  let array' :=
    receive_entry real_div is_registered collect_epoch p_epoch
      (node_id, data) array in
  array' = <[index := halted]> array ∧
  ticks real_add n p_delta halted = (halted, []) ∧
  receive_entry real_div is_registered collect_epoch q_epoch
    (node_id, data') array' =
    <[index :=
        mkStream (nd stream) collected data' p_epoch q_epoch
          (real_div 1 (inject_Z q_epoch - inject_Z p_epoch)) 0]> array.
Proof. apply late_packet. Qed.

End WithHost.

(** *** Epoch 12 after epoch 14 *)

Lemma late_packet_rewinds_stream_witness :
  let halted := mkStream 3 [false; false] [true] 14 12 FLT_MAX FLT_MAX in
  let array' :=
    receive_entry exact_div one_object still_object 12 (3, [true])
        after_epoch_14 in
  array' = <[0%nat := halted]> after_epoch_14 ∧
  ticks exact_add 5 (1 # 60) halted = (halted, []) ∧
  receive_entry exact_div one_object still_object 13 (3, [false]) array' =
    <[0%nat :=
        mkStream 3 [false; false] [false] 12 13
          (exact_div 1 (inject_Z 13 - inject_Z 12)) 0]> after_epoch_14.
Proof.
  apply (late_packet_rewinds_stream exact_div exact_add one_object
           still_object 12 13 3 [true]
           [false] after_epoch_14 0%nat
           (mkStream 3 [false; false] [true; true] 10 14 (1 # 4) 0)
           [false; false] 5 (1 # 60)); by vm_compute.
Defined.

(** The stream of object 3 had reached epoch 14; after the late packet of
    epoch 12 and the packet of epoch 13 it interpolates from 12 to 13. *)
Example epoch_12_after_14 :
  (λ s, (past_epoch s, future_epoch s, Qred (alpha_advacing_per_epoch s))) <$>
    run_stream_calls exact_div exact_add one_object still_object
      [Receive (mkDeferredPacket 10 [(3, [true])]);
       Receive (mkDeferredPacket 14 [(3, [true; true])]);
       Receive (mkDeferredPacket 12 [(3, [true])]);
       Receive (mkDeferredPacket 13 [(3, [false])])] [] =
  [(12, 13, 1%Q)].
Proof. by vm_compute. Qed.

End Streams.
